(** * The xdg-app deployment store (common/xdg-app-dir.c)

  A shallow embedding of the deployment store and of the properties its
  specification states about it.

  Conventions of the model.
  - C strings are [string]s (sequences of bytes); [strlen] is
    [String.length] and [strcmp] is the byte-wise lexicographic order.
  - The file system is modelled by its directory trees: a directory is the
    list of its entries in enumeration order.  An operation that works in
    the deploy base of a ref sees the node found at [<basedir>/<ref>].
  - Fallible code runs in a state-and-error monad; the error is the kind
    of the [GError] the C code sets.
  - GLib, GIO, libgsystem and OSTree are outside the repository; they are
    modelled by what their documentation promises, system calls by POSIX.
    I/O failures that do not come from the shape of the file system
    (EIO, EACCES, ENOSPC, cancellation) are not modelled.
  - Where files/.ref of a checkout is opened, the path is walked as the
    kernel walks it, through the symbolic links of the tree at hand; where
    it leaves that tree, the world outside answers. *)

From Stdlib Require Import String Ascii List ZArith NArith Lia Bool Arith.
From Stdlib Require Import Sorting.Sorted Sorting.Permutation.
Import ListNotations.

Local Open Scope string_scope.
Local Open Scope list_scope.

(* ================================================================== *)
(** * C strings *)

Definition strlen (s : string) : nat := String.length s.

(** [strcmp a b]: the sign of the comparison of [a] and [b] as sequences
    of unsigned bytes. *)
Definition strcmp (a b : string) : comparison := String.compare a b.

Definition streq (a b : string) : bool := String.eqb a b.

Definition g_str_has_prefix (str prefix : string) : bool :=
  String.prefix prefix str.

Definition g_str_has_suffix (str suffix : string) : bool :=
  let n := String.length str in
  let m := String.length suffix in
  if Nat.ltb n m then false
  else String.eqb (String.substring (n - m) m str) suffix.

(** [g_strndup s n]: the first [n] bytes of [s]. *)
Definition g_strndup (s : string) (n : nat) : string :=
  String.substring 0 n s.

(** The first byte of a string, [None] for the empty string (the
    terminating NUL in C). *)
Definition first_char (s : string) : option ascii :=
  match s with
  | EmptyString => None
  | String c _ => Some c
  end.

Definition starts_with_dot (s : string) : bool :=
  match first_char s with
  | Some c => Ascii.eqb c "."
  | None => false
  end.

Fixpoint contains_char (c : ascii) (s : string) : bool :=
  match s with
  | EmptyString => false
  | String d s' => Ascii.eqb c d || contains_char c s'
  end.

Definition g_ascii_isdigit (c : ascii) : bool :=
  let n := nat_of_ascii c in Nat.leb 48 n && Nat.leb n 57.

Definition g_ascii_isalpha (c : ascii) : bool :=
  let n := nat_of_ascii c in
  (Nat.leb 65 n && Nat.leb n 90) || (Nat.leb 97 n && Nat.leb n 122).

Definition g_ascii_isalnum (c : ascii) : bool :=
  g_ascii_isalpha c || g_ascii_isdigit c.


(* ================================================================== *)
(** * Errors and the state-and-error monad *)

(** The error kinds the store sets or passes through. *)
Inductive GError : Type :=
| G_IO_ERROR_FAILED
| G_IO_ERROR_NOT_FOUND
| G_IO_ERROR_EXISTS
| G_IO_ERROR_IS_DIRECTORY
| G_IO_ERROR_NOT_DIRECTORY
| G_IO_ERROR_NOT_REGULAR_FILE
| G_IO_ERROR_NOT_EMPTY
| G_IO_ERROR_INVALID_ARGUMENT
| G_IO_ERROR_TOO_MANY_LINKS
| G_IO_ERROR_TOO_MANY_OPEN_FILES
| G_KEY_FILE_ERROR
| XDG_APP_DIR_ERROR_ALREADY_DEPLOYED
| XDG_APP_DIR_ERROR_ALREADY_UNDEPLOYED
| XDG_APP_DIR_ERROR_NOT_DEPLOYED.

Definition GError_eqb (a b : GError) : bool :=
match a, b with
| G_IO_ERROR_FAILED, G_IO_ERROR_FAILED
| G_IO_ERROR_NOT_FOUND, G_IO_ERROR_NOT_FOUND
| G_IO_ERROR_EXISTS, G_IO_ERROR_EXISTS
| G_IO_ERROR_IS_DIRECTORY, G_IO_ERROR_IS_DIRECTORY
| G_IO_ERROR_NOT_DIRECTORY, G_IO_ERROR_NOT_DIRECTORY
| G_IO_ERROR_NOT_REGULAR_FILE, G_IO_ERROR_NOT_REGULAR_FILE
| G_IO_ERROR_NOT_EMPTY, G_IO_ERROR_NOT_EMPTY
| G_IO_ERROR_INVALID_ARGUMENT, G_IO_ERROR_INVALID_ARGUMENT
| G_IO_ERROR_TOO_MANY_LINKS, G_IO_ERROR_TOO_MANY_LINKS
| G_KEY_FILE_ERROR, G_KEY_FILE_ERROR
| XDG_APP_DIR_ERROR_ALREADY_DEPLOYED, XDG_APP_DIR_ERROR_ALREADY_DEPLOYED
| XDG_APP_DIR_ERROR_ALREADY_UNDEPLOYED, XDG_APP_DIR_ERROR_ALREADY_UNDEPLOYED
| XDG_APP_DIR_ERROR_NOT_DEPLOYED, XDG_APP_DIR_ERROR_NOT_DEPLOYED => true
| _, _ => false
end.

Inductive result (A : Type) : Type :=
| Ok (a : A)
| Err (e : GError).
Arguments Ok {A} a.
Arguments Err {A} e.

Definition is_ok {A} (r : result A) : bool :=
match r with Ok _ => true | Err _ => false end.

(** A computation that reads and writes a state [S] and may fail.  The state
  is returned in both cases: what a failed call already wrote stays
  written, as on a real file system. *)
Definition M (S A : Type) : Type := S -> result A * S.

Definition ret {S A} (a : A) : M S A := fun s => (Ok a, s).
Definition throw {S A} (e : GError) : M S A := fun s => (Err e, s).
Definition bind {S A B} (m : M S A) (k : A -> M S B) : M S B :=
fun s => match m s with
         | (Ok a, s') => k a s'
         | (Err e, s') => (Err e, s')
         end.
Definition get {S} : M S S := fun s => (Ok s, s).
Definition put {S} (s : S) : M S unit := fun _ => (Ok tt, s).
(** [attempt m] runs [m] and hands its outcome to the caller, the way C code
  passes a local [GError **] and inspects it. *)
Definition attempt {S A} (m : M S A) : M S (result A) :=
fun s => let (r, s') := m s in (Ok r, s').
Definition lift {S A} (r : result A) : M S A := fun s => (r, s).

Declare Scope monad_scope.
Delimit Scope monad_scope with monad.
Notation "x <- m ;; k" := (bind m (fun x => k))
(at level 61, m at next level, right associativity) : monad_scope.
Notation "m ;;; k" := (bind m (fun _ => k))
(at level 61, right associativity) : monad_scope.


(** Plain fallible code, without state. *)
Definition result_bind {A B} (r : result A) (k : A -> result B) : result B :=
  match r with
  | Ok a => k a
  | Err e => Err e
  end.

Declare Scope result_scope.
Delimit Scope result_scope with result.
Notation "x <- m ;; k" := (result_bind m (fun x => k))
  (at level 61, m at next level, right associativity) : result_scope.

(* ================================================================== *)
(** * GKeyFile: GLib's key-file documents *)

(** The text of a file, split into lines.  The lexical layer of GLib's
    key-file parser (line splitting, trimming, escapes) is not modelled: a
    line is given by what the parser makes of it. *)
Inductive GKeyFileLine : Type :=
| LComment (text : string)             (* a blank line or "# ..." *)
| LGroup (name : string)               (* "[name]" *)
| LPair (key value : string)           (* "key=value" *)
| LInvalid (text : string).            (* anything else *)

Definition text : Type := list GKeyFileLine.

(** GLib keeps a comment as a key-value pair without key. *)
Inductive GKeyFileKeyValuePair : Type :=
| Comment (text : string)
| Pair (key value : string).

Record GKeyFileGroup : Type := mkGroup {
  group_name : string;
  key_value_pairs : list GKeyFileKeyValuePair
}.

(** A key file: the comments before the first group, then the groups in the
    order of the file. *)
Record GKeyFile : Type := mkKeyFile {
  start_comments : list string;
  groups : list GKeyFileGroup
}.

Definition g_key_file_new : GKeyFile := mkKeyFile [] [].

Record GKeyFileFlags : Type := mkFlags {
  keep_comments : bool;
  keep_translations : bool
}.
Definition G_KEY_FILE_NONE : GKeyFileFlags := mkFlags false false.
Definition G_KEY_FILE_KEEP_TRANSLATIONS : GKeyFileFlags := mkFlags false true.

Fixpoint g_key_file_lookup_group (gs : list GKeyFileGroup) (name : string)
  : option GKeyFileGroup :=
  match gs with
  | [] => None
  | g :: rest =>
      if streq (group_name g) name then Some g
      else g_key_file_lookup_group rest name
  end.

(** The value of [key] among the pairs of a group.  GLib's lookup table
    holds, for a key that occurs twice, its last occurrence. *)
Fixpoint g_key_file_lookup_key_value_pair
  (pairs : list GKeyFileKeyValuePair) (key : string) : option string :=
  match pairs with
  | [] => None
  | p :: rest =>
      match g_key_file_lookup_key_value_pair rest key with
      | Some v => Some v
      | None =>
          match p with
          | Pair k v => if streq k key then Some v else None
          | Comment _ => None
          end
      end
  end.

Definition g_key_file_get_groups (kf : GKeyFile) : list string :=
  map group_name (groups kf).

Definition g_key_file_get_string (kf : GKeyFile) (group key : string)
  : option string :=
  match g_key_file_lookup_group (groups kf) group with
  | Some g => g_key_file_lookup_key_value_pair (key_value_pairs g) key
  | None => None
  end.

(** [g_key_file_get_boolean] with a NULL error: FALSE when the key is
    missing or its value is no boolean. *)
Definition g_key_file_get_boolean (kf : GKeyFile) (group key : string)
  : bool :=
  match g_key_file_get_string kf group key with
  | Some v => streq v "true" || streq v "1"
  | None => false
  end.

(** Apply [f] to the pairs of the first group called [name]. *)
Fixpoint update_group (name : string)
  (f : list GKeyFileKeyValuePair -> list GKeyFileKeyValuePair)
  (gs : list GKeyFileGroup) : list GKeyFileGroup :=
  match gs with
  | [] => []
  | g :: rest =>
      if streq (group_name g) name
      then mkGroup (group_name g) (f (key_value_pairs g)) :: rest
      else g :: update_group name f rest
  end.

Definition pair_has_key (key : string) (p : GKeyFileKeyValuePair) : bool :=
  match p with
  | Pair k _ => streq k key
  | Comment _ => false
  end.

(** Take out the pair that the lookup finds for [key], the last one of
    that key; [None] when the key does not occur. *)
Fixpoint remove_pair (pairs : list GKeyFileKeyValuePair) (key : string)
  : option (list GKeyFileKeyValuePair) :=
  match pairs with
  | [] => None
  | p :: rest =>
      match remove_pair rest key with
      | Some rest' => Some (p :: rest')
      | None => if pair_has_key key p then Some rest else None
      end
  end.

(** [g_key_file_remove_key] with a NULL error: the pair of the lookup table
    is unlinked from the list of the group, and nothing happens when the
    table has none.  The pairs of the same key that come before it stay in
    the list, and so in what [g_key_file_to_data] writes.  (GLib's table
    then has no entry for the key, where the lookup of this model finds
    the pair before; the store does not look up a key it has removed.) *)
Definition g_key_file_remove_key (kf : GKeyFile) (group key : string)
  : GKeyFile :=
  mkKeyFile (start_comments kf)
    (update_group group
       (fun pairs => match remove_pair pairs key with
                     | Some pairs' => pairs'
                     | None => pairs
                     end) (groups kf)).

(** Give [key] the value [value] where the lookup finds it; [None] when the
    key does not occur. *)
Fixpoint replace_value (pairs : list GKeyFileKeyValuePair)
  (key value : string) : option (list GKeyFileKeyValuePair) :=
  match pairs with
  | [] => None
  | p :: rest =>
      match replace_value rest key value with
      | Some rest' => Some (p :: rest')
      | None =>
          if pair_has_key key p then Some (Pair key value :: rest) else None
      end
  end.

Definition set_pair (key value : string)
  (pairs : list GKeyFileKeyValuePair) : list GKeyFileKeyValuePair :=
  match replace_value pairs key value with
  | Some pairs' => pairs'
  | None => pairs ++ [Pair key value]
  end.

Definition g_key_file_set_string (kf : GKeyFile) (group key value : string)
  : GKeyFile :=
  match g_key_file_lookup_group (groups kf) group with
  | Some _ =>
      mkKeyFile (start_comments kf)
        (update_group group (set_pair key value) (groups kf))
  | None =>
      mkKeyFile (start_comments kf)
        (groups kf ++ [mkGroup group [Pair key value]])
  end.

(** The suffix of [s] that starts at its last '[' ([g_strrstr (key, "[")]). *)
Fixpoint g_strrstr_bracket (s : string) : option string :=
  match s with
  | EmptyString => None
  | String c s' =>
      match g_strrstr_bracket s' with
      | Some r => Some r
      | None => if Ascii.eqb c "[" then Some s else None
      end
  end.

(** The locale of a translated key, "de" for "Name[de]". *)
Definition key_get_locale (key : string) : option string :=
  match g_strrstr_bracket key with
  | Some locale =>
      if Nat.leb (strlen locale) 2 then None
      else Some (String.substring 1 (strlen locale - 2) locale)
  | None => None
  end.

Definition pair_to_line (p : GKeyFileKeyValuePair) : GKeyFileLine :=
  match p with
  | Comment c => LComment c
  | Pair k v => LPair k v
  end.

Definition group_to_data (g : GKeyFileGroup) : text :=
  LGroup (group_name g) :: map pair_to_line (key_value_pairs g).

Definition g_key_file_to_data (kf : GKeyFile) : text :=
  map LComment (start_comments kf) ++ flat_map group_to_data (groups kf).

(** The parser's state: the key file read so far and the current group. *)
Definition append_pair (p : GKeyFileKeyValuePair)
  (pairs : list GKeyFileKeyValuePair) : list GKeyFileKeyValuePair :=
  pairs ++ [p].

Definition g_key_file_parse_line
  (locale_is_interesting : string -> bool) (flags : GKeyFileFlags)
  (st : GKeyFile * option string) (l : GKeyFileLine)
  : option (GKeyFile * option string) :=
  let (kf, current) := st in
  match l with
  | LComment c =>
      if keep_comments flags then
        match current with
        | None => Some (mkKeyFile (start_comments kf ++ [c]) (groups kf), current)
        | Some g =>
            Some (mkKeyFile (start_comments kf)
                    (update_group g (append_pair (Comment c)) (groups kf)),
                  current)
        end
      else Some st
  | LGroup name =>
      match g_key_file_lookup_group (groups kf) name with
      | Some _ => Some (kf, Some name)
      | None =>
          Some (mkKeyFile (start_comments kf) (groups kf ++ [mkGroup name []]),
                Some name)
      end
  | LPair key value =>
      match current with
      | None => None             (* the file does not start with a group *)
      | Some g =>
          let interesting :=
            match key_get_locale key with
            | None => true
            | Some locale =>
                keep_translations flags || locale_is_interesting locale
            end in
          if interesting then
            Some (mkKeyFile (start_comments kf)
                    (update_group g (append_pair (Pair key value)) (groups kf)),
                  current)
          else Some st
      end
  | LInvalid _ => None
  end.

Fixpoint g_key_file_parse_data
  (locale_is_interesting : string -> bool) (flags : GKeyFileFlags)
  (st : GKeyFile * option string) (data : text)
  : option (GKeyFile * option string) :=
  match data with
  | [] => Some st
  | l :: rest =>
      match g_key_file_parse_line locale_is_interesting flags st l with
      | Some st' => g_key_file_parse_data locale_is_interesting flags st' rest
      | None => None
      end
  end.

Definition g_key_file_load_from_data
  (locale_is_interesting : string -> bool) (data : text)
  (flags : GKeyFileFlags) : result GKeyFile :=
  match g_key_file_parse_data locale_is_interesting flags
          (g_key_file_new, None) data with
  | Some (kf, _) => Ok kf
  | None => Err G_KEY_FILE_ERROR
  end.

(* ================================================================== *)
(** * The file system *)

#[warnings="-register-all"]
Inductive node : Type :=
| RegularFile (data : text)
| SymbolicLink (target : string)
| Directory (children : list (string * node))
| SpecialFile.                      (* fifo, socket, device *)

(** The entries of a directory, in the order an enumeration yields them. *)
Abbreviation directory := (list (string * node)).

Definition is_directory (n : node) : bool :=
  match n with Directory _ => true | _ => false end.

Fixpoint dir_lookup (name : string) (d : directory) : option node :=
  match d with
  | [] => None
  | (n, x) :: rest => if streq n name then Some x else dir_lookup name rest
  end.

Definition dir_remove (name : string) (d : directory) : directory :=
  filter (fun e => negb (streq (fst e) name)) d.

(** Put [x] under [name]: in the place of the entry of that name, or as a
    new entry. *)
Fixpoint dir_set (name : string) (x : node) (d : directory) : directory :=
  match d with
  | [] => [(name, x)]
  | (n, y) :: rest =>
      if streq n name then (n, x) :: rest else (n, y) :: dir_set name x rest
  end.

(** A name that can be the name of a directory entry. *)
Definition is_file_name (s : string) : bool :=
  negb (streq s EmptyString) && negb (streq s ".") && negb (streq s "..")
  && negb (contains_char "/" s).

(** The outcome of rename(2) of a node [src] over what is at the new path. *)
Definition rename_over (src : node) (dst : option node) : result unit :=
  match dst with
  | None => Ok tt
  | Some (Directory dst_children) =>
      match src with
      | Directory _ =>
          match dst_children with
          | [] => Ok tt
          | _ :: _ => Err G_IO_ERROR_NOT_EMPTY
          end
      | _ => Err G_IO_ERROR_IS_DIRECTORY
      end
  | Some _ =>
      match src with
      | Directory _ => Err G_IO_ERROR_NOT_DIRECTORY
      | _ => Ok tt
      end
  end.

(** rename(2) of [old] to [new] inside one directory. *)
Definition dir_rename (old new : string) (d : directory) : result directory :=
  match dir_lookup old d with
  | None => Err G_IO_ERROR_NOT_FOUND
  | Some src =>
      if streq old new then Ok d
      else
        match rename_over src (dir_lookup new d) with
        | Ok _ => Ok (dir_set new src (dir_remove old d))
        | Err e => Err e
        end
  end.

(** symlink(2): a new symbolic link [name] with the given target. *)
Definition dir_symlink (name target : string) (d : directory)
  : result directory :=
  if streq target EmptyString then Err G_IO_ERROR_INVALID_ARGUMENT
  else
    match dir_lookup name d with
    | Some _ => Err G_IO_ERROR_EXISTS
    | None => Ok (dir_set name (SymbolicLink target) d)
    end.

(** remove(3): unlink, or rmdir of an empty directory. *)
Definition dir_delete (name : string) (d : directory) : result directory :=
  match dir_lookup name d with
  | None => Err G_IO_ERROR_NOT_FOUND
  | Some (Directory (_ :: _)) => Err G_IO_ERROR_NOT_EMPTY
  | Some _ => Ok (dir_remove name d)
  end.

(** Whether the path [name] in directory [d] leads to a file when symbolic
    links are followed.  A link to the name of a sibling is followed inside
    [d]; whether any other target resolves is answered by [elsewhere].  The
    kernel gives up after 40 links (ELOOP). *)
Fixpoint dir_exists (fuel : nat) (elsewhere : string -> bool)
  (d : directory) (name : string) : bool :=
  match dir_lookup name d with
  | None => false
  | Some (SymbolicLink target) =>
      match fuel with
      | O => false
      | S fuel' =>
          if is_file_name target then dir_exists fuel' elsewhere d target
          else elsewhere target
      end
  | Some _ => true
  end.

Definition MAXSYMLINKS : nat := 40.

(** ** Paths *)

(** The pieces of [s] between its slashes, after the piece [piece] read so
    far. *)
Fixpoint split_slash (s piece : string) : list string :=
  match s with
  | EmptyString => [piece]
  | String c rest =>
      if Ascii.eqb c "/" then piece :: split_slash rest EmptyString
      else split_slash rest (piece ++ String c EmptyString)%string
  end.

(** What is at the end of the path [path] of entry names below [root], no
    symbolic link followed. *)
Fixpoint tree_lookup (root : directory) (path : list string) : option node :=
  match path with
  | [] => Some (Directory root)
  | name :: rest =>
      match dir_lookup name root with
      | Some (Directory d) => tree_lookup d rest
      | Some x => match rest with [] => Some x | _ :: _ => None end
      | None => None
      end
  end.

(** Put [x] at the end of the path [path] below [root], whose directories
    exist. *)
Fixpoint tree_set (root : directory) (path : list string) (x : node)
  : directory :=
  match path with
  | [] => root
  | name :: rest =>
      match rest with
      | [] => dir_set name x root
      | _ :: _ =>
          match dir_lookup name root with
          | Some (Directory d) =>
              dir_set name (Directory (tree_set d rest x)) root
          | _ => root
          end
      end
  end.

(** The components of a path as the kernel walks them. *)
Inductive step : Type :=
| Child (name : string)
| Parent                        (* ".." *)
| Stay.                         (* "." and the empty piece at a slash *)

Definition step_of (piece : string) : step :=
  if streq piece EmptyString || streq piece "." then Stay
  else if streq piece ".." then Parent
  else Child piece.

Definition path_steps (path : string) : list step :=
  map step_of (split_slash path EmptyString).

Definition is_absolute (path : string) : bool :=
  match first_char path with
  | Some c => Ascii.eqb c "/"
  | None => false
  end.

(** Where a path leads when symbolic links are followed, the last one
    too: to a file or a directory of the tree, to a name that is free in a
    directory of the tree, out of the tree, or nowhere.  [dir] is the path
    of the directory, from the root of the tree, and [target] the symbolic
    link that leads out. *)
Inductive resolved : Type :=
| FoundFile (dir : list string) (name : string) (data : text)
| FoundSpecial (dir : list string) (name : string)
| FoundDirectory (dir : list string)
| Missing (dir : list string) (name : string)
| Outside (target : string)         (* an absolute link *)
| Above (target : string)           (* ".." above the root of the tree *)
| Unresolved (e : GError).          (* ENOENT, ENOTDIR, ELOOP *)

(** The walk of the kernel along [steps] from the directory at [cwd] of
    the tree [root].  [via] is the text of the path or of the link that is
    walked, and [fuel] the number of links that may still be followed. *)
Fixpoint resolve (fuel : nat) (root : directory) (via : string)
  (cwd : list string) (steps : list step) {struct fuel} : resolved :=
  (fix walk (cwd : list string) (steps : list step) {struct steps}
     : resolved :=
     match steps with
     | [] => FoundDirectory cwd
     | Stay :: rest => walk cwd rest
     | Parent :: rest =>
         match cwd with
         | [] => Above via
         | _ :: _ => walk (removelast cwd) rest
         end
     | Child name :: rest =>
         match tree_lookup root (cwd ++ [name]) with
         | None =>
             match rest with
             | [] => Missing cwd name
             | _ :: _ => Unresolved G_IO_ERROR_NOT_FOUND
             end
         | Some (Directory _) => walk (cwd ++ [name]) rest
         | Some (RegularFile data) =>
             match rest with
             | [] => FoundFile cwd name data
             | _ :: _ => Unresolved G_IO_ERROR_NOT_DIRECTORY
             end
         | Some SpecialFile =>
             match rest with
             | [] => FoundSpecial cwd name
             | _ :: _ => Unresolved G_IO_ERROR_NOT_DIRECTORY
             end
         | Some (SymbolicLink target) =>
             match fuel with
             | O => Unresolved G_IO_ERROR_TOO_MANY_LINKS
             | S fuel' =>
                 if streq target EmptyString
                 then Unresolved G_IO_ERROR_NOT_FOUND
                 else if is_absolute target then Outside target
                 else resolve fuel' root target cwd (path_steps target ++ rest)
             end
         end
     end) cwd steps.

(** What is found in a subdirectory [name] of a tree, seen from the
    tree. *)
Definition below (name : string) (r : resolved) : resolved :=
  match r with
  | FoundFile dir n data => FoundFile (name :: dir) n data
  | FoundSpecial dir n => FoundSpecial (name :: dir) n
  | FoundDirectory dir => FoundDirectory (name :: dir)
  | Missing dir n => Missing (name :: dir) n
  | Outside target => Outside target
  | Above target => Above target
  | Unresolved e => Unresolved e
  end.

(* ================================================================== *)
(** * The store *)

(** What the store uses of an OSTree repository. *)
Record OstreeRepo : Type := mkRepo {
  repo_refs : string -> option string;      (* ostree_repo_resolve_rev *)
  repo_commits : string -> option node;     (* ostree_repo_read_commit: the root *)
  repo_config : option GKeyFile             (* ostree_repo_get_config *)
}.

(** A store ([struct XdgAppDir]) together with the part of the world its
    operations read and write. *)
Record XdgAppDir : Type := mkDir {
  user : bool;
  repo : option OstreeRepo;                 (* self->repo, NULL until opened *)
  (* the file system under self->basedir *)
  kind_dirs : string -> option node;        (* what is at <basedir>/<kind> *)
  deploy_dirs : string -> option node;      (* what is at <basedir>/<ref> *)
  removed_dir : option node;                (* what is at <basedir>/.removed *)
  repo_dir : result OstreeRepo;             (* what opening <basedir>/repo gives *)
  elsewhere : string -> bool;               (* do other link targets resolve *)
  (* the rest of the world *)
  wrlck : string -> bool;                   (* would a write lock on the file that
                                               files/.ref of this removed entry
                                               leads to meet the lock of another
                                               process (F_GETLK) *)
  open_max : nat;                           (* file descriptors left to the process *)
  random : nat -> string;                   (* the random characters to come *)
  random_pos : nat;
  warnings : list string                    (* what g_warning printed *)
}.

Definition set_repo (r : option OstreeRepo) (s : XdgAppDir) : XdgAppDir :=
  mkDir (user s) r (kind_dirs s) (deploy_dirs s) (removed_dir s) (repo_dir s)
    (elsewhere s) (wrlck s) (open_max s) (random s) (random_pos s) (warnings s).

Definition set_deploy_dir (ref : string) (n : option node) (s : XdgAppDir)
  : XdgAppDir :=
  mkDir (user s) (repo s) (kind_dirs s)
    (fun r => if streq r ref then n else deploy_dirs s r)
    (removed_dir s) (repo_dir s) (elsewhere s)
    (wrlck s) (open_max s) (random s) (random_pos s) (warnings s).

Definition set_removed_dir (n : option node) (s : XdgAppDir) : XdgAppDir :=
  mkDir (user s) (repo s) (kind_dirs s) (deploy_dirs s) n (repo_dir s)
    (elsewhere s) (wrlck s) (open_max s) (random s) (random_pos s) (warnings s).

Definition set_random_pos (p : nat) (s : XdgAppDir) : XdgAppDir :=
  mkDir (user s) (repo s) (kind_dirs s) (deploy_dirs s) (removed_dir s)
    (repo_dir s) (elsewhere s) (wrlck s) (open_max s) (random s) p (warnings s).

Definition add_warning (w : string) (s : XdgAppDir) : XdgAppDir :=
  mkDir (user s) (repo s) (kind_dirs s) (deploy_dirs s) (removed_dir s)
    (repo_dir s) (elsewhere s) (wrlck s) (open_max s) (random s) (random_pos s)
    (warnings s ++ [w]).

Local Open Scope monad_scope.

Definition g_warning (w : string) : M XdgAppDir unit :=
  fun s => (Ok tt, add_warning w s).

(** [gs_fileutil_gen_tmp_name]: prefix, eight random characters, a dash and
    the suffix; a NULL prefix or suffix stands for "tmp". *)
Definition gs_fileutil_gen_tmp_name (prefix suffix : option string)
  : M XdgAppDir string :=
  fun s =>
    let p := match prefix with Some p => p | None => "tmp" end in
    let x := match suffix with Some x => x | None => "tmp" end in
    (Ok (p ++ random s (random_pos s) ++ "-" ++ x)%string,
     set_random_pos (S (random_pos s)) s).

(** The path of the deploy base, relative to the base directory. *)
Definition xdg_app_dir_get_deploy_dir (ref : string) : string := ref.

(** Run a directory operation in the deploy base [deploy_base]. *)
Definition in_deploy_dir {A} (deploy_base : string)
  (op : directory -> result (A * directory)) : M XdgAppDir A :=
  fun s =>
    match deploy_dirs s deploy_base with
    | None => (Err G_IO_ERROR_NOT_FOUND, s)
    | Some (Directory d) =>
        match op d with
        | Ok (a, d') => (Ok a, set_deploy_dir deploy_base (Some (Directory d')) s)
        | Err e => (Err e, s)
        end
    | Some _ => (Err G_IO_ERROR_NOT_DIRECTORY, s)
    end.

Definition writes (r : result directory) : result (unit * directory) :=
  match r with
  | Ok d => Ok (tt, d)
  | Err e => Err e
  end.

Definition g_file_make_symbolic_link (deploy_base name target : string)
  : M XdgAppDir unit :=
  in_deploy_dir deploy_base (fun d => writes (dir_symlink name target d)).

Definition gs_file_rename (deploy_base old new : string) : M XdgAppDir unit :=
  in_deploy_dir deploy_base (fun d => writes (dir_rename old new d)).

Definition g_file_delete (deploy_base name : string) : M XdgAppDir unit :=
  in_deploy_dir deploy_base (fun d => writes (dir_delete name d)).

(** [g_file_query_exists] of a child of the deploy base; it follows
    symbolic links. *)
Definition g_file_query_exists (deploy_base name : string)
  : M XdgAppDir bool :=
  fun s =>
    match deploy_dirs s deploy_base with
    | Some (Directory d) => (Ok (dir_exists MAXSYMLINKS (elsewhere s) d name), s)
    | _ => (Ok false, s)
    end.

(** [g_file_query_info] with NOFOLLOW_SYMLINKS, then the symlink target of
    the info: NULL when there is no such file, NULL when it is no link. *)
Definition xdg_app_dir_read_active (ref : string) : M XdgAppDir (option string) :=
  fun s =>
    let deploy_base := xdg_app_dir_get_deploy_dir ref in
    match deploy_dirs s deploy_base with
    | Some (Directory d) =>
        match dir_lookup "active" d with
        | Some (SymbolicLink target) => (Ok (Some target), s)
        | _ => (Ok None, s)
        end
    | _ => (Ok None, s)
    end.

Definition xdg_app_dir_set_active (ref : string) (checksum : option string)
  : M XdgAppDir unit :=
  let deploy_base := xdg_app_dir_get_deploy_dir ref in
  match checksum with
  | Some c =>
      tmpname <- gs_fileutil_gen_tmp_name (Some ".active-") None ;;
      g_file_make_symbolic_link deploy_base tmpname c ;;;
      gs_file_rename deploy_base tmpname "active"
  | None =>
      r <- attempt (g_file_delete deploy_base "active") ;;
      match r with
      | Ok _ => ret tt
      | Err my_error =>
          if GError_eqb my_error G_IO_ERROR_NOT_FOUND then ret tt
          else throw my_error
      end
  end.

Definition xdg_app_dir_ensure_repo : M XdgAppDir unit :=
  fun s =>
    match repo s with
    | Some _ => (Ok tt, s)
    | None =>
        match repo_dir s with
        | Ok r => (Ok tt, set_repo (Some r) s)
        | Err e => (Err e, s)
        end
    end.

(** The loop of [xdg_app_dir_list_deployed] over the enumeration. *)
Fixpoint list_deployed_loop (dir_enum : directory) (checksums : list string)
  : list string :=
  match dir_enum with
  | [] => checksums
  | (name, child_info) :: rest =>
      if is_directory child_info
         && negb (starts_with_dot name)
         && Nat.eqb (strlen name) 64
      then list_deployed_loop rest (checksums ++ [name])
      else list_deployed_loop rest checksums
  end.

Definition xdg_app_dir_list_deployed (ref : string)
  : M XdgAppDir (list string) :=
  fun s =>
    let deploy_base := xdg_app_dir_get_deploy_dir ref in
    match deploy_dirs s deploy_base with
    | None => (Ok [], s)                          (* success, but empty *)
    | Some (Directory d) => (Ok (list_deployed_loop d []), s)
    | Some _ => (Err G_IO_ERROR_NOT_DIRECTORY, s)
    end.

(** [gs_file_ensure_directory] of <basedir>/.removed: an existing file of
    that name counts as success. *)
Definition gs_file_ensure_removed_dir : M XdgAppDir unit :=
  fun s =>
    match removed_dir s with
    | None => (Ok tt, set_removed_dir (Some (Directory [])) s)
    | Some _ => (Ok tt, s)
    end.

(** [gs_file_rename] of the checkout [name] of the deploy base to
    <basedir>/.removed/[tmpname]. *)
Definition gs_file_rename_to_removed (deploy_base name tmpname : string)
  : M XdgAppDir unit :=
  fun s =>
    match deploy_dirs s deploy_base with
    | None => (Err G_IO_ERROR_NOT_FOUND, s)
    | Some (Directory d) =>
        match dir_lookup name d with
        | None => (Err G_IO_ERROR_NOT_FOUND, s)
        | Some src =>
            match removed_dir s with
            | None => (Err G_IO_ERROR_NOT_FOUND, s)
            | Some (Directory rd) =>
                match rename_over src (dir_lookup tmpname rd) with
                | Ok _ =>
                    (Ok tt,
                     set_removed_dir (Some (Directory (dir_set tmpname src rd)))
                       (set_deploy_dir deploy_base
                          (Some (Directory (dir_remove name d))) s))
                | Err e => (Err e, s)
                end
            | Some _ => (Err G_IO_ERROR_NOT_DIRECTORY, s)
            end
        end
    | Some _ => (Err G_IO_ERROR_NOT_DIRECTORY, s)
    end.

(** [open (path, O_RDWR)] of files/.ref below the entry [removed_subdir]
    of .removed, which is [rd]: where the kernel's walk ends. *)
Definition ref_file (rd : directory) (removed_subdir : string) : resolved :=
  resolve MAXSYMLINKS rd "files/.ref" []
    [Child removed_subdir; Child "files"; Child ".ref"].

(** The lock is probed on the descriptor that open(2) gives, through the
    symbolic links on the way: F_GETLK tells whether a write lock would
    meet the lock of another process.  A directory cannot be opened for
    writing, and a path that does not resolve cannot be opened.  For a
    path that leaves .removed the world outside answers. *)
Definition dir_is_locked (removed_subdir : string) : M XdgAppDir bool :=
  fun s =>
    match removed_dir s with
    | Some (Directory rd) =>
        match ref_file rd removed_subdir with
        | FoundFile _ _ _ | FoundSpecial _ _ =>
            (Ok (wrlck s removed_subdir), s)
        | Outside target | Above target =>
            (Ok (elsewhere s target && wrlck s removed_subdir), s)
        | FoundDirectory _ | Missing _ _ | Unresolved _ => (Ok false, s)
        end
    | _ => (Ok false, s)
    end.

Definition gs_shutil_rm_rf (removed_subdir : string) : M XdgAppDir unit :=
  fun s =>
    match removed_dir s with
    | Some (Directory rd) =>
        (Ok tt, set_removed_dir (Some (Directory (dir_remove removed_subdir rd))) s)
    | _ => (Ok tt, s)
    end.

Definition xdg_app_dir_undeploy (ref checksum : string) (force_remove : bool)
  : M XdgAppDir unit :=
  let deploy_base := xdg_app_dir_get_deploy_dir ref in
  deployed <- g_file_query_exists deploy_base checksum ;;
  if negb deployed then throw XDG_APP_DIR_ERROR_ALREADY_UNDEPLOYED
  else
    xdg_app_dir_ensure_repo ;;;
    active <- xdg_app_dir_read_active ref ;;
    match active with
    | Some a =>
        if streq a checksum then
          (* We're removing the active deployment, start by repointing that
             to another deployment if one exists *)
          deployed_checksums <- xdg_app_dir_list_deployed ref ;;
          let some_deployment :=
            find (fun d => negb (streq d checksum)) deployed_checksums in
          xdg_app_dir_set_active ref some_deployment
        else ret tt
    | None => ret tt
    end ;;;
    gs_file_ensure_removed_dir ;;;
    tmpname <- gs_fileutil_gen_tmp_name (Some EmptyString) (Some checksum) ;;
    gs_file_rename_to_removed deploy_base checksum tmpname ;;;
    locked <- dir_is_locked tmpname ;;
    if force_remove || negb locked then
      (* a failure to remove is a warning only *)
      gs_shutil_rm_rf tmpname
    else ret tt.

(** What is found at the [active] entry of the deploy base of [ref]. *)
Definition active_entry (s : XdgAppDir) (ref : string) : option node :=
  match deploy_dirs s (xdg_app_dir_get_deploy_dir ref) with
  | Some (Directory d) => dir_lookup "active" d
  | _ => None
  end.

(** The deploy base is a directory or missing, and [active] in it is a
    symbolic link or missing. *)
Definition active_is_link_or_absent (s : XdgAppDir) (ref : string) : Prop :=
  match deploy_dirs s (xdg_app_dir_get_deploy_dir ref) with
  | None => True
  | Some (Directory d) =>
      match dir_lookup "active" d with
      | None | Some (SymbolicLink _) => True
      | Some _ => False
      end
  | Some _ => False
  end.

(** What [xdg_app_dir_list_deployed] keeps of an enumeration. *)
Definition listed_as_deployed (e : string * node) : bool :=
  is_directory (snd e) && negb (starts_with_dot (fst e))
  && Nat.eqb (strlen (fst e)) 64.

(* ================================================================== *)
(** * Ref listing *)

(** [g_ptr_array_sort (refs, strvcmp)].  [strcmp] is a total order whose
    equivalence is equality of strings, so that every sorting algorithm
    gives the same array; insertion sort stands for the one GLib uses. *)
Fixpoint sort_insert (x : string) (sorted : list string) : list string :=
  match sorted with
  | [] => [x]
  | y :: rest =>
      match strcmp x y with
      | Gt => y :: sort_insert x rest
      | _ => x :: y :: rest
      end
  end.

Definition g_ptr_array_sort (refs : list string) : list string :=
  fold_right sort_insert [] refs.

Definition format_ref (kind name arch branch : string) : string :=
  (kind ++ "/" ++ name ++ "/" ++ arch ++ "/" ++ branch)%string.

(** The inner loop of [xdg_app_dir_list_refs_for_name], over the children
    of an arch directory. *)
Fixpoint list_refs_branches (kind name arch : string) (dir_enum2 : directory)
  (refs : list string) : list string :=
  match dir_enum2 with
  | [] => refs
  | (branch, child_info2) :: rest =>
      if is_directory child_info2
      then list_refs_branches kind name arch rest
             (refs ++ [format_ref kind name arch branch])
      else list_refs_branches kind name arch rest refs
  end.

(** The outer loop of [xdg_app_dir_list_refs_for_name], over the children of
    <basedir>/<kind>/<name>. *)
Fixpoint list_refs_arches (kind name : string) (dir_enum : directory)
  (refs : list string) : list string :=
  match dir_enum with
  | [] => refs
  | (arch, child_info) :: rest =>
      match child_info with
      | Directory dir_enum2 =>
          if streq arch "data"
          then (* There used to be a data dir here, lets ignore it *)
            list_refs_arches kind name rest refs
          else
            list_refs_arches kind name rest
              (list_refs_branches kind name arch dir_enum2 refs)
      | _ => list_refs_arches kind name rest refs
      end
  end.

(** [dir] is what is found at <basedir>/<kind>/<name>. *)
Definition xdg_app_dir_list_refs_for_name (kind name : string)
  (dir : option node) : result (list string) :=
  match dir with
  | None => Ok []
  | Some (Directory dir_enum) =>
      Ok (g_ptr_array_sort (list_refs_arches kind name dir_enum []))
  | Some _ => Err G_IO_ERROR_NOT_DIRECTORY
  end.

(** The loop of [xdg_app_dir_list_refs], over the children of
    <basedir>/<kind>. *)
Fixpoint list_refs_names (kind : string) (dir_enum : directory)
  (refs : list string) : result (list string) :=
  match dir_enum with
  | [] => Ok refs
  | (name, child_info) :: rest =>
      if negb (is_directory child_info)
      then list_refs_names kind rest refs
      else
        match xdg_app_dir_list_refs_for_name kind name (Some child_info) with
        | Ok sub_refs => list_refs_names kind rest (refs ++ sub_refs)
        | Err e => Err e
        end
  end.

Definition xdg_app_dir_list_refs (self : XdgAppDir) (kind : string)
  : result (list string) :=
  match kind_dirs self kind with
  | None => Ok []
  | Some (Directory dir_enum) =>
      match list_refs_names kind dir_enum [] with
      | Ok refs => Ok (g_ptr_array_sort refs)
      | Err e => Err e
      end
  | Some _ => Err G_IO_ERROR_NOT_DIRECTORY
  end.

(** [strcmp (a, b) <= 0]. *)
Definition str_le (a b : string) : Prop := strcmp a b <> Gt.

(** Entries have distinct names, and a name holds no slash; so for the
    three levels below <basedir>/<kind>. *)
Definition wf_names (d : directory) : Prop :=
  NoDup (map fst d) /\ Forall (fun e => is_file_name (fst e) = true) d.

Definition wf_children (n : node) : Prop :=
  match n with
  | Directory d => wf_names d
  | _ => True
  end.

Definition wf_kind_dir (d : directory) : Prop :=
  wf_names d
  /\ Forall (fun e => wf_children (snd e)
                      /\ match snd e with
                         | Directory arches =>
                             Forall (fun a => wf_children (snd a)) arches
                         | _ => True
                         end) d.

(* ================================================================== *)
(** * What the store takes from outside *)

(** Constants of the build, helpers of the repository that are defined in
    other files, and the library calls whose results the store only passes
    on. *)
Class Platform : Type := {
  (** config.h: the directory the launcher is installed in *)
  XDG_APP_BINDIR : string;
  (** xdg-app-utils.c: is [name] followed by nothing or by a separator the
      beginning of the file name *)
  xdg_app_has_name_prefix : string -> string -> bool;
  (** GLib: split a command line as a shell does; NULL on a parse error,
      among them an empty line *)
  g_shell_parse_argv : string -> option (list string);
  (** GLib: is the locale one of the languages of the process *)
  locale_is_interesting : string -> bool;
  (** zlib: decompress a raw deflate stream *)
  zlib_inflate_raw : list Byte.byte -> result (list Byte.byte);
  (** [xdg_app_dir_fetch_remote_object (remote, checksum, type)]: the
      object as the remote serves it *)
  fetch_remote_object : string -> string -> string -> result (list Byte.byte);
  (** OSTree: the checksum of the root tree of a valid commit object *)
  ostree_commit_root : list Byte.byte -> result string;
  (** OSTree: the files (name, checksum) of a valid dirtree object *)
  ostree_dirtree_files : list Byte.byte -> result (list (string * string));
  (** OSTree: pull one commit from a remote into the repository *)
  ostree_repo_pull : OstreeRepo -> string -> string -> result OstreeRepo
}.

(* ================================================================== *)
(** * The launcher rewriter *)

Definition newline : string := String (ascii_of_nat 10) EmptyString.
Definition single_quote : ascii := ascii_of_nat 39.
Definition backslash : ascii := ascii_of_nat 92.

(** This is conservative, but lets us avoid escaping most regular Exec=
    lines, which is nice as that can sometimes cause problems for apps
    launching desktop files. *)
Fixpoint need_quotes (str : string) : bool :=
  match str with
  | EmptyString => false
  | String p rest =>
      if negb (g_ascii_isalnum p) && negb (contains_char p "-_%.=:/@")
      then true
      else need_quotes rest
  end.

(** [g_shell_quote]: the string between single quotes, each single quote
    of it written as quote, backslash, quote, quote. *)
Fixpoint g_shell_quote_body (s : string) : string :=
  match s with
  | EmptyString => String single_quote EmptyString
  | String c rest =>
      if Ascii.eqb c single_quote
      then String single_quote (String backslash (String single_quote
             (String single_quote (g_shell_quote_body rest))))
      else String c (g_shell_quote_body rest)
  end.

Definition g_shell_quote (unquoted_string : string) : string :=
  String single_quote (g_shell_quote_body unquoted_string).

Definition maybe_quote (str : string) : string :=
  if need_quotes str then g_shell_quote str else str.

(** The directory behind an open descriptor ([source_iter.fd]), and the
    world around it. *)
Definition Export : Type := (directory * XdgAppDir)%type.

Definition in_world {A} (m : M XdgAppDir A) : M Export A :=
  fun st => let (r, w) := m (snd st) in (r, (fst st, w)).

(** fstatat(2) with AT_SYMLINK_NOFOLLOW; [None] stands for ENOENT. *)
Definition fstatat (name : string) : M Export (option node) :=
  fun st => (Ok (dir_lookup name (fst st)), st).

(** unlinkat(2) without AT_REMOVEDIR. *)
Definition unlinkat (name : string) : M Export unit :=
  fun st =>
    match dir_lookup name (fst st) with
    | None => (Err G_IO_ERROR_NOT_FOUND, st)
    | Some (Directory _) => (Err G_IO_ERROR_IS_DIRECTORY, st)
    | Some _ => (Ok tt, (dir_remove name (fst st), snd st))
    end.

(** [unlinkat (...) != 0 && errno != ENOENT] is the failure. *)
Definition unlinkat_unless_gone (name : string) : M Export unit :=
  r <- attempt (unlinkat name) ;;
  match r with
  | Ok _ => ret tt
  | Err e => if GError_eqb e G_IO_ERROR_NOT_FOUND then ret tt else throw e
  end.

Definition renameat (old new : string) : M Export unit :=
  fun st =>
    match dir_rename old new (fst st) with
    | Ok d => (Ok tt, (d, snd st))
    | Err e => (Err e, st)
    end.

(** Run [m] in the subdirectory [name], as the recursive call does with
    the descriptor it opens. *)
Definition in_subdir {A} (name : string) (m : M Export A) : M Export A :=
  fun st =>
    match dir_lookup name (fst st) with
    | Some (Directory sub) =>
        match m (sub, snd st) with
        | (r, (sub', w')) => (r, (dir_set name (Directory sub') (fst st), w'))
        end
    | Some _ => (Err G_IO_ERROR_NOT_DIRECTORY, st)
    | None => (Err G_IO_ERROR_NOT_FOUND, st)
    end.

(** [gs_file_open_in_tmpdir_at], and the write of the new contents to the
    stream it returns: a file of a random name that does not exist yet,
    tried up to 128 times. *)
Fixpoint open_in_tmpdir_at (attempts : nat) (new_data : text)
  : M Export string :=
  match attempts with
  | O => throw G_IO_ERROR_FAILED  (* Exhausted attempts to open temporary file *)
  | S attempts' =>
      tmp_name <- in_world (gs_fileutil_gen_tmp_name None None) ;;
      present <- fstatat tmp_name ;;
      match present with
      | Some _ => open_in_tmpdir_at attempts' new_data       (* EEXIST *)
      | None =>
          fun st =>
            (Ok tmp_name,
             (dir_set tmp_name (RegularFile new_data) (fst st), snd st))
      end
  end.

Definition gs_file_open_in_tmpdir_at (new_data : text) : M Export string :=
  open_in_tmpdir_at 128 new_data.

Section Rewriter.
Context `{Platform}.

(** The loop over [old_argv] from index 1. *)
Fixpoint append_args (new_exec : string) (old_argv : list string) : string :=
  match old_argv with
  | [] => new_exec
  | arg :: rest =>
      append_args (new_exec ++ " " ++ maybe_quote arg)%string rest
  end.

(** The body of the loop of [export_desktop_file] over the groups. *)
Definition rewrite_group (app branch arch : string) (keyfile : GKeyFile)
  (group : string) : GKeyFile :=
  let escaped_app := maybe_quote app in
  let escaped_branch := maybe_quote branch in
  let escaped_arch := maybe_quote arch in
  let keyfile := g_key_file_remove_key keyfile group "TryExec" in
  (* Remove this to make sure nothing tries to execute it outside the sandbox *)
  let keyfile :=
    g_key_file_remove_key keyfile group "X-GNOME-Bugzilla-ExtraInfoScript" in
  let new_exec :=
    (XDG_APP_BINDIR ++ "/xdg-app run --branch=" ++ escaped_branch
       ++ " --arch=" ++ escaped_arch)%string in
  let old_exec := g_key_file_get_string keyfile group "Exec" in
  let new_exec :=
    match old_exec with
    | Some old_exec =>
        match g_shell_parse_argv old_exec with
        | Some (argv0 :: old_argv) =>
            append_args
              (new_exec ++ " --command=" ++ maybe_quote argv0
                 ++ " " ++ escaped_app)%string
              old_argv
        | _ => (new_exec ++ " " ++ escaped_app)%string
        end
    | None => (new_exec ++ " " ++ escaped_app)%string
    end in
  g_key_file_set_string keyfile group "Exec" new_exec.

(** The check of a D-Bus service file: its Name is the file name without
    the suffix. *)
Definition dbus_service_name_ok (name : string) (keyfile : GKeyFile) : bool :=
  let expected_dbus_name :=
    g_strndup name (strlen name - strlen ".service") in
  match g_key_file_get_string keyfile "D-BUS Service" "Name" with
  | Some dbus_name => streq dbus_name expected_dbus_name
  | None => false
  end.

Definition export_desktop_file (app branch arch name : string)
  : M Export string :=
  opened <- fstatat name ;;
  match opened with
  | Some (RegularFile data) =>
      keyfile <- lift (g_key_file_load_from_data locale_is_interesting data
                         G_KEY_FILE_KEEP_TRANSLATIONS) ;;
      if g_str_has_suffix name ".service"
         && negb (dbus_service_name_ok name keyfile)
      then throw G_IO_ERROR_FAILED   (* dbus service file %s has wrong name *)
      else
        let groups := g_key_file_get_groups keyfile in
        let keyfile := fold_left (rewrite_group app branch arch) groups keyfile in
        let new_data := g_key_file_to_data keyfile in
        gs_file_open_in_tmpdir_at new_data
  | Some _ => throw G_IO_ERROR_FAILED
  | None => throw G_IO_ERROR_NOT_FOUND
  end.

(** The loop of [rewrite_export_dir] over the entries of the directory;
    [recurse] is the call for a subdirectory. *)
Fixpoint rewrite_export_entries (recurse : M Export unit)
  (app branch arch : string) (dents : list string)
  (visited_children : list string) : M Export unit :=
  match dents with
  | [] => ret tt
  | d_name :: rest =>
      if existsb (streq d_name) visited_children
      then rewrite_export_entries recurse app branch arch rest visited_children
      else
        (* Avoid processing the same file again if it was re-created during
           an export *)
        let visited_children := d_name :: visited_children in
        stbuf <- fstatat d_name ;;
        match stbuf with
        | None =>
            rewrite_export_entries recurse app branch arch rest visited_children
        | Some (Directory _) =>
            in_subdir d_name recurse ;;;
            rewrite_export_entries recurse app branch arch rest visited_children
        | Some (RegularFile _) =>
            (if negb (xdg_app_has_name_prefix d_name app) then
               in_world (g_warning
                 ("Non-prefixed filename " ++ d_name ++ " in app " ++ app
                    ++ ", removing." ++ newline)%string) ;;;
               unlinkat_unless_gone d_name
             else ret tt) ;;;
            if g_str_has_suffix d_name ".desktop"
               || g_str_has_suffix d_name ".service"
            then
              new_name <- export_desktop_file app branch arch d_name ;;
              let visited_children := new_name :: visited_children in
              renameat new_name d_name ;;;
              rewrite_export_entries recurse app branch arch rest
                visited_children
            else
              rewrite_export_entries recurse app branch arch rest
                visited_children
        | Some _ =>
            in_world (g_warning
              ("Not exporting file " ++ d_name ++ " of unsupported type"
                 ++ newline)%string) ;;;
            unlinkat_unless_gone d_name ;;;
            rewrite_export_entries recurse app branch arch rest visited_children
        end
  end.

(** [rewrite_export_dir] on an open directory.  Every level of the
    recursion holds a descriptor; [fds] are those that can still be
    opened. *)
Fixpoint rewrite_export_dir (fds : nat) (app branch arch : string)
  : M Export unit :=
  match fds with
  | O => throw G_IO_ERROR_TOO_MANY_OPEN_FILES
  | S fds' =>
      fun st =>
        rewrite_export_entries (rewrite_export_dir fds' app branch arch)
          app branch arch (map fst (fst st)) [] st
  end.

End Rewriter.

(* ================================================================== *)
(** * Deploy *)

(** [g_strsplit (s, "/", -1)]: the pieces between the slashes; the empty
    string has no piece. *)
Definition g_strsplit_slash (s : string) : list string :=
  match s with
  | EmptyString => []
  | _ => split_slash s EmptyString
  end.

(** The bytes of a file whose lines are [data]. *)
Definition line_contents (l : GKeyFileLine) : string :=
  match l with
  | LComment c => c
  | LGroup g => ("[" ++ g ++ "]")%string
  | LPair k v => (k ++ "=" ++ v)%string
  | LInvalid t => t
  end.

Definition text_contents (data : text) : string :=
  String.concat newline (map line_contents data).

(** [g_file_load_contents] of the file [origin] of the deploy base. *)
Definition load_origin (deploy_base : string) : M XdgAppDir string :=
  fun s =>
    match deploy_dirs s deploy_base with
    | None => (Err G_IO_ERROR_NOT_FOUND, s)
    | Some (Directory d) =>
        match dir_lookup "origin" d with
        | None => (Err G_IO_ERROR_NOT_FOUND, s)
        | Some (RegularFile data) => (Ok (text_contents data), s)
        | Some (Directory _) => (Err G_IO_ERROR_IS_DIRECTORY, s)
        | Some _ => (Err G_IO_ERROR_FAILED, s)
        end
    | Some _ => (Err G_IO_ERROR_NOT_DIRECTORY, s)
    end.

Definition xdg_app_dir_get_origin (ref : string) : M XdgAppDir string :=
  let deploy_base := xdg_app_dir_get_deploy_dir ref in
  fun s =>
    match deploy_dirs s deploy_base with
    | None => (Err G_IO_ERROR_FAILED, s)               (* %s is not installed *)
    | Some _ => load_origin deploy_base s
    end.

(** The repository the store has opened. *)
Definition opened_repo : M XdgAppDir OstreeRepo :=
  fun s =>
    match repo s with
    | Some r => (Ok r, s)
    | None => (Err G_IO_ERROR_FAILED, s)
    end.

Definition ostree_repo_resolve_rev (refspec : string) : M XdgAppDir string :=
  r <- opened_repo ;;
  match repo_refs r refspec with
  | Some rev => ret rev
  | None => throw G_IO_ERROR_NOT_FOUND
  end.

Definition ostree_repo_read_commit (checksum : string) : M XdgAppDir node :=
  r <- opened_repo ;;
  match repo_commits r checksum with
  | Some root => ret root
  | None => throw G_IO_ERROR_NOT_FOUND
  end.

(** [ostree_repo_checkout_tree] with OSTREE_REPO_CHECKOUT_OVERWRITE_NONE:
    the destination is made by mkdir and must not exist; its parent must. *)
Definition ostree_repo_checkout_tree (deploy_base checksum : string)
  (root : node) : M XdgAppDir unit :=
  in_deploy_dir deploy_base
    (fun d =>
       match root with
       | Directory _ =>
           match dir_lookup checksum d with
           | Some _ => Err G_IO_ERROR_EXISTS
           | None => Ok (tt, dir_set checksum root d)
           end
       | _ => Err G_IO_ERROR_FAILED
       end).

(** [g_file_replace_contents] of files/.ref of the checkout with no bytes
    and G_FILE_CREATE_NONE.  A name that is free is made a file.  A file
    that is there is replaced by an empty one; when a symbolic link leads
    to it, the link stays and the file it leads to is truncated, or made
    when it is not there.  What is written outside the deploy base is not
    seen here. *)
Definition replace_dotref (deploy_base checksum : string) : M XdgAppDir unit :=
  fun s =>
    in_deploy_dir deploy_base
      (fun d =>
         match resolve MAXSYMLINKS d "files/.ref" []
                 [Child checksum; Child "files"; Child ".ref"] with
         | FoundFile dir name _ | Missing dir name =>
             Ok (tt, tree_set d (dir ++ [name]) (RegularFile []))
         | FoundSpecial _ _ => Err G_IO_ERROR_NOT_REGULAR_FILE
         | FoundDirectory _ => Err G_IO_ERROR_IS_DIRECTORY
         | Outside target | Above target =>
             if elsewhere s target then Ok (tt, d)
             else Err G_IO_ERROR_NOT_FOUND
         | Unresolved e => Err e
         end) s.

(** What is at [export] in the checkout: nothing ([g_file_query_exists]
    fails), a directory, or something a directory iterator cannot open. *)
Inductive export_kind : Type :=
| NoExport
| ExportDir (export : directory) (checkoutdir deploy_dir : directory)
| ExportNotDir (e : GError).

Definition find_export (deploy_base checksum : string)
  : M XdgAppDir export_kind :=
  fun s =>
    match deploy_dirs s deploy_base with
    | Some (Directory d) =>
        match dir_lookup checksum d with
        | Some (Directory checkoutdir) =>
            match dir_lookup "export" checkoutdir with
            | None => (Ok NoExport, s)
            | Some (Directory export) =>
                (Ok (ExportDir export checkoutdir d), s)
            | Some (SymbolicLink _) =>
                if dir_exists MAXSYMLINKS (elsewhere s) checkoutdir "export"
                then (Ok (ExportNotDir G_IO_ERROR_TOO_MANY_LINKS), s)
                else (Ok NoExport, s)
            | Some _ => (Ok (ExportNotDir G_IO_ERROR_NOT_DIRECTORY), s)
            end
        | _ => (Ok NoExport, s)
        end
    | _ => (Ok NoExport, s)
    end.

Section Deploy.
Context `{Platform}.

(** [xdg_app_rewrite_export_dir] on the export directory of a checkout:
    what the rewriter leaves of the directory is left on disk, whether it
    fails or not. *)
Definition xdg_app_rewrite_export_dir (app branch arch : string)
  (deploy_base checksum : string) (export checkoutdir d : directory)
  : M XdgAppDir unit :=
  fun s =>
    match rewrite_export_dir (open_max s) app branch arch (export, s) with
    | (r, (export', s')) =>
        (r, set_deploy_dir deploy_base
              (Some (Directory
                 (dir_set checksum
                    (Directory (dir_set "export" (Directory export') checkoutdir))
                    d)))
              s')
    end.

(** The first part of [xdg_app_dir_deploy]: from the resolution of the
    checksum to the write of files/.ref.  It returns the checksum that is
    checked out. *)
Definition deploy_checkout (ref : string) (checksum : option string)
  : M XdgAppDir string :=
  let deploy_base := xdg_app_dir_get_deploy_dir ref in
  xdg_app_dir_ensure_repo ;;;
  checksum <-
    match checksum with
    | None =>
        origin <- attempt (xdg_app_dir_get_origin ref) ;;
        (* There may be several remotes with the same branch (if we for
           instance changed the origin, so prepend the current origin to
           make sure we get the right one *)
        let origin_and_ref :=
          match origin with
          | Ok origin => (origin ++ ":" ++ ref)%string
          | Err _ => ref
          end in
        ostree_repo_resolve_rev origin_and_ref
    | Some checksum =>
        found <- attempt (ostree_repo_read_commit checksum) ;;
        match found with
        | Ok _ => ret checksum
        | Err _ =>
            repository <- load_origin deploy_base ;;
            r <- opened_repo ;;
            r' <- lift (ostree_repo_pull r repository checksum) ;;
            (fun s => (Ok checksum, set_repo (Some r') s))
        end
    end ;;
  deployed <- g_file_query_exists deploy_base checksum ;;
  if deployed then throw XDG_APP_DIR_ERROR_ALREADY_DEPLOYED
  else
    root <- ostree_repo_read_commit checksum ;;
    ostree_repo_checkout_tree deploy_base checksum root ;;;
    replace_dotref deploy_base checksum ;;;
    ret checksum.

(** The second part: the export directory of the checkout is rewritten. *)
Definition deploy_export (ref checksum : string) : M XdgAppDir unit :=
  let deploy_base := xdg_app_dir_get_deploy_dir ref in
  export <- find_export deploy_base checksum ;;
  match export with
  | NoExport => ret tt
  | ExportNotDir e => throw e
  | ExportDir export checkoutdir d =>
      let ref_parts := g_strsplit_slash ref in
      xdg_app_rewrite_export_dir
        (nth 1 ref_parts EmptyString) (nth 3 ref_parts EmptyString) (nth 2 ref_parts EmptyString)
        deploy_base checksum export checkoutdir d
  end.

Definition xdg_app_dir_deploy (ref : string) (checksum : option string)
  : M XdgAppDir unit :=
  checksum <- deploy_checkout ref checksum ;;
  deploy_export ref checksum ;;;
  xdg_app_dir_set_active ref (Some checksum).

End Deploy.

(** A regular file of the export tree that [export_desktop_file] rejects as
    a D-Bus service: its name ends in ".service" and its contents are no
    key file, or one whose [Name] under [D-BUS Service] is missing or is not
    the file name without the suffix. *)
Definition bad_service_file `{Platform} (name : string) (data : text) : Prop :=
  g_str_has_suffix name ".service" = true
  /\ match g_key_file_load_from_data locale_is_interesting data
             G_KEY_FILE_KEEP_TRANSLATIONS with
     | Ok keyfile =>
         g_key_file_get_string keyfile "D-BUS Service" "Name"
         <> Some (String.substring 0 (String.length name - 8) name)
     | Err _ => True
     end.

(** The export tree holds such a file, at any depth. *)
Inductive contains_bad_service `{Platform} : directory -> Prop :=
| bad_service_here (d : directory) (name : string) (data : text) :
    dir_lookup name d = Some (RegularFile data) ->
    bad_service_file name data ->
    contains_bad_service d
| bad_service_below (d : directory) (name : string) (sub : directory) :
    dir_lookup name d = Some (Directory sub) ->
    contains_bad_service sub ->
    contains_bad_service d.

(** The checkout of [checksum] in the deploy base of [ref] has an export
    directory that holds a bad service file. *)
Definition exports_bad_service `{Platform} (s : XdgAppDir)
  (ref checksum : string) : Prop :=
  exists d checkoutdir export,
    deploy_dirs s (xdg_app_dir_get_deploy_dir ref) = Some (Directory d)
    /\ dir_lookup checksum d = Some (Directory checkoutdir)
    /\ dir_lookup "export" checkoutdir = Some (Directory export)
    /\ contains_bad_service export.

(* ================================================================== *)
(** * Remotes *)

Definition double_quote : string := String (ascii_of_nat 34) EmptyString.

Definition get_group (remote_name : string) : string :=
  ("remote " ++ double_quote ++ remote_name ++ double_quote)%string.

(** NULL when the store has no repository open. *)
Definition ostree_repo_get_config (self : XdgAppDir) : option GKeyFile :=
  match repo self with
  | Some r => repo_config r
  | None => None
  end.

Definition xdg_app_dir_get_remote_title (self : XdgAppDir)
  (remote_name : string) : option string :=
  match ostree_repo_get_config self with
  | Some config => g_key_file_get_string config (get_group remote_name) "xa.title"
  | None => None
  end.

Definition xdg_app_dir_get_remote_noenumerate (self : XdgAppDir)
  (remote_name : string) : bool :=
  match ostree_repo_get_config self with
  | Some config =>
      g_key_file_get_boolean config (get_group remote_name) "xa.noenumerate"
  | None => true
  end.

(* ================================================================== *)
(** * Metadata-only fetch *)

Local Open Scope Z_scope.

Definition byte_value (b : Byte.byte) : Z := Z.of_N (Byte.to_N b).

(** [GUINT32_FROM_BE] of the four bytes at the beginning of the data. *)
Definition GUINT32_FROM_BE (b0 b1 b2 b3 : Byte.byte) : Z :=
  Z.lor (Z.shiftl (byte_value b0) 24)
    (Z.lor (Z.shiftl (byte_value b1) 16)
       (Z.lor (Z.shiftl (byte_value b2) 8) (byte_value b3))).

(** Arithmetic of [guint32]. *)
Definition guint32 (z : Z) : Z := z mod 2 ^ 32.

Section Fetch.
Context `{Platform}.

(** The end of [xdg_app_dir_fetch_metadata]: the header of the .filez
    object is skipped and the rest is decompressed. *)
Definition filez_payload (filez_data : list Byte.byte)
  : result (list Byte.byte) :=
  let filez_size := Z.of_nat (List.length filez_data) in
  if filez_size <? 8 then Err G_IO_ERROR_FAILED          (* Invalid header *)
  else
    match filez_data with
    | b0 :: b1 :: b2 :: b3 :: _ =>
        let archive_header_size := GUINT32_FROM_BE b0 b1 b2 b3 in
        (* Include header-size and padding *)
        let archive_header_size := guint32 (archive_header_size + (4 + 4)) in
        if archive_header_size >? filez_size
        then Err G_IO_ERROR_FAILED   (* File header size %u exceeds file size *)
        else zlib_inflate_raw (skipn (Z.to_nat archive_header_size) filez_data)
    | _ => Err G_IO_ERROR_FAILED
    end.

Local Open Scope result_scope.

Definition xdg_app_dir_fetch_metadata (remote_name commit : string)
  : result (list Byte.byte) :=
  commit_bytes <- fetch_remote_object remote_name commit "commit" ;;
  root_checksum <- ostree_commit_root commit_bytes ;;
  root_bytes <- fetch_remote_object remote_name root_checksum "dirtree" ;;
  files <- ostree_dirtree_files root_bytes ;;
  match find (fun f => streq (fst f) "metadata") files with
  | None => Err G_IO_ERROR_NOT_FOUND                (* Can't find metadata file *)
  | Some (_, file_checksum) =>
      filez_bytes <- fetch_remote_object remote_name file_checksum "filez" ;;
      filez_payload filez_bytes
  end.

End Fetch.

Local Close Scope Z_scope.

(* ================================================================== *)
(** * Overrides *)

(** What is at <base directory of the scope>/overrides, for the user scope
    ([true]) and the system scope ([false]). *)
Definition Overrides : Type := bool -> option node.

Definition set_overrides (user : bool) (n : option node) (fs : Overrides)
  : Overrides :=
  fun u => if Bool.eqb u user then n else fs u.

(** [g_file_load_contents] of an entry of a directory.  A link to a sibling
    is followed; a link that leads out of the directory is taken as one
    that cannot be read. *)
Fixpoint dir_load_contents (fuel : nat) (d : directory) (name : string)
  : option text :=
  match dir_lookup name d with
  | Some (RegularFile data) => Some data
  | Some (SymbolicLink target) =>
      match fuel with
      | O => None
      | S fuel' =>
          if is_file_name target then dir_load_contents fuel' d target
          else None
      end
  | _ => None
  end.

Section OverridesCode.
Context `{Platform}.

Definition xdg_app_load_override_keyfile (app_id : string) (user : bool)
  (fs : Overrides) : result GKeyFile :=
  let contents :=
    match fs user with
    | Some (Directory override_dir) =>
        dir_load_contents MAXSYMLINKS override_dir app_id
    | _ => None
    end in
  match contents with
  | Some metadata_contents =>
      g_key_file_load_from_data locale_is_interesting metadata_contents
        G_KEY_FILE_NONE
  | None => Ok g_key_file_new
  end.

(** [g_mkdir_with_parents] of the overrides directory, then
    [g_key_file_save_to_file]: the text of the key file is written to a
    temporary file that is renamed over the file. *)
Definition xdg_app_save_override_keyfile (metakey : GKeyFile)
  (app_id : string) (user : bool) : M Overrides unit :=
  fun fs =>
    let write (override_dir : directory) :=
      match dir_lookup app_id override_dir with
      | Some (Directory _) => (Err G_IO_ERROR_IS_DIRECTORY, fs)
      | _ =>
          (Ok tt,
           set_overrides user
             (Some (Directory
                (dir_set app_id (RegularFile (g_key_file_to_data metakey))
                   override_dir)))
             fs)
      end in
    match fs user with
    | None => write []
    | Some (Directory override_dir) => write override_dir
    | Some _ => (Err G_IO_ERROR_NOT_DIRECTORY, fs)
    end.

End OverridesCode.

(** A pair that a parse with [flags] keeps. *)
Definition pair_is_kept (locale_is_interesting : string -> bool)
  (flags : GKeyFileFlags) (p : GKeyFileKeyValuePair) : bool :=
  match p with
  | Comment _ => keep_comments flags
  | Pair key _ =>
      match key_get_locale key with
      | None => true
      | Some locale => keep_translations flags || locale_is_interesting locale
      end
  end.

(** A key file as it is read back with [flags] from its own text: without
    the comments unless they are kept, and without the translations to
    other languages unless they are kept. *)
Definition read_back (locale_is_interesting : string -> bool)
  (flags : GKeyFileFlags) (kf : GKeyFile) : GKeyFile :=
  mkKeyFile
    (if keep_comments flags then start_comments kf else [])
    (map (fun g =>
            mkGroup (group_name g)
              (filter (pair_is_kept locale_is_interesting flags)
                 (key_value_pairs g)))
       (groups kf)).

(** A key file without comments and without translations to languages
    other than those of the process. *)
Definition plain_key_file (locale_is_interesting : string -> bool)
  (kf : GKeyFile) : Prop :=
  start_comments kf = []
  /\ Forall (fun g =>
               Forall (fun p => pair_is_kept locale_is_interesting
                                  G_KEY_FILE_NONE p = true)
                 (key_value_pairs g))
       (groups kf).

(* ================================================================== *)
(** * Example stores *)

Definition empty_repo : OstreeRepo :=
  mkRepo (fun _ => None) (fun _ => None) (Some g_key_file_new).

(** A store with nothing in it. *)
Definition empty_store : XdgAppDir :=
  mkDir true None (fun _ => None) (fun _ => None) None (Ok empty_repo)
    (fun _ => false) (fun _ => false) 1024 (fun _ => "AAAAAAAA") 0 [].

Definition set_kind_dir (kind : string) (n : option node) (s : XdgAppDir)
  : XdgAppDir :=
  mkDir (user s) (repo s)
    (fun k => if streq k kind then n else kind_dirs s k)
    (deploy_dirs s) (removed_dir s) (repo_dir s) (elsewhere s)
    (wrlck s) (open_max s) (random s) (random_pos s) (warnings s).

(** <basedir>/app holds a directory [data] with one arch and one branch. *)
Definition store_with_data_name : XdgAppDir :=
  set_kind_dir "app"
    (Some (Directory
       [("data", Directory [("x86_64", Directory [("stable", Directory [])])])]))
    empty_store.

(** <basedir>/app holds one app with two arches, a legacy [data] directory
    and a stray file. *)
Definition store_with_app : XdgAppDir :=
  set_kind_dir "app"
    (Some (Directory
       [("org.gnome.Maps",
         Directory [("x86_64", Directory [("stable", Directory []);
                                          ("master", Directory [])]);
                    ("data", Directory [("cache", Directory [])]);
                    ("i386", Directory [("stable", Directory [])])]);
        ("README", RegularFile [])]))
    empty_store.

(** The computation [m] fails when run in [s]. *)
Definition fails {S A} (m : M S A) (s : S) : Prop :=
  exists e s', m s = (Err e, s').

(** The checksum [active] points to, if it is a symbolic link. *)
Definition active_target (s : XdgAppDir) (ref : string) : option string :=
  match active_entry s ref with
  | Some (SymbolicLink target) => Some target
  | _ => None
  end.

(** A ref of four parts, as the store asserts it wherever it takes a ref
    apart. *)
Definition four_parts (ref : string) : Prop :=
  List.length (g_strsplit_slash ref) = 4.

(** The refs of the branch directories of one arch. *)
Definition branch_refs (kind name arch : string) (branches : directory)
  : list string :=
  flat_map (fun e => if is_directory (snd e)
                     then [format_ref kind name arch (fst e)] else [])
    branches.

(** The refs below the arch directories of one name. *)
Definition arch_refs (kind name : string) (arches : directory)
  : list string :=
  flat_map (fun e => match snd e with
                     | Directory branches =>
                         if streq (fst e) "data" then []
                         else branch_refs kind name (fst e) branches
                     | _ => []
                     end) arches.

(** The refs below the name directories of a kind. *)
Definition name_refs (kind : string) (names : directory) : list string :=
  flat_map (fun e => match snd e with
                     | Directory arches => arch_refs kind (fst e) arches
                     | _ => []
                     end) names.

(** The entry [b] of the directory [cur] is a bad service file, or a
    directory that holds one. *)
Definition bad_entry `{Platform} (cur : directory) (b : string) : Prop :=
  (exists data, dir_lookup b cur = Some (RegularFile data)
                /\ bad_service_file b data)
  \/ (exists sub, dir_lookup b cur = Some (Directory sub)
                  /\ contains_bad_service sub).

(** The target of a symbolic link. *)
Definition link_target (n : option node) : option string :=
  match n with
  | Some (SymbolicLink target) => Some target
  | _ => None
  end.

(** Whatever [m] does, read-active returns afterwards what it returned
    before. *)
Definition preserves_active {A} (ref : string) (m : M XdgAppDir A) : Prop :=
  forall s r s', m s = (r, s') -> active_target s' ref = active_target s ref.

(* ================================================================== *)
(** * The launcher command line, in the words of the specification *)

(** The characters of [A-Za-z0-9_\-.%=:/@]. *)
Definition clean_characters : list ascii :=
  list_ascii_of_string
    "ABCDEFGHIJKLMNOPQRSTUVWXYZabcdefghijklmnopqrstuvwxyz0123456789_-.%=:/@".

Definition is_clean (c : ascii) : bool :=
  existsb (Ascii.eqb c) clean_characters.

(** A token as it is substituted: verbatim when all its characters are
    clean, shell-quoted otherwise. *)
Definition substituted (token : string) : string :=
  if forallb is_clean (list_ascii_of_string token) then token
  else g_shell_quote token.

(** <launcher-path> run --branch=<branch> --arch=<arch> [--command=<cmd0>]
    <app> <arg1> <arg2> ..., for the original value of Exec. *)
Definition launcher_command `{Platform} (app branch arch : string)
  (old_exec : option string) : string :=
  let tokens :=
    match old_exec with
    | Some e => g_shell_parse_argv e
    | None => None
    end in
  String.concat " "
    ([(XDG_APP_BINDIR ++ "/xdg-app")%string; "run";
      ("--branch=" ++ substituted branch)%string;
      ("--arch=" ++ substituted arch)%string]
     ++ match tokens with
        | Some (cmd0 :: _) => [("--command=" ++ substituted cmd0)%string]
        | _ => []
        end
     ++ [substituted app]
     ++ match tokens with
        | Some (_ :: args) => map substituted args
        | _ => []
        end).

(* ================================================================== *)
(** * Example platform and inputs *)

(** Split at spaces: what [g_shell_parse_argv] gives for a command line
    without quotes and escapes. *)
Fixpoint split_spaces (s word : string) : list string :=
  match s with
  | EmptyString => match word with EmptyString => [] | _ => [word] end
  | String c rest =>
      if Ascii.eqb c " "
      then match word with
           | EmptyString => split_spaces rest EmptyString
           | _ => word :: split_spaces rest EmptyString
           end
      else split_spaces rest (word ++ String c EmptyString)%string
  end.

Definition example_parse_argv (command_line : string) : option (list string) :=
  match split_spaces command_line EmptyString with
  | [] => None                        (* Text was empty *)
  | argv => Some argv
  end.

(** Modelled from the spec: [xdg_app_has_name_prefix] is defined in
    xdg-app-utils.c, which is not among the sources.  A file is "prefixed
    with <app-name>" when its name begins with the name of the app. *)
Definition has_name_prefix (file_name app : string) : bool :=
  g_str_has_prefix file_name app.

(** A platform for the examples.  The launcher is installed in /usr/bin,
    the language of the process is C, and the network serves nothing. *)
Definition example_platform : Platform := {|
  XDG_APP_BINDIR := "/usr/bin";
  xdg_app_has_name_prefix := has_name_prefix;
  g_shell_parse_argv := example_parse_argv;
  locale_is_interesting := fun locale => streq locale "C";
  zlib_inflate_raw := fun data => Ok data;
  fetch_remote_object := fun _ _ _ => Err G_IO_ERROR_NOT_FOUND;
  ostree_commit_root := fun _ => Err G_IO_ERROR_FAILED;
  ostree_dirtree_files := fun _ => Err G_IO_ERROR_FAILED;
  ostree_repo_pull := fun _ _ _ => Err G_IO_ERROR_NOT_FOUND
|}.

Definition example_ref : string := "app/org.example.App/x86_64/stable".

Definition checksum_a : string :=
  "aaaaaaaaaaaaaaaaaaaaaaaaaaaaaaaaaaaaaaaaaaaaaaaaaaaaaaaaaaaaaaaa".
Definition checksum_b : string :=
  "bbbbbbbbbbbbbbbbbbbbbbbbbbbbbbbbbbbbbbbbbbbbbbbbbbbbbbbbbbbbbbbb".
(** 64 characters that are no hexadecimal digits. *)
Definition not_a_checksum : string :=
  "zzzzzzzzzzzzzzzzzzzzzzzzzzzzzzzzzzzzzzzzzzzzzzzzzzzzzzzzzzzzzzzz".

Definition example_checkout : node :=
  Directory [("files", Directory [(".ref", RegularFile [])]);
             ("metadata", RegularFile [LGroup "Application";
                                       LPair "name" "org.example.App"])].

(** Two deployments of [example_ref], the first one active. *)
Definition store_with_two_deployments : XdgAppDir :=
  set_deploy_dir example_ref
    (Some (Directory [(checksum_a, example_checkout);
                      (checksum_b, example_checkout);
                      (not_a_checksum, Directory []);
                      (".hidden", Directory []);
                      ("origin", RegularFile [LInvalid "example-remote"]);
                      ("active", SymbolicLink checksum_a)]))
    empty_store.

(** One deployment of [example_ref], no [active] link. *)
Definition store_without_active : XdgAppDir :=
  set_deploy_dir example_ref
    (Some (Directory [(checksum_a, example_checkout)]))
    empty_store.

Definition desktop_file : text :=
  [LGroup "Desktop Entry";
   LPair "Name" "Example";
   LPair "TryExec" "gedit";
   LPair "Exec" "gedit %U"].

(** An export directory with a desktop file of the app. *)
Definition export_with_desktop_file : directory :=
  [("org.example.App.desktop", RegularFile desktop_file)].

(** An export directory with a desktop file that does not carry the name
    of the app. *)
Definition export_with_foreign_desktop_file : directory :=
  [("gedit.desktop", RegularFile desktop_file);
   ("org.example.App.desktop", RegularFile desktop_file)].

Definition service_file_of_other : text :=
  [LGroup "D-BUS Service";
   LPair "Name" "org.example.Other";
   LPair "Exec" "/app/bin/example --gapplication-service"].

(** A commit whose export tree has a service file with the name of another
    service. *)
Definition commit_with_bad_service : node :=
  Directory [("files", Directory []);
             ("metadata", RegularFile []);
             ("export",
              Directory [("share",
                Directory [("dbus-1",
                  Directory [("services",
                    Directory [("org.example.App.service",
                                RegularFile service_file_of_other)])])])])].

Definition repo_with_bad_service : OstreeRepo :=
  mkRepo (fun _ => None)
    (fun c => if streq c checksum_b then Some commit_with_bad_service else None)
    (Some g_key_file_new).

(** [checksum_a] is deployed and active; [checksum_b], in the repository,
    has the bad service file. *)
Definition store_before_bad_deploy : XdgAppDir :=
  mkDir true (Some repo_with_bad_service) (fun _ => None)
    (fun r => if streq r example_ref
              then Some (Directory [(checksum_a, example_checkout);
                                    ("active", SymbolicLink checksum_a)])
              else None)
    None (Ok repo_with_bad_service)
    (fun _ => false) (fun _ => false) 1024 (fun _ => "AAAAAAAA") 0 [].

(** The configuration of a repository with one remote, which has a url and
    nothing else. *)
Definition config_with_remote : GKeyFile :=
  mkKeyFile []
    [mkGroup "core" [Pair "repo_version" "1"; Pair "mode" "bare-user"];
     mkGroup (get_group "origin")
       [Pair "url" "http://example.org/repo"]].

Definition store_with_remote : XdgAppDir :=
  set_repo (Some (mkRepo (fun _ => None) (fun _ => None)
                    (Some config_with_remote)))
    empty_store.

(** A .filez object whose header size is 0xfffffff8. *)
Definition filez_with_huge_header : list Byte.byte :=
  [Byte.xff; Byte.xff; Byte.xff; Byte.xf8;
   Byte.x00; Byte.x00; Byte.x00; Byte.x00;
   Byte.x4b; Byte.x4c; Byte.x02; Byte.x00].

(** A .filez object with a header of four bytes. *)
Definition filez_with_small_header : list Byte.byte :=
  [Byte.x00; Byte.x00; Byte.x00; Byte.x04;
   Byte.x00; Byte.x00; Byte.x00; Byte.x00;
   Byte.x01; Byte.x02; Byte.x03; Byte.x04;
   Byte.x4b; Byte.x4c; Byte.x02; Byte.x00].

(** Overrides that set an environment variable whose name ends in a
    bracketed suffix, as a translated key does. *)
Definition override_with_translation : GKeyFile :=
  mkKeyFile []
    [mkGroup "Context" [Pair "shared" "network;"];
     mkGroup "Environment" [Pair "GREETING" "hello";
                            Pair "GREETING[de]" "hallo"]].

Definition override_without_translation : GKeyFile :=
  mkKeyFile []
    [mkGroup "Context" [Pair "shared" "network;"];
     mkGroup "Environment" [Pair "GREETING" "hello"]].

Definition no_overrides : Overrides := fun _ => None.

(* ================================================================== *)
(** * Removed checkouts *)

(** What is found at the entry [name] of the deploy base of [ref]. *)
Definition deploy_entry (s : XdgAppDir) (ref name : string) : option node :=
  match deploy_dirs s (xdg_app_dir_get_deploy_dir ref) with
  | Some (Directory d) => dir_lookup name d
  | _ => None
  end.

(** What is found at the entry [name] of <basedir>/.removed. *)
Definition removed_entry (s : XdgAppDir) (name : string) : option node :=
  match removed_dir s with
  | Some (Directory rd) => dir_lookup name rd
  | _ => None
  end.

(** The loop of [xdg_app_dir_cleanup_removed] over the enumeration: the
    type comes from the enumerated info, the lock is probed in the file
    system as it is by then. *)
Fixpoint cleanup_removed_loop (dir_enum : directory) : M XdgAppDir unit :=
  match dir_enum with
  | [] => ret tt
  | (name, child_info) :: rest =>
      (if is_directory child_info then
         locked <- dir_is_locked name ;;
         if negb locked then
           (* a failure to remove is a warning only *)
           gs_shutil_rm_rf name
         else ret tt
       else ret tt) ;;;
      cleanup_removed_loop rest
  end.

Definition xdg_app_dir_cleanup_removed : M XdgAppDir unit :=
  fun s =>
    match removed_dir s with
    | None => (Ok tt, s)
    | Some (Directory rd) => cleanup_removed_loop rd s
    | Some _ => (Err G_IO_ERROR_NOT_DIRECTORY, s)
    end.

(** The processes that held locks let go of them. *)
Definition release_locks (s : XdgAppDir) : XdgAppDir :=
  mkDir (user s) (repo s) (kind_dirs s) (deploy_dirs s) (removed_dir s)
    (repo_dir s) (elsewhere s) (fun _ => false) (open_max s) (random s)
    (random_pos s) (warnings s).

(** Where the path files/.ref leads from the root of a checkout. *)
Definition checkout_ref_file (checkout : directory) : resolved :=
  resolve MAXSYMLINKS checkout "files/.ref" [] [Child "files"; Child ".ref"].

(** The path files/.ref of a checkout does not climb above the checkout:
    it ends in it, or leaves it by an absolute link. *)
Definition ref_file_stays (checkout : node) : bool :=
  match checkout with
  | Directory co =>
      match checkout_ref_file co with
      | Above _ => false
      | _ => true
      end
  | _ => true
  end.

(** The removed checkout [name] is in use: files/.ref opens for reading
    and writing, and another process holds a lock on the file opened. *)
Definition checkout_locked (s : XdgAppDir) (name : string) (checkout : node)
  : bool :=
  match checkout with
  | Directory co =>
      match checkout_ref_file co with
      | FoundFile _ _ _ | FoundSpecial _ _ => wrlck s name
      | Outside target | Above target => elsewhere s target && wrlck s name
      | FoundDirectory _ | Missing _ _ | Unresolved _ => false
      end
  | _ => false
  end.

(** What [xdg_app_dir_cleanup_removed] leaves of .removed: what is no
    directory, and the directories in use. *)
Definition kept_in_removed (s : XdgAppDir) (e : string * node) : bool :=
  negb (is_directory (snd e)) || checkout_locked s (fst e) (snd e).

(** The steps of [xdg_app_dir_undeploy] that move the checkout away. *)
Definition undeploy_move_away (ref checksum : string) (force_remove : bool)
  : M XdgAppDir unit :=
  let deploy_base := xdg_app_dir_get_deploy_dir ref in
  gs_file_ensure_removed_dir ;;;
  tmpname <- gs_fileutil_gen_tmp_name (Some EmptyString) (Some checksum) ;;
  gs_file_rename_to_removed deploy_base checksum tmpname ;;;
  locked <- dir_is_locked tmpname ;;
  if force_remove || negb locked then gs_shutil_rm_rf tmpname
  else ret tt.


(** One deployment of [example_ref]; [active] is a directory, not a link. *)
Definition store_with_active_directory : XdgAppDir :=
  set_deploy_dir example_ref
    (Some (Directory [(checksum_a, example_checkout);
                      ("active", Directory [])]))
    empty_store.

(** Two deployments of [example_ref] whose files/.ref are locked by running
    applications. *)
Definition store_with_locked_deployments : XdgAppDir :=
  mkDir true None (fun _ => None) (deploy_dirs store_with_two_deployments)
    None (Ok empty_repo) (fun _ => false) (fun _ => true) 1024
    (fun _ => "AAAAAAAA") 0 [].


(** A checkout whose files/.ref is a symbolic link to a file of the same
    directory. *)
Definition checkout_with_linked_ref : node :=
  Directory [("files", Directory [(".ref", SymbolicLink "lock");
                                  ("lock", RegularFile [])]);
             ("metadata", RegularFile [LGroup "Application";
                                       LPair "name" "org.example.App"])].

(** A checkout whose files/.ref is a symbolic link that leads nowhere. *)
Definition checkout_with_dangling_ref : node :=
  Directory [("files", Directory [(".ref", SymbolicLink "gone")])].

(** A store whose .removed holds checkouts left by undeploys, one with a
    plain files/.ref, one with a linked and one with a dangling one, a
    stray file and a directory without files/.ref; every lock asked for
    is held. *)
Definition store_with_removed : XdgAppDir :=
  mkDir true None (fun _ => None) (fun _ => None)
    (Some (Directory [("AAAAAAAA-" ++ checksum_a, example_checkout)%string;
                      ("note", RegularFile []);
                      ("BBBBBBBB-" ++ checksum_b, Directory [])%string;
                      ("CCCCCCCC-" ++ checksum_a,
                       checkout_with_linked_ref)%string;
                      ("DDDDDDDD-" ++ checksum_b,
                       checkout_with_dangling_ref)%string]))
    (Ok empty_repo) (fun _ => false) (fun _ => true) 1024
    (fun _ => "AAAAAAAA") 0 [].


(* ================================================================== *)
(** * The world around a rewrite *)

(** The stores [w] and [w'] differ at most in the warnings printed and in
    the random characters used. *)
Definition same_files (w w' : XdgAppDir) : Prop :=
  user w' = user w
  /\ repo w' = repo w
  /\ kind_dirs w' = kind_dirs w
  /\ deploy_dirs w' = deploy_dirs w
  /\ removed_dir w' = removed_dir w
  /\ repo_dir w' = repo_dir w
  /\ elsewhere w' = elsewhere w
  /\ wrlck w' = wrlck w
  /\ open_max w' = open_max w
  /\ random w' = random w.

(** Whatever its outcome, [m] leaves the world around the directory it
    works in as it is, but for warnings and random characters. *)
Definition keeps_files {A} (m : M Export A) : Prop :=
  forall st r st', m st = (r, st') -> same_files (snd st) (snd st').


(** A commit of the example app with a desktop file to export. *)
Definition commit_with_desktop_file : node :=
  Directory [("files", Directory [("bin", Directory [])]);
             ("metadata", RegularFile [LGroup "Application";
                                       LPair "name" "org.example.App"]);
             ("export",
              Directory [("share",
                Directory [("applications",
                  Directory [("org.example.App.desktop",
                              RegularFile desktop_file)])])])].

(** A repository in which the branch of [example_ref] of the remote
    example-remote is at [checksum_b]. *)
Definition repo_with_app : OstreeRepo :=
  mkRepo
    (fun refspec =>
       if streq refspec ("example-remote:" ++ example_ref)%string
       then Some checksum_b else None)
    (fun c => if streq c checksum_b then Some commit_with_desktop_file
              else None)
    (Some g_key_file_new).

(** [checksum_a] is deployed and active, from the remote example-remote;
    [checksum_b] is in the repository. *)
Definition store_before_deploy : XdgAppDir :=
  mkDir true None (fun _ => None)
    (fun r => if streq r example_ref
              then Some (Directory [(checksum_a, example_checkout);
                                    ("origin",
                                     RegularFile [LInvalid "example-remote"]);
                                    ("active", SymbolicLink checksum_a)])
              else None)
    None (Ok repo_with_app)
    (fun _ => false) (fun _ => false) 1024 (fun _ => "AAAAAAAA") 0 [].

(** The root of a commit has a directory [files] in which [.ref] is a
    regular file or not there: no symbolic link is on the way to
    files/.ref. *)
Definition plain_dotref (root : directory) : bool :=
  match dir_lookup "files" root with
  | Some (Directory files) =>
      match dir_lookup ".ref" files with
      | None | Some (RegularFile _) => true
      | Some _ => false
      end
  | _ => false
  end.


(* ================================================================== *)
(** * The current ref of an application *)

(** Run a directory operation in <basedir>/app/[name], the directory of
    the application [name]. *)
Definition in_app_dir {A} (name : string)
  (op : directory -> result (A * directory)) : M XdgAppDir A :=
  fun s =>
    match kind_dirs s "app" with
    | None => (Err G_IO_ERROR_NOT_FOUND, s)
    | Some (Directory names) =>
        match dir_lookup name names with
        | None => (Err G_IO_ERROR_NOT_FOUND, s)
        | Some (Directory dir) =>
            match op dir with
            | Ok (a, dir') =>
                (Ok a,
                 set_kind_dir "app"
                   (Some (Directory (dir_set name (Directory dir') names))) s)
            | Err e => (Err e, s)
            end
        | Some _ => (Err G_IO_ERROR_NOT_DIRECTORY, s)
        end
    | Some _ => (Err G_IO_ERROR_NOT_DIRECTORY, s)
    end.

(** What is at <basedir>/app/[name]/current. *)
Definition current_entry (s : XdgAppDir) (name : string) : option node :=
  match kind_dirs s "app" with
  | Some (Directory names) =>
      match dir_lookup name names with
      | Some (Directory dir) => dir_lookup "current" dir
      | _ => None
      end
  | _ => None
  end.

(** [g_file_query_info] with NOFOLLOW_SYMLINKS of the link [current], then
    [g_strconcat ("app/", name, "/", target, NULL)]: the target of what is
    no symbolic link is NULL, which ends the arguments of g_strconcat. *)
Definition xdg_app_dir_current_ref (name : string)
  : M XdgAppDir (option string) :=
  fun s =>
    match current_entry s name with
    | None => (Ok None, s)
    | Some (SymbolicLink target) =>
        (Ok (Some ("app/" ++ name ++ "/" ++ target)%string), s)
    | Some _ => (Ok (Some ("app/" ++ name ++ "/")%string), s)
    end.

Definition xdg_app_dir_drop_current_ref (name : string) : M XdgAppDir unit :=
  in_app_dir name (fun dir => writes (dir_delete "current" dir)).

(** [xdg_app_dir_make_current_ref]; [None] when one of its two assertions
    fails, which aborts the process. *)
Definition xdg_app_dir_make_current_ref (ref : string)
  : option (M XdgAppDir unit) :=
  let ref_parts := g_strsplit_slash ref in
  if Nat.eqb (length ref_parts) 4
     && streq (nth 0 ref_parts EmptyString) "app"
  then
    Some
      (let dir := nth 1 ref_parts EmptyString in
       (* the outcome of this delete is not looked at *)
       attempt (in_app_dir dir (fun d => writes (dir_delete "current" d))) ;;;
       if negb (streq (nth 3 ref_parts EmptyString) EmptyString) then
         let rest :=
           (nth 2 ref_parts EmptyString ++ "/"
              ++ nth 3 ref_parts EmptyString)%string in
         in_app_dir dir (fun d => writes (dir_symlink "current" rest d))
       else ret tt)
  else None.

(** An application directory with two branches and no current link. *)
Definition store_with_branches : XdgAppDir :=
  set_kind_dir "app"
    (Some (Directory
       [("org.example.App",
         Directory [("x86_64", Directory [("stable", Directory []);
                                          ("master", Directory [])])])]))
    empty_store.

(** The same, with the current link of the application set to its stable
    branch. *)
Definition store_with_current : XdgAppDir :=
  set_kind_dir "app"
    (Some (Directory
       [("org.example.App",
         Directory [("x86_64", Directory [("stable", Directory []);
                                          ("master", Directory [])]);
                    ("current", SymbolicLink "x86_64/stable")])]))
    empty_store.


(** An application directory in which [current] is a directory. *)
Definition store_with_current_directory : XdgAppDir :=
  set_kind_dir "app"
    (Some (Directory
       [("org.example.App",
         Directory [("x86_64", Directory [("stable", Directory [])]);
                    ("current", Directory [])])]))
    empty_store.


(* ================================================================== *)
(** * Deployed checkouts *)

Section IfDeployed.

(** Whether what a link out of the deploy base leads to is a directory. *)
Variable elsewhere_is_directory : string -> bool.

(** [g_file_query_file_type (..., G_FILE_QUERY_INFO_NONE, ...)
    == G_FILE_TYPE_DIRECTORY] for the entry [name] of [d]: symbolic links
    are followed, as in [dir_exists]. *)
Fixpoint dir_is_directory (fuel : nat) (d : directory) (name : string)
  : bool :=
  match dir_lookup name d with
  | None => false
  | Some (SymbolicLink target) =>
      match fuel with
      | O => false
      | S fuel' =>
          if is_file_name target then dir_is_directory fuel' d target
          else elsewhere_is_directory target
      end
  | Some (Directory _) => true
  | Some _ => false
  end.

(** The path of the checkout [checksum] of [ref], or of its active
    checkout, relative to the base directory, if it is a directory. *)
Definition xdg_app_dir_get_if_deployed (self : XdgAppDir) (ref : string)
  (checksum : option string) : option string :=
  let deploy_base := xdg_app_dir_get_deploy_dir ref in
  let name := match checksum with Some c => c | None => "active" end in
  match deploy_dirs self deploy_base with
  | Some (Directory d) =>
      if dir_is_directory MAXSYMLINKS d name
      then Some (deploy_base ++ "/" ++ name)%string
      else None
  | _ => None
  end.

End IfDeployed.


(* ================================================================== *)
(** * The export tree after a rewrite *)

(** Every directory of the tree has entries of distinct names. *)
Inductive wf_export : directory -> Prop :=
| wf_export_intro (d : directory) :
    NoDup (map fst d) ->
    (forall name sub, In (name, Directory sub) d -> wf_export sub) ->
    wf_export d.

Section RewrittenTree.
Context `{Platform}.

(** What [export_desktop_file] writes for a file of contents [data]. *)
Definition rewritten_data (app branch arch : string) (data : text) : text :=
  match g_key_file_load_from_data locale_is_interesting data
          G_KEY_FILE_KEEP_TRANSLATIONS with
  | Ok keyfile =>
      g_key_file_to_data
        (fold_left (rewrite_group app branch arch)
           (g_key_file_get_groups keyfile) keyfile)
  | Err _ => data
  end.

(** What a rewrite that succeeds leaves of the entries of a directory,
    [rewritten_node] being what it leaves of a subdirectory: directories
    stay; regular files with the prefix of the application stay, those
    with a launcher suffix with new contents; all else is deleted. *)
Fixpoint rewritten_list (app branch arch : string)
  (rewritten_node : node -> node) (entries : directory) : directory :=
  match entries with
  | [] => []
  | (name, x) :: rest =>
      match x with
      | Directory _ =>
          (name, rewritten_node x)
            :: rewritten_list app branch arch rewritten_node rest
      | RegularFile data =>
          if xdg_app_has_name_prefix name app then
            (name,
             RegularFile
               (if g_str_has_suffix name ".desktop"
                   || g_str_has_suffix name ".service"
                then rewritten_data app branch arch data
                else data))
              :: rewritten_list app branch arch rewritten_node rest
          else rewritten_list app branch arch rewritten_node rest
      | _ => rewritten_list app branch arch rewritten_node rest
      end
  end.

Fixpoint rewritten_node (app branch arch : string) (n : node) : node :=
  match n with
  | Directory children =>
      Directory
        (rewritten_list app branch arch (rewritten_node app branch arch)
           children)
  | _ => n
  end.

Definition rewritten_entries (app branch arch : string) (d : directory)
  : directory :=
  rewritten_list app branch arch (rewritten_node app branch arch) d.

(** An entry as a rewrite leaves them: a regular file with the prefix of
    the application, or a directory of such entries. *)
#[warnings="-register-all"]
Inductive exported_entry (app : string) : string * node -> Prop :=
| exported_file (name : string) (data : text) :
    xdg_app_has_name_prefix name app = true ->
    exported_entry app (name, RegularFile data)
| exported_directory (name : string) (sub : directory) :
    Forall (exported_entry app) sub ->
    exported_entry app (name, Directory sub).

End RewrittenTree.

(** An export tree with a launcher of the application, an icon of it, a
    file of another name, a symbolic link and a fifo. *)
Definition export_with_strays : directory :=
  [("share",
    Directory [("applications",
                Directory [("org.example.App.desktop",
                            RegularFile desktop_file);
                           ("mimeinfo.cache", RegularFile [])]);
               ("icons",
                Directory [("org.example.App.png", RegularFile []);
                           ("gedit.png", SymbolicLink "/usr/share/gedit.png")]);
               ("fifo", SpecialFile)])].


(** What a rewrite for the example application leaves of
    [export_with_strays]. *)
Definition export_without_strays : directory :=
  [("share",
    Directory [("applications",
                Directory [("org.example.App.desktop",
                            RegularFile
                              [LGroup "Desktop Entry";
                               LPair "Name" "Example";
                               LPair "Exec"
                                 "/usr/bin/xdg-app run --branch=stable --arch=x86_64 --command=gedit org.example.App %U"])]);
               ("icons",
                Directory [("org.example.App.png", RegularFile [])])])].


(* ================================================================== *)
(** * Collecting the deployed names *)

(** [g_file_query_exists] of the path [path] below the directory [d].  A
    symbolic link on the way leads out of the tree; whether the rest of
    the path resolves from there is answered by [elsewhere]. *)
Fixpoint path_exists (elsewhere : string -> bool) (d : directory)
  (path : list string) : bool :=
  match path with
  | [] => true
  | [name] => dir_exists MAXSYMLINKS elsewhere d name
  | name :: rest =>
      match dir_lookup name d with
      | Some (Directory sub) => path_exists elsewhere sub rest
      | Some (SymbolicLink target) =>
          elsewhere (target ++ "/" ++ String.concat "/" rest)%string
      | _ => false
      end
  end.

(** [g_hash_table_add] to a table used as a set of strings. *)
Definition g_hash_table_add (hash : list string) (key : string)
  : list string :=
  if existsb (streq key) hash then hash else hash ++ [key].

(** The loop of [xdg_app_dir_collect_deployed_refs] over the children of
    <basedir>/<type>. *)
Fixpoint collect_deployed_refs_loop (elsewhere : string -> bool)
  (name_prefix : option string) (branch arch : string)
  (dir_enum : directory) (hash : list string) : list string :=
  match dir_enum with
  | [] => hash
  | (name, child_info) :: rest =>
      collect_deployed_refs_loop elsewhere name_prefix branch arch rest
        match child_info with
        | Directory child1 =>
            if negb (starts_with_dot name)
               && match name_prefix with
                  | None => true
                  | Some name_prefix => g_str_has_prefix name name_prefix
                  end
            then
              (* child2 is the child [branch] of child1, child3 the child
                 [arch] of child2 *)
              if path_exists elsewhere child1 [branch; arch; "active"]
              then g_hash_table_add hash name
              else hash
            else hash
        | _ => hash
        end
  end.

Definition xdg_app_dir_collect_deployed_refs (self : XdgAppDir)
  (type : string) (name_prefix : option string) (branch arch : string)
  (hash : list string) : result (list string) :=
  match kind_dirs self type with
  | None => Ok hash
  | Some (Directory dir_enum) =>
      Ok (collect_deployed_refs_loop (elsewhere self) name_prefix branch arch
            dir_enum hash)
  | Some _ => Err G_IO_ERROR_NOT_DIRECTORY
  end.

(** What makes the loop add the name of an entry. *)
Definition collected (elsewhere : string -> bool)
  (name_prefix : option string) (branch arch : string)
  (e : string * node) : bool :=
  match snd e with
  | Directory child1 =>
      negb (starts_with_dot (fst e))
      && match name_prefix with
         | None => true
         | Some name_prefix => g_str_has_prefix (fst e) name_prefix
         end
      && path_exists elsewhere child1 [branch; arch; "active"]
  | _ => false
  end.

(** <basedir>/app with one application, deployed for the arch x86_64 and
    the branch stable, and a hidden directory. *)
Definition store_with_deployed_app : XdgAppDir :=
  set_kind_dir "app"
    (Some (Directory
       [("org.example.App",
         Directory [("x86_64",
                     Directory [("stable",
                                 Directory [(checksum_a, example_checkout);
                                            ("active",
                                             SymbolicLink checksum_a)])])]);
        (".hidden", Directory [])]))
    empty_store.


(* ================================================================== *)
(** * Exporting the files of a deployment *)

Section ExportDir.

(** GLib's [g_build_filename], on the list of its arguments. *)
Variable g_build_filename : list string -> string.

(** symlinkat(2). *)
Definition symlinkat (target name : string) (d : directory)
  : result directory :=
  if streq target EmptyString then Err G_IO_ERROR_NOT_FOUND
  else
    match dir_lookup name d with
    | Some _ => Err G_IO_ERROR_EXISTS
    | None => Ok (dir_set name (SymbolicLink target) d)
    end.

(** [unlinkat (dfd, name, 0) != 0 && errno != ENOENT] is the failure. *)
Definition unlinkat_in (name : string) (d : directory) : result directory :=
  match dir_lookup name d with
  | None => Ok d
  | Some (Directory _) => Err G_IO_ERROR_IS_DIRECTORY
  | Some _ => Ok (dir_remove name d)
  end.

(** The outcome of an export into a directory and what it leaves of the
    directory; [None] when the export follows a symbolic link out of the
    directory. *)
Definition Exported : Type := option (result unit * directory).

(** The loop of [export_dir] over the entries of the source directory;
    [recurse] is the call for a subdirectory. *)
Fixpoint export_entries
  (recurse : directory -> string -> string -> string -> directory -> Exported)
  (source_symlink_prefix source_relpath : string) (dents : directory)
  (destination : directory) : Exported :=
  match dents with
  | [] => Some (Ok tt, destination)
  | (d_name, stbuf) :: rest =>
      match stbuf with
      | Directory sub =>
          let child_symlink_prefix :=
            g_build_filename [".."; source_symlink_prefix; d_name] in
          let child_relpath := (source_relpath ++ d_name ++ "/")%string in
          match recurse sub child_symlink_prefix child_relpath d_name
                  destination with
          | Some (Ok _, destination') =>
              export_entries recurse source_symlink_prefix source_relpath
                rest destination'
          | failed => failed
          end
      | RegularFile _ =>
          let target := g_build_filename [source_symlink_prefix; d_name] in
          match unlinkat_in d_name destination with
          | Err e => Some (Err e, destination)
          | Ok unlinked =>
              match symlinkat target d_name unlinked with
              | Err e => Some (Err e, unlinked)
              | Ok linked =>
                  export_entries recurse source_symlink_prefix source_relpath
                    rest linked
              end
          end
      | _ =>
          export_entries recurse source_symlink_prefix source_relpath rest
            destination
      end
  end.

(** [export_dir] of the open source directory [source] into the entry
    [destination_name] of [destination_parent].  The iterator of the
    source and the descriptor of the destination are open while the
    entries are gone through; [fds] are the descriptors that can still be
    opened. *)
Fixpoint export_dir (fds : nat) (source : directory)
  (source_symlink_prefix source_relpath destination_name : string)
  (destination_parent : directory) : Exported :=
  match fds with
  | O => Some (Err G_IO_ERROR_TOO_MANY_OPEN_FILES, destination_parent)
  | S fds =>
      (* mkdirat; EEXIST is no failure *)
      let destination_parent :=
        match dir_lookup destination_name destination_parent with
        | None => dir_set destination_name (Directory []) destination_parent
        | Some _ => destination_parent
        end in
      match fds with
      | O => Some (Err G_IO_ERROR_TOO_MANY_OPEN_FILES, destination_parent)
      | S fds =>
          match dir_lookup destination_name destination_parent with
          | Some (Directory destination) =>
              match export_entries (export_dir fds) source_symlink_prefix
                      source_relpath source destination with
              | Some (r, destination') =>
                  Some (r, dir_set destination_name (Directory destination')
                             destination_parent)
              | None => None
              end
          | Some (SymbolicLink _) => None
          | _ => Some (Err G_IO_ERROR_NOT_DIRECTORY, destination_parent)
          end
      end
  end.

(** What an export of the entries [source] makes of a directory that was
    [before]: [after] has a symbolic link for every regular file of the
    source, and what [exported_sub] says for every directory of it; the
    entries of other names are those of [before]. *)
Fixpoint exported_entries
  (exported_sub : node -> string -> option node -> option node -> Prop)
  (source_symlink_prefix : string) (source : directory)
  (before after : directory) : Prop :=
  match source with
  | [] => True
  | (name, x) :: rest =>
      match x with
      | Directory _ =>
          exported_sub x
            (g_build_filename [".."; source_symlink_prefix; name])
            (dir_lookup name before) (dir_lookup name after)
      | RegularFile _ =>
          dir_lookup name after
          = Some (SymbolicLink
                    (g_build_filename [source_symlink_prefix; name]))
      | _ => dir_lookup name after = dir_lookup name before
      end
      /\ exported_entries exported_sub source_symlink_prefix rest before after
  end.

(** What an export of the directory [source] makes of an entry that was
    [before]: a directory, made if there was none. *)
Fixpoint exported_node (source : node) (source_symlink_prefix : string)
  (before after : option node) : Prop :=
  match source with
  | Directory sub =>
      exists was now,
        (before = Some (Directory was) \/ (before = None /\ was = []))
        /\ after = Some (Directory now)
        /\ exported_entries exported_node source_symlink_prefix sub was now
        /\ forall name, ~ In name (map fst sub) ->
                        dir_lookup name now = dir_lookup name was
  | _ => True
  end.

End ExportDir.

(** [g_build_filename] on arguments that are not empty and neither begin
    nor end with a slash. *)
Definition join_with_slashes (elements : list string) : string :=
  String.concat "/" elements.

(** The export directory of a deployment: a launcher, an icon, and a
    symbolic link that is not exported. *)
Definition export_of_deployment : directory :=
  [("share",
    Directory [("applications",
                Directory [("org.example.App.desktop",
                            RegularFile desktop_file)]);
               ("icons",
                Directory [("org.example.App.png", RegularFile []);
                           ("hicolor", SymbolicLink "/usr/share/icons")])])].

(** <basedir>, with an exports directory that holds the launcher of
    another application. *)
Definition base_with_exports : directory :=
  [("exports",
    Directory [("share",
                Directory [("applications",
                            Directory
                              [("org.example.Other.desktop",
                                SymbolicLink
                                  "../../../app/org.example.Other/current/active/export/share/applications/org.example.Other.desktop")])])])].


(* ================================================================== *)
(** * Reading an exported file *)

(** The errors of the domain G_FILE_ERROR that [read_fd] sets. *)
Inductive GFileError : Type :=
| G_FILE_ERROR_NOMEM
| G_FILE_ERROR_FROM_ERRNO (save_errno : nat).

(** What a call of read(2) does: it is interrupted by a signal (EINTR), it
    fails with another errno, or it delivers bytes, [S chunk] of them at
    most, fewer when fewer are asked for or left in the file. *)
Inductive read_call : Type :=
| Interrupted
| Failing (errno : nat)
| Delivering (chunk : nat).

(** The loop of [read_fd]: [file] is what is left of the file at the
    offset of the descriptor, [left] is size - bytes_read, [buf] the bytes
    read so far.  After the calls of [calls], a read delivers all that is
    asked for, or all that is left. *)
Fixpoint read_fd_loop (calls : list read_call) (file : list Byte.byte)
  (left : nat) (buf : list Byte.byte) : GFileError + list Byte.byte :=
  match left with
  | O => inr buf
  | S _ =>
      match calls with
      | [] => inr (buf ++ firstn (Nat.min left (List.length file)) file)
      | Interrupted :: calls => read_fd_loop calls file left buf
      | Failing errno :: _ => inl (G_FILE_ERROR_FROM_ERRNO errno)
      | Delivering chunk :: calls =>
          let rc := Nat.min (S chunk) (Nat.min left (List.length file)) in
          match rc with
          | O => inr buf                               (* end of file *)
          | S _ =>
              read_fd_loop calls (skipn rc file) (left - rc)
                (buf ++ firstn rc file)
          end
      end
  end.

(** [read_fd] on a descriptor at the beginning of [file], of which fstat
    gave the size [st_size]; the contents returned are without the NUL
    that ends them. *)
Definition read_fd (enough_memory : bool) (calls : list read_call)
  (file : list Byte.byte) (st_size : nat) : GFileError + list Byte.byte :=
  if negb enough_memory then inl G_FILE_ERROR_NOMEM
  else read_fd_loop calls file st_size [].


(* ================================================================== *)
(** * The lines of a key in a group *)

(** The values of the pairs of [key] among [pairs], in their order: all of
    them, not only the one the lookup finds. *)
Definition pair_values (key : string) (pairs : list GKeyFileKeyValuePair)
  : list string :=
  flat_map (fun p => match p with
                     | Pair k v => if streq k key then [v] else []
                     | Comment _ => []
                     end) pairs.

(** The values that [g_key_file_to_data] writes for [key] under the header
    of [group], one line each. *)
Definition g_key_file_values (kf : GKeyFile) (group key : string)
  : list string :=
  match g_key_file_lookup_group (groups kf) group with
  | Some g => pair_values key (key_value_pairs g)
  | None => []
  end.

(** A desktop file in which [TryExec] comes twice. *)
Definition desktop_file_with_two_tryexec : text :=
  [LGroup "Desktop Entry";
   LPair "TryExec" "first";
   LPair "Name" "Example";
   LPair "TryExec" "second";
   LPair "Exec" "gedit %U"].

Definition export_with_two_tryexec : directory :=
  [("org.example.App.desktop", RegularFile desktop_file_with_two_tryexec)].


(* ================================================================== *)
(** * A lock behind a symbolic link *)

(** One deployment of [example_ref], made from a checkout with a linked
    files/.ref and in use: a process holds the lock. *)
Definition store_with_linked_ref : XdgAppDir :=
  mkDir true None (fun _ => None)
    (fun r => if streq r example_ref
              then Some (Directory [(checksum_a, checkout_with_linked_ref)])
              else None)
    None (Ok empty_repo) (fun _ => false) (fun _ => true) 1024
    (fun _ => "AAAAAAAA") 0 [].


(* ================================================================== *)
(* THEOREMS *)
(* ================================================================== *)

(** * Directories *)

Lemma streq_refl (a : string) : streq a a = true.
Proof. apply String.eqb_refl. Qed.

Lemma streq_true (a b : string) : streq a b = true <-> a = b.
Proof. apply String.eqb_eq. Qed.

Lemma streq_false (a b : string) : streq a b = false <-> a <> b.
Proof. apply String.eqb_neq. Qed.

Lemma dir_lookup_set_same (name : string) (x : node) (d : directory) :
  dir_lookup name (dir_set name x d) = Some x.
Proof.
  induction d as [|[n y] d IH]; simpl.
  - now rewrite streq_refl.
  - destruct (streq n name) eqn:E; simpl; now rewrite E.
Qed.

Lemma dir_lookup_set_other (name other : string) (x : node) (d : directory) :
  other <> name ->
  dir_lookup other (dir_set name x d) = dir_lookup other d.
Proof.
  intros Hne. induction d as [|[n y] d IH]; simpl.
  - destruct (streq name other) eqn:E; [|reflexivity].
    apply streq_true in E. congruence.
  - destruct (streq n name) eqn:E; simpl.
    + apply streq_true in E. subst n.
      destruct (streq name other) eqn:E'; [|reflexivity].
      apply streq_true in E'. congruence.
    + now rewrite IH.
Qed.

Lemma dir_lookup_remove_same (name : string) (d : directory) :
  dir_lookup name (dir_remove name d) = None.
Proof.
  induction d as [|[n y] d IH]; simpl; [reflexivity|].
  destruct (streq n name) eqn:E; simpl; [assumption|].
  now rewrite E.
Qed.

Lemma dir_lookup_remove_other (name other : string) (d : directory) :
  other <> name ->
  dir_lookup other (dir_remove name d) = dir_lookup other d.
Proof.
  intros Hne. induction d as [|[n y] d IH]; simpl; [reflexivity|].
  destruct (streq n name) eqn:E; simpl.
  - apply streq_true in E. subst n.
    destruct (streq name other) eqn:E'; [|assumption].
    apply streq_true in E'. congruence.
  - now rewrite IH.
Qed.

Lemma deploy_dirs_set_same (ref : string) (n : option node) (s : XdgAppDir) :
  deploy_dirs (set_deploy_dir ref n s) ref = n.
Proof. simpl. now rewrite streq_refl. Qed.

(** * The monad *)

Lemma bind_ok {S A B} (m : M S A) (k : A -> M S B) (s s' : S) (b : B) :
  bind m k s = (Ok b, s') ->
  exists a s1, m s = (Ok a, s1) /\ k a s1 = (Ok b, s').
Proof.
  unfold bind. destruct (m s) as [[a|e] s1]; intros H.
  - now exists a, s1.
  - discriminate.
Qed.

Lemma in_deploy_dir_ok {A} (deploy_base : string)
  (op : directory -> result (A * directory)) (s s' : XdgAppDir) (a : A) :
  in_deploy_dir deploy_base op s = (Ok a, s') ->
  exists d d', deploy_dirs s deploy_base = Some (Directory d)
    /\ op d = Ok (a, d')
    /\ s' = set_deploy_dir deploy_base (Some (Directory d')) s.
Proof.
  unfold in_deploy_dir.
  destruct (deploy_dirs s deploy_base) as [[| |d|]|]; try discriminate.
  destruct (op d) as [[a' d']|e] eqn:E; try discriminate.
  intros H. inversion H; subst. now exists d, d'.
Qed.

Lemma writes_ok (r : result directory) (u : unit) (d : directory) :
  writes r = Ok (u, d) -> r = Ok d.
Proof. destruct r; simpl; congruence. Qed.

(** * Paths *)

Lemma resolve_eq (fuel : nat) (root : directory) (via : string)
  (cwd : list string) (steps : list step) :
  resolve fuel root via cwd steps
  = match steps with
    | [] => FoundDirectory cwd
    | Stay :: rest => resolve fuel root via cwd rest
    | Parent :: rest =>
        match cwd with
        | [] => Above via
        | _ :: _ => resolve fuel root via (removelast cwd) rest
        end
    | Child name :: rest =>
        match tree_lookup root (cwd ++ [name]) with
        | None =>
            match rest with
            | [] => Missing cwd name
            | _ :: _ => Unresolved G_IO_ERROR_NOT_FOUND
            end
        | Some (Directory _) => resolve fuel root via (cwd ++ [name]) rest
        | Some (RegularFile data) =>
            match rest with
            | [] => FoundFile cwd name data
            | _ :: _ => Unresolved G_IO_ERROR_NOT_DIRECTORY
            end
        | Some SpecialFile =>
            match rest with
            | [] => FoundSpecial cwd name
            | _ :: _ => Unresolved G_IO_ERROR_NOT_DIRECTORY
            end
        | Some (SymbolicLink target) =>
            match fuel with
            | O => Unresolved G_IO_ERROR_TOO_MANY_LINKS
            | S fuel' =>
                if streq target EmptyString
                then Unresolved G_IO_ERROR_NOT_FOUND
                else if is_absolute target then Outside target
                else resolve fuel' root target cwd (path_steps target ++ rest)
            end
        end
    end.
Proof. destruct fuel; destruct steps as [|[name| |] rest]; reflexivity. Qed.

Lemma tree_lookup_below (rd co : directory) (name : string)
  (path : list string) :
  dir_lookup name rd = Some (Directory co) ->
  tree_lookup rd (name :: path) = tree_lookup co path.
Proof. intros Hl. simpl. now rewrite Hl. Qed.

(** A walk in a subdirectory that does not climb above it is the same
    walk in the tree. *)
Lemma resolve_below (rd co : directory) (name : string) :
  dir_lookup name rd = Some (Directory co) ->
  forall fuel via cwd steps,
    (forall t, resolve fuel co via cwd steps <> Above t) ->
    resolve fuel rd via (name :: cwd) steps
    = below name (resolve fuel co via cwd steps).
Proof.
  intros Hl. induction fuel as [|fuel IHf]; intros via cwd steps;
    revert cwd; induction steps as [|[n| |] rest IHs]; intros cwd Hno;
    rewrite (resolve_eq _ rd); rewrite (resolve_eq _ co) in Hno |- *;
    try reflexivity;
    try (now apply IHs);
    try (destruct cwd as [|c cwd];
         [now elim (Hno via)
         |change (removelast (name :: c :: cwd))
            with (name :: removelast (c :: cwd)); now apply IHs]);
    change ((name :: cwd) ++ [n]) with (name :: (cwd ++ [n]));
    rewrite (tree_lookup_below rd co name _ Hl);
    destruct (tree_lookup co (cwd ++ [n])) as [[data|target|sub|]|];
    try (destruct rest; reflexivity);
    try (now apply IHs);
    try reflexivity.
  destruct (streq target EmptyString); [reflexivity|].
  destruct (is_absolute target); [reflexivity|].
  now apply IHf.
Qed.

Lemma resolve_found_file (root : directory) (fuel : nat) (via : string)
  (cwd : list string) (steps : list step) (dir : list string)
  (name : string) (data : text) :
  resolve fuel root via cwd steps = FoundFile dir name data ->
  tree_lookup root (dir ++ [name]) = Some (RegularFile data).
Proof.
  revert via cwd steps. induction fuel as [|fuel IHf]; intros via cwd steps;
    revert cwd; induction steps as [|[n| |] rest IHs]; intros cwd;
    rewrite resolve_eq; try discriminate; try (now apply IHs);
    try (destruct cwd; [discriminate|now apply IHs]);
    destruct (tree_lookup root (cwd ++ [n])) as [[d|target|sub|]|] eqn:E;
    try (destruct rest; discriminate);
    try (now apply IHs);
    try discriminate;
    try (destruct rest; [|discriminate];
         intros Heq; injection Heq as <- <- <-; exact E).
  destruct (streq target EmptyString); [discriminate|].
  destruct (is_absolute target); [discriminate|].
  now apply IHf.
Qed.

Lemma resolve_missing (root : directory) (fuel : nat) (via : string)
  (cwd : list string) (steps : list step) (dir : list string)
  (name : string) :
  resolve fuel root via cwd steps = Missing dir name ->
  tree_lookup root (dir ++ [name]) = None.
Proof.
  revert via cwd steps. induction fuel as [|fuel IHf]; intros via cwd steps;
    revert cwd; induction steps as [|[n| |] rest IHs]; intros cwd;
    rewrite resolve_eq; try discriminate; try (now apply IHs);
    try (destruct cwd; [discriminate|now apply IHs]);
    destruct (tree_lookup root (cwd ++ [n])) as [[d|target|sub|]|] eqn:E;
    try (destruct rest; discriminate);
    try (now apply IHs);
    try discriminate;
    try (destruct rest; [|discriminate];
         intros Heq; injection Heq as <- <-; exact E).
  destruct (streq target EmptyString); [discriminate|].
  destruct (is_absolute target); [discriminate|].
  now apply IHf.
Qed.

(** A file written where there was a file or nothing leaves every entry
    of the root of the tree a directory, a link or another file as it
    was. *)
Lemma tree_set_file_entry (root : directory) (path : list string)
  (name : string) :
  (path <> [] ->
   tree_lookup root path = None
   \/ exists data, tree_lookup root path = Some (RegularFile data)) ->
  match dir_lookup name root with
  | Some (Directory _) =>
      exists y, dir_lookup name (tree_set root path (RegularFile []))
                = Some (Directory y)
  | Some (SymbolicLink target) =>
      dir_lookup name (tree_set root path (RegularFile []))
      = Some (SymbolicLink target)
  | Some SpecialFile =>
      dir_lookup name (tree_set root path (RegularFile [])) = Some SpecialFile
  | Some (RegularFile _) | None =>
      dir_lookup name (tree_set root path (RegularFile [])) = None
      \/ exists data, dir_lookup name (tree_set root path (RegularFile []))
                      = Some (RegularFile data)
  end.
Proof.
  intros Hwas.
  assert (Hsame : dir_lookup name (tree_set root path (RegularFile []))
                  = dir_lookup name root ->
          match dir_lookup name root with
          | Some (Directory _) =>
              exists y, dir_lookup name (tree_set root path (RegularFile []))
                        = Some (Directory y)
          | Some (SymbolicLink target) =>
              dir_lookup name (tree_set root path (RegularFile []))
              = Some (SymbolicLink target)
          | Some SpecialFile =>
              dir_lookup name (tree_set root path (RegularFile []))
              = Some SpecialFile
          | Some (RegularFile _) | None =>
              dir_lookup name (tree_set root path (RegularFile [])) = None
              \/ exists data,
                  dir_lookup name (tree_set root path (RegularFile []))
                  = Some (RegularFile data)
          end).
  { intros ->. destruct (dir_lookup name root) as [[data|target|y|]|]; eauto. }
  destruct path as [|n [|m rest]]; [now apply Hsame| |].
  - cbn [tree_set] in Hsame |- *. destruct (string_dec name n) as [->|Hne].
    + rewrite dir_lookup_set_same.
      assert (Hl : tree_lookup root [n] = dir_lookup n root).
      { simpl. now destruct (dir_lookup n root) as [[| | |]|]. }
      rewrite Hl in Hwas.
      destruct Hwas as [->|(data & ->)]; [discriminate| |]; eauto.
    + rewrite dir_lookup_set_other in Hsame |- * by assumption.
      now apply Hsame.
  - cbn [tree_set] in Hsame |- *.
    destruct (dir_lookup n root) as [[data|target|y|]|] eqn:En;
      try (now apply Hsame).
    destruct (string_dec name n) as [->|Hne].
    + rewrite dir_lookup_set_same, En. eauto.
    + rewrite dir_lookup_set_other in Hsame |- * by assumption.
      now apply Hsame.
Qed.

(** The probe of the lock changes nothing. *)
Lemma dir_is_locked_run (name : string) (s : XdgAppDir) :
  exists b, dir_is_locked name s = (Ok b, s).
Proof.
  unfold dir_is_locked.
  destruct (removed_dir s) as [[| |rd|]|]; eauto.
  destruct (ref_file rd name); eauto.
Qed.

(** * Set-active and read-active *)

Lemma tmp_active_name_not_active (r x : string) :
  streq (".active-" ++ r ++ "-" ++ x)%string "active" = false.
Proof. reflexivity. Qed.

Lemma read_active_of_entry (s : XdgAppDir) (ref : string) :
  xdg_app_dir_read_active ref s =
  (Ok match active_entry s ref with
      | Some (SymbolicLink target) => Some target
      | _ => None
      end, s).
Proof.
  unfold xdg_app_dir_read_active, active_entry.
  destruct (deploy_dirs s (xdg_app_dir_get_deploy_dir ref)) as [[| |d|]|];
    try reflexivity.
  destruct (dir_lookup "active" d) as [[| | |]|]; reflexivity.
Qed.

(** The state after a successful set-active to a checksum. *)
Lemma set_active_some_ok (ref c : string) (s s' : XdgAppDir) :
  xdg_app_dir_set_active ref (Some c) s = (Ok tt, s') ->
  exists d tmpname,
    deploy_dirs s ref = Some (Directory d)
    /\ tmpname = (".active-" ++ random s (random_pos s) ++ "-tmp")%string
    /\ dir_lookup tmpname d = None
    /\ c <> EmptyString
    /\ s' = set_deploy_dir ref
              (Some (Directory
                 (dir_set "active" (SymbolicLink c)
                    (dir_remove tmpname
                       (dir_set tmpname (SymbolicLink c) d)))))
              (set_deploy_dir ref
                 (Some (Directory (dir_set tmpname (SymbolicLink c) d)))
                 (set_random_pos (S (random_pos s)) s)).
Proof.
  unfold xdg_app_dir_set_active, xdg_app_dir_get_deploy_dir.
  intros H.
  apply bind_ok in H as (tmpname & s1 & Hgen & H).
  unfold gs_fileutil_gen_tmp_name in Hgen. inversion Hgen; subst; clear Hgen.
  apply bind_ok in H as ([] & s2 & Hlink & Hren).
  apply in_deploy_dir_ok in Hlink as (d & d1 & Hd & Hop & ->).
  apply writes_ok in Hop. unfold dir_symlink in Hop.
  destruct (streq c EmptyString) eqn:Ec; [discriminate|].
  match type of Hop with
  | context [dir_lookup ?t d] => destruct (dir_lookup t d) eqn:Etmp
  end; [discriminate|].
  inversion Hop; subst d1; clear Hop.
  apply in_deploy_dir_ok in Hren as (d2 & d3 & Hd2 & Hop & ->).
  rewrite deploy_dirs_set_same in Hd2. inversion Hd2; subst d2; clear Hd2.
  apply writes_ok in Hop. unfold dir_rename in Hop.
  rewrite dir_lookup_set_same in Hop.
  match type of Hop with
  | context [streq ?a "active"] => change (streq a "active") with false in Hop
  end.
  match type of Hop with
  | context [rename_over ?a ?b] => destruct (rename_over a b)
  end; [|discriminate].
  inversion Hop; subst d3; clear Hop.
  simpl in Hd. exists d. eexists. repeat split; try eassumption.
  now apply streq_false.
Qed.

(** The state after a successful set-active to no checksum. *)
Lemma set_active_none_ok (ref : string) (s s' : XdgAppDir) :
  xdg_app_dir_set_active ref None s = (Ok tt, s') ->
  active_entry s' ref = None.
Proof.
  unfold xdg_app_dir_set_active, xdg_app_dir_get_deploy_dir, active_entry.
  intros H. apply bind_ok in H as (r & s1 & Hdel & H).
  unfold attempt in Hdel.
  destruct (g_file_delete ref "active" s) as [r' s1'] eqn:E.
  inversion Hdel; subst r' s1'; clear Hdel.
  destruct r as [[]|e].
  - inversion H; subst s'; clear H.
    apply in_deploy_dir_ok in E as (d & d' & Hd & Hop & ->).
    rewrite deploy_dirs_set_same.
    apply writes_ok in Hop. unfold dir_delete in Hop.
    destruct (dir_lookup "active" d) as [[| |[|]|]|]; try discriminate;
      inversion Hop; apply dir_lookup_remove_same.
  - destruct (GError_eqb e G_IO_ERROR_NOT_FOUND) eqn:Ee; [|discriminate].
    inversion H; subst s'; clear H.
    destruct e; try discriminate.
    unfold g_file_delete, in_deploy_dir in E.
    unfold xdg_app_dir_get_deploy_dir.
    destruct (deploy_dirs s ref) as [[| |d|]|] eqn:Hd;
      try (inversion E; subst; rewrite Hd; reflexivity).
    destruct (writes (dir_delete "active" d)) as [[u d']|e] eqn:Ew.
    + inversion E.
    + inversion E; subst. rewrite Hd.
      unfold dir_delete in Ew.
      destruct (dir_lookup "active" d) as [[| |[|]|]|]; simpl in Ew;
        try discriminate; reflexivity.
Qed.

(** C2.  After a successful set-active to a checksum [c], read-active
    returns exactly [c].  A set-active to no checksum that succeeds leaves
    read-active absent, and it does succeed whenever [active] is a symbolic
    link or does not exist: absence of the file is not an error. *)
Theorem set_active_read_active (s : XdgAppDir) (ref : string) :
  (forall c s',
      xdg_app_dir_set_active ref (Some c) s = (Ok tt, s') ->
      xdg_app_dir_read_active ref s' = (Ok (Some c), s'))
  /\ (forall s',
      xdg_app_dir_set_active ref None s = (Ok tt, s') ->
      xdg_app_dir_read_active ref s' = (Ok None, s'))
  /\ (active_is_link_or_absent s ref ->
      exists s', xdg_app_dir_set_active ref None s = (Ok tt, s')
                 /\ xdg_app_dir_read_active ref s' = (Ok None, s')).
Proof.
  assert (Hnone : forall s0 s',
             xdg_app_dir_set_active ref None s0 = (Ok tt, s') ->
             xdg_app_dir_read_active ref s' = (Ok None, s')).
  { intros s0 s' H. rewrite read_active_of_entry.
    now rewrite (set_active_none_ok _ _ _ H). }
  split; [|split].
  - intros c s' H.
    apply set_active_some_ok in H as (d & tmpname & Hd & _ & _ & _ & ->).
    rewrite read_active_of_entry. unfold active_entry.
    unfold xdg_app_dir_get_deploy_dir.
    rewrite deploy_dirs_set_same, dir_lookup_set_same. reflexivity.
  - apply Hnone.
  - intros Hact.
    assert (exists s', xdg_app_dir_set_active ref None s = (Ok tt, s'))
      as [s' Hs'].
    { unfold active_is_link_or_absent in Hact.
      unfold xdg_app_dir_set_active, bind, attempt, g_file_delete,
        in_deploy_dir.
      destruct (deploy_dirs s (xdg_app_dir_get_deploy_dir ref))
        as [[| |d|]|]; try contradiction.
      - unfold dir_delete.
        destruct (dir_lookup "active" d) as [[| | |]|]; try contradiction;
          simpl; eexists; reflexivity.
      - simpl. eexists; reflexivity. }
    exists s'. split; [assumption|]. now apply (Hnone s).
Qed.

(** * List-deployed *)

Lemma list_deployed_loop_filter (d : directory) (acc : list string) :
  list_deployed_loop d acc = acc ++ map fst (filter listed_as_deployed d).
Proof.
  revert acc. induction d as [|[name x] d IH]; intros acc; simpl.
  - now rewrite app_nil_r.
  - unfold listed_as_deployed at 1. simpl.
    destruct (is_directory x && negb (starts_with_dot name)
              && Nat.eqb (strlen name) 64).
    + rewrite IH. simpl. now rewrite <- app_assoc.
    + apply IH.
Qed.

(** C10.  list-deployed returns exactly the names of the child directories
    of the deploy base whose name is 64 bytes long and does not begin with
    a dot, in enumeration order and with no other validation; when the
    deploy base does not exist it succeeds with the empty list. *)
Theorem list_deployed_exact (s : XdgAppDir) (ref : string) :
  (deploy_dirs s (xdg_app_dir_get_deploy_dir ref) = None ->
   xdg_app_dir_list_deployed ref s = (Ok [], s))
  /\ (forall d,
      deploy_dirs s (xdg_app_dir_get_deploy_dir ref) = Some (Directory d) ->
      exists checksums,
        xdg_app_dir_list_deployed ref s = (Ok checksums, s)
        /\ checksums =
           map fst
             (filter (fun e => is_directory (snd e)
                               && Nat.eqb (String.length (fst e)) 64
                               && negb (match fst e with
                                        | String "." _ => true
                                        | _ => false
                                        end)) d)
        /\ forall name,
            In name checksums <->
            exists child, In (name, Directory child) d
                          /\ String.length name = 64
                          /\ String.get 0 name <> Some "."%char).
Proof.
  unfold xdg_app_dir_list_deployed. split.
  - intros ->. reflexivity.
  - intros d ->. eexists. split; [reflexivity|].
    rewrite list_deployed_loop_filter. simpl.
    assert (Hsame : forall e : string * node,
               listed_as_deployed e =
               is_directory (snd e) && Nat.eqb (String.length (fst e)) 64
               && negb (match fst e with String "." _ => true | _ => false end)).
    { intros [name x]. unfold listed_as_deployed, starts_with_dot, strlen.
      simpl. destruct name as [|a name]; simpl.
      - destruct (is_directory x); reflexivity.
      - assert (Hm : match a with
                     | "."%char => true
                     | _ => false
                     end = Ascii.eqb a ".").
        { destruct a as [[] [] [] [] [] [] [] []]; reflexivity. }
        rewrite Hm.
        destruct (is_directory x), (Ascii.eqb a "."); simpl;
          try reflexivity;
          now rewrite ?andb_true_r, ?andb_false_r. }
    split.
    + f_equal. apply filter_ext. exact Hsame.
    + intros name. rewrite in_map_iff. split.
      * intros ([n x] & Hn & Hin). simpl in Hn. subst n.
        apply filter_In in Hin as [Hin Hp].
        unfold listed_as_deployed in Hp. simpl in Hp.
        apply andb_true_iff in Hp as [Hp Hlen].
        apply andb_true_iff in Hp as [Hdir Hdot].
        destruct x as [| |child|]; try discriminate.
        exists child. split; [assumption|]. split.
        -- now apply Nat.eqb_eq in Hlen.
        -- unfold starts_with_dot in Hdot. destruct name as [|a name]; simpl.
           ++ discriminate.
           ++ simpl in Hdot. intros Heq. inversion Heq; subst a.
              discriminate.
      * intros (child & Hin & Hlen & Hdot).
        exists (name, Directory child). split; [reflexivity|].
        apply filter_In. split; [assumption|].
        unfold listed_as_deployed. simpl.
        apply andb_true_iff. split.
        -- unfold starts_with_dot. destruct name as [|a name]; simpl.
           ++ reflexivity.
           ++ simpl in Hdot. destruct (Ascii.eqb a ".") eqn:Ea.
              ** apply Ascii.eqb_eq in Ea. subst a. now elim Hdot.
              ** reflexivity.
        -- now apply Nat.eqb_eq.
Qed.

(** * Undeploy *)

Lemma dir_exists_self_link (fuel : nat) (e : string -> bool) (d : directory)
  (name : string) :
  dir_lookup name d = Some (SymbolicLink name) ->
  is_file_name name = true ->
  dir_exists fuel e d name = false.
Proof.
  intros Hl Hn. induction fuel as [|fuel IH]; simpl; rewrite Hl.
  - reflexivity.
  - now rewrite Hn.
Qed.

Lemma dir_remove_set_same (name : string) (x : node) (d : directory) :
  dir_remove name (dir_set name x d) = dir_remove name d.
Proof.
  induction d as [|[n y] d IH]; simpl.
  - now rewrite streq_refl.
  - destruct (streq n name) eqn:E; simpl; rewrite E; simpl.
    + reflexivity.
    + now rewrite IH.
Qed.

Lemma dir_remove_absent (name : string) (d : directory) :
  dir_lookup name d = None -> dir_remove name d = d.
Proof.
  induction d as [|[n y] d IH]; simpl; [reflexivity|].
  destruct (streq n name); [discriminate|]. simpl.
  intros H. now rewrite IH.
Qed.

Lemma filter_listed_set (name : string) (x : node) (d : directory) :
  (forall y, listed_as_deployed (name, y) = false) ->
  filter listed_as_deployed (dir_set name x d) = filter listed_as_deployed d.
Proof.
  intros Hno. induction d as [|[n y] d IH]; simpl.
  - now rewrite Hno.
  - destruct (streq n name) eqn:E; simpl.
    + apply streq_true in E. subst n. now rewrite !Hno.
    + now rewrite IH.
Qed.

Lemma filter_listed_remove (name : string) (d : directory) :
  (forall y, listed_as_deployed (name, y) = false) ->
  filter listed_as_deployed (dir_remove name d) = filter listed_as_deployed d.
Proof.
  intros Hno. induction d as [|[n y] d IH]; simpl; [reflexivity|].
  destruct (streq n name) eqn:E; simpl.
  - apply streq_true in E. subst n. now rewrite Hno.
  - now rewrite IH.
Qed.

Lemma listed_names_remove (c : string) (d : directory) :
  map fst (filter listed_as_deployed (dir_remove c d)) =
  filter (fun n => negb (streq n c)) (map fst (filter listed_as_deployed d)).
Proof.
  induction d as [|[n y] d IH]; simpl; [reflexivity|].
  destruct (streq n c) eqn:E; simpl.
  - destruct (listed_as_deployed (n, y)); simpl; [rewrite E; simpl|]; exact IH.
  - destruct (listed_as_deployed (n, y)); simpl; [rewrite E; simpl|];
      now rewrite IH.
Qed.

Lemma active_not_listed (y : node) : listed_as_deployed ("active", y) = false.
Proof. unfold listed_as_deployed. simpl. now rewrite andb_false_r. Qed.

Lemma dotted_not_listed (name : string) (y : node) :
  listed_as_deployed (String "." name, y) = false.
Proof.
  unfold listed_as_deployed. simpl. now rewrite andb_false_r.
Qed.

Lemma find_head_filter {A} (p : A -> bool) (l : list A) :
  find p l = match filter p l with
             | [] => None
             | x :: _ => Some x
             end.
Proof.
  induction l as [|a l IH]; simpl; [reflexivity|].
  destruct (p a); [reflexivity|exact IH].
Qed.

Lemma ensure_repo_deploy_dirs (s s' : XdgAppDir) (r : result unit) :
  xdg_app_dir_ensure_repo s = (r, s') ->
  deploy_dirs s' = deploy_dirs s
  /\ random s' = random s /\ random_pos s' = random_pos s.
Proof.
  unfold xdg_app_dir_ensure_repo.
  destruct (repo s); [|destruct (repo_dir s)]; intros H; inversion H; subst;
    auto.
Qed.

(** What a successful undeploy of the active checksum leaves in the deploy
    base: the checkout is gone, and [active] names the first other listed
    deployment, or is gone as well. *)
Lemma undeploy_active_deploy_dir (s s' : XdgAppDir) (ref c : string)
  (force : bool) :
  is_file_name c = true ->
  xdg_app_dir_read_active ref s = (Ok (Some c), s) ->
  xdg_app_dir_undeploy ref c force s = (Ok tt, s') ->
  exists d d',
    deploy_dirs s ref = Some (Directory d)
    /\ deploy_dirs s' ref = Some (Directory (dir_remove c d'))
    /\ c <> "active"
    /\ filter listed_as_deployed d' = filter listed_as_deployed d
    /\ dir_lookup "active" d' =
       match find (fun n => negb (streq n c))
               (map fst (filter listed_as_deployed d)) with
       | Some c' => Some (SymbolicLink c')
       | None => None
       end.
Proof.
  intros Hname Hactive H.
  unfold xdg_app_dir_undeploy, xdg_app_dir_get_deploy_dir in H.

  apply bind_ok in H as (deployed & s0 & Hex & H).
  unfold g_file_query_exists in Hex.
  remember MAXSYMLINKS as fuel eqn:Hfuel in Hex.
  unfold xdg_app_dir_read_active, xdg_app_dir_get_deploy_dir in Hactive.
  destruct (deploy_dirs s ref) as [[| |d|]|] eqn:Hd; try discriminate.
  destruct (dir_lookup "active" d) as [[|target| |]|] eqn:Hact;
    try discriminate.
  inversion Hactive; subst target; clear Hactive.
  injection Hex as <- <-.
  destruct (dir_exists fuel (elsewhere s) d c) eqn:Hexists;
    [|discriminate].
  assert (Hc : c <> "active").
  { intros ->. rewrite (dir_exists_self_link _ _ _ _ Hact Hname) in Hexists.
    discriminate. }
  simpl negb in H. cbv iota in H.
  apply bind_ok in H as ([] & s1 & Hrepo & H).
  apply ensure_repo_deploy_dirs in Hrepo as (Hdirs1 & _ & _).
  apply bind_ok in H as (active & s1' & Hread & H).
  unfold xdg_app_dir_read_active, xdg_app_dir_get_deploy_dir in Hread.
  rewrite Hdirs1, Hd, Hact in Hread.
  inversion Hread; subst active s1'; clear Hread.
  apply bind_ok in H as ([] & s2 & Hset & H).
  rewrite streq_refl in Hset.
  apply bind_ok in Hset as (deployed_checksums & s1' & Hlist & Hset).
  unfold xdg_app_dir_list_deployed, xdg_app_dir_get_deploy_dir in Hlist.
  rewrite Hdirs1, Hd in Hlist.
  inversion Hlist; subst deployed_checksums s1'; clear Hlist.
  rewrite list_deployed_loop_filter in Hset. simpl app in Hset.
  (* the deploy base after set-active *)
  assert (Hd2 : exists d',
             deploy_dirs s2 ref = Some (Directory d')
             /\ filter listed_as_deployed d' = filter listed_as_deployed d
             /\ dir_lookup "active" d' =
                match find (fun n => negb (streq n c))
                        (map fst (filter listed_as_deployed d)) with
                | Some c' => Some (SymbolicLink c')
                | None => None
                end).
  { destruct (find (fun n => negb (streq n c))
                (map fst (filter listed_as_deployed d))) as [c'|].
    - apply set_active_some_ok in Hset
        as (d0 & tmpname & Hd0 & Htmp & Hfresh & _ & ->).
      rewrite Hdirs1, Hd in Hd0. inversion Hd0; subst d0; clear Hd0.
      eexists. split; [apply deploy_dirs_set_same|]. split.
      + rewrite filter_listed_set by apply active_not_listed.
        rewrite dir_remove_set_same, dir_remove_absent by assumption.
        reflexivity.
      + apply dir_lookup_set_same.
    - unfold xdg_app_dir_set_active, xdg_app_dir_get_deploy_dir, bind,
        attempt, g_file_delete, in_deploy_dir in Hset.
      rewrite Hdirs1, Hd in Hset. unfold dir_delete in Hset.
      rewrite Hact in Hset. simpl in Hset.
      inversion Hset; subst s2; clear Hset.
      eexists. split; [apply deploy_dirs_set_same|]. split.
      + apply filter_listed_remove, active_not_listed.
      + apply dir_lookup_remove_same. }
  destruct Hd2 as (d' & Hd' & Hlisted & Hact').
  (* moving the checkout away *)
  apply bind_ok in H as ([] & s3 & Hens & H).
  assert (Hd3 : deploy_dirs s3 = deploy_dirs s2).
  { unfold gs_file_ensure_removed_dir in Hens.
    destruct (removed_dir s2); inversion Hens; reflexivity. }
  apply bind_ok in H as (tmpname & s4 & Hgen & H).
  unfold gs_fileutil_gen_tmp_name in Hgen.
  inversion Hgen; subst tmpname s4; clear Hgen.
  apply bind_ok in H as ([] & s5 & Hren & H).
  unfold gs_file_rename_to_removed in Hren.
  simpl deploy_dirs in Hren. rewrite Hd3, Hd' in Hren.
  destruct (dir_lookup c d') as [src|]; [|discriminate].
  simpl removed_dir in Hren.
  destruct (removed_dir s3) as [[| |rd|]|]; try discriminate.
  match type of Hren with
  | context [rename_over ?a ?b] => destruct (rename_over a b)
  end; [|discriminate].
  inversion Hren; subst s5; clear Hren.
  apply bind_ok in H as (locked & s6 & Hlock & H).
  match type of Hlock with
  | dir_is_locked ?n ?st = _ => destruct (dir_is_locked_run n st) as (b & Hb)
  end.
  rewrite Hb in Hlock. injection Hlock as <- <-.
  exists d, d'. repeat split; try assumption.
  destruct (force || negb b); inversion H; subst s'; simpl;
    now rewrite streq_refl.
Qed.

Lemma listed_as_deployed_iff (name : string) (x : node) :
  listed_as_deployed (name, x) = true
  <-> (exists child, x = Directory child)
      /\ String.length name = 64
      /\ String.get 0 name <> Some "."%char.
Proof.
  unfold listed_as_deployed, starts_with_dot, strlen. cbn [fst snd].
  rewrite !andb_true_iff, Nat.eqb_eq, negb_true_iff. split.
  - intros [[Hdir Hdot] Hlen]. split; [|split; [exact Hlen|]].
    + destruct x as [| |child|]; try discriminate. now exists child.
    + destruct name as [|a name]; simpl in *; [discriminate|].
      intros E. injection E as ->. discriminate.
  - intros ((child & ->) & Hlen & Hdot). split; [split|]; auto.
    destruct name as [|a name]; simpl in *; [reflexivity|].
    destruct (Ascii.eqb a ".") eqn:Ea; [|reflexivity].
    apply Ascii.eqb_eq in Ea. subst a. now elim Hdot.
Qed.

Lemma listed_as_deployed_spelled (e : string * node) :
  listed_as_deployed e
  = is_directory (snd e) && Nat.eqb (String.length (fst e)) 64
    && negb (match fst e with String "." _ => true | _ => false end).
Proof.
  destruct e as [name x]. unfold listed_as_deployed, starts_with_dot, strlen.
  cbn [fst snd]. destruct name as [|a name]; simpl.
  - destruct (is_directory x); reflexivity.
  - assert (Hm : match a with
                 | "."%char => true
                 | _ => false
                 end = Ascii.eqb a ".").
    { destruct a as [[] [] [] [] [] [] [] []]; reflexivity. }
    rewrite Hm.
    destruct (is_directory x), (Ascii.eqb a "."); simpl;
      try reflexivity;
      now rewrite ?andb_true_r, ?andb_false_r.
Qed.

(** The first listed name other than [c] is the name of the first entry
    that is listed and not called [c]. *)
Lemma find_other_listed (c : string) (d : directory) :
  find (fun n => negb (streq n c)) (map fst (filter listed_as_deployed d))
  = option_map fst
      (find (fun e => is_directory (snd e)
                      && Nat.eqb (String.length (fst e)) 64
                      && negb (match fst e with
                               | String "." _ => true
                               | _ => false
                               end)
                      && negb (String.eqb (fst e) c)) d).
Proof.
  induction d as [|e d IH]; [reflexivity|].
  cbn [filter find]. rewrite <- listed_as_deployed_spelled.
  destruct (listed_as_deployed e); cbn [map find andb].
  - change (String.eqb (fst e) c) with (streq (fst e) c).
    destruct (negb (streq (fst e) c)); [reflexivity|exact IH].
  - exact IH.
Qed.

(** C1.  Let [active] of a ref target the checksum [c], the name of an
    entry of the deploy base.  After a successful undeploy of [c] the
    deploy base has no entry [c], and its other deployments (the child
    directories with a name of 64 bytes that does not begin with a dot)
    are those it had.  When there is such a deployment other than [c],
    [active] points to one that is still there, the first in the order of
    the enumeration; when there is none, [active] is absent. *)
Theorem undeploy_repoints_active (s s' : XdgAppDir) (ref c : string)
  (force : bool) :
  is_file_name c = true ->
  xdg_app_dir_read_active ref s = (Ok (Some c), s) ->
  xdg_app_dir_undeploy ref c force s = (Ok tt, s') ->
  exists d d',
    deploy_dirs s (xdg_app_dir_get_deploy_dir ref) = Some (Directory d)
    /\ deploy_dirs s' (xdg_app_dir_get_deploy_dir ref) = Some (Directory d')
    /\ dir_lookup c d' = None
    /\ (forall name child,
          String.length name = 64 -> String.get 0 name <> Some "."%char ->
          name <> c ->
          (In (name, Directory child) d' <-> In (name, Directory child) d))
    /\ ((exists name child,
            In (name, Directory child) d
            /\ String.length name = 64
            /\ String.get 0 name <> Some "."%char
            /\ name <> c) ->
        exists c' child,
          xdg_app_dir_read_active ref s' = (Ok (Some c'), s')
          /\ c' <> c
          /\ In (c', Directory child) d'
          /\ String.length c' = 64
          /\ String.get 0 c' <> Some "."%char
          /\ find (fun e => is_directory (snd e)
                            && Nat.eqb (String.length (fst e)) 64
                            && negb (match fst e with
                                     | String "." _ => true
                                     | _ => false
                                     end)
                            && negb (String.eqb (fst e) c)) d
             = Some (c', Directory child))
    /\ ((forall name child,
            In (name, Directory child) d ->
            String.length name = 64 ->
            String.get 0 name <> Some "."%char ->
            name = c) ->
        xdg_app_dir_read_active ref s' = (Ok None, s')
        /\ dir_lookup "active" d' = None).
Proof.
  intros Hname Hactive H.
  destruct (undeploy_active_deploy_dir _ _ _ _ _ Hname Hactive H)
    as (d & d0 & Hd & Hd' & Hc & Hlisted & Hact).
  unfold xdg_app_dir_get_deploy_dir.
  exists d, (dir_remove c d0).
  split; [exact Hd|]. split; [exact Hd'|].
  split; [apply dir_lookup_remove_same|].
  assert (Hkept : forall name child,
             String.length name = 64 -> String.get 0 name <> Some "."%char ->
             name <> c ->
             (In (name, Directory child) (dir_remove c d0)
              <-> In (name, Directory child) d)).
  { intros name child Hlen Hdot Hne.
    assert (Hl : listed_as_deployed (name, Directory child) = true).
    { apply listed_as_deployed_iff. eauto. }
    assert (Hboth : forall x : directory,
               In (name, Directory child) x
               <-> In (name, Directory child) (filter listed_as_deployed x)).
    { intros x. rewrite filter_In. tauto. }
    unfold dir_remove. rewrite filter_In. cbn [fst].
    rewrite (Hboth d0), (Hboth d), Hlisted.
    assert (Hs : negb (streq name c) = true).
    { apply negb_true_iff. now apply streq_false. }
    rewrite Hs. tauto. }
  split; [exact Hkept|].
  assert (Hread : xdg_app_dir_read_active ref s'
                  = (Ok (link_target (dir_lookup "active" d0)), s')).
  { rewrite read_active_of_entry. f_equal. f_equal.
    unfold active_entry, xdg_app_dir_get_deploy_dir.
    rewrite Hd'. rewrite dir_lookup_remove_other by (intros E; now apply Hc).
    reflexivity. }
  rewrite find_other_listed in Hact.
  split.
  - intros (name & child & Hin & Hlen & Hdot & Hne).
    match type of Hact with
    | context [find ?p d] => destruct (find p d) as [[c' x]|] eqn:Ef
    end.
    + apply find_some in Ef as Hfound. destruct Hfound as [Hin' Hp].
      cbn [fst snd] in Hp.
      apply andb_true_iff in Hp as [Hp Hne'].
      apply negb_true_iff, String.eqb_neq in Hne'.
      assert (Hl : listed_as_deployed (c', x) = true)
        by now rewrite listed_as_deployed_spelled.
      apply listed_as_deployed_iff in Hl as ((child' & ->) & Hlen' & Hdot').
      exists c', child'. cbn [option_map fst] in Hact.
      rewrite Hread, Hact. repeat split; try assumption.
      now apply Hkept.
    + exfalso.
      apply (find_none _ _ Ef (name, Directory child)) in Hin.
      cbn [fst snd] in Hin.
      assert (Hl : listed_as_deployed (name, Directory child) = true).
      { apply listed_as_deployed_iff. eauto. }
      rewrite listed_as_deployed_spelled in Hl. cbn [fst snd] in Hl.
      rewrite Hl in Hin. cbn [andb] in Hin.
      apply negb_false_iff, String.eqb_eq in Hin. contradiction.
  - intros Hnone.
    match type of Hact with
    | context [find ?p d] => destruct (find p d) as [[c' x]|] eqn:Ef
    end.
    + exfalso. apply find_some in Ef as [Hin' Hp].
      cbn [fst snd] in Hp.
      apply andb_true_iff in Hp as [Hp Hne'].
      apply negb_true_iff, String.eqb_neq in Hne'.
      assert (Hl : listed_as_deployed (c', x) = true)
        by now rewrite listed_as_deployed_spelled.
      apply listed_as_deployed_iff in Hl as ((child' & ->) & Hlen' & Hdot').
      apply Hne'. now apply (Hnone c' child').
    + cbn [option_map] in Hact. rewrite Hread, Hact. split; [reflexivity|].
      rewrite dir_lookup_remove_other by (intros E; now apply Hc).
      exact Hact.
Qed.

(** * Ref listing *)

Lemma ascii_compare_trans (a b c : ascii) :
  Ascii.compare a b <> Gt -> Ascii.compare b c <> Gt ->
  Ascii.compare a c <> Gt.
Proof.
  unfold Ascii.compare. intros H1 H2 H3.
  apply N.compare_gt_iff in H3.
  pose proof (proj1 (N.compare_le_iff _ _) H1) as H1'.
  pose proof (proj1 (N.compare_le_iff _ _) H2) as H2'. lia.
Qed.

Lemma ascii_compare_refl (a : ascii) : Ascii.compare a a = Eq.
Proof. unfold Ascii.compare. apply N.compare_refl. Qed.

Lemma str_le_trans (a b c : string) : str_le a b -> str_le b c -> str_le a c.
Proof.
  unfold str_le, strcmp. revert b c.
  induction a as [|x a IH]; intros [|y b] [|z c]; simpl; try congruence.
  destruct (Ascii.compare x y) eqn:Exy; try congruence;
    destruct (Ascii.compare y z) eqn:Eyz; try congruence; intros H1 H2.
  - apply Ascii.compare_eq_iff in Exy, Eyz. subst y z.
    rewrite ascii_compare_refl. now apply (IH b).
  - apply Ascii.compare_eq_iff in Exy. subst y. now rewrite Eyz.
  - apply Ascii.compare_eq_iff in Eyz. subst z. now rewrite Exy.
  - assert (Hxz : Ascii.compare x z <> Gt).
    { apply (ascii_compare_trans x y z); congruence. }
    destruct (Ascii.compare x z) eqn:Exz; try congruence.
    apply Ascii.compare_eq_iff in Exz. subst z.
    rewrite Ascii.compare_antisym, Exy in Eyz. discriminate.
Qed.

Lemma str_le_total (a b : string) : strcmp a b = Gt -> str_le b a.
Proof.
  unfold str_le, strcmp. intros H.
  rewrite String.compare_antisym, H. discriminate.
Qed.

Lemma sort_insert_perm (x : string) (l : list string) :
  Permutation (sort_insert x l) (x :: l).
Proof.
  induction l as [|y l IH]; simpl; [reflexivity|].
  destruct (strcmp x y); try reflexivity.
  rewrite IH. apply perm_swap.
Qed.

Lemma g_ptr_array_sort_perm (l : list string) :
  Permutation (g_ptr_array_sort l) l.
Proof.
  induction l as [|x l IH]; simpl; [reflexivity|].
  rewrite sort_insert_perm. now constructor.
Qed.

Lemma sort_insert_sorted (x : string) (l : list string) :
  StronglySorted str_le l -> StronglySorted str_le (sort_insert x l).
Proof.
  induction l as [|y l IH]; simpl; intros Hs.
  - repeat constructor.
  - inversion Hs as [|? ? Hl Hy]; subst.
    destruct (strcmp x y) eqn:E.
    + constructor; [assumption|]. constructor.
      * unfold str_le. congruence.
      * eapply Forall_impl; [|exact Hy]. intros z Hz.
        apply (str_le_trans x y z); [unfold str_le; congruence|assumption].
    + constructor; [assumption|]. constructor.
      * unfold str_le. congruence.
      * eapply Forall_impl; [|exact Hy]. intros z Hz.
        apply (str_le_trans x y z); [unfold str_le; congruence|assumption].
    + constructor; [now apply IH|].
      rewrite sort_insert_perm.
      constructor; [now apply str_le_total|assumption].
Qed.

Lemma g_ptr_array_sort_sorted (l : list string) :
  StronglySorted str_le (g_ptr_array_sort l).
Proof.
  induction l as [|x l IH]; simpl; [constructor|].
  now apply sort_insert_sorted.
Qed.

Lemma list_refs_branches_spec (kind name arch : string) (d : directory)
  (refs : list string) :
  list_refs_branches kind name arch d refs =
  refs ++ branch_refs kind name arch d.
Proof.
  revert refs. induction d as [|[branch x] d IH]; intros refs; simpl.
  - now rewrite app_nil_r.
  - destruct (is_directory x); rewrite IH; [|reflexivity].
    now rewrite <- app_assoc.
Qed.

Lemma list_refs_arches_spec (kind name : string) (d : directory)
  (refs : list string) :
  list_refs_arches kind name d refs = refs ++ arch_refs kind name d.
Proof.
  revert refs. induction d as [|[arch x] d IH]; intros refs; simpl.
  - now rewrite app_nil_r.
  - destruct x as [| |branches|]; try apply IH.
    destruct (streq arch "data"); [apply IH|].
    rewrite IH, list_refs_branches_spec. now rewrite <- app_assoc.
Qed.

Lemma list_refs_names_spec (kind : string) (d : directory)
  (refs : list string) :
  exists refs',
    list_refs_names kind d refs = Ok (refs ++ refs')
    /\ Permutation refs' (name_refs kind d).
Proof.
  revert refs. induction d as [|[name x] d IH]; intros refs; simpl.
  - exists []. now rewrite app_nil_r.
  - destruct x as [| |arches|]; simpl; try apply IH.
    destruct (IH (refs ++ g_ptr_array_sort
                            (list_refs_arches kind name arches [])))
      as (refs' & Heq & Hperm).
    eexists. rewrite Heq, <- app_assoc. split; [reflexivity|].
    apply Permutation_app; [|assumption].
    rewrite g_ptr_array_sort_perm, list_refs_arches_spec. reflexivity.
Qed.

(** ** A ref names its directories *)

Lemma append_inj_l (p a b : string) : (p ++ a = p ++ b)%string -> a = b.
Proof. induction p; simpl; intros H; [assumption|]. inversion H. auto. Qed.

Lemma slash_split (a a' b b' : string) :
  contains_char "/" a = false -> contains_char "/" a' = false ->
  (a ++ "/" ++ b = a' ++ "/" ++ b')%string -> a = a' /\ b = b'.
Proof.
  revert a'. induction a as [|x a IH]; intros [|y a']; simpl.
  - intros _ _ H. inversion H. auto.
  - intros _ Hy H. inversion H; subst y. discriminate.
  - intros Hx _ H. inversion H; subst x. discriminate.
  - intros Hx Hy H. inversion H; subst y.
    apply orb_false_iff in Hx as [_ Hx]. apply orb_false_iff in Hy as [_ Hy].
    destruct (IH a' Hx Hy) as [-> ->]; auto.
Qed.

Lemma file_name_no_slash (n : string) :
  is_file_name n = true -> contains_char "/" n = false.
Proof.
  unfold is_file_name. intros H.
  apply andb_true_iff in H as [_ H]. now apply negb_true_iff in H.
Qed.

Lemma format_ref_inj (kind n a b n' a' b' : string) :
  is_file_name n = true -> is_file_name n' = true ->
  is_file_name a = true -> is_file_name a' = true ->
  format_ref kind n a b = format_ref kind n' a' b' ->
  n = n' /\ a = a' /\ b = b'.
Proof.
  intros Hn Hn' Ha Ha' H. unfold format_ref in H.
  apply append_inj_l in H. apply (append_inj_l "/") in H.
  apply slash_split in H as [-> H]; try now apply file_name_no_slash.
  apply slash_split in H as [-> ->]; try now apply file_name_no_slash.
  auto.
Qed.

Lemma in_branch_refs (kind name arch : string) (d : directory) (r : string) :
  In r (branch_refs kind name arch d) <->
  exists branch sub,
    In (branch, Directory sub) d /\ r = format_ref kind name arch branch.
Proof.
  unfold branch_refs. rewrite in_flat_map. split.
  - intros ([branch x] & Hin & Hr). simpl in Hr.
    destruct x as [| |sub|]; simpl in Hr; try contradiction.
    destruct Hr as [<-|[]]. now exists branch, sub.
  - intros (branch & sub & Hin & ->).
    exists (branch, Directory sub). split; [assumption|]. now left.
Qed.

Lemma in_arch_refs (kind name : string) (d : directory) (r : string) :
  In r (arch_refs kind name d) <->
  exists arch branches branch sub,
    In (arch, Directory branches) d /\ arch <> "data"
    /\ In (branch, Directory sub) branches
    /\ r = format_ref kind name arch branch.
Proof.
  unfold arch_refs. rewrite in_flat_map. split.
  - intros ([arch x] & Hin & Hr). simpl in Hr.
    destruct x as [| |branches|]; try contradiction.
    destruct (streq arch "data") eqn:E; [contradiction|].
    apply in_branch_refs in Hr as (branch & sub & Hb & ->).
    exists arch, branches, branch, sub. repeat split; try assumption.
    now apply streq_false.
  - intros (arch & branches & branch & sub & Hin & Hne & Hb & ->).
    exists (arch, Directory branches). split; [assumption|]. simpl.
    apply streq_false in Hne. rewrite Hne.
    apply in_branch_refs. now exists branch, sub.
Qed.

Lemma in_name_refs (kind : string) (d : directory) (r : string) :
  In r (name_refs kind d) <->
  exists name arches arch branches branch sub,
    In (name, Directory arches) d
    /\ In (arch, Directory branches) arches /\ arch <> "data"
    /\ In (branch, Directory sub) branches
    /\ r = format_ref kind name arch branch.
Proof.
  unfold name_refs. rewrite in_flat_map. split.
  - intros ([name x] & Hin & Hr). simpl in Hr.
    destruct x as [| |arches|]; try contradiction.
    apply in_arch_refs in Hr
      as (arch & branches & branch & sub & Ha & Hne & Hb & ->).
    now exists name, arches, arch, branches, branch, sub.
  - intros (name & arches & arch & branches & branch & sub
            & Hin & Ha & Hne & Hb & ->).
    exists (name, Directory arches). split; [assumption|]. simpl.
    apply in_arch_refs. now exists arch, branches, branch, sub.
Qed.

(** ** No ref is listed twice *)

Lemma NoDup_flat_map_fst {B} (f : string * node -> list B) (d : directory) :
  NoDup (map fst d) ->
  (forall e, In e d -> NoDup (f e)) ->
  (forall e e' b, In e d -> In e' d -> In b (f e) -> In b (f e') ->
                  fst e = fst e') ->
  NoDup (flat_map f d).
Proof.
  induction d as [|e d IH]; simpl; intros Hnd Hf Hdis; [constructor|].
  inversion Hnd as [|? ? Hnotin Hnd']; subst.
  apply NoDup_app.
  - apply Hf. now left.
  - apply IH; [assumption| |].
    + intros e' He'. apply Hf. now right.
    + intros e1 e2 b H1 H2. apply Hdis; now right.
  - intros b Hb Hb'. apply in_flat_map in Hb' as (e' & He' & Hb').
    apply Hnotin. rewrite (Hdis e e' b); try assumption.
    + now apply in_map.
    + now left.
    + now right.
Qed.

Lemma wf_names_in (d : directory) (e : string * node) :
  wf_names d -> In e d -> is_file_name (fst e) = true.
Proof.
  intros [_ Hall] Hin. rewrite Forall_forall in Hall. now apply Hall.
Qed.

Lemma branch_refs_nodup (kind name arch : string) (d : directory) :
  wf_names d -> NoDup (branch_refs kind name arch d).
Proof.
  intros Hwf. apply NoDup_flat_map_fst.
  - apply Hwf.
  - intros e _. destruct (is_directory (snd e)); repeat constructor.
    intros [].
  - intros e e' b _ _ Hb Hb'.
    destruct (is_directory (snd e)); [|contradiction].
    destruct (is_directory (snd e')); [|contradiction].
    destruct Hb as [<-|[]]. destruct Hb' as [Hb'|[]].
    unfold format_ref in Hb'.
    apply append_inj_l in Hb'. apply (append_inj_l "/") in Hb'.
    apply append_inj_l in Hb'. apply (append_inj_l "/") in Hb'.
    apply append_inj_l in Hb'. apply (append_inj_l "/") in Hb'.
    now symmetry.
Qed.

Lemma arch_refs_nodup (kind name : string) (d : directory) :
  is_file_name name = true ->
  wf_names d -> Forall (fun a => wf_children (snd a)) d ->
  NoDup (arch_refs kind name d).
Proof.
  intros Hname Hwf Hsub. rewrite Forall_forall in Hsub.
  apply NoDup_flat_map_fst.
  - apply Hwf.
  - intros [arch x] Hin. simpl. destruct x as [| |branches|]; try constructor.
    destruct (streq arch "data"); [constructor|].
    apply branch_refs_nodup. exact (Hsub _ Hin).
  - intros [arch x] [arch' x'] b Hin Hin' Hb Hb'. simpl in *.
    destruct x as [| |branches|]; try contradiction.
    destruct x' as [| |branches'|]; try contradiction.
    destruct (streq arch "data"); [contradiction|].
    destruct (streq arch' "data"); [contradiction|].
    apply in_branch_refs in Hb as (br & sub & _ & ->).
    apply in_branch_refs in Hb' as (br' & sub' & _ & Heq).
    apply format_ref_inj in Heq as (_ & Ha & _); try assumption.
    + exact (wf_names_in _ _ Hwf Hin).
    + exact (wf_names_in _ _ Hwf Hin').
Qed.

Lemma name_refs_nodup (kind : string) (d : directory) :
  wf_kind_dir d -> NoDup (name_refs kind d).
Proof.
  intros [Hwf Hsub]. rewrite Forall_forall in Hsub.
  apply NoDup_flat_map_fst.
  - apply Hwf.
  - intros [name x] Hin. simpl. destruct x as [| |arches|]; try constructor.
    destruct (Hsub _ Hin) as [Hw Ha]. simpl in Hw, Ha.
    apply arch_refs_nodup; try assumption.
    exact (wf_names_in _ _ Hwf Hin).
  - intros [name x] [name' x'] b Hin Hin' Hb Hb'. simpl in *.
    destruct x as [| |arches|]; try contradiction.
    destruct x' as [| |arches'|]; try contradiction.
    apply in_arch_refs in Hb as (a & bs & br & sub & Ha & _ & _ & ->).
    apply in_arch_refs in Hb' as (a' & bs' & br' & sub' & Ha' & _ & _ & Heq).
    destruct (Hsub _ Hin) as [Hw _]. destruct (Hsub _ Hin') as [Hw' _].
    simpl in Hw, Hw'.
    apply format_ref_inj in Heq as (Hn & _ & _); try assumption.
    + exact (wf_names_in _ _ Hwf Hin).
    + exact (wf_names_in _ _ Hwf Hin').
    + exact (wf_names_in _ _ Hw Ha).
    + exact (wf_names_in _ _ Hw' Ha').
Qed.

(** What list-refs returns: the refs below the name directories, sorted. *)
Lemma list_refs_ok (self : XdgAppDir) (kind : string) (d : directory) :
  kind_dirs self kind = Some (Directory d) ->
  exists refs,
    xdg_app_dir_list_refs self kind = Ok refs
    /\ Permutation refs (name_refs kind d)
    /\ StronglySorted str_le refs.
Proof.
  intros Hd. unfold xdg_app_dir_list_refs. rewrite Hd.
  destruct (list_refs_names_spec kind d []) as (refs & -> & Hperm).
  simpl. eexists. split; [reflexivity|]. split.
  - now rewrite g_ptr_array_sort_perm.
  - apply g_ptr_array_sort_sorted.
Qed.

(** C6, as the code has it.  list-refs returns its refs sorted by [strcmp];
    a ref is listed exactly when its name, arch and branch directories
    exist and the arch is not [data]: the [data] that is skipped is a child
    of <basedir>/<kind>/<name>, not of <basedir>/<kind>.  Where names of
    directory entries are distinct and free of slashes, no ref is listed
    twice.  A missing <basedir>/<kind> gives the empty list. *)
Theorem list_refs_sorted_without_arch_data (self : XdgAppDir) (kind : string) :
  (kind_dirs self kind = None -> xdg_app_dir_list_refs self kind = Ok [])
  /\ forall refs,
      xdg_app_dir_list_refs self kind = Ok refs ->
      StronglySorted str_le refs
      /\ (forall d, kind_dirs self kind = Some (Directory d) ->
            forall r,
              In r refs <->
              exists name arches arch branches branch sub,
                In (name, Directory arches) d
                /\ In (arch, Directory branches) arches /\ arch <> "data"
                /\ In (branch, Directory sub) branches
                /\ r = (kind ++ "/" ++ name ++ "/" ++ arch
                             ++ "/" ++ branch)%string)
      /\ ((forall d, kind_dirs self kind = Some (Directory d) ->
                     wf_kind_dir d) ->
          NoDup refs).
Proof.
  split.
  - unfold xdg_app_dir_list_refs. now intros ->.
  - intros refs H.
    destruct (kind_dirs self kind) as [[| |d|]|] eqn:Hd.
    1, 2, 4: unfold xdg_app_dir_list_refs in H; rewrite Hd in H;
      discriminate.
    + destruct (list_refs_ok _ _ _ Hd) as (refs' & Heq & Hperm & Hsorted).
      rewrite Heq in H. injection H as <-.
      split; [assumption|]. split.
      * intros d' Hd'. injection Hd' as <-. intros r.
        pose proof (in_name_refs kind d r) as Hin.
        unfold format_ref in Hin. rewrite <- Hin.
        split; apply Permutation_in;
          [assumption|now symmetry].
      * intros Hwf. apply (Permutation_NoDup (l := name_refs kind d)).
        -- now symmetry.
        -- apply name_refs_nodup. now apply Hwf.
    + unfold xdg_app_dir_list_refs in H. rewrite Hd in H.
      injection H as <-. split; [constructor|]. split.
      * intros d' Hd'. discriminate.
      * intros _. constructor.
Qed.

(** C6 as stated fails: a directory [data] directly under <basedir>/app is
    listed like any other name. *)
Lemma list_refs_keeps_name_level_data :
  xdg_app_dir_list_refs store_with_data_name "app"
  = Ok ["app/data/x86_64/stable"].
Proof. reflexivity. Qed.

(** * Failing computations *)

Lemma fails_bind_l {S A B} (m : M S A) (k : A -> M S B) (s : S) :
  fails m s -> fails (bind m k) s.
Proof. intros (e & s' & E). exists e, s'. unfold bind. now rewrite E. Qed.

Lemma fails_bind_r {S A B} (m : M S A) (k : A -> M S B) (s s1 : S) (a : A) :
  m s = (Ok a, s1) -> fails (k a) s1 -> fails (bind m k) s.
Proof.
  intros E (e & s' & E'). exists e, s'. unfold bind. now rewrite E.
Qed.

Lemma run_cases {S A} (m : M S A) (s : S) :
  fails m s \/ exists a s', m s = (Ok a, s').
Proof.
  destruct (m s) as [[a|e] s'] eqn:E.
  - right. now exists a, s'.
  - left. now exists e, s'.
Qed.

Lemma fails_throw {S A} (e : GError) (s : S) : fails (@throw S A e) s.
Proof. now exists e, s. Qed.

(** Run the first computation of a bind: if it fails, so does the whole. *)
Ltac run_first a st Hrun :=
  match goal with
  | |- fails (bind ?m _) ?s =>
      destruct (run_cases m s) as [Hrun|(a & st & Hrun)];
      [now apply fails_bind_l|apply (fails_bind_r _ _ _ _ _ Hrun)]
  end.

(** * The launcher rewriter: what an entry leaves of the others *)

Lemma in_world_ok {A} (m : M XdgAppDir A) (cur cur' : directory)
  (w w' : XdgAppDir) (r : result A) :
  in_world m (cur, w) = (r, (cur', w')) -> cur' = cur.
Proof.
  unfold in_world. simpl. destruct (m w). intros E. now injection E.
Qed.

Lemma unlinkat_unless_gone_ok (name : string) (cur cur' : directory)
  (w w' : XdgAppDir) :
  unlinkat_unless_gone name (cur, w) = (Ok tt, (cur', w')) ->
  dir_lookup name cur' = None
  /\ forall b, b <> name -> dir_lookup b cur' = dir_lookup b cur.
Proof.
  unfold unlinkat_unless_gone, bind, attempt, unlinkat. simpl.
  destruct (dir_lookup name cur) as [[| |sub|]|] eqn:E; simpl;
    intros H; try discriminate; injection H as <- <-;
    try (split; [apply dir_lookup_remove_same
                |intros b Hb; now apply dir_lookup_remove_other]).
  split; [assumption|reflexivity].
Qed.

Lemma open_in_tmpdir_at_ok (attempts : nat) (new_data : text)
  (cur cur' : directory) (w w' : XdgAppDir) (name : string) :
  open_in_tmpdir_at attempts new_data (cur, w) = (Ok name, (cur', w')) ->
  dir_lookup name cur = None
  /\ cur' = dir_set name (RegularFile new_data) cur.
Proof.
  revert w. induction attempts as [|n IH]; intros w; simpl.
  - discriminate.
  - unfold bind at 1. unfold in_world at 1. simpl.
    unfold bind at 1. unfold fstatat at 1. simpl.
    match goal with
    | |- context [dir_lookup ?t cur] => destruct (dir_lookup t cur) eqn:E
    end.
    + apply IH.
    + intros H. injection H as <- <- <-. now split.
Qed.

Lemma renameat_ok (old new : string) (cur cur' : directory)
  (w w' : XdgAppDir) :
  renameat old new (cur, w) = (Ok tt, (cur', w')) ->
  forall b, b <> old -> b <> new -> dir_lookup b cur' = dir_lookup b cur.
Proof.
  unfold renameat, dir_rename. simpl.
  destruct (dir_lookup old cur) as [src|]; [|discriminate].
  destruct (streq old new).
  - intros H. now injection H as <- <-.
  - destruct (rename_over src (dir_lookup new cur)); [|discriminate].
    intros H. injection H as <- <-. intros b Hold Hnew.
    rewrite dir_lookup_set_other, dir_lookup_remove_other by assumption.
    reflexivity.
Qed.

Lemma in_subdir_ok {A} (name : string) (m : M Export A)
  (cur cur' : directory) (w w' : XdgAppDir) (r : result A) :
  in_subdir name m (cur, w) = (r, (cur', w')) ->
  forall b, b <> name -> dir_lookup b cur' = dir_lookup b cur.
Proof.
  unfold in_subdir. simpl.
  destruct (dir_lookup name cur) as [[| |sub|]|];
    try (intros H; now injection H as <- <- <-).
  destruct (m (sub, w)) as [r' [sub' w1]].
  intros H. injection H as <- <- <-. intros b Hb.
  now apply dir_lookup_set_other.
Qed.

Lemma bind_fstatat {A} (name : string) (k : option node -> M Export A)
  (cur : directory) (w : XdgAppDir) :
  bind (fstatat name) k (cur, w) = k (dir_lookup name cur) (cur, w).
Proof. reflexivity. Qed.

Lemma fails_fstatat {A} (name : string) (k : option node -> M Export A)
  (cur : directory) (w : XdgAppDir) :
  fails (k (dir_lookup name cur)) (cur, w) ->
  fails (bind (fstatat name) k) (cur, w).
Proof. unfold fails. now rewrite bind_fstatat. Qed.

Section RewriterProofs.
Context `{Platform}.

(** What a successful [export_desktop_file] read, checked and wrote. *)
Lemma export_desktop_file_ok (app branch arch name new_name : string)
  (cur cur' : directory) (w w' : XdgAppDir) :
  export_desktop_file app branch arch name (cur, w)
  = (Ok new_name, (cur', w')) ->
  exists data keyfile,
    dir_lookup name cur = Some (RegularFile data)
    /\ g_key_file_load_from_data locale_is_interesting data
         G_KEY_FILE_KEEP_TRANSLATIONS = Ok keyfile
    /\ (g_str_has_suffix name ".service" = true ->
        dbus_service_name_ok name keyfile = true)
    /\ dir_lookup new_name cur = None
    /\ cur' = dir_set new_name
                (RegularFile
                   (g_key_file_to_data
                      (fold_left (rewrite_group app branch arch)
                         (g_key_file_get_groups keyfile) keyfile)))
                cur.
Proof.
  intros Hrun. unfold export_desktop_file in Hrun.
  apply bind_ok in Hrun as (opened & st1 & Hstat & Hrun).
  unfold fstatat in Hstat. injection Hstat as <- <-. simpl fst in Hrun.
  destruct (dir_lookup name cur) as [[data| | |]|]; try discriminate.
  apply bind_ok in Hrun as (keyfile & st1 & Hload & Hrun).
  unfold lift in Hload. injection Hload as Hload <-.
  destruct (g_str_has_suffix name ".service"
            && negb (dbus_service_name_ok name keyfile)) eqn:Echeck;
    [discriminate|].
  apply open_in_tmpdir_at_ok in Hrun as [Hfresh ->].
  exists data, keyfile. repeat split; try assumption.
  intros Hsuffix. rewrite Hsuffix in Echeck. simpl in Echeck.
  now apply negb_false_iff in Echeck.
Qed.

Lemma bad_entry_frame (cur cur' : directory) (b : string) :
  dir_lookup b cur' = dir_lookup b cur -> bad_entry cur b -> bad_entry cur' b.
Proof. unfold bad_entry. now intros ->. Qed.

Lemma existsb_streq_cons (b x : string) (visited : list string) :
  b <> x -> existsb (streq b) visited = false ->
  existsb (streq b) (x :: visited) = false.
Proof.
  intros Hne Hv. simpl. apply streq_false in Hne. now rewrite Hne.
Qed.

Lemma existsb_streq_sym (a : string) (l : list string) :
  existsb (streq a) l = existsb (fun x => streq x a) l.
Proof.
  induction l as [|x l IH]; simpl; [reflexivity|].
  unfold streq at 1 3. now rewrite String.eqb_sym, IH.
Qed.

(** A bad service file is rejected by [export_desktop_file]. *)
Lemma export_desktop_file_bad (app branch arch name : string) (data : text)
  (cur : directory) (w : XdgAppDir) :
  bad_service_file name data ->
  dir_lookup name cur = None \/ dir_lookup name cur = Some (RegularFile data) ->
  fails (export_desktop_file app branch arch name) (cur, w).
Proof.
  intros [Hsuffix Hbad] Hl.
  unfold export_desktop_file. apply fails_fstatat.
  destruct Hl as [-> | ->]; [apply fails_throw|].
  unfold fails, bind, lift.
  destruct (g_key_file_load_from_data locale_is_interesting data
              G_KEY_FILE_KEEP_TRANSLATIONS) as [keyfile|e].
  - rewrite Hsuffix. unfold dbus_service_name_ok.
    change (strlen name - strlen ".service") with (String.length name - 8).
    unfold g_strndup.
    destruct (g_key_file_get_string keyfile "D-BUS Service" "Name")
      as [dbus_name|]; simpl.
    + destruct (streq dbus_name _) eqn:E; simpl.
      * apply streq_true in E. subst dbus_name. now elim Hbad.
      * apply fails_throw.
    + apply fails_throw.
  - now exists e, (cur, w).
Qed.

(** The loop fails when an entry it has not visited yet is bad. *)
Lemma rewrite_export_entries_bad (recurse : M Export unit)
  (app branch arch : string) :
  (forall sub w, contains_bad_service sub -> fails recurse (sub, w)) ->
  forall dents visited cur w b,
    In b dents -> existsb (streq b) visited = false -> bad_entry cur b ->
    fails (rewrite_export_entries recurse app branch arch dents visited)
      (cur, w).
Proof.
  intros Hrec. induction dents as [|d_name rest IH];
    intros visited cur w b Hin Hvis Hbad; [contradiction|].
  cbn [rewrite_export_entries].
  destruct (existsb (streq d_name) visited) eqn:Ev.
  { (* already visited: it is not the bad entry *)
    destruct Hin as [->|Hin]; [congruence|]. now apply (IH _ _ _ b). }
  apply fails_fstatat.
  destruct (string_dec d_name b) as [->|Hne].
  - (* the bad entry itself *)
    destruct Hbad as [(data & Hl & Hbad)|(sub & Hl & Hbad)]; rewrite Hl.
    + run_first u st Hrun. destruct st as [cur1 w1].
      assert (Hl1 : dir_lookup b cur1 = None
                    \/ dir_lookup b cur1 = Some (RegularFile data)).
      { destruct (negb (xdg_app_has_name_prefix b app)).
        - apply bind_ok in Hrun as (u' & [cur0 w0] & Hwarn & Hunl).
          apply in_world_ok in Hwarn. subst cur0. destruct u.
          apply unlinkat_unless_gone_ok in Hunl as [Hgone _]. now left.
        - injection Hrun as _ <- <-. now right. }
      destruct Hbad as [Hsuffix Hload]. rewrite Hsuffix, orb_true_r.
      apply fails_bind_l.
      now apply (export_desktop_file_bad _ _ _ _ data); [split|].
    + apply fails_bind_l. unfold fails, in_subdir. simpl. rewrite Hl.
      destruct (Hrec sub w Hbad) as (e & [sub' w'] & Hfail).
      rewrite Hfail. now eexists _, _.
  - (* another entry: it leaves the bad one alone *)
    assert (Hb : b <> d_name) by congruence.
    assert (Hpresent : forall cur1,
               dir_lookup b cur1 = dir_lookup b cur ->
               dir_lookup b cur1 <> None).
    { intros cur1 ->.
      destruct Hbad as [(x & -> & _)|(x & -> & _)]; discriminate. }
    destruct (dir_lookup d_name cur) as [[data|target|sub|]|] eqn:El.
    + (* a regular file *)
      run_first u st Hrun. destruct st as [cur1 w1].
      assert (Hl1 : dir_lookup b cur1 = dir_lookup b cur).
      { destruct (negb (xdg_app_has_name_prefix d_name app)).
        - apply bind_ok in Hrun as (u' & [cur0 w0] & Hwarn & Hunl).
          apply in_world_ok in Hwarn. subst cur0. destruct u.
          apply unlinkat_unless_gone_ok in Hunl as [_ Hframe].
          now apply Hframe.
        - now injection Hrun as _ <- <-. }
      destruct (g_str_has_suffix d_name ".desktop"
                || g_str_has_suffix d_name ".service").
      * run_first new_name st Hexp. destruct st as [cur2 w2].
        apply export_desktop_file_ok in Hexp
          as (data' & keyfile & _ & _ & _ & Hfresh & ->).
        assert (Hnew : b <> new_name).
        { intros ->. now apply (Hpresent cur1). }
        run_first u2 st Hren. destruct st as [cur3 w3]. destruct u2.
        apply (IH _ _ _ b).
        -- destruct Hin; [congruence|assumption].
        -- now repeat apply existsb_streq_cons.
        -- apply (bad_entry_frame cur); [|assumption].
           rewrite (renameat_ok _ _ _ _ _ _ Hren b Hnew Hb).
           now rewrite dir_lookup_set_other.
      * apply (IH _ _ _ b).
        -- destruct Hin; [congruence|assumption].
        -- now apply existsb_streq_cons.
        -- now apply (bad_entry_frame cur).
    + (* a symbolic link *)
      run_first u st Hwarn. destruct st as [cur0 w0].
      apply in_world_ok in Hwarn. subst cur0.
      run_first u1 st Hunl. destruct st as [cur1 w1]. destruct u1.
      apply unlinkat_unless_gone_ok in Hunl as [_ Hframe].
      apply (IH _ _ _ b).
      * destruct Hin; [congruence|assumption].
      * now apply existsb_streq_cons.
      * apply (bad_entry_frame cur); [now apply Hframe|assumption].
    + (* a directory *)
      run_first u st Hsub. destruct st as [cur1 w1].
      apply (IH _ _ _ b).
      * destruct Hin; [congruence|assumption].
      * now apply existsb_streq_cons.
      * apply (bad_entry_frame cur); [|assumption].
        now apply (in_subdir_ok _ _ _ _ _ _ _ Hsub).
    + (* a special file *)
      run_first u st Hwarn. destruct st as [cur0 w0].
      apply in_world_ok in Hwarn. subst cur0.
      run_first u1 st Hunl. destruct st as [cur1 w1]. destruct u1.
      apply unlinkat_unless_gone_ok in Hunl as [_ Hframe].
      apply (IH _ _ _ b).
      * destruct Hin; [congruence|assumption].
      * now apply existsb_streq_cons.
      * apply (bad_entry_frame cur); [now apply Hframe|assumption].
    + (* gone *)
      apply (IH _ _ _ b).
      * destruct Hin; [congruence|assumption].
      * now apply existsb_streq_cons.
      * assumption.
Qed.

Lemma dir_lookup_in_names (name : string) (d : directory) (x : node) :
  dir_lookup name d = Some x -> In name (map fst d).
Proof.
  induction d as [|[n y] d IH]; simpl; [discriminate|].
  destruct (streq n name) eqn:E.
  - apply streq_true in E. now left.
  - intros Hl. right. now apply IH.
Qed.

(** The rewriter fails on every export tree that holds a bad service
    file. *)
Lemma rewrite_export_dir_bad (fds : nat) (app branch arch : string)
  (export : directory) (w : XdgAppDir) :
  contains_bad_service export ->
  fails (rewrite_export_dir fds app branch arch) (export, w).
Proof.
  revert export w. induction fds as [|fds IH]; intros export w Hbad.
  - apply fails_throw.
  - cbn [rewrite_export_dir]. simpl fst.
    destruct Hbad as [d name data Hl Hbad|d name sub Hl Hbad].
    + apply (rewrite_export_entries_bad _ _ _ _ IH _ _ _ _ name).
      * now apply (dir_lookup_in_names _ _ _ Hl).
      * reflexivity.
      * left. now exists data.
    + apply (rewrite_export_entries_bad _ _ _ _ IH _ _ _ _ name).
      * now apply (dir_lookup_in_names _ _ _ Hl).
      * reflexivity.
      * right. now exists sub.
Qed.

End RewriterProofs.

(** * Deploy leaves [active] alone until it sets it *)

Lemma active_target_link (s : XdgAppDir) (ref : string) :
  active_target s ref = link_target (active_entry s ref).
Proof. reflexivity. Qed.

Lemma read_active_target (s : XdgAppDir) (ref : string) :
  xdg_app_dir_read_active ref s = (Ok (active_target s ref), s).
Proof. apply read_active_of_entry. Qed.

Lemma link_target_set_directory (c : string) (y : directory) (d : directory) :
  dir_lookup c d = None \/ (exists x, dir_lookup c d = Some (Directory x)) ->
  link_target (dir_lookup "active" (dir_set c (Directory y) d))
  = link_target (dir_lookup "active" d).
Proof.
  intros Hc. destruct (string_dec "active" c) as [<-|Hne].
  - rewrite dir_lookup_set_same.
    destruct Hc as [->|(x & ->)]; reflexivity.
  - now rewrite dir_lookup_set_other.
Qed.

Lemma active_target_same_dirs (s s' : XdgAppDir) (ref : string) :
  deploy_dirs s' = deploy_dirs s -> active_target s' ref = active_target s ref.
Proof. unfold active_target, active_entry. now intros ->. Qed.

Lemma active_target_set (s : XdgAppDir) (ref base : string) (c : string)
  (y d : directory) :
  deploy_dirs s base = Some (Directory d) ->
  dir_lookup c d = None \/ (exists x, dir_lookup c d = Some (Directory x)) ->
  active_target
    (set_deploy_dir base (Some (Directory (dir_set c (Directory y) d))) s) ref
  = active_target s ref.
Proof.
  intros Hd Hc. unfold active_target, active_entry, xdg_app_dir_get_deploy_dir.
  simpl. destruct (streq ref base) eqn:E.
  - apply streq_true in E. subst base. rewrite Hd.
    now apply link_target_set_directory.
  - reflexivity.
Qed.

Lemma preserves_bind {A B} (ref : string) (m : M XdgAppDir A)
  (k : A -> M XdgAppDir B) :
  preserves_active ref m -> (forall a, preserves_active ref (k a)) ->
  preserves_active ref (bind m k).
Proof.
  intros Hm Hk s r s'. unfold bind.
  destruct (m s) as [[a|e] s1] eqn:E.
  - intros Hrun. rewrite (Hk a _ _ _ Hrun). now apply (Hm _ _ _ E).
  - intros Hrun. injection Hrun as <- <-. now apply (Hm _ _ _ E).
Qed.

Lemma preserves_pure {A} (ref : string) (m : M XdgAppDir A) :
  (forall s, snd (m s) = s) -> preserves_active ref m.
Proof.
  intros Hm s r s' E. specialize (Hm s). rewrite E in Hm. simpl in Hm.
  now subst s'.
Qed.

Lemma preserves_attempt {A} (ref : string) (m : M XdgAppDir A) :
  preserves_active ref m -> preserves_active ref (attempt m).
Proof.
  intros Hm s r s'. unfold attempt. destruct (m s) as [r1 s1] eqn:E.
  intros Hrun. injection Hrun as _ <-. now apply (Hm _ _ _ E).
Qed.

Lemma preserves_opened_repo (ref : string) : preserves_active ref opened_repo.
Proof.
  apply preserves_pure. intros s. unfold opened_repo. now destruct (repo s).
Qed.

Lemma preserves_read_commit (ref c : string) :
  preserves_active ref (ostree_repo_read_commit c).
Proof.
  apply preserves_bind; [apply preserves_opened_repo|]. intros r.
  apply preserves_pure. intros s. now destruct (repo_commits r c).
Qed.

Lemma preserves_load_origin (ref base : string) :
  preserves_active ref (load_origin base).
Proof.
  apply preserves_pure. intros s. unfold load_origin.
  destruct (deploy_dirs s base) as [[| |d|]|]; try reflexivity.
  destruct (dir_lookup "origin" d) as [[| | |]|]; reflexivity.
Qed.

Lemma preserves_ensure_repo (ref : string) :
  preserves_active ref xdg_app_dir_ensure_repo.
Proof.
  intros s r s' E. apply active_target_same_dirs.
  now apply ensure_repo_deploy_dirs in E as [-> _].
Qed.

Lemma preserves_checkout_tree (ref base c : string) (root : node) :
  preserves_active ref (ostree_repo_checkout_tree base c root).
Proof.
  intros s r s'. unfold ostree_repo_checkout_tree, in_deploy_dir.
  destruct (deploy_dirs s base) as [[| |d|]|] eqn:Hd;
    try (intros E; now injection E as _ <-).
  destruct root as [| |tree|]; try (intros E; now injection E as _ <-).
  destruct (dir_lookup c d) eqn:Hc; intros E; injection E as _ <-;
    [reflexivity|].
  apply active_target_set; auto.
Qed.

(** What the write of files/.ref does to the deploy base: nothing when it
    fails; a file where there was a file or nothing, or nothing that is
    seen in the deploy base ([path] is empty), when it succeeds. *)
Lemma replace_dotref_run (base c : string) (s s' : XdgAppDir)
  (r : result unit) :
  replace_dotref base c s = (r, s') ->
  (exists e, r = Err e /\ s' = s)
  \/ exists d path,
      deploy_dirs s base = Some (Directory d)
      /\ r = Ok tt
      /\ (path <> [] ->
          tree_lookup d path = None
          \/ exists data, tree_lookup d path = Some (RegularFile data))
      /\ s' = set_deploy_dir base
                (Some (Directory (tree_set d path (RegularFile [])))) s.
Proof.
  unfold replace_dotref, in_deploy_dir.
  destruct (deploy_dirs s base) as [[| |d|]|] eqn:Hd;
    try (intros E; injection E as <- <-; left; eauto).
  destruct (resolve MAXSYMLINKS d "files/.ref" []
              [Child c; Child "files"; Child ".ref"])
    as [dir name data|dir name|dir|dir name|target|target|e] eqn:Hres;
    try (intros E; injection E as <- <-; left; now eauto).
  - apply resolve_found_file in Hres.
    intros E; injection E as <- <-. right. exists d, (dir ++ [name]).
    repeat split; eauto.
  - apply resolve_missing in Hres.
    intros E; injection E as <- <-. right. exists d, (dir ++ [name]).
    repeat split; eauto.
  - destruct (elsewhere s target); intros E; injection E as <- <-;
      [|left; now eauto].
    right. exists d, []. repeat split; try reflexivity. now intros [].
  - destruct (elsewhere s target); intros E; injection E as <- <-;
      [|left; now eauto].
    right. exists d, []. repeat split; try reflexivity. now intros [].
Qed.

Lemma link_target_tree_set (root : directory) (path : list string)
  (name : string) :
  (path <> [] ->
   tree_lookup root path = None
   \/ exists data, tree_lookup root path = Some (RegularFile data)) ->
  link_target (dir_lookup name (tree_set root path (RegularFile [])))
  = link_target (dir_lookup name root).
Proof.
  intros Hwas. pose proof (tree_set_file_entry root path name Hwas) as Hs.
  destruct (dir_lookup name root) as [[data|target|y|]|].
  - destruct Hs as [->|(data' & ->)]; reflexivity.
  - now rewrite Hs.
  - destruct Hs as (y' & ->). reflexivity.
  - now rewrite Hs.
  - destruct Hs as [->|(data' & ->)]; reflexivity.
Qed.

Lemma preserves_replace_dotref (ref base c : string) :
  preserves_active ref (replace_dotref base c).
Proof.
  intros s r s' Hrun.
  apply replace_dotref_run in Hrun
    as [(e & _ & ->)|(d & path & Hd & _ & Hwas & ->)]; [reflexivity|].
  unfold active_target, active_entry, xdg_app_dir_get_deploy_dir. simpl.
  destruct (streq ref base) eqn:E; [|reflexivity].
  apply streq_true in E. subst base. rewrite Hd.
  now apply link_target_tree_set.
Qed.

Section DeployProofs.
Context `{Platform}.

Lemma preserves_deploy_checkout (ref : string) (checksum : option string) :
  preserves_active ref (deploy_checkout ref checksum).
Proof.
  unfold deploy_checkout.
  apply preserves_bind; [apply preserves_ensure_repo|]. intros _.
  apply preserves_bind.
  - destruct checksum as [c|].
    + apply preserves_bind;
        [apply preserves_attempt, preserves_read_commit|].
      intros [root|e]; [now apply preserves_pure|].
      apply preserves_bind; [apply preserves_load_origin|]. intros repository.
      apply preserves_bind; [apply preserves_opened_repo|]. intros r.
      apply preserves_bind; [now apply preserves_pure|]. intros r'.
      intros s x s' E. injection E as _ <-. reflexivity.
    + apply preserves_bind.
      { apply preserves_attempt, preserves_pure. intros s.
        unfold xdg_app_dir_get_origin, load_origin.
        destruct (deploy_dirs s _) as [[| |d|]|]; try reflexivity.
        destruct (dir_lookup "origin" d) as [[| | |]|]; reflexivity. }
      intros origin.
      apply preserves_bind; [apply preserves_opened_repo|]. intros r.
      apply preserves_pure. intros s.
      now destruct (repo_refs r _).
  - intros c.
    apply preserves_bind.
    + apply preserves_pure. intros s. unfold g_file_query_exists.
      now destruct (deploy_dirs s _) as [[| | |]|].
    + intros [|]; [now apply preserves_pure|].
      apply preserves_bind; [apply preserves_read_commit|]. intros root.
      apply preserves_bind; [apply preserves_checkout_tree|]. intros _.
      apply preserves_bind; [apply preserves_replace_dotref|]. intros _.
      now apply preserves_pure.
Qed.

(** The export stage fails on a checkout whose export tree holds a bad
    service file, and leaves [active] as it was. *)
Lemma deploy_export_bad (s : XdgAppDir) (ref c : string) :
  exports_bad_service s ref c ->
  exists e s', deploy_export ref c s = (Err e, s')
               /\ active_target s' ref = active_target s ref.
Proof.
  intros (d & checkoutdir & export & Hd & Hc & Hexp & Hbad).
  unfold deploy_export, bind, find_export.
  rewrite Hd, Hc, Hexp. unfold xdg_app_rewrite_export_dir.
  destruct (rewrite_export_dir_bad (open_max s)
              (nth 1 (g_strsplit_slash ref) EmptyString)
              (nth 3 (g_strsplit_slash ref) EmptyString)
              (nth 2 (g_strsplit_slash ref) EmptyString) export s Hbad)
    as (e & [export' s'] & Hfail).
  rewrite Hfail. eexists _, _. split; [reflexivity|].
  unfold active_target, active_entry. rewrite deploy_dirs_set_same.
  rewrite Hd. apply link_target_set_directory. right. now exists checkoutdir.
Qed.

(** C4.  When the checkout that deploy makes has an export tree with a
    [.service] file whose [Name] under [D-BUS Service] is missing or is not
    the file name without the suffix, deploy fails with an error, and what
    read-active returns is what it returned before: set-active is not
    reached. *)
Theorem deploy_service_name_mismatch_fatal (s : XdgAppDir) (ref : string)
  (checksum : option string) :
  four_parts ref ->
  (forall c s1, deploy_checkout ref checksum s = (Ok c, s1) ->
                exports_bad_service s1 ref c) ->
  exists e s',
    xdg_app_dir_deploy ref checksum s = (Err e, s')
    /\ fst (xdg_app_dir_read_active ref s')
       = fst (xdg_app_dir_read_active ref s).
Proof.
  intros _ Hbad. unfold xdg_app_dir_deploy, bind.
  destruct (deploy_checkout ref checksum s) as [[c|e] s1] eqn:Hco.
  - destruct (deploy_export_bad s1 ref c (Hbad c s1 eq_refl))
      as (e & s' & -> & Hact).
    exists e, s'. split; [reflexivity|].
    rewrite !read_active_target. cbn [fst]. rewrite Hact. f_equal.
    now apply (preserves_deploy_checkout ref checksum s _ _ Hco).
  - exists e, s1. split; [reflexivity|].
    rewrite !read_active_target. cbn [fst]. f_equal.
    now apply (preserves_deploy_checkout ref checksum s _ _ Hco).
Qed.

End DeployProofs.

(** * Key files *)

Lemma remove_pair_lookup_other (pairs pairs' : list GKeyFileKeyValuePair)
  (key other : string) :
  key <> other ->
  remove_pair pairs other = Some pairs' ->
  g_key_file_lookup_key_value_pair pairs' key
  = g_key_file_lookup_key_value_pair pairs key.
Proof.
  intros Hne. revert pairs'.
  induction pairs as [|p pairs IH]; simpl; intros pairs'; [discriminate|].
  destruct (remove_pair pairs other) as [rest'|] eqn:E.
  - intros Heq. injection Heq as <-. simpl. now rewrite (IH rest').
  - destruct (pair_has_key other p) eqn:Ep; [|discriminate].
    intros Heq. injection Heq as <-.
    destruct (g_key_file_lookup_key_value_pair pairs key); [reflexivity|].
    destruct p as [c|k v]; simpl in *; [reflexivity|].
    apply streq_true in Ep. subst k.
    destruct (streq other key) eqn:E'; [|reflexivity].
    apply streq_true in E'. congruence.
Qed.

Lemma replace_value_lookup (pairs pairs' : list GKeyFileKeyValuePair)
  (key value : string) :
  replace_value pairs key value = Some pairs' ->
  g_key_file_lookup_key_value_pair pairs' key = Some value.
Proof.
  revert pairs'. induction pairs as [|p pairs IH]; simpl; intros pairs';
    [discriminate|].
  destruct (replace_value pairs key value) as [rest'|] eqn:E.
  - intros Heq. injection Heq as <-. simpl. now rewrite (IH rest').
  - destruct (pair_has_key key p) eqn:Ep; [|discriminate].
    intros Heq. injection Heq as <-. simpl.
    assert (Hnone : g_key_file_lookup_key_value_pair pairs key = None).
    { clear -E. induction pairs as [|q pairs IH]; simpl in *; [reflexivity|].
      destruct (replace_value pairs key value); [discriminate|].
      destruct (pair_has_key key q) eqn:Eq; [discriminate|].
      rewrite IH by reflexivity.
      destruct q as [c|k v]; simpl in *; [reflexivity|]. now rewrite Eq. }
    now rewrite Hnone, streq_refl.
Qed.

Lemma replace_value_none (pairs : list GKeyFileKeyValuePair)
  (key value : string) :
  replace_value pairs key value = None ->
  g_key_file_lookup_key_value_pair pairs key = None.
Proof.
  induction pairs as [|q pairs IH]; simpl; [reflexivity|].
  destruct (replace_value pairs key value); [discriminate|].
  destruct (pair_has_key key q) eqn:Eq; [discriminate|].
  intros _. rewrite IH by reflexivity.
  destruct q as [c|k v]; simpl in *; [reflexivity|]. now rewrite Eq.
Qed.

Lemma lookup_pair_app_last (pairs : list GKeyFileKeyValuePair)
  (key value : string) :
  g_key_file_lookup_key_value_pair (pairs ++ [Pair key value]) key
  = Some value.
Proof.
  induction pairs as [|p pairs IH]; simpl.
  - now rewrite streq_refl.
  - now rewrite IH.
Qed.

Lemma set_pair_lookup (pairs : list GKeyFileKeyValuePair)
  (key value : string) :
  g_key_file_lookup_key_value_pair (set_pair key value pairs) key
  = Some value.
Proof.
  unfold set_pair.
  destruct (replace_value pairs key value) as [pairs'|] eqn:E.
  - now apply (replace_value_lookup pairs).
  - apply lookup_pair_app_last.
Qed.

Lemma update_group_names (name : string)
  (f : list GKeyFileKeyValuePair -> list GKeyFileKeyValuePair)
  (gs : list GKeyFileGroup) :
  map group_name (update_group name f gs) = map group_name gs.
Proof.
  induction gs as [|g gs IH]; simpl; [reflexivity|].
  destruct (streq (group_name g) name); simpl; [reflexivity|].
  now rewrite IH.
Qed.

Lemma lookup_group_update_same (name : string)
  (f : list GKeyFileKeyValuePair -> list GKeyFileKeyValuePair)
  (gs : list GKeyFileGroup) :
  g_key_file_lookup_group (update_group name f gs) name
  = match g_key_file_lookup_group gs name with
    | Some g => Some (mkGroup (group_name g) (f (key_value_pairs g)))
    | None => None
    end.
Proof.
  induction gs as [|g gs IH]; simpl; [reflexivity|].
  destruct (streq (group_name g) name) eqn:E; simpl; now rewrite E.
Qed.

Lemma lookup_group_update_other (name other : string)
  (f : list GKeyFileKeyValuePair -> list GKeyFileKeyValuePair)
  (gs : list GKeyFileGroup) :
  other <> name ->
  g_key_file_lookup_group (update_group name f gs) other
  = g_key_file_lookup_group gs other.
Proof.
  intros Hne. induction gs as [|g gs IH]; simpl; [reflexivity|].
  destruct (streq (group_name g) name) eqn:E; simpl.
  - apply streq_true in E. rewrite E.
    destruct (streq name other) eqn:E'; [|reflexivity].
    apply streq_true in E'. congruence.
  - now rewrite IH.
Qed.

Lemma lookup_group_in_names (gs : list GKeyFileGroup) (name : string) :
  In name (map group_name gs) ->
  exists g, g_key_file_lookup_group gs name = Some g.
Proof.
  induction gs as [|g gs IH]; simpl; [contradiction|].
  destruct (streq (group_name g) name) eqn:E; [now exists g|].
  intros [Heq|Hin]; [|now apply IH].
  apply streq_false in E. contradiction.
Qed.

Lemma lookup_group_not_in_names (gs : list GKeyFileGroup) (name : string) :
  g_key_file_lookup_group gs name = None -> ~ In name (map group_name gs).
Proof.
  induction gs as [|g gs IH]; simpl; [auto|].
  destruct (streq (group_name g) name) eqn:E; [discriminate|].
  intros Hl [Heq|Hin]; [|now apply IH].
  apply streq_false in E. contradiction.
Qed.

Lemma get_string_remove_key (kf : GKeyFile) (group removed g key : string) :
  key <> removed ->
  g_key_file_get_string (g_key_file_remove_key kf group removed) g key
  = g_key_file_get_string kf g key.
Proof.
  intros Hne. unfold g_key_file_get_string, g_key_file_remove_key. simpl.
  destruct (string_dec g group) as [->|Hg].
  - rewrite lookup_group_update_same.
    destruct (g_key_file_lookup_group (groups kf) group) as [g0|];
      [|reflexivity].
    simpl. destruct (remove_pair (key_value_pairs g0) removed) eqn:E;
      [|reflexivity].
    now apply (remove_pair_lookup_other (key_value_pairs g0) _ key removed).
  - now rewrite lookup_group_update_other.
Qed.

Lemma get_groups_remove_key (kf : GKeyFile) (group removed : string) :
  g_key_file_get_groups (g_key_file_remove_key kf group removed)
  = g_key_file_get_groups kf.
Proof. apply update_group_names. Qed.

Lemma get_string_set_same (kf : GKeyFile) (group key value : string) :
  g_key_file_get_string (g_key_file_set_string kf group key value) group key
  = Some value.
Proof.
  unfold g_key_file_get_string, g_key_file_set_string.
  destruct (g_key_file_lookup_group (groups kf) group) as [g|] eqn:E; simpl.
  - rewrite lookup_group_update_same, E. simpl. apply set_pair_lookup.
  - assert (Hl : forall gs,
               g_key_file_lookup_group gs group = None ->
               g_key_file_lookup_group (gs ++ [mkGroup group [Pair key value]])
                 group
               = Some (mkGroup group [Pair key value])).
    { induction gs as [|g gs IH]; simpl.
      - now rewrite streq_refl.
      - destruct (streq (group_name g) group); [discriminate|exact IH]. }
    rewrite (Hl _ E). simpl. now rewrite streq_refl.
Qed.

Lemma get_string_set_other_group (kf : GKeyFile)
  (group other key key' value : string) :
  other <> group ->
  In group (g_key_file_get_groups kf) ->
  g_key_file_get_string (g_key_file_set_string kf group key value) other key'
  = g_key_file_get_string kf other key'.
Proof.
  intros Hne Hin. unfold g_key_file_get_string, g_key_file_set_string.
  destruct (lookup_group_in_names _ _ Hin) as (g & ->). simpl.
  now rewrite lookup_group_update_other.
Qed.

Lemma get_groups_set_string (kf : GKeyFile) (group key value : string) :
  In group (g_key_file_get_groups kf) ->
  g_key_file_get_groups (g_key_file_set_string kf group key value)
  = g_key_file_get_groups kf.
Proof.
  intros Hin. unfold g_key_file_set_string.
  destruct (lookup_group_in_names _ _ Hin) as (g & ->).
  apply update_group_names.
Qed.

(** ** The parser gives every group one entry *)

Lemma parse_line_groups_nodup (loc : string -> bool) (flags : GKeyFileFlags)
  (kf kf' : GKeyFile) (cur cur' : option string) (l : GKeyFileLine) :
  g_key_file_parse_line loc flags (kf, cur) l = Some (kf', cur') ->
  NoDup (g_key_file_get_groups kf) -> NoDup (g_key_file_get_groups kf').
Proof.
  unfold g_key_file_get_groups.
  destruct l as [c|name|key value|t]; simpl.
  - destruct (keep_comments flags); [destruct cur|]; intros E;
      injection E as <- <-; simpl; now rewrite ?update_group_names.
  - destruct (g_key_file_lookup_group (groups kf) name) eqn:El; intros E;
      injection E as <- <-; [auto|]. simpl. intros Hnd.
    rewrite map_app. simpl. apply NoDup_app; [assumption| |].
    + repeat constructor. intros [].
    + intros a Ha [<-|[]].
      now apply (lookup_group_not_in_names _ _ El).
  - destruct cur as [g|]; [|discriminate].
    destruct (match key_get_locale key with
              | Some locale => keep_translations flags || loc locale
              | None => true
              end); intros E; injection E as <- <-; simpl;
      now rewrite ?update_group_names.
  - discriminate.
Qed.

Lemma parse_data_groups_nodup (loc : string -> bool) (flags : GKeyFileFlags)
  (data : text) (kf kf' : GKeyFile) (cur cur' : option string) :
  g_key_file_parse_data loc flags (kf, cur) data = Some (kf', cur') ->
  NoDup (g_key_file_get_groups kf) -> NoDup (g_key_file_get_groups kf').
Proof.
  revert kf cur. induction data as [|l data IH]; intros kf cur;
    cbn [g_key_file_parse_data].
  - intros E. now injection E as <- <-.
  - destruct (g_key_file_parse_line loc flags (kf, cur) l) as [[kf1 cur1]|]
      eqn:El; [|discriminate].
    intros E Hnd. apply (IH _ _ E).
    now apply (parse_line_groups_nodup _ _ _ _ _ _ _ El).
Qed.

Lemma load_groups_nodup (loc : string -> bool) (flags : GKeyFileFlags)
  (data : text) (kf : GKeyFile) :
  g_key_file_load_from_data loc data flags = Ok kf ->
  NoDup (g_key_file_get_groups kf).
Proof.
  unfold g_key_file_load_from_data.
  destruct (g_key_file_parse_data loc flags (g_key_file_new, None) data)
    as [[kf' cur']|] eqn:E; [|discriminate].
  intros Heq. injection Heq as <-.
  apply (parse_data_groups_nodup _ _ _ _ _ _ _ E). constructor.
Qed.

(** * The rewritten Exec line *)

Lemma string_app_assoc (a b c : string) :
  ((a ++ b) ++ c = a ++ (b ++ c))%string.
Proof. induction a as [|x a IH]; simpl; [reflexivity|]. now rewrite IH. Qed.

Lemma is_clean_spec (c : ascii) :
  is_clean c = g_ascii_isalnum c || contains_char c "-_%.=:/@".
Proof. destruct c as [[] [] [] [] [] [] [] []]; reflexivity. Qed.

Lemma need_quotes_spec (str : string) :
  need_quotes str = negb (forallb is_clean (list_ascii_of_string str)).
Proof.
  induction str as [|c str IH]; [reflexivity|].
  cbn [need_quotes list_ascii_of_string forallb].
  rewrite is_clean_spec, IH, <- negb_orb.
  now destruct (g_ascii_isalnum c || contains_char c "-_%.=:/@").
Qed.

(** A token is quoted iff one of its characters is outside the class. *)
Lemma need_quotes_iff (str : string) :
  need_quotes str = true <->
  exists c, In c (list_ascii_of_string str) /\ ~ In c clean_characters.
Proof.
  rewrite need_quotes_spec, negb_true_iff. split.
  - intros Hf.
    destruct (forallb is_clean (list_ascii_of_string str)) eqn:E;
      [discriminate|].
    clear Hf. induction (list_ascii_of_string str) as [|c l IH];
      [discriminate|].
    simpl in E. destruct (is_clean c) eqn:Ec.
    + destruct (IH E) as (c' & Hin & Hc'). exists c'. split; [now right|auto].
    + exists c. split; [now left|]. intros Hin.
      unfold is_clean in Ec.
      assert (existsb (Ascii.eqb c) clean_characters = true).
      { apply existsb_exists. exists c. split; [assumption|].
        apply Ascii.eqb_refl. }
      congruence.
  - intros (c & Hin & Hc).
    destruct (forallb is_clean (list_ascii_of_string str)) eqn:E;
      [|reflexivity].
    rewrite forallb_forall in E. specialize (E c Hin).
    unfold is_clean in E. apply existsb_exists in E as (c' & Hin' & Heq).
    apply Ascii.eqb_eq in Heq. subst c'. contradiction.
Qed.

Lemma maybe_quote_substituted (token : string) :
  maybe_quote token = substituted token.
Proof.
  unfold maybe_quote, substituted. rewrite need_quotes_spec.
  now destruct (forallb is_clean (list_ascii_of_string token)).
Qed.

Lemma concat_space_cons (x y : string) (l : list string) :
  String.concat " " (x :: y :: l)
  = (x ++ " " ++ String.concat " " (y :: l))%string.
Proof. reflexivity. Qed.

Lemma append_args_concat (acc : string) (args : list string) :
  append_args acc args
  = String.concat EmptyString (acc :: map (fun a => (" " ++ substituted a)%string) args).
Proof.
  revert acc. induction args as [|a args IH]; intros acc; simpl.
  - reflexivity.
  - rewrite IH, maybe_quote_substituted. simpl.
    destruct (map (fun a0 => String " " (substituted a0)) args);
      simpl; now rewrite ?string_app_assoc.
Qed.

Lemma concat_space_tail (x : string) (l : list string) :
  String.concat " " (x :: l)
  = String.concat EmptyString (x :: map (fun a => (" " ++ a)%string) l).
Proof.
  revert x. induction l as [|y l IH]; intros x; [reflexivity|].
  rewrite concat_space_cons, IH. simpl.
  now destruct (map (fun a => String " " a) l).
Qed.

(** Bring appends of strings into right-nested form. *)
Ltac normalize_append :=
  repeat (progress (simpl; rewrite ?string_app_assoc)).

Section ExecProofs.
Context `{Platform}.

(** The command line the code builds is the one the specification
    describes. *)
Lemma rewrite_group_exec (app branch arch : string) (kf : GKeyFile)
  (group : string) :
  g_key_file_get_string (rewrite_group app branch arch kf group) group "Exec"
  = Some (launcher_command app branch arch
            (g_key_file_get_string kf group "Exec")).
Proof.
  unfold rewrite_group. rewrite get_string_set_same. f_equal.
  rewrite !get_string_remove_key by discriminate.
  unfold launcher_command. rewrite !maybe_quote_substituted.
  destruct (g_key_file_get_string kf group "Exec") as [old_exec|];
    [destruct (g_shell_parse_argv old_exec) as [[|cmd0 args]|]|];
    try (now normalize_append).
  rewrite append_args_concat, maybe_quote_substituted.
  cbn [List.app]. rewrite !concat_space_cons, concat_space_tail.
  rewrite map_map. simpl.
  destruct (map (fun a => String " " (substituted a)) args);
    now normalize_append.
Qed.

Lemma rewrite_group_other (app branch arch : string) (kf : GKeyFile)
  (group other key : string) :
  other <> group -> In group (g_key_file_get_groups kf) ->
  g_key_file_get_string (rewrite_group app branch arch kf group) other key
  = g_key_file_get_string kf other key.
Proof.
  intros Hne Hin. unfold rewrite_group.
  rewrite get_string_set_other_group; try assumption.
  - unfold g_key_file_get_string, g_key_file_remove_key. simpl.
    now rewrite !lookup_group_update_other.
  - now rewrite !get_groups_remove_key.
Qed.

Lemma rewrite_group_groups (app branch arch : string) (kf : GKeyFile)
  (group : string) :
  In group (g_key_file_get_groups kf) ->
  g_key_file_get_groups (rewrite_group app branch arch kf group)
  = g_key_file_get_groups kf.
Proof.
  intros Hin. unfold rewrite_group.
  rewrite get_groups_set_string; now rewrite !get_groups_remove_key.
Qed.

Lemma rewrite_groups_groups (app branch arch : string)
  (gs : list string) (kf : GKeyFile) :
  incl gs (g_key_file_get_groups kf) ->
  g_key_file_get_groups (fold_left (rewrite_group app branch arch) gs kf)
  = g_key_file_get_groups kf.
Proof.
  revert kf. induction gs as [|g gs IH]; intros kf Hincl; simpl;
    [reflexivity|].
  assert (Hg : In g (g_key_file_get_groups kf)) by (apply Hincl; now left).
  rewrite IH; [now apply rewrite_group_groups|].
  rewrite rewrite_group_groups by assumption.
  intros x Hx. apply Hincl. now right.
Qed.

Lemma rewrite_groups_other (app branch arch : string)
  (gs : list string) (kf : GKeyFile) (other key : string) :
  incl gs (g_key_file_get_groups kf) -> ~ In other gs ->
  g_key_file_get_string (fold_left (rewrite_group app branch arch) gs kf)
    other key
  = g_key_file_get_string kf other key.
Proof.
  revert kf. induction gs as [|g gs IH]; intros kf Hincl Hnot; simpl;
    [reflexivity|].
  assert (Hg : In g (g_key_file_get_groups kf)) by (apply Hincl; now left).
  rewrite IH.
  - apply rewrite_group_other; [|assumption].
    intros ->. apply Hnot. now left.
  - rewrite rewrite_group_groups by assumption.
    intros x Hx. apply Hincl. now right.
  - intros Hin. apply Hnot. now right.
Qed.

Lemma rewrite_groups_exec (app branch arch : string)
  (gs : list string) (kf : GKeyFile) (group : string) :
  NoDup gs -> incl gs (g_key_file_get_groups kf) -> In group gs ->
  g_key_file_get_string (fold_left (rewrite_group app branch arch) gs kf)
    group "Exec"
  = Some (launcher_command app branch arch
            (g_key_file_get_string kf group "Exec")).
Proof.
  revert kf. induction gs as [|g gs IH]; intros kf Hnd Hincl Hin;
    [contradiction|].
  inversion Hnd as [|? ? Hnotin Hnd']; subst. simpl.
  assert (Hg : In g (g_key_file_get_groups kf)) by (apply Hincl; now left).
  assert (Hincl' : incl gs (g_key_file_get_groups
                              (rewrite_group app branch arch kf g))).
  { rewrite rewrite_group_groups by assumption.
    intros x Hx. apply Hincl. now right. }
  destruct (string_dec g group) as [->|Hne].
  - rewrite rewrite_groups_other by assumption.
    apply rewrite_group_exec.
  - destruct Hin as [Heq|Hin]; [contradiction|].
    rewrite IH by assumption.
    rewrite rewrite_group_other; auto.
Qed.

(** C3.  When [export_desktop_file] succeeds on a file, the file it writes
    is the key file it read with, in every group, [Exec] set to
    <launcher-path> run --branch=<branch> --arch=<arch>, then
    --command=<cmd0> exactly when the original [Exec] splits into at least
    one token, then the app, then the remaining tokens in order; every
    substituted token is shell-quoted iff one of its characters is outside
    [A-Za-z0-9_\-.%=:/@]. *)
Theorem export_desktop_file_exec (app branch arch name new_name : string)
  (cur cur' : directory) (w w' : XdgAppDir) :
  export_desktop_file app branch arch name (cur, w)
  = (Ok new_name, (cur', w')) ->
  exists data keyfile keyfile',
    dir_lookup name cur = Some (RegularFile data)
    /\ g_key_file_load_from_data locale_is_interesting data
         G_KEY_FILE_KEEP_TRANSLATIONS = Ok keyfile
    /\ dir_lookup new_name cur'
       = Some (RegularFile (g_key_file_to_data keyfile'))
    /\ g_key_file_get_groups keyfile' = g_key_file_get_groups keyfile
    /\ (forall group,
          In group (g_key_file_get_groups keyfile) ->
          g_key_file_get_string keyfile' group "Exec"
          = Some (launcher_command app branch arch
                    (g_key_file_get_string keyfile group "Exec")))
    /\ (forall token,
          substituted token
          = if need_quotes token then g_shell_quote token else token)
    /\ (forall token,
          need_quotes token = true <->
          exists c, In c (list_ascii_of_string token)
                    /\ ~ In c clean_characters).
Proof.
  intros Hrun.
  apply export_desktop_file_ok in Hrun
    as (data & keyfile & Hl & Hload & _ & _ & ->).
  exists data, keyfile. eexists. split; [assumption|]. split; [assumption|].
  split; [apply dir_lookup_set_same|].
  split; [apply rewrite_groups_groups, incl_refl|].
  split; [|split].
  - intros group Hin. apply rewrite_groups_exec; try assumption.
    + now apply (load_groups_nodup _ _ _ _ Hload).
    + apply incl_refl.
  - intros token. symmetry. apply maybe_quote_substituted.
  - apply need_quotes_iff.
Qed.

End ExecProofs.

(** * Non-prefixed files *)

Section ForeignFiles.
Context `{Platform}.

(** A regular file that is not prefixed with the app name and is neither a
    desktop nor a service file is deleted with a warning, and the loop goes
    on with the next entry. *)
Lemma rewrite_entry_foreign_file (recurse : M Export unit)
  (app branch arch d_name : string) (rest visited : list string)
  (cur : directory) (w : XdgAppDir) (data : text) :
  existsb (streq d_name) visited = false ->
  dir_lookup d_name cur = Some (RegularFile data) ->
  xdg_app_has_name_prefix d_name app = false ->
  g_str_has_suffix d_name ".desktop" = false ->
  g_str_has_suffix d_name ".service" = false ->
  rewrite_export_entries recurse app branch arch (d_name :: rest) visited
    (cur, w)
  = rewrite_export_entries recurse app branch arch rest (d_name :: visited)
      (dir_remove d_name cur,
       add_warning ("Non-prefixed filename " ++ d_name ++ " in app " ++ app
                      ++ ", removing." ++ newline)%string w).
Proof.
  intros Hvis Hl Hprefix Hdesktop Hservice.
  cbn [rewrite_export_entries]. rewrite Hvis, bind_fstatat, Hl.
  rewrite Hprefix, Hdesktop, Hservice. simpl negb. cbv iota.
  unfold bind at 1. unfold bind at 1. unfold in_world, g_warning. simpl snd.
  unfold unlinkat_unless_gone, bind, attempt, unlinkat. simpl fst.
  rewrite Hl. reflexivity.
Qed.

(** With a desktop or service suffix the deleted file is then opened, and
    the rewriter fails. *)
Lemma rewrite_entry_foreign_desktop_file (recurse : M Export unit)
  (app branch arch d_name : string) (rest visited : list string)
  (cur : directory) (w : XdgAppDir) (data : text) :
  existsb (streq d_name) visited = false ->
  dir_lookup d_name cur = Some (RegularFile data) ->
  xdg_app_has_name_prefix d_name app = false ->
  g_str_has_suffix d_name ".desktop" || g_str_has_suffix d_name ".service"
  = true ->
  rewrite_export_entries recurse app branch arch (d_name :: rest) visited
    (cur, w)
  = (Err G_IO_ERROR_NOT_FOUND,
     (dir_remove d_name cur,
      add_warning ("Non-prefixed filename " ++ d_name ++ " in app " ++ app
                     ++ ", removing." ++ newline)%string w)).
Proof.
  intros Hvis Hl Hprefix Hsuffix.
  cbn [rewrite_export_entries]. rewrite Hvis, bind_fstatat, Hl.
  rewrite Hprefix, Hsuffix. simpl negb. cbv iota.
  unfold bind at 1. unfold bind at 1. unfold in_world, g_warning. simpl snd.
  unfold unlinkat_unless_gone, bind, attempt, unlinkat. simpl fst.
  rewrite Hl. simpl. unfold export_desktop_file, bind, fstatat. simpl.
  now rewrite dir_lookup_remove_same.
Qed.

End ForeignFiles.

(** C5 fails on the code.  The export directory holds [gedit.desktop], a
    regular file without the prefix of the app, before the desktop file of
    the app.  The rewriter deletes it and warns, then fails because it
    cannot open it; the desktop file of the app is left as it was. *)
Theorem rewrite_fails_on_foreign_desktop_file :
  let run :=
    rewrite_export_dir (H := example_platform) 1024
      "org.example.App" "stable" "x86_64"
      (export_with_foreign_desktop_file, empty_store) in
  fst run = Err G_IO_ERROR_NOT_FOUND
  /\ fst (snd run) = [("org.example.App.desktop", RegularFile desktop_file)]
  /\ warnings (snd (snd run))
     = [("Non-prefixed filename gedit.desktop in app org.example.App, removing."
           ++ newline)%string].
Proof. repeat split. Qed.

(** * Remotes *)

(** C7, as the code has it.  When the group of the remote has no
    [xa.noenumerate] key, the query returns false; it returns true only
    when the store has no repository configuration at all. *)
Theorem remote_noenumerate_absent (self : XdgAppDir) (remote_name : string) :
  (forall config,
      ostree_repo_get_config self = Some config ->
      g_key_file_get_string config (get_group remote_name) "xa.noenumerate"
      = None) ->
  xdg_app_dir_get_remote_noenumerate self remote_name
  = match ostree_repo_get_config self with
    | Some _ => false
    | None => true
    end.
Proof.
  intros Habsent. unfold xdg_app_dir_get_remote_noenumerate.
  destruct (ostree_repo_get_config self) as [config|]; [|reflexivity].
  unfold g_key_file_get_boolean. now rewrite (Habsent config).
Qed.

(** C7 as stated fails: the remote [origin] has no [xa.noenumerate] key,
    and the query returns false. *)
Lemma remote_noenumerate_defaults_to_false :
  g_key_file_get_string config_with_remote (get_group "origin")
    "xa.noenumerate" = None
  /\ xdg_app_dir_get_remote_noenumerate store_with_remote "origin" = false.
Proof. split; reflexivity. Qed.

(** * Metadata-only fetch *)

Section FetchProofs.
Context `{Platform}.

Local Open Scope Z_scope.

(** Where the sum 4 + h + 4 fits 32 bits, the payload is handled as C8 says:
    fewer than 8 bytes and a header beyond the end are FAILED, otherwise
    4 + h + 4 bytes are skipped and the rest is decompressed. *)
Lemma filez_payload_in_range (b0 b1 b2 b3 : Byte.byte)
  (rest : list Byte.byte) :
  let filez_data := b0 :: b1 :: b2 :: b3 :: rest in
  let h := GUINT32_FROM_BE b0 b1 b2 b3 in
  let size := Z.of_nat (List.length filez_data) in
  4 + h + 4 < 2 ^ 32 ->
  filez_payload filez_data
  = if (size <? 8) || (4 + h + 4 >? size) then Err G_IO_ERROR_FAILED
    else zlib_inflate_raw (skipn (Z.to_nat (4 + h + 4)) filez_data).
Proof.
  intros filez_data h size Hfit. unfold filez_payload.
  subst filez_data. cbv iota zeta. fold h. fold size.
  destruct (size <? 8) eqn:Esize; [reflexivity|].
  unfold guint32.
  assert (Hh : 0 <= h).
  { unfold h, GUINT32_FROM_BE, byte_value.
    repeat (apply Z.lor_nonneg; split);
      try apply Z.shiftl_nonneg; apply N2Z.is_nonneg. }
  rewrite Z.mod_small by lia.
  replace (h + (4 + 4)) with (4 + h + 4) by lia. simpl orb.
  reflexivity.
Qed.

(** Short payloads are FAILED whatever their contents. *)
Lemma filez_payload_short (filez_data : list Byte.byte) :
  Z.of_nat (List.length filez_data) < 8 ->
  filez_payload filez_data = Err G_IO_ERROR_FAILED.
Proof.
  intros Hshort. unfold filez_payload.
  destruct (Z.of_nat (List.length filez_data) <? 8) eqn:E; [reflexivity|].
  apply Z.ltb_ge in E. lia.
Qed.

(** C8 fails on the code.  The header size 0xfffffff8 makes the 32-bit sum
    4 + h + 4 wrap to 0: the check against the size of the payload passes,
    nothing is skipped, and the whole object, header included, goes to the
    decompressor, although 4 + h + 4 exceeds the size of the payload. *)
Theorem filez_header_size_wraps :
  let h := GUINT32_FROM_BE Byte.xff Byte.xff Byte.xff Byte.xf8 in
  h = 4294967288
  /\ 4 + h + 4 > Z.of_nat (List.length filez_with_huge_header)
  /\ filez_payload filez_with_huge_header
     = zlib_inflate_raw filez_with_huge_header.
Proof. repeat split. Qed.

End FetchProofs.

(** * Overrides: a key file read back from its own text *)

Lemma parse_data_app (loc : string -> bool) (flags : GKeyFileFlags)
  (l1 l2 : text) (st : GKeyFile * option string) :
  g_key_file_parse_data loc flags st (l1 ++ l2)
  = match g_key_file_parse_data loc flags st l1 with
    | Some st' => g_key_file_parse_data loc flags st' l2
    | None => None
    end.
Proof.
  revert st. induction l1 as [|l l1 IH]; intros st;
    cbn [g_key_file_parse_data List.app]; [reflexivity|].
  destruct (g_key_file_parse_line loc flags st l); [apply IH|reflexivity].
Qed.

Lemma update_group_last (name : string)
  (f : list GKeyFileKeyValuePair -> list GKeyFileKeyValuePair)
  (acc : list GKeyFileGroup) (pairs : list GKeyFileKeyValuePair) :
  ~ In name (map group_name acc) ->
  update_group name f (acc ++ [mkGroup name pairs])
  = acc ++ [mkGroup name (f pairs)].
Proof.
  induction acc as [|g acc IH]; simpl; intros Hnot.
  - now rewrite streq_refl.
  - destruct (streq (group_name g) name) eqn:E.
    + apply streq_true in E. elim Hnot. now left.
    + rewrite IH; [reflexivity|]. intros Hin. apply Hnot. now right.
Qed.

Lemma lookup_group_last (name : string) (acc : list GKeyFileGroup)
  (pairs : list GKeyFileKeyValuePair) :
  ~ In name (map group_name acc) ->
  g_key_file_lookup_group (acc ++ [mkGroup name pairs]) name
  = Some (mkGroup name pairs).
Proof.
  induction acc as [|g acc IH]; simpl; intros Hnot.
  - now rewrite streq_refl.
  - destruct (streq (group_name g) name) eqn:E.
    + apply streq_true in E. elim Hnot. now left.
    + apply IH. intros Hin. apply Hnot. now right.
Qed.

Lemma lookup_group_absent (name : string) (acc : list GKeyFileGroup) :
  ~ In name (map group_name acc) -> g_key_file_lookup_group acc name = None.
Proof.
  induction acc as [|g acc IH]; simpl; intros Hnot; [reflexivity|].
  destruct (streq (group_name g) name) eqn:E.
  - apply streq_true in E. elim Hnot. now left.
  - apply IH. intros Hin. apply Hnot. now right.
Qed.

(** The start comments are read back when comments are kept. *)
Lemma parse_start_comments (loc : string -> bool) (flags : GKeyFileFlags)
  (cs sc : list string) :
  g_key_file_parse_data loc flags (mkKeyFile sc [], None) (map LComment cs)
  = Some (mkKeyFile (sc ++ if keep_comments flags then cs else []) [], None).
Proof.
  revert sc. induction cs as [|c cs IH]; intros sc;
    cbn [g_key_file_parse_data map].
  - destruct (keep_comments flags); now rewrite app_nil_r.
  - unfold g_key_file_parse_line. destruct (keep_comments flags) eqn:E.
    + cbn [start_comments groups]. rewrite IH, <- app_assoc. reflexivity.
    + now rewrite IH.
Qed.

(** The pairs of the last group are read back, those that are kept. *)
Lemma parse_pairs (loc : string -> bool) (flags : GKeyFileFlags)
  (sc : list string) (acc : list GKeyFileGroup) (name : string)
  (pairs pairs0 : list GKeyFileKeyValuePair) :
  ~ In name (map group_name acc) ->
  g_key_file_parse_data loc flags
    (mkKeyFile sc (acc ++ [mkGroup name pairs0]), Some name)
    (map pair_to_line pairs)
  = Some (mkKeyFile sc
            (acc ++ [mkGroup name
                       (pairs0 ++ filter (pair_is_kept loc flags) pairs)]),
          Some name).
Proof.
  intros Hnot. revert pairs0.
  induction pairs as [|p pairs IH]; intros pairs0;
    cbn [g_key_file_parse_data map filter].
  - now rewrite app_nil_r.
  - destruct p as [c|key value]; cbn [pair_to_line pair_is_kept];
      unfold g_key_file_parse_line; cbn [start_comments groups].
    + destruct (keep_comments flags).
      * rewrite update_group_last by assumption. unfold append_pair.
        rewrite IH, <- app_assoc. reflexivity.
      * apply IH.
    + destruct (match key_get_locale key with
                | Some locale => keep_translations flags || loc locale
                | None => true
                end).
      * rewrite update_group_last by assumption. unfold append_pair.
        rewrite IH, <- app_assoc. reflexivity.
      * apply IH.
Qed.

(** The groups are read back one after the other. *)
Lemma parse_groups (loc : string -> bool) (flags : GKeyFileFlags)
  (sc : list string) (gs acc : list GKeyFileGroup) (cur : option string) :
  NoDup (map group_name (acc ++ gs)) ->
  exists cur',
    g_key_file_parse_data loc flags (mkKeyFile sc acc, cur)
      (flat_map group_to_data gs)
    = Some (mkKeyFile sc
              (acc ++ map (fun g =>
                             mkGroup (group_name g)
                               (filter (pair_is_kept loc flags)
                                  (key_value_pairs g))) gs),
            cur').
Proof.
  revert acc cur. induction gs as [|g gs IH]; intros acc cur Hnd.
  - exists cur. simpl. now rewrite app_nil_r.
  - assert (Hnot : ~ In (group_name g) (map group_name acc)).
    { rewrite map_app in Hnd. simpl in Hnd.
      apply NoDup_remove_2 in Hnd. intros Hin. apply Hnd.
      apply in_or_app. now left. }
    cbn [flat_map group_to_data List.app].
    cbn [g_key_file_parse_data]. unfold g_key_file_parse_line at 1.
    cbn [groups start_comments].
    rewrite (lookup_group_absent _ _ Hnot), parse_data_app.
    rewrite (parse_pairs _ _ _ _ _ _ [] Hnot). cbn [List.app].
    destruct (IH (acc ++ [mkGroup (group_name g)
                            (filter (pair_is_kept loc flags)
                               (key_value_pairs g))])
                (Some (group_name g))) as (cur' & Heq).
    { rewrite <- app_assoc. simpl.
      rewrite !map_app in *. simpl in *. exact Hnd. }
    exists cur'. rewrite Heq. cbn [map]. now rewrite <- app_assoc.
Qed.

(** What GLib reads back from the text it wrote. *)
Lemma load_from_written_data (loc : string -> bool) (flags : GKeyFileFlags)
  (kf : GKeyFile) :
  NoDup (g_key_file_get_groups kf) ->
  g_key_file_load_from_data loc (g_key_file_to_data kf) flags
  = Ok (read_back loc flags kf).
Proof.
  intros Hnd. unfold g_key_file_load_from_data, g_key_file_to_data.
  rewrite parse_data_app. unfold g_key_file_new.
  rewrite parse_start_comments. cbn [List.app].
  destruct (parse_groups loc flags
              (if keep_comments flags then start_comments kf else [])
              (groups kf) [] None Hnd) as (cur' & ->).
  reflexivity.
Qed.

Lemma read_back_plain (loc : string -> bool) (kf : GKeyFile) :
  plain_key_file loc kf -> read_back loc G_KEY_FILE_NONE kf = kf.
Proof.
  intros [Hsc Hpairs]. destruct kf as [sc gs]. simpl in *. subst sc.
  unfold read_back. simpl. f_equal.
  induction gs as [|[name pairs] gs IH]; [reflexivity|].
  inversion Hpairs as [|? ? Hp Hrest]; subst. simpl in *.
  rewrite IH by assumption. do 2 f_equal.
  clear -Hp. induction pairs as [|p pairs IH]; [reflexivity|].
  inversion Hp as [|? ? Hkept Hrest]; subst. simpl.
  rewrite Hkept. f_equal. now apply IH.
Qed.

Section OverridesProofs.
Context `{Platform}.

(** C9, as the code has it.  After a successful save of a key file, load
    gives the key file as a parse without flags reads it back: without its
    comments and without the keys translated to a language that is not one
    of the process.  For a key file that has neither, load gives the key
    file itself. *)
Theorem override_save_load (k : GKeyFile) (app_id : string) (user : bool)
  (fs fs' : Overrides) :
  NoDup (g_key_file_get_groups k) ->
  xdg_app_save_override_keyfile k app_id user fs = (Ok tt, fs') ->
  xdg_app_load_override_keyfile app_id user fs'
  = Ok (read_back locale_is_interesting G_KEY_FILE_NONE k)
  /\ (plain_key_file locale_is_interesting k ->
      xdg_app_load_override_keyfile app_id user fs' = Ok k).
Proof.
  intros Hnd Hsave.
  assert (Hload : xdg_app_load_override_keyfile app_id user fs'
                  = Ok (read_back locale_is_interesting G_KEY_FILE_NONE k)).
  { unfold xdg_app_save_override_keyfile in Hsave.
    assert (Hwritten : exists d,
               fs' user
               = Some (Directory
                         (dir_set app_id
                            (RegularFile (g_key_file_to_data k)) d))).
    { destruct (fs user) as [[| |d|]|]; try discriminate.
      - destruct (dir_lookup app_id d) as [[| | |]|]; try discriminate;
          injection Hsave as <-; exists d; unfold set_overrides;
          now rewrite Bool.eqb_reflx.
      - simpl in Hsave. injection Hsave as <-. exists [].
        unfold set_overrides. now rewrite Bool.eqb_reflx. }
    destruct Hwritten as (d & Hd).
    unfold xdg_app_load_override_keyfile. rewrite Hd.
    unfold MAXSYMLINKS. cbn [dir_load_contents].
    rewrite dir_lookup_set_same.
    now apply load_from_written_data. }
  split; [assumption|].
  intros Hplain. rewrite Hload. f_equal. now apply read_back_plain.
Qed.

End OverridesProofs.

(** C9 as stated fails: an override with the key [GREETING[de]] is saved,
    and the key file that load returns has lost the key. *)
Lemma override_round_trip_loses_translation :
  exists fs',
    xdg_app_save_override_keyfile
      override_with_translation "org.example.App" true no_overrides
    = (Ok tt, fs')
    /\ xdg_app_load_override_keyfile (H := example_platform)
         "org.example.App" true fs'
       = Ok override_without_translation
    /\ override_without_translation <> override_with_translation.
Proof.
  eexists. split; [reflexivity|]. split; [reflexivity|]. discriminate.
Qed.

(** * The theorems at the example inputs *)

(** Undeploy of the active [checksum_a] of the store with two deployments
    and a third directory of 64 characters: [active] then names
    [checksum_b], the first of the two that remain. *)
Lemma undeploy_repoints_active_witness :
  let s := store_with_two_deployments in
  let s' := snd (xdg_app_dir_undeploy example_ref checksum_a true s) in
  xdg_app_dir_read_active example_ref s = (Ok (Some checksum_a), s)
  /\ xdg_app_dir_undeploy example_ref checksum_a true s = (Ok tt, s')
  /\ xdg_app_dir_read_active example_ref s' = (Ok (Some checksum_b), s')
  /\ deploy_entry s' example_ref checksum_b = Some example_checkout
  /\ deploy_entry s' example_ref checksum_a = None.
Proof.
  intros s s'.
  assert (H1 : is_file_name checksum_a = true) by (vm_compute; reflexivity).
  assert (H2 : xdg_app_dir_read_active example_ref s
               = (Ok (Some checksum_a), s)) by (vm_compute; reflexivity).
  assert (H3 : xdg_app_dir_undeploy example_ref checksum_a true s
               = (Ok tt, s')) by (vm_compute; reflexivity).
  split; [exact H2|]. split; [exact H3|].
  destruct (undeploy_repoints_active s s' example_ref checksum_a true H1 H2 H3)
    as (d & d' & Hd & Hd' & Hgone & _ & Hsome & _).
  assert (Ed : d = [(checksum_a, example_checkout);
                    (checksum_b, example_checkout);
                    (not_a_checksum, Directory []);
                    (".hidden", Directory []);
                    ("origin", RegularFile [LInvalid "example-remote"]);
                    ("active", SymbolicLink checksum_a)]).
  { assert (E : deploy_dirs s (xdg_app_dir_get_deploy_dir example_ref)
                = Some (Directory
                     [(checksum_a, example_checkout);
                      (checksum_b, example_checkout);
                      (not_a_checksum, Directory []);
                      (".hidden", Directory []);
                      ("origin", RegularFile [LInvalid "example-remote"]);
                      ("active", SymbolicLink checksum_a)]))
      by reflexivity.
    rewrite E in Hd. now injection Hd. }
  destruct Hsome as (c' & child & Hread & _ & _ & _ & _ & Hfirst).
  { exists checksum_b, [("files", Directory [(".ref", RegularFile [])]);
                        ("metadata", RegularFile [LGroup "Application";
                                                  LPair "name" "org.example.App"])].
    subst d. split; [right; left; reflexivity|].
    split; [reflexivity|]. split; discriminate. }
  assert (Ec : c' = checksum_b).
  { subst d. vm_compute in Hfirst. now injection Hfirst. }
  subst c'. split; [exact Hread|].
  unfold deploy_entry. rewrite Hd'. split; [|exact Hgone].
  assert (E : deploy_dirs s' (xdg_app_dir_get_deploy_dir example_ref)
              = Some (Directory
                   [(checksum_b, example_checkout);
                    (not_a_checksum, Directory []);
                    (".hidden", Directory []);
                    ("origin", RegularFile [LInvalid "example-remote"]);
                    ("active", SymbolicLink checksum_b)]))
    by (vm_compute; reflexivity).
  rewrite E in Hd'. injection Hd' as <-. reflexivity.
Defined.

(** Set-active on a deploy base without [active]. *)
Lemma set_active_read_active_witness :
  let s := store_without_active in
  let s' := snd (xdg_app_dir_set_active example_ref (Some checksum_a) s) in
  xdg_app_dir_set_active example_ref (Some checksum_a) s = (Ok tt, s')
  /\ xdg_app_dir_read_active example_ref s' = (Ok (Some checksum_a), s')
  /\ active_is_link_or_absent s example_ref
  /\ exists s'', xdg_app_dir_set_active example_ref None s = (Ok tt, s'')
                 /\ xdg_app_dir_read_active example_ref s'' = (Ok None, s'').
Proof.
  intros s s'.
  assert (H1 : xdg_app_dir_set_active example_ref (Some checksum_a) s
               = (Ok tt, s')) by reflexivity.
  assert (H2 : active_is_link_or_absent s example_ref) by exact I.
  split; [assumption|]. split.
  - exact (proj1 (set_active_read_active s example_ref) checksum_a s' H1).
  - split; [assumption|].
    exact (proj2 (proj2 (set_active_read_active s example_ref)) H2).
Defined.

(** The desktop file of the example: [Exec=gedit %U] becomes the launcher
    command line of scenario B. *)
Lemma export_desktop_file_exec_witness :
  let run :=
    export_desktop_file (H := example_platform)
      "org.example.App" "stable" "x86_64" "org.example.App.desktop"
      (export_with_desktop_file, empty_store) in
  fst run = Ok "tmpAAAAAAAA-tmp"
  /\ exists data keyfile keyfile',
      dir_lookup "org.example.App.desktop" export_with_desktop_file
      = Some (RegularFile data)
      /\ g_key_file_load_from_data (locale_is_interesting (Platform := example_platform))
           data G_KEY_FILE_KEEP_TRANSLATIONS = Ok keyfile
      /\ dir_lookup "tmpAAAAAAAA-tmp" (fst (snd run))
         = Some (RegularFile (g_key_file_to_data keyfile'))
      /\ g_key_file_get_groups keyfile' = g_key_file_get_groups keyfile
      /\ (forall group,
            In group (g_key_file_get_groups keyfile) ->
            g_key_file_get_string keyfile' group "Exec"
            = Some (launcher_command (H := example_platform)
                      "org.example.App" "stable" "x86_64"
                      (g_key_file_get_string keyfile group "Exec")))
      /\ (forall token,
            substituted token
            = if need_quotes token then g_shell_quote token else token)
      /\ (forall token,
            need_quotes token = true <->
            exists c, In c (list_ascii_of_string token)
                      /\ ~ In c clean_characters).
Proof.
  intros run. split; [reflexivity|].
  apply (export_desktop_file_exec (H := example_platform)
           "org.example.App" "stable" "x86_64" "org.example.App.desktop"
           "tmpAAAAAAAA-tmp" export_with_desktop_file (fst (snd run))
           empty_store (snd (snd run))).
  reflexivity.
Defined.

(** The launcher command line of scenario B. *)
Example launcher_command_scenario_b :
  launcher_command (H := example_platform) "org.example.App" "stable" "x86_64"
    (Some "gedit %U")
  = "/usr/bin/xdg-app run --branch=stable --arch=x86_64 --command=gedit org.example.App %U".
Proof. reflexivity. Qed.

(** Deploy of the commit with the bad service file (scenario C). *)
Lemma deploy_service_name_mismatch_fatal_witness :
  let s := store_before_bad_deploy in
  four_parts example_ref
  /\ exists e s',
      xdg_app_dir_deploy (H := example_platform) example_ref (Some checksum_b) s
      = (Err e, s')
      /\ fst (xdg_app_dir_read_active example_ref s')
         = fst (xdg_app_dir_read_active example_ref s).
Proof.
  intros s.
  assert (H1 : four_parts example_ref) by reflexivity.
  split; [assumption|].
  apply (deploy_service_name_mismatch_fatal (H := example_platform)
           s example_ref (Some checksum_b) H1).
  intros c s1 Hrun. vm_compute in Hrun. injection Hrun as <- <-.
  eexists _, _, _. split; [reflexivity|]. split; [reflexivity|].
  split; [reflexivity|].
  eapply (bad_service_below _ "share"); [reflexivity|].
  eapply (bad_service_below _ "dbus-1"); [reflexivity|].
  eapply (bad_service_below _ "services"); [reflexivity|].
  eapply (bad_service_here _ "org.example.App.service"); [reflexivity|].
  split; [reflexivity|]. simpl. discriminate.
Defined.

(** The refs of the store with one app. *)
Lemma list_refs_sorted_without_arch_data_witness :
  xdg_app_dir_list_refs store_with_app "app"
  = Ok ["app/org.gnome.Maps/i386/stable";
        "app/org.gnome.Maps/x86_64/master";
        "app/org.gnome.Maps/x86_64/stable"]
  /\ StronglySorted str_le ["app/org.gnome.Maps/i386/stable";
                            "app/org.gnome.Maps/x86_64/master";
                            "app/org.gnome.Maps/x86_64/stable"]
  /\ NoDup ["app/org.gnome.Maps/i386/stable";
            "app/org.gnome.Maps/x86_64/master";
            "app/org.gnome.Maps/x86_64/stable"].
Proof.
  assert (H1 : xdg_app_dir_list_refs store_with_app "app"
               = Ok ["app/org.gnome.Maps/i386/stable";
                     "app/org.gnome.Maps/x86_64/master";
                     "app/org.gnome.Maps/x86_64/stable"]) by reflexivity.
  destruct (proj2 (list_refs_sorted_without_arch_data store_with_app "app")
              _ H1) as (Hsorted & _ & Hnodup).
  split; [assumption|]. split; [assumption|].
  apply Hnodup. intros d Hd. injection Hd as <-.
  unfold wf_kind_dir, wf_names. simpl.
  repeat (split || constructor || simpl);
    try (intros Hin; simpl in Hin; intuition discriminate).
Defined.

(** The remote of the example has no [xa.noenumerate] key. *)
Lemma remote_noenumerate_absent_witness :
  xdg_app_dir_get_remote_noenumerate store_with_remote "origin" = false.
Proof.
  apply (remote_noenumerate_absent store_with_remote "origin").
  intros config Hconfig. injection Hconfig as <-. reflexivity.
Defined.

(** An override without comments and translations is read back as it
    is. *)
Lemma override_save_load_witness :
  let fs' :=
    snd (xdg_app_save_override_keyfile override_without_translation
           "org.example.App" true no_overrides) in
  xdg_app_load_override_keyfile (H := example_platform)
    "org.example.App" true fs'
  = Ok override_without_translation.
Proof.
  intros fs'.
  assert (H1 : NoDup (g_key_file_get_groups override_without_translation)).
  { repeat constructor; simpl; intuition discriminate. }
  assert (H2 : xdg_app_save_override_keyfile override_without_translation
                 "org.example.App" true no_overrides = (Ok tt, fs'))
    by reflexivity.
  apply (proj2 (override_save_load (H := example_platform)
                  override_without_translation "org.example.App" true
                  no_overrides fs' H1 H2)).
  split; [reflexivity|]. repeat constructor.
Defined.

(** The names listed for the store with two deployments: the 64 characters
    that are no checksum are among them, the hidden directory, the files
    and the link are not. *)
Lemma list_deployed_exact_witness :
  xdg_app_dir_list_deployed example_ref store_with_two_deployments
  = (Ok [checksum_a; checksum_b; not_a_checksum], store_with_two_deployments)
  /\ xdg_app_dir_list_deployed example_ref empty_store = (Ok [], empty_store).
Proof.
  split.
  - destruct (proj2 (list_deployed_exact store_with_two_deployments example_ref)
                _ eq_refl) as (checksums & Hrun & Heq & _).
    rewrite Hrun, Heq. reflexivity.
  - apply (proj1 (list_deployed_exact empty_store example_ref)). reflexivity.
Defined.

(* ================================================================== *)
(** * Further properties of set-active *)

(** What a successful set-active leaves of a deploy base [d]. *)
Lemma set_active_ok_frame (ref : string) (checksum : option string)
  (s s' : XdgAppDir) (d : directory) :
  xdg_app_dir_set_active ref checksum s = (Ok tt, s') ->
  deploy_dirs s ref = Some (Directory d) ->
  exists d',
    deploy_dirs s' ref = Some (Directory d')
    /\ (forall name, name <> "active" -> dir_lookup name d' = dir_lookup name d)
    /\ filter listed_as_deployed d' = filter listed_as_deployed d
    /\ removed_dir s' = removed_dir s
    /\ wrlck s' = wrlck s
    /\ random s' = random s
    /\ elsewhere s' = elsewhere s
    /\ repo s' = repo s.
Proof.
  intros H Hd. destruct checksum as [c|].
  - apply set_active_some_ok in H as (d0 & tmpname & Hd0 & Htmp & Hfresh & _ & ->).
    rewrite Hd in Hd0. inversion Hd0; subst d0; clear Hd0.
    eexists. split; [apply deploy_dirs_set_same|].
    split; [|split; [|repeat split]].
    + intros name Hne. rewrite dir_lookup_set_other by assumption.
      rewrite dir_remove_set_same, dir_remove_absent by assumption.
      reflexivity.
    + rewrite filter_listed_set by apply active_not_listed.
      rewrite dir_remove_set_same, dir_remove_absent by assumption.
      reflexivity.
  - unfold xdg_app_dir_set_active, xdg_app_dir_get_deploy_dir, bind,
      attempt, g_file_delete, in_deploy_dir in H.
    rewrite Hd in H.
    destruct (writes (dir_delete "active" d)) as [[u d']|e] eqn:Ew.
    + inversion H; subst s'; clear H.
      apply writes_ok in Ew. unfold dir_delete in Ew.
      assert (Hd' : d' = dir_remove "active" d).
      { destruct (dir_lookup "active" d) as [[| |[|]|]|]; try discriminate;
          now inversion Ew. }
      subst d'.
      eexists. split; [apply deploy_dirs_set_same|].
      split; [|split; [|repeat split]].
      * intros name Hne. now apply dir_lookup_remove_other.
      * apply filter_listed_remove, active_not_listed.
    + destruct (GError_eqb e G_IO_ERROR_NOT_FOUND); [|discriminate].
      inversion H; subst s'; clear H.
      exists d. repeat split; assumption.
Qed.

(** X1.  A successful set-active, to a checksum or to none, changes no
    entry of the deploy base other than [active]: the temporary link it
    makes is gone again, and the deployments listed are those listed
    before. *)
Theorem set_active_changes_only_active (s s' : XdgAppDir) (ref : string)
  (checksum : option string) :
  xdg_app_dir_set_active ref checksum s = (Ok tt, s') ->
  (forall name, name <> "active" ->
                deploy_entry s' ref name = deploy_entry s ref name)
  /\ fst (xdg_app_dir_list_deployed ref s')
     = fst (xdg_app_dir_list_deployed ref s).
Proof.
  intros H.
  destruct (deploy_dirs s ref) as [[data|target|d|]|] eqn:Hd.
  3: {
    destruct (set_active_ok_frame _ _ _ _ _ H Hd)
      as (d' & Hd' & Hframe & Hlisted & _).
    unfold deploy_entry, xdg_app_dir_list_deployed,
      xdg_app_dir_get_deploy_dir.
    rewrite Hd, Hd'. split; [exact Hframe|].
    simpl. now rewrite !list_deployed_loop_filter, Hlisted. }
  all: assert (Hs : deploy_dirs s' ref = deploy_dirs s ref);
    [|unfold deploy_entry, xdg_app_dir_list_deployed,
        xdg_app_dir_get_deploy_dir; rewrite Hs, Hd; split; reflexivity].
  all: destruct checksum as [c|];
    [apply set_active_some_ok in H as (d0 & _ & Hd0 & _); congruence|].
  all: unfold xdg_app_dir_set_active, xdg_app_dir_get_deploy_dir, bind,
      attempt, g_file_delete, in_deploy_dir in H; rewrite Hd in H;
    simpl in H; inversion H; reflexivity.
Qed.

Lemma set_active_changes_only_active_witness :
  (forall name, name <> "active" ->
     deploy_entry
       (snd (xdg_app_dir_set_active example_ref (Some checksum_b)
               store_with_two_deployments)) example_ref name
     = deploy_entry store_with_two_deployments example_ref name)
  /\ fst (xdg_app_dir_list_deployed example_ref
            (snd (xdg_app_dir_set_active example_ref (Some checksum_b)
                    store_with_two_deployments)))
     = fst (xdg_app_dir_list_deployed example_ref store_with_two_deployments).
Proof.
  apply (set_active_changes_only_active store_with_two_deployments _
           example_ref (Some checksum_b)).
  vm_compute. reflexivity.
Defined.

(** X2.  When [active] is a directory, set-active to a checksum fails with
    IS_DIRECTORY at the rename, after the temporary link was made: the
    link .active-XXXXXXXX-tmp stays behind in the deploy base, and [active]
    is the directory it was. *)
Theorem set_active_failure_leaves_temporary_link (s : XdgAppDir)
  (ref c : string) (d x : directory) :
  deploy_dirs s (xdg_app_dir_get_deploy_dir ref) = Some (Directory d) ->
  dir_lookup "active" d = Some (Directory x) ->
  c <> EmptyString ->
  dir_lookup (".active-" ++ random s (random_pos s) ++ "-tmp")%string d = None ->
  exists s',
    xdg_app_dir_set_active ref (Some c) s = (Err G_IO_ERROR_IS_DIRECTORY, s')
    /\ deploy_entry s' ref (".active-" ++ random s (random_pos s) ++ "-tmp")%string
       = Some (SymbolicLink c)
    /\ deploy_entry s' ref "active" = Some (Directory x).
Proof.
  intros Hd Hact Hc Hfresh.
  unfold xdg_app_dir_get_deploy_dir in Hd.
  apply streq_false in Hc.
  assert (Htmp : streq (".active-" ++ random s (random_pos s) ++ "-tmp")
                   "active" = false) by reflexivity.
  unfold xdg_app_dir_set_active, xdg_app_dir_get_deploy_dir, bind,
    gs_fileutil_gen_tmp_name.
  change ("-" ++ "tmp")%string with "-tmp".
  remember (".active-" ++ random s (random_pos s) ++ "-tmp")%string as tmp
    eqn:Etmp.
  unfold g_file_make_symbolic_link, gs_file_rename, in_deploy_dir.
  simpl deploy_dirs. rewrite Hd. unfold dir_symlink.
  rewrite Hc, Hfresh. simpl writes. cbv iota beta.
  rewrite deploy_dirs_set_same. unfold dir_rename.
  rewrite dir_lookup_set_same, Htmp.
  assert (Hne : "active" <> tmp).
  { intros E. rewrite <- E in Htmp. discriminate. }
  rewrite dir_lookup_set_other by exact Hne.
  rewrite Hact. simpl rename_over. simpl writes. cbv iota.
  eexists. split; [reflexivity|].
  unfold deploy_entry, xdg_app_dir_get_deploy_dir.
  rewrite deploy_dirs_set_same. split.
  - apply dir_lookup_set_same.
  - rewrite dir_lookup_set_other by exact Hne. exact Hact.
Qed.

Lemma set_active_failure_leaves_temporary_link_witness :
  exists s',
    xdg_app_dir_set_active example_ref (Some checksum_a)
      store_with_active_directory = (Err G_IO_ERROR_IS_DIRECTORY, s')
    /\ deploy_entry s' example_ref ".active-AAAAAAAA-tmp"
       = Some (SymbolicLink checksum_a)
    /\ deploy_entry s' example_ref "active" = Some (Directory []).
Proof.
  apply (set_active_failure_leaves_temporary_link
           store_with_active_directory example_ref checksum_a
           [(checksum_a, example_checkout); ("active", Directory [])] []).
  - reflexivity.
  - reflexivity.
  - discriminate.
  - reflexivity.
Defined.

(* ================================================================== *)
(** * Further properties of undeploy *)

Lemma dir_exists_lookup (fuel : nat) (e : string -> bool) (d : directory)
  (name : string) :
  dir_exists fuel e d name = true -> dir_lookup name d <> None.
Proof.
  destruct fuel; simpl; destruct (dir_lookup name d); congruence.
Qed.

Lemma dir_exists_absent (fuel : nat) (e : string -> bool) (d : directory)
  (name : string) :
  dir_lookup name d = None -> dir_exists fuel e d name = false.
Proof.
  intros Hl. destruct fuel; simpl; now rewrite Hl.
Qed.

(** The stages of a successful undeploy: the state [s2] in which the
    checkout is moved away differs from the first one by what set-active
    did, if the checksum was the active one. *)
Lemma undeploy_ok_stages (s s' : XdgAppDir) (ref c : string) (force : bool) :
  xdg_app_dir_undeploy ref c force s = (Ok tt, s') ->
  exists d s2 d2,
    deploy_dirs s ref = Some (Directory d)
    /\ dir_lookup c d <> None
    /\ deploy_dirs s2 ref = Some (Directory d2)
    /\ (forall name, name <> "active" -> dir_lookup name d2 = dir_lookup name d)
    /\ filter listed_as_deployed d2 = filter listed_as_deployed d
    /\ (active_target s ref <> Some c -> d2 = d)
    /\ removed_dir s2 = removed_dir s
    /\ wrlck s2 = wrlck s
    /\ random s2 = random s
    /\ elsewhere s2 = elsewhere s
    /\ undeploy_move_away ref c force s2 = (Ok tt, s').
Proof.
  intros H.
  unfold xdg_app_dir_undeploy, xdg_app_dir_get_deploy_dir in H.
  apply bind_ok in H as (deployed & s0 & Hex & H).
  unfold g_file_query_exists in Hex.
  remember MAXSYMLINKS as fuel eqn:Hfuel in Hex.
  destruct (deploy_dirs s ref) as [[| |d|]|] eqn:Hd;
    injection Hex as <- <-; try discriminate.
  destruct (dir_exists fuel (elsewhere s) d c) eqn:Hexists; [|discriminate].
  apply dir_exists_lookup in Hexists.
  simpl negb in H. cbv iota in H.
  apply bind_ok in H as ([] & s1 & Hrepo & H).
  assert (Hs1 : deploy_dirs s1 = deploy_dirs s /\ removed_dir s1 = removed_dir s
                /\ wrlck s1 = wrlck s /\ random s1 = random s
                /\ elsewhere s1 = elsewhere s).
  { unfold xdg_app_dir_ensure_repo in Hrepo.
    destruct (repo s); [|destruct (repo_dir s)]; inversion Hrepo; subst;
      auto. }
  destruct Hs1 as (Hdirs1 & Hrem1 & Hlck1 & Hrnd1 & Hels1).
  apply bind_ok in H as (active & s1' & Hread & H).
  rewrite read_active_of_entry in Hread.
  injection Hread as <- <-.
  apply bind_ok in H as ([] & s2 & Hset & H).
  assert (Hentry : active_entry s1 ref = active_entry s ref).
  { unfold active_entry. now rewrite Hdirs1. }
  rewrite Hentry in Hset.
  fold (active_target s ref) in Hset.
  assert (Hd1 : deploy_dirs s1 ref = Some (Directory d)) by now rewrite Hdirs1.
  exists d.
  destruct (active_target s ref) as [a|] eqn:Hactive.
  - destruct (streq a c) eqn:Eac.
    + apply bind_ok in Hset as (deployed_checksums & s1' & Hlist & Hset).
      unfold xdg_app_dir_list_deployed, xdg_app_dir_get_deploy_dir in Hlist.
      rewrite Hd1 in Hlist. injection Hlist as <- <-.
      destruct (set_active_ok_frame _ _ _ _ _ Hset Hd1)
        as (d2 & Hd2 & Hframe & Hlisted & Hrem2 & Hlck2 & Hrnd2 & Hels2 & _).
      exists s2, d2. repeat split; try assumption; try congruence.
      intros Hne. apply streq_true in Eac. now subst a.
    + injection Hset as <-.
      exists s1, d. repeat split; try assumption; auto.
  - injection Hset as <-.
    exists s1, d. repeat split; try assumption; auto.
Qed.

Lemma ref_file_stays_not_above (co : directory) :
  ref_file_stays (Directory co) = true ->
  forall t, checkout_ref_file co <> Above t.
Proof.
  unfold ref_file_stays. intros Hs t E. rewrite E in Hs. discriminate.
Qed.

(** Where files/.ref leads in a checkout with a directory [files] in which
    [.ref] is no symbolic link. *)
Lemma checkout_ref_file_plain (co files : directory) :
  dir_lookup "files" co = Some (Directory files) ->
  (forall target, dir_lookup ".ref" files <> Some (SymbolicLink target)) ->
  checkout_ref_file co
  = match dir_lookup ".ref" files with
    | Some (RegularFile data) => FoundFile ["files"] ".ref" data
    | Some SpecialFile => FoundSpecial ["files"] ".ref"
    | Some (Directory _) => FoundDirectory ["files"; ".ref"]
    | _ => Missing ["files"] ".ref"
    end.
Proof.
  intros Hf Hno. unfold checkout_ref_file. rewrite resolve_eq.
  change ([] ++ ["files"]) with ["files"].
  assert (Ht1 : tree_lookup co ["files"] = Some (Directory files)).
  { cbn [tree_lookup]. now rewrite Hf. }
  rewrite Ht1, resolve_eq.
  change (["files"] ++ [".ref"]) with ["files"; ".ref"].
  assert (Ht2 : tree_lookup co ["files"; ".ref"] = dir_lookup ".ref" files).
  { cbn [tree_lookup]. rewrite Hf.
    now destruct (dir_lookup ".ref" files) as [[| | |]|]. }
  rewrite Ht2.
  destruct (dir_lookup ".ref" files) as [[data|target|sub|]|];
    try reflexivity.
  now elim (Hno target).
Qed.

Lemma checkout_locked_regular (s : XdgAppDir) (name : string)
  (co files : directory) (data : text) :
  dir_lookup "files" co = Some (Directory files) ->
  dir_lookup ".ref" files = Some (RegularFile data) ->
  ref_file_stays (Directory co) = true
  /\ checkout_locked s name (Directory co) = wrlck s name.
Proof.
  intros Hf Hr. unfold ref_file_stays, checkout_locked.
  rewrite (checkout_ref_file_plain co files Hf)
    by (intros target; rewrite Hr; discriminate).
  rewrite Hr. auto.
Qed.

Lemma checkout_locked_missing (s : XdgAppDir) (name : string)
  (co files : directory) :
  dir_lookup "files" co = Some (Directory files) ->
  dir_lookup ".ref" files = None ->
  ref_file_stays (Directory co) = true
  /\ checkout_locked s name (Directory co) = false.
Proof.
  intros Hf Hr. unfold ref_file_stays, checkout_locked.
  rewrite (checkout_ref_file_plain co files Hf)
    by (intros target; rewrite Hr; discriminate).
  rewrite Hr. auto.
Qed.

(** The probe of the lock of a directory of .removed whose files/.ref
    does not climb above it. *)
Lemma dir_is_locked_entry (s : XdgAppDir) (rd co : directory)
  (name : string) :
  removed_dir s = Some (Directory rd) ->
  dir_lookup name rd = Some (Directory co) ->
  ref_file_stays (Directory co) = true ->
  dir_is_locked name s = (Ok (checkout_locked s name (Directory co)), s).
Proof.
  intros Hr Hl Hs. unfold dir_is_locked, ref_file. rewrite Hr.
  rewrite resolve_eq. change ([] ++ [name]) with [name].
  assert (Ht : tree_lookup rd [name] = Some (Directory co)).
  { cbn [tree_lookup]. now rewrite Hl. }
  rewrite Ht.
  rewrite (resolve_below rd co name Hl)
    by exact (ref_file_stays_not_above co Hs).
  unfold checkout_locked, checkout_ref_file.
  now destruct (resolve MAXSYMLINKS co "files/.ref" []
                  [Child "files"; Child ".ref"]).
Qed.

(** The probe of what is neither a directory nor a link. *)
Lemma dir_is_locked_file (s : XdgAppDir) (rd : directory) (name : string)
  (x : node) :
  removed_dir s = Some (Directory rd) ->
  dir_lookup name rd = Some x ->
  is_directory x = false -> link_target (Some x) = None ->
  dir_is_locked name s = (Ok false, s).
Proof.
  intros Hr Hl Hd Hk. unfold dir_is_locked, ref_file. rewrite Hr.
  rewrite resolve_eq. change ([] ++ [name]) with [name].
  cbn [tree_lookup]. rewrite Hl.
  destruct x as [data|target|sub|]; try discriminate; reflexivity.
Qed.

(** What moving the checkout away does to the deploy base and to
    <basedir>/.removed; [locked] is what the probe of the lock gave. *)
Lemma undeploy_move_away_ok (s2 s' : XdgAppDir) (ref c : string)
  (force : bool) (d2 : directory) :
  undeploy_move_away ref c force s2 = (Ok tt, s') ->
  deploy_dirs s2 ref = Some (Directory d2) ->
  exists src rd locked,
    dir_lookup c d2 = Some src
    /\ (removed_dir s2 = Some (Directory rd)
        \/ (removed_dir s2 = None /\ rd = []))
    /\ deploy_dirs s' ref = Some (Directory (dir_remove c d2))
    /\ removed_dir s' =
       Some (Directory
               (if force || negb locked
                then dir_remove (random s2 (random_pos s2) ++ "-" ++ c)%string
                       (dir_set (random s2 (random_pos s2) ++ "-" ++ c)%string
                          src rd)
                else dir_set (random s2 (random_pos s2) ++ "-" ++ c)%string
                       src rd))
    /\ (is_directory src = true -> ref_file_stays src = true ->
        locked = checkout_locked s2
                   (random s2 (random_pos s2) ++ "-" ++ c)%string src)
    /\ (is_directory src = false -> link_target (Some src) = None ->
        locked = false)
    /\ wrlck s' = wrlck s2
    /\ elsewhere s' = elsewhere s2
    /\ random_pos s' = S (random_pos s2).
Proof.
  intros H Hd2.
  unfold undeploy_move_away, xdg_app_dir_get_deploy_dir in H.
  apply bind_ok in H as ([] & s3 & Hens & H).
  apply bind_ok in H as (tmpname & s4 & Hgen & H).
  unfold gs_fileutil_gen_tmp_name in Hgen.
  injection Hgen as Htmp <-.
  assert (Hs3 : deploy_dirs s3 = deploy_dirs s2 /\ wrlck s3 = wrlck s2
                /\ elsewhere s3 = elsewhere s2
                /\ random s3 = random s2 /\ random_pos s3 = random_pos s2
                /\ exists rd, removed_dir s3 = Some (Directory rd)
                              /\ (removed_dir s2 = Some (Directory rd)
                                  \/ (removed_dir s2 = None /\ rd = []))
                   \/ (forall rd, removed_dir s3 <> Some (Directory rd))).
  { unfold gs_file_ensure_removed_dir in Hens.
    destruct (removed_dir s2) as [[| |rd|]|] eqn:Hr; injection Hens as <-;
      simpl; repeat split; try reflexivity.
    - exists []. right. intros rd. rewrite Hr. discriminate.
    - exists []. right. intros rd. rewrite Hr. discriminate.
    - exists rd. left. rewrite Hr. auto.
    - exists []. right. intros rd. rewrite Hr. discriminate.
    - exists []. left. auto. }
  destruct Hs3 as (Hdirs3 & Hlck3 & Hels3 & Hrnd3 & Hpos3 & rd & Hrd).
  assert (Ht : tmpname = (random s2 (random_pos s2) ++ "-" ++ c)%string).
  { rewrite <- Htmp, Hrnd3, Hpos3. reflexivity. }
  clear Htmp. rewrite <- Ht.
  apply bind_ok in H as ([] & s5 & Hren & H).
  unfold gs_file_rename_to_removed in Hren.
  simpl deploy_dirs in Hren. rewrite Hdirs3, Hd2 in Hren.
  destruct (dir_lookup c d2) as [src|]; [|discriminate].
  simpl removed_dir in Hren.
  destruct Hrd as [[Hr3 Hr2]|Hno].
  2: { destruct (removed_dir s3) as [[| |rd3|]|]; try discriminate.
       now elim (Hno rd3). }
  rewrite Hr3 in Hren.
  destruct (rename_over src (dir_lookup tmpname rd)); [|discriminate].
  injection Hren as <-.
  apply bind_ok in H as (locked & s6 & Hlock & H).
  match type of Hlock with
  | dir_is_locked _ ?st = _ => remember st as s5 eqn:Es5
  end.
  assert (Hr5 : removed_dir s5 = Some (Directory (dir_set tmpname src rd)))
    by now subst s5.
  assert (Hlck5 : wrlck s5 = wrlck s2) by now subst s5.
  assert (Hels5 : elsewhere s5 = elsewhere s2) by now subst s5.
  assert (Hpos5 : random_pos s5 = S (random_pos s2)).
  { subst s5. simpl. now rewrite Hpos3. }
  destruct (dir_is_locked_run tmpname s5) as (b & Hb).
  assert (Heq : locked = b /\ s6 = s5).
  { rewrite Hb in Hlock. now injection Hlock as <- <-. }
  destruct Heq as [-> ->].
  exists src, rd, b. split; [reflexivity|]. split; [exact Hr2|].
  assert (Hdir5 : deploy_dirs s5 ref = Some (Directory (dir_remove c d2))).
  { subst s5. simpl. now rewrite streq_refl. }
  assert (Hlocked : (is_directory src = true -> ref_file_stays src = true ->
                     b = checkout_locked s2 tmpname src)
                    /\ (is_directory src = false ->
                        link_target (Some src) = None -> b = false)).
  { split.
    - intros Hdir Hstays. destruct src as [| |co|]; try discriminate.
      rewrite (dir_is_locked_entry s5 _ co tmpname Hr5
                 (dir_lookup_set_same _ _ _) Hstays) in Hb.
      injection Hb as <-. unfold checkout_locked.
      now rewrite Hlck5, Hels5.
    - intros Hdir Hlink.
      rewrite (dir_is_locked_file s5 _ tmpname src Hr5
                 (dir_lookup_set_same _ _ _) Hdir Hlink) in Hb.
      now injection Hb as <-. }
  destruct Hlocked as [Hl1 Hl2].
  destruct (force || negb b).
  - unfold gs_shutil_rm_rf in H. rewrite Hr5 in H.
    injection H as <-. simpl. auto 10.
  - injection H as <-. auto 10.
Qed.

(** X3.  After a successful undeploy of [c] the deploy base has no entry
    [c], and another undeploy of it, forced or not, fails with
    ALREADY_UNDEPLOYED and changes nothing. *)
Theorem undeploy_twice_already_undeployed (s s' : XdgAppDir)
  (ref c : string) (force : bool) :
  xdg_app_dir_undeploy ref c force s = (Ok tt, s') ->
  deploy_entry s' ref c = None
  /\ forall force',
      xdg_app_dir_undeploy ref c force' s'
      = (Err XDG_APP_DIR_ERROR_ALREADY_UNDEPLOYED, s').
Proof.
  intros H.
  apply undeploy_ok_stages in H
    as (d & s2 & d2 & _ & _ & Hd2 & _ & _ & _ & _ & _ & _ & _ & H).
  destruct (undeploy_move_away_ok _ _ _ _ _ _ H Hd2)
    as (src & rd & locked & _ & _ & Hd' & _).
  assert (Hgone : dir_lookup c (dir_remove c d2) = None)
    by apply dir_lookup_remove_same.
  split.
  - unfold deploy_entry, xdg_app_dir_get_deploy_dir. now rewrite Hd'.
  - intros force'.
    unfold xdg_app_dir_undeploy, xdg_app_dir_get_deploy_dir, bind,
      g_file_query_exists.
    rewrite Hd'. now rewrite (dir_exists_absent _ _ _ _ Hgone).
Qed.

Lemma undeploy_twice_already_undeployed_witness :
  deploy_entry
    (snd (xdg_app_dir_undeploy example_ref checksum_b false
            store_with_two_deployments)) example_ref checksum_b = None
  /\ forall force',
      xdg_app_dir_undeploy example_ref checksum_b force'
        (snd (xdg_app_dir_undeploy example_ref checksum_b false
                store_with_two_deployments))
      = (Err XDG_APP_DIR_ERROR_ALREADY_UNDEPLOYED,
         snd (xdg_app_dir_undeploy example_ref checksum_b false
                store_with_two_deployments)).
Proof.
  apply (undeploy_twice_already_undeployed store_with_two_deployments _
           example_ref checksum_b false).
  vm_compute. reflexivity.
Defined.

(** X4.  A successful undeploy of a checksum that [active] does not point
    to leaves read-active as it was, and the deployments listed afterwards
    are those listed before other than the one undeployed. *)
Theorem undeploy_inactive_keeps_active (s s' : XdgAppDir) (ref c : string)
  (force : bool) (active : option string) :
  c <> "active" ->
  xdg_app_dir_read_active ref s = (Ok active, s) ->
  active <> Some c ->
  xdg_app_dir_undeploy ref c force s = (Ok tt, s') ->
  xdg_app_dir_read_active ref s' = (Ok active, s')
  /\ exists before,
      xdg_app_dir_list_deployed ref s = (Ok before, s)
      /\ xdg_app_dir_list_deployed ref s'
         = (Ok (filter (fun n => negb (streq n c)) before), s').
Proof.
  intros Hc Hread Hne H.
  rewrite read_active_target in Hread. injection Hread as <-.
  apply undeploy_ok_stages in H
    as (d & s2 & d2 & Hd & _ & Hd2 & _ & _ & Hsame & _ & _ & _ & _ & H).
  specialize (Hsame Hne). subst d2.
  destruct (undeploy_move_away_ok _ _ _ _ _ _ H Hd2)
    as (src & rd & locked & _ & _ & Hd' & _).
  split.
  - rewrite read_active_target. f_equal. f_equal.
    unfold active_target, active_entry, xdg_app_dir_get_deploy_dir.
    rewrite Hd, Hd'.
    rewrite dir_lookup_remove_other by (intros E; now apply Hc).
    reflexivity.
  - unfold xdg_app_dir_list_deployed, xdg_app_dir_get_deploy_dir.
    rewrite Hd, Hd'. eexists. split; [reflexivity|].
    rewrite !list_deployed_loop_filter. simpl app.
    now rewrite listed_names_remove.
Qed.

Lemma undeploy_inactive_keeps_active_witness :
  xdg_app_dir_read_active example_ref
    (snd (xdg_app_dir_undeploy example_ref checksum_b false
            store_with_two_deployments))
  = (Ok (Some checksum_a),
     snd (xdg_app_dir_undeploy example_ref checksum_b false
            store_with_two_deployments))
  /\ exists before,
      xdg_app_dir_list_deployed example_ref store_with_two_deployments
      = (Ok before, store_with_two_deployments)
      /\ xdg_app_dir_list_deployed example_ref
           (snd (xdg_app_dir_undeploy example_ref checksum_b false
                   store_with_two_deployments))
         = (Ok (filter (fun n => negb (streq n checksum_b)) before),
            snd (xdg_app_dir_undeploy example_ref checksum_b false
                   store_with_two_deployments)).
Proof.
  apply (undeploy_inactive_keeps_active store_with_two_deployments _
           example_ref checksum_b false (Some checksum_a)).
  - discriminate.
  - reflexivity.
  - discriminate.
  - vm_compute. reflexivity.
Defined.

(** X5.  A successful undeploy moves the checkout to the entry
    XXXXXXXX-[c] of <basedir>/.removed, named with the random characters
    the undeploy took last, and leaves the other entries of .removed as
    they were.  A checkout that is a directory, and whose files/.ref does
    not climb above it, is deleted from there at once when the undeploy is
    forced, when files/.ref does not open (the symbolic links on the way
    followed), or when no other process holds a lock on the file opened;
    otherwise it stays in .removed as it was in the deploy base.  What is
    neither a directory nor a link is deleted. *)
Theorem undeploy_defers_locked_checkout (s s' : XdgAppDir) (ref c : string)
  (force : bool) :
  c <> "active" ->
  xdg_app_dir_undeploy ref c force s = (Ok tt, s') ->
  exists src,
    let tmpname := (random s (Nat.pred (random_pos s')) ++ "-" ++ c)%string in
    deploy_entry s ref c = Some src
    /\ (forall name, name <> tmpname ->
                     removed_entry s' name = removed_entry s name)
    /\ (force = true -> removed_entry s' tmpname = None)
    /\ (is_directory src = true -> ref_file_stays src = true ->
        removed_entry s' tmpname
        = if force || negb (checkout_locked s tmpname src) then None
          else Some src)
    /\ (is_directory src = false -> link_target (Some src) = None ->
        removed_entry s' tmpname = None)
    /\ (forall co files,
          src = Directory co ->
          dir_lookup "files" co = Some (Directory files) ->
          (forall data,
              dir_lookup ".ref" files = Some (RegularFile data) ->
              removed_entry s' tmpname
              = if force || negb (wrlck s tmpname) then None else Some src)
          /\ (dir_lookup ".ref" files = None ->
              removed_entry s' tmpname = None)).
Proof.
  intros Hc H.
  apply undeploy_ok_stages in H
    as (d & s2 & d2 & Hd & _ & Hd2 & Hframe & _ & _ & Hrem2 & Hlck & Hrnd
        & Hels & H).
  destruct (undeploy_move_away_ok _ _ _ _ _ _ H Hd2)
    as (src & rd & locked & Hsrc & Hrd & _ & Hrem & Hdir & Hfile & _ & _
        & Hpos).
  exists src. cbv zeta. rewrite Hpos. cbn [Nat.pred]. rewrite <- Hrnd.
  remember (random s2 (random_pos s2) ++ "-" ++ c)%string as tmpname.
  assert (Hsame : checkout_locked s2 tmpname src
                  = checkout_locked s tmpname src).
  { unfold checkout_locked. now rewrite Hlck, Hels. }
  assert (Hwas : forall name, removed_entry s name = dir_lookup name rd).
  { intros name. unfold removed_entry. rewrite <- Hrem2.
    destruct Hrd as [->|[-> ->]]; reflexivity. }
  split.
  { unfold deploy_entry, xdg_app_dir_get_deploy_dir. rewrite Hd.
    now rewrite <- Hframe. }
  assert (Hnow : forall name,
             removed_entry s' name
             = dir_lookup name
                 (if force || negb locked
                  then dir_remove tmpname (dir_set tmpname src rd)
                  else dir_set tmpname src rd)).
  { intros name. unfold removed_entry. now rewrite Hrem. }
  rewrite !Hnow. split.
  { intros name Hname. rewrite Hnow, Hwas. destruct (force || negb locked).
    - rewrite dir_lookup_remove_other by assumption.
      now apply dir_lookup_set_other.
    - now apply dir_lookup_set_other. }
  split.
  { intros ->. cbn [orb]. apply dir_lookup_remove_same. }
  assert (Hprobe : is_directory src = true -> ref_file_stays src = true ->
            dir_lookup tmpname
              (if force || negb locked
               then dir_remove tmpname (dir_set tmpname src rd)
               else dir_set tmpname src rd)
            = if force || negb (checkout_locked s tmpname src) then None
              else Some src).
  { intros Hd1 Hstays. rewrite (Hdir Hd1 Hstays), Hsame.
    destruct (force || negb (checkout_locked s tmpname src)).
    - apply dir_lookup_remove_same.
    - apply dir_lookup_set_same. }
  split; [exact Hprobe|]. split.
  - intros Hd1 Hlink. rewrite (Hfile Hd1 Hlink).
    rewrite orb_true_r. apply dir_lookup_remove_same.
  - intros co files -> Hf. split.
    + intros data Hr.
      destruct (checkout_locked_regular s tmpname co files data Hf Hr)
        as [Hstays Hl].
      rewrite (Hprobe eq_refl Hstays). now rewrite Hl.
    + intros Hr.
      destruct (checkout_locked_missing s tmpname co files Hf Hr)
        as [Hstays Hl].
      rewrite (Hprobe eq_refl Hstays). rewrite Hl.
      now rewrite orb_true_r.
Qed.

(** The lock is found through a symbolic link: the checkout stays. *)
Lemma undeploy_defers_locked_checkout_witness :
  deploy_entry store_with_linked_ref example_ref checksum_a
  = Some checkout_with_linked_ref
  /\ removed_entry
       (snd (xdg_app_dir_undeploy example_ref checksum_a false
               store_with_linked_ref))
       ("AAAAAAAA-" ++ checksum_a)%string
     = Some checkout_with_linked_ref
  /\ removed_entry
       (snd (xdg_app_dir_undeploy example_ref checksum_a true
               store_with_linked_ref))
       ("AAAAAAAA-" ++ checksum_a)%string
     = None.
Proof.
  destruct (undeploy_defers_locked_checkout store_with_linked_ref
              (snd (xdg_app_dir_undeploy example_ref checksum_a false
                      store_with_linked_ref))
              example_ref checksum_a false)
    as (src & Hsrc & _ & _ & Hkept & _ & _).
  { discriminate. }
  { vm_compute. reflexivity. }
  destruct (undeploy_defers_locked_checkout store_with_linked_ref
              (snd (xdg_app_dir_undeploy example_ref checksum_a true
                      store_with_linked_ref))
              example_ref checksum_a true)
    as (src' & _ & _ & Hforced & _ & _ & _).
  { discriminate. }
  { vm_compute. reflexivity. }
  split; [reflexivity|].
  assert (Es : src = checkout_with_linked_ref).
  { assert (E : deploy_entry store_with_linked_ref example_ref checksum_a
                = Some checkout_with_linked_ref) by reflexivity.
    rewrite E in Hsrc. now injection Hsrc. }
  subst src. split.
  - exact (Hkept eq_refl eq_refl).
  - exact (Hforced eq_refl).
Defined.

(* ================================================================== *)
(** * Cleaning up removed checkouts *)

Lemma dir_lookup_app_fresh (name : string) (x : node) (kept rest : directory) :
  ~ In name (map fst kept) ->
  dir_lookup name (kept ++ (name, x) :: rest) = Some x.
Proof.
  induction kept as [|[n y] kept IH]; simpl; intros Hnot.
  - now rewrite streq_refl.
  - destruct (streq n name) eqn:E.
    + apply streq_true in E. elim Hnot. now left.
    + apply IH. intros Hin. apply Hnot. now right.
Qed.

Lemma dir_remove_fresh (name : string) (d : directory) :
  ~ In name (map fst d) -> dir_remove name d = d.
Proof.
  induction d as [|[n y] d IH]; simpl; intros Hnot; [reflexivity|].
  destruct (streq n name) eqn:E; simpl.
  - apply streq_true in E. elim Hnot. now left.
  - rewrite IH; [reflexivity|]. intros Hin. apply Hnot. now right.
Qed.

Lemma dir_remove_app (name : string) (a b : directory) :
  dir_remove name (a ++ b) = dir_remove name a ++ dir_remove name b.
Proof. apply filter_app. Qed.

Lemma NoDup_names_middle (kept rest : directory) (name : string) (x : node) :
  NoDup (map fst (kept ++ (name, x) :: rest)) ->
  ~ In name (map fst kept) /\ ~ In name (map fst rest)
  /\ NoDup (map fst (kept ++ rest)).
Proof.
  rewrite !map_app. simpl. intros Hnd.
  pose proof (NoDup_remove_2 _ _ _ Hnd) as Hnot.
  apply NoDup_remove_1 in Hnd.
  repeat split; try assumption;
    intros Hin; apply Hnot, in_or_app; auto.
Qed.

Lemma dir_lookup_not_in_names (name : string) (d : directory) :
  ~ In name (map fst d) -> dir_lookup name d = None.
Proof.
  induction d as [|[n y] d IH]; simpl; intros Hnot; [reflexivity|].
  destruct (streq n name) eqn:E.
  - apply streq_true in E. elim Hnot. now left.
  - apply IH. intros Hin. apply Hnot. now right.
Qed.

Lemma dir_lookup_filter (p : string * node -> bool) (name : string)
  (d : directory) :
  NoDup (map fst d) ->
  dir_lookup name (filter p d)
  = match dir_lookup name d with
    | Some x => if p (name, x) then Some x else None
    | None => None
    end.
Proof.
  induction d as [|[n y] d IH]; simpl; intros Hnd; [reflexivity|].
  inversion Hnd as [|? ? Hnot Hnd']; subst.
  destruct (streq n name) eqn:E.
  - apply streq_true in E. subst n.
    destruct (p (name, y)); simpl.
    + now rewrite streq_refl.
    + apply dir_lookup_not_in_names. intros Hin. apply Hnot.
      apply in_map_iff in Hin as (e & He & Hin).
      apply filter_In in Hin as [Hin _].
      apply in_map_iff. now exists e.
  - destruct (p (n, y)); simpl; [rewrite E|]; now apply IH.
Qed.

Lemma dir_set_names (name : string) (x : node) (d : directory) :
  map fst (dir_set name x d)
  = if existsb (streq name) (map fst d) then map fst d
    else map fst d ++ [name].
Proof.
  induction d as [|[n y] d IH]; simpl; [reflexivity|].
  destruct (streq n name) eqn:E; simpl.
  - apply streq_true in E. subst n. now rewrite streq_refl.
  - rewrite IH.
    assert (E' : streq name n = false).
    { apply streq_false. apply streq_false in E. congruence. }
    rewrite E'. simpl.
    now destruct (existsb (streq name) (map fst d)).
Qed.

Lemma NoDup_dir_set (name : string) (x : node) (d : directory) :
  NoDup (map fst d) -> NoDup (map fst (dir_set name x d)).
Proof.
  intros Hnd. rewrite dir_set_names.
  destruct (existsb (streq name) (map fst d)) eqn:E; [assumption|].
  apply NoDup_app; [assumption|repeat constructor; simpl; tauto|].
  intros n Hin [Hn|[]]. subst n.
  assert (Ht : existsb (streq name) (map fst d) = true).
  { apply existsb_exists. exists name. split; [assumption|apply streq_refl]. }
  congruence.
Qed.

(** The loop of the clean-up, with [kept] the entries already passed that
    are still there. *)
Lemma cleanup_removed_loop_spec (rest kept : directory) (s : XdgAppDir) :
  removed_dir s = Some (Directory (kept ++ rest)) ->
  NoDup (map fst (kept ++ rest)) ->
  Forall (fun e => ref_file_stays (snd e) = true) rest ->
  exists s',
    cleanup_removed_loop rest s = (Ok tt, s')
    /\ removed_dir s'
       = Some (Directory (kept ++ filter (kept_in_removed s) rest))
    /\ deploy_dirs s' = deploy_dirs s
    /\ wrlck s' = wrlck s
    /\ elsewhere s' = elsewhere s.
Proof.
  revert kept s.
  induction rest as [|[name info] rest IH]; intros kept s Hr Hnd Hstay.
  - exists s. simpl. auto.
  - destruct (NoDup_names_middle _ _ _ _ Hnd) as (Hk & Hrest & Hnd').
    inversion Hstay as [|? ? Hinfo Hstay']; subst.
    assert (Hcons : forall l : directory,
               kept ++ (name, info) :: l = (kept ++ [(name, info)]) ++ l).
    { intros l. now rewrite <- app_assoc. }
    cbn [cleanup_removed_loop filter].
    unfold kept_in_removed at 1. cbn [fst snd] in Hinfo |- *.
    destruct (is_directory info) eqn:Edir.
    + destruct info as [| |co|]; try discriminate.
      unfold bind at 1. unfold bind at 1.
      rewrite (dir_is_locked_entry s _ co name Hr
                 (dir_lookup_app_fresh _ _ _ _ Hk) Hinfo).
      change (negb true) with false. cbn [orb].
      destruct (checkout_locked s name (Directory co)) eqn:Elock.
      * change (negb true) with false. cbv iota. unfold ret at 1.
        rewrite Hcons in Hr, Hnd.
        destruct (IH _ _ Hr Hnd Hstay') as (s' & Hrun & Hr' & Hrest').
        exists s'. split; [exact Hrun|]. split; [|exact Hrest'].
        now rewrite Hcons.
      * change (negb false) with true. cbv iota. unfold gs_shutil_rm_rf.
        cbv beta. rewrite Hr.
        rewrite dir_remove_app. simpl dir_remove at 2.
        rewrite streq_refl. simpl negb. cbv iota.
        fold (dir_remove name rest).
        rewrite !dir_remove_fresh by assumption.
        destruct (IH kept
                    (set_removed_dir (Some (Directory (kept ++ rest))) s)
                    eq_refl Hnd' Hstay')
          as (s' & Hrun & Hr' & Hd' & Hl' & He').
        exists s'. split; [exact Hrun|]. auto.
    + unfold bind at 1. unfold ret at 1. simpl negb. simpl orb.
      rewrite Hcons in Hr, Hnd.
      destruct (IH _ _ Hr Hnd Hstay') as (s' & Hrun & Hr' & Hrest').
      exists s'. split; [exact Hrun|]. split; [|exact Hrest'].
      now rewrite Hcons.
Qed.

(** What the clean-up leaves of a duplicate-free .removed. *)
Lemma cleanup_removed_keeps_locked_aux (s : XdgAppDir) :
  (removed_dir s = None -> xdg_app_dir_cleanup_removed s = (Ok tt, s))
  /\ (forall rd,
        removed_dir s = Some (Directory rd) ->
        NoDup (map fst rd) ->
        Forall (fun e => ref_file_stays (snd e) = true) rd ->
        exists s',
          xdg_app_dir_cleanup_removed s = (Ok tt, s')
          /\ removed_dir s'
             = Some (Directory (filter (kept_in_removed s) rd))).
Proof.
  unfold xdg_app_dir_cleanup_removed. split.
  - intros ->. reflexivity.
  - intros rd Hr Hnd Hstay. rewrite Hr.
    destruct (cleanup_removed_loop_spec rd [] s Hr Hnd Hstay)
      as (s' & Hrun & Hr' & _).
    exists s'. auto.
Qed.

(** X6.  The clean-up of removed checkouts succeeds when <basedir>/.removed
    does not exist, without making it.  Otherwise, when no files/.ref
    climbs above its checkout, it deletes every child directory whose
    files/.ref does not open (the symbolic links on the way followed) or
    leads to a file that no other process holds a lock on; what is no
    directory, and the directories in use, stay, in their order. *)
Theorem cleanup_removed_keeps_locked (s : XdgAppDir) :
  (removed_dir s = None -> xdg_app_dir_cleanup_removed s = (Ok tt, s))
  /\ (forall rd,
        removed_dir s = Some (Directory rd) ->
        NoDup (map fst rd) ->
        Forall (fun e => ref_file_stays (snd e) = true) rd ->
        exists s',
          xdg_app_dir_cleanup_removed s = (Ok tt, s')
          /\ removed_dir s'
             = Some (Directory
                       (filter (fun e =>
                                  negb (is_directory (snd e))
                                  || checkout_locked s (fst e) (snd e)) rd))
          /\ deploy_dirs s' = deploy_dirs s
          /\ (forall name co files,
                dir_lookup name rd = Some (Directory co) ->
                dir_lookup "files" co = Some (Directory files) ->
                (forall data,
                    dir_lookup ".ref" files = Some (RegularFile data) ->
                    removed_entry s' name
                    = if wrlck s name then Some (Directory co) else None)
                /\ (dir_lookup ".ref" files = None ->
                    removed_entry s' name = None))).
Proof.
  unfold xdg_app_dir_cleanup_removed. split.
  - intros ->. reflexivity.
  - intros rd Hr Hnd Hstay. rewrite Hr.
    destruct (cleanup_removed_loop_spec rd [] s Hr Hnd Hstay)
      as (s' & Hrun & Hr' & Hd' & _).
    exists s'. split; [exact Hrun|]. split; [exact Hr'|].
    split; [exact Hd'|].
    intros name co files Hname Hf.
    unfold removed_entry. rewrite Hr'. cbn [List.app].
    rewrite dir_lookup_filter by exact Hnd. rewrite Hname.
    unfold kept_in_removed. cbn [fst snd is_directory negb orb]. split.
    + intros data Href.
      now rewrite (proj2 (checkout_locked_regular s name co files data Hf Href)).
    + intros Href.
      now rewrite (proj2 (checkout_locked_missing s name co files Hf Href)).
Qed.

(** A checkout in use, behind a plain files/.ref and behind a linked one,
    stays; a stray file stays; a directory without files/.ref and a
    checkout whose link dangles go. *)
Lemma cleanup_removed_keeps_locked_witness :
  exists s',
    xdg_app_dir_cleanup_removed store_with_removed = (Ok tt, s')
    /\ removed_dir s'
       = Some (Directory
                 [("AAAAAAAA-" ++ checksum_a, example_checkout)%string;
                  ("note", RegularFile []);
                  ("CCCCCCCC-" ++ checksum_a, checkout_with_linked_ref)%string])
    /\ deploy_dirs s' = deploy_dirs store_with_removed.
Proof.
  destruct (proj2 (cleanup_removed_keeps_locked store_with_removed)
              [("AAAAAAAA-" ++ checksum_a, example_checkout)%string;
               ("note", RegularFile []);
               ("BBBBBBBB-" ++ checksum_b, Directory [])%string;
               ("CCCCCCCC-" ++ checksum_a, checkout_with_linked_ref)%string;
               ("DDDDDDDD-" ++ checksum_b,
                checkout_with_dangling_ref)%string])
    as (s' & Hrun & Hrem & Hdep & _).
  - reflexivity.
  - repeat constructor; simpl; intuition discriminate.
  - repeat constructor.
  - exists s'. split; [exact Hrun|]. split; [|exact Hdep].
    rewrite Hrem. reflexivity.
Defined.

(** X7.  A checkout in use when it is undeployed without force (its
    files/.ref opens and another process holds a lock on the file opened)
    stays in <basedir>/.removed under the name the undeploy gave it; a
    clean-up made while the lock is held leaves it there, and a clean-up
    made once the locks are released deletes it. *)
Theorem deferred_checkout_removed_after_unlock (s s' : XdgAppDir)
  (ref c : string) :
  c <> "active" ->
  (forall rd, removed_dir s = Some (Directory rd) ->
              NoDup (map fst rd)
              /\ Forall (fun e => ref_file_stays (snd e) = true) rd) ->
  xdg_app_dir_undeploy ref c false s = (Ok tt, s') ->
  exists src,
    let tmpname := (random s (Nat.pred (random_pos s')) ++ "-" ++ c)%string in
    deploy_entry s ref c = Some src
    /\ (ref_file_stays src = true ->
        checkout_locked s tmpname src = true ->
        removed_entry s' tmpname = Some src
        /\ (exists s1, xdg_app_dir_cleanup_removed s' = (Ok tt, s1)
                       /\ removed_entry s1 tmpname = Some src)
        /\ (exists s2, xdg_app_dir_cleanup_removed (release_locks s')
                       = (Ok tt, s2)
                       /\ removed_entry s2 tmpname = None)).
Proof.
  intros Hc Hwf H.
  apply undeploy_ok_stages in H
    as (d & s2 & d2 & Hd & _ & Hd2 & Hframe & _ & _ & Hrem2 & Hlck & Hrnd
        & Hels & H).
  destruct (undeploy_move_away_ok _ _ _ _ _ _ H Hd2)
    as (src & rd & locked & Hsrc & Hrd & _ & Hrem & Hdir & _ & Hlck' & Hels'
        & Hpos).
  exists src. cbv zeta. rewrite Hpos. cbn [Nat.pred]. rewrite <- Hrnd.
  remember (random s2 (random_pos s2) ++ "-" ++ c)%string as tmpname.
  split.
  { unfold deploy_entry, xdg_app_dir_get_deploy_dir. rewrite Hd.
    now rewrite <- Hframe. }
  intros Hstays Hlocked.
  assert (Hisdir : is_directory src = true).
  { destruct src; try discriminate. reflexivity. }
  assert (Hl2 : checkout_locked s2 tmpname src = true).
  { unfold checkout_locked in *. now rewrite Hlck, Hels. }
  rewrite (Hdir Hisdir Hstays), Hl2 in Hrem. cbn [orb negb] in Hrem.
  assert (Hnd : NoDup (map fst (dir_set tmpname src rd))
                /\ Forall (fun e => ref_file_stays (snd e) = true)
                     (dir_set tmpname src rd)).
  { assert (Hrd' : NoDup (map fst rd)
                   /\ Forall (fun e => ref_file_stays (snd e) = true) rd).
    { destruct Hrd as [Hrd|[_ ->]].
      - apply Hwf. now rewrite <- Hrem2.
      - split; constructor. }
    destruct Hrd' as [Hnd Hst]. split; [now apply NoDup_dir_set|].
    clear -Hst Hstays. induction rd as [|[n y] rd IH]; simpl.
    - repeat constructor. exact Hstays.
    - inversion Hst; subst. destruct (streq n tmpname); constructor; auto. }
  destruct Hnd as [Hnd Hst].
  split; [|split].
  - unfold removed_entry. rewrite Hrem. apply dir_lookup_set_same.
  - destruct (proj2 (cleanup_removed_keeps_locked_aux s') _ Hrem Hnd Hst)
      as (s1 & Hrun & Hr1).
    exists s1. split; [exact Hrun|].
    unfold removed_entry. rewrite Hr1.
    rewrite dir_lookup_filter by assumption.
    rewrite dir_lookup_set_same. unfold kept_in_removed. cbn [fst snd].
    assert (Hl' : checkout_locked s' tmpname src = true).
    { unfold checkout_locked in *. now rewrite Hlck', Hels'. }
    now rewrite Hl', orb_true_r.
  - destruct (proj2 (cleanup_removed_keeps_locked_aux (release_locks s'))
                _ Hrem Hnd Hst) as (s1 & Hrun & Hr1).
    exists s1. split; [exact Hrun|].
    unfold removed_entry. rewrite Hr1.
    rewrite dir_lookup_filter by assumption.
    rewrite dir_lookup_set_same. unfold kept_in_removed. cbn [fst snd].
    rewrite Hisdir. cbn [negb orb].
    assert (Hfree : checkout_locked (release_locks s') tmpname src = false).
    { unfold checkout_locked. destruct src as [| |co|]; try reflexivity.
      cbn [wrlck release_locks].
      destruct (checkout_ref_file co); try reflexivity;
        apply andb_false_r. }
    now rewrite Hfree.
Qed.

Lemma deferred_checkout_removed_after_unlock_witness :
  deploy_entry store_with_locked_deployments example_ref checksum_a
  = Some example_checkout
  /\ removed_entry
       (snd (xdg_app_dir_undeploy example_ref checksum_a false
               store_with_locked_deployments))
       ("AAAAAAAA-" ++ checksum_a)%string = Some example_checkout
  /\ (exists s1,
         xdg_app_dir_cleanup_removed
           (snd (xdg_app_dir_undeploy example_ref checksum_a false
                   store_with_locked_deployments)) = (Ok tt, s1)
         /\ removed_entry s1 ("AAAAAAAA-" ++ checksum_a)%string
            = Some example_checkout)
  /\ (exists s2,
         xdg_app_dir_cleanup_removed
           (release_locks
              (snd (xdg_app_dir_undeploy example_ref checksum_a false
                      store_with_locked_deployments))) = (Ok tt, s2)
         /\ removed_entry s2 ("AAAAAAAA-" ++ checksum_a)%string = None).
Proof.
  destruct (deferred_checkout_removed_after_unlock
              store_with_locked_deployments
              (snd (xdg_app_dir_undeploy example_ref checksum_a false
                      store_with_locked_deployments))
              example_ref checksum_a)
    as (src & Hsrc & Hkept).
  { discriminate. }
  { intros rd Hrd. discriminate Hrd. }
  { vm_compute. reflexivity. }
  split; [reflexivity|].
  assert (Es : src = example_checkout).
  { assert (E : deploy_entry store_with_locked_deployments example_ref
                  checksum_a = Some example_checkout) by reflexivity.
    rewrite E in Hsrc. now injection Hsrc. }
  subst src. exact (Hkept eq_refl eq_refl).
Defined.

(* ================================================================== *)
(** * The world around a rewrite *)

Lemma same_files_refl (w : XdgAppDir) : same_files w w.
Proof. unfold same_files. tauto. Qed.

Lemma same_files_trans (a b c : XdgAppDir) :
  same_files a b -> same_files b c -> same_files a c.
Proof.
  unfold same_files.
  intros (H1 & H2 & H3 & H4 & H5 & H6 & H7 & H8 & H9 & H10)
         (K1 & K2 & K3 & K4 & K5 & K6 & K7 & K8 & K9 & K10).
  repeat split; congruence.
Qed.

Lemma keeps_files_bind {A B} (m : M Export A) (k : A -> M Export B) :
  keeps_files m -> (forall a, keeps_files (k a)) -> keeps_files (bind m k).
Proof.
  intros Hm Hk st r st'. unfold bind.
  destruct (m st) as [[a|e] st1] eqn:E; intros H.
  - apply (same_files_trans _ (snd st1)).
    + exact (Hm _ _ _ E).
    + exact (Hk a _ _ _ H).
  - injection H as <- <-. exact (Hm _ _ _ E).
Qed.

Lemma keeps_files_pure {A} (m : M Export A) :
  (forall st, snd (snd (m st)) = snd st) -> keeps_files m.
Proof.
  intros Hm st r st' E. specialize (Hm st). rewrite E in Hm. simpl in Hm.
  rewrite Hm. apply same_files_refl.
Qed.

Lemma keeps_files_ret {A} (a : A) : keeps_files (@ret Export A a).
Proof. now apply keeps_files_pure. Qed.

Lemma keeps_files_throw {A} (e : GError) : keeps_files (@throw Export A e).
Proof. now apply keeps_files_pure. Qed.

Lemma keeps_files_lift {A} (r : result A) : keeps_files (@lift Export A r).
Proof. now apply keeps_files_pure. Qed.

Lemma keeps_files_fstatat (name : string) : keeps_files (fstatat name).
Proof. now apply keeps_files_pure. Qed.

Lemma keeps_files_unlinkat_unless_gone (name : string) :
  keeps_files (unlinkat_unless_gone name).
Proof.
  apply keeps_files_pure. intros [cur w].
  unfold unlinkat_unless_gone, bind, attempt, unlinkat. simpl.
  destruct (dir_lookup name cur) as [[| | |]|]; reflexivity.
Qed.

Lemma keeps_files_renameat (old new : string) : keeps_files (renameat old new).
Proof.
  apply keeps_files_pure. intros [cur w]. unfold renameat. simpl.
  destruct (dir_rename old new cur); reflexivity.
Qed.

Lemma keeps_files_warning (text : string) :
  keeps_files (in_world (g_warning text)).
Proof.
  intros [cur w] r st' E. unfold in_world, g_warning in E. simpl in E.
  injection E as <- <-. unfold same_files. simpl. tauto.
Qed.

Lemma keeps_files_gen_tmp_name (prefix suffix : option string) :
  keeps_files (in_world (gs_fileutil_gen_tmp_name prefix suffix)).
Proof.
  intros [cur w] r st' E.
  unfold in_world, gs_fileutil_gen_tmp_name in E. simpl in E.
  injection E as <- <-. unfold same_files. simpl. tauto.
Qed.

Lemma keeps_files_in_subdir {A} (name : string) (m : M Export A) :
  keeps_files m -> keeps_files (in_subdir name m).
Proof.
  intros Hm [cur w] r st'. unfold in_subdir. simpl.
  destruct (dir_lookup name cur) as [[| |sub|]|];
    try (intros E; injection E as <- <-; apply same_files_refl).
  destruct (m (sub, w)) as [r' [sub' w1]] eqn:Em.
  intros E. injection E as <- <-. exact (Hm _ _ _ Em).
Qed.

Lemma keeps_files_open_in_tmpdir_at (attempts : nat) (new_data : text) :
  keeps_files (open_in_tmpdir_at attempts new_data).
Proof.
  induction attempts as [|n IH]; simpl.
  - apply keeps_files_throw.
  - apply keeps_files_bind; [apply keeps_files_gen_tmp_name|].
    intros tmp_name. apply keeps_files_bind; [apply keeps_files_fstatat|].
    intros [x|]; [exact IH|].
    now apply keeps_files_pure.
Qed.

Section WorldProofs.
Context `{Platform}.

Lemma keeps_files_export_desktop_file (app branch arch name : string) :
  keeps_files (export_desktop_file app branch arch name).
Proof.
  unfold export_desktop_file.
  apply keeps_files_bind; [apply keeps_files_fstatat|].
  intros [[data| | |]|]; try apply keeps_files_throw.
  apply keeps_files_bind; [apply keeps_files_lift|].
  intros keyfile.
  destruct (g_str_has_suffix name ".service"
            && negb (dbus_service_name_ok name keyfile)).
  - apply keeps_files_throw.
  - apply keeps_files_open_in_tmpdir_at.
Qed.

Lemma keeps_files_rewrite_export_entries (recurse : M Export unit)
  (app branch arch : string) (dents visited : list string) :
  keeps_files recurse ->
  keeps_files (rewrite_export_entries recurse app branch arch dents visited).
Proof.
  intros Hrec. revert visited.
  induction dents as [|d_name rest IH]; intros visited; simpl.
  - apply keeps_files_ret.
  - destruct (existsb (streq d_name) visited); [apply IH|].
    apply keeps_files_bind; [apply keeps_files_fstatat|].
    intros [[data|target|sub|]|].
    + apply keeps_files_bind.
      * destruct (negb (xdg_app_has_name_prefix d_name app)).
        -- apply keeps_files_bind; [apply keeps_files_warning|].
           intros _. apply keeps_files_unlinkat_unless_gone.
        -- apply keeps_files_ret.
      * intros _.
        destruct (g_str_has_suffix d_name ".desktop"
                  || g_str_has_suffix d_name ".service"); [|apply IH].
        apply keeps_files_bind; [apply keeps_files_export_desktop_file|].
        intros new_name.
        apply keeps_files_bind; [apply keeps_files_renameat|].
        intros _. apply IH.
    + apply keeps_files_bind; [apply keeps_files_warning|]. intros _.
      apply keeps_files_bind; [apply keeps_files_unlinkat_unless_gone|].
      intros _. apply IH.
    + apply keeps_files_bind; [now apply keeps_files_in_subdir|].
      intros _. apply IH.
    + apply keeps_files_bind; [apply keeps_files_warning|]. intros _.
      apply keeps_files_bind; [apply keeps_files_unlinkat_unless_gone|].
      intros _. apply IH.
    + apply IH.
Qed.

Lemma keeps_files_rewrite_export_dir (fds : nat) (app branch arch : string) :
  keeps_files (rewrite_export_dir fds app branch arch).
Proof.
  induction fds as [|fds IH]; simpl.
  - apply keeps_files_throw.
  - intros st r st' E.
    exact (keeps_files_rewrite_export_entries _ _ _ _ _ _ IH _ _ _ E).
Qed.

End WorldProofs.

(* ================================================================== *)
(** * Further properties of deploy *)

Section DeployStages.
Context `{Platform}.

(** What the first part of a deploy that succeeds has done: the root of
    the commit is checked out under a name that was free, and files/.ref
    is written.  When no symbolic link is on the way to files/.ref, the
    deploy base differs from what it was by the checkout alone, which is
    the root of the commit with an empty files/.ref. *)
Lemma deploy_checkout_ok (ref : string) (checksum : option string)
  (s s1 : XdgAppDir) (c : string) :
  deploy_checkout ref checksum s = (Ok c, s1) ->
  exists d r root d1 checkout,
    deploy_dirs s ref = Some (Directory d)
    /\ dir_lookup c d = None
    /\ (forall c0, checksum = Some c0 -> c = c0)
    /\ (checksum = None ->
        repo_refs r
          match dir_lookup "origin" d with
          | Some (RegularFile data) => (text_contents data ++ ":" ++ ref)%string
          | _ => ref
          end = Some c)
    /\ repo s1 = Some r
    /\ repo_commits r c = Some (Directory root)
    /\ deploy_dirs s1 ref = Some (Directory d1)
    /\ dir_lookup c d1 = Some (Directory checkout)
    /\ (plain_dotref root = true ->
        exists files,
          dir_lookup "files" root = Some (Directory files)
          /\ checkout = dir_set "files"
                          (Directory (dir_set ".ref" (RegularFile []) files))
                          root
          /\ d1 = dir_set c (Directory checkout)
                    (dir_set c (Directory root) d)).
Proof.
  unfold deploy_checkout, xdg_app_dir_get_deploy_dir. intros Hrun.
  apply bind_ok in Hrun as ([] & sa & Hrepo & Hrun).
  assert (Hsa : deploy_dirs sa = deploy_dirs s /\ elsewhere sa = elsewhere s).
  { unfold xdg_app_dir_ensure_repo in Hrepo.
    destruct (repo s); [|destruct (repo_dir s)]; inversion Hrepo; subst;
      auto. }
  destruct Hsa as [Hda Hea].
  apply bind_ok in Hrun as (c' & sb & Hres & Hrun).
  assert (Hsb : deploy_dirs sb = deploy_dirs sa /\ elsewhere sb = elsewhere sa
                /\ (forall c0, checksum = Some c0 -> c' = c0)
                /\ (checksum = None ->
                    forall d r,
                      deploy_dirs sa ref = Some (Directory d) ->
                      repo sb = Some r ->
                      repo_refs r
                        match dir_lookup "origin" d with
                        | Some (RegularFile data) =>
                            (text_contents data ++ ":" ++ ref)%string
                        | _ => ref
                        end = Some c')).
  { destruct checksum as [c0|].
    - apply bind_ok in Hres as (found & sb' & Hfound & Hres).
      assert (sb' = sa).
      { unfold attempt, ostree_repo_read_commit, bind, opened_repo in Hfound.
        destruct (repo sa) as [r|]; [destruct (repo_commits r c0)|];
          now inversion Hfound. }
      subst sb'. destruct found as [root|e].
      + injection Hres as <- <-. repeat split; try discriminate.
        intros c1 E. now injection E.
      + apply bind_ok in Hres as (repository & s2 & Hload & Hres).
        assert (s2 = sa).
        { unfold load_origin in Hload.
          destruct (deploy_dirs sa ref) as [[| |d0|]|]; try discriminate.
          destruct (dir_lookup "origin" d0) as [[| | |]|]; try discriminate.
          now inversion Hload. }
        subst s2.
        apply bind_ok in Hres as (r & s3 & Hopen & Hres).
        assert (s3 = sa).
        { unfold opened_repo in Hopen. destruct (repo sa); now inversion Hopen. }
        subst s3.
        apply bind_ok in Hres as (r' & s4 & Hpull & Hres).
        unfold lift in Hpull. injection Hpull as _ <-.
        injection Hres as <- <-. simpl. repeat split; try discriminate.
        intros c1 E. now injection E.
    - apply bind_ok in Hres as (origin & sb' & Horigin & Hres).
      unfold attempt, xdg_app_dir_get_origin, load_origin,
        xdg_app_dir_get_deploy_dir in Horigin.
      unfold ostree_repo_resolve_rev, bind, opened_repo in Hres.
      destruct (deploy_dirs sa ref) as [[| |d0|]|] eqn:Hd0;
        try (injection Horigin as <- <-;
             destruct (repo sa) as [r|] eqn:Hr; [|discriminate];
             destruct (repo_refs r ref); [|discriminate];
             injection Hres as <- <-; repeat split; discriminate).
      destruct (dir_lookup "origin" d0) as [[data|target|sub|]|] eqn:Ho;
        injection Horigin as <- <-;
        destruct (repo sa) as [r|] eqn:Hr; try discriminate;
        match type of Hres with
        | context [repo_refs r ?x] => destruct (repo_refs r x) eqn:Hrev
        end; try discriminate;
        injection Hres as <- <-; repeat split; try discriminate;
        intros _ d1 r1 Ed Er; injection Ed as <-;
        rewrite Hr in Er; injection Er as <-; rewrite Ho; exact Hrev. }
  destruct Hsb as (Hdb & Heb & Hgiven & Hresolved).
  apply bind_ok in Hrun as (deployed & sc & Hex & Hrun).
  unfold g_file_query_exists in Hex.
  remember MAXSYMLINKS as fuel eqn:Hfuel in Hex.
  assert (sc = sb).
  { destruct (deploy_dirs sb ref) as [[| | |]|]; now injection Hex. }
  subst sc. clear Hex.
  destruct deployed; [discriminate|].
  apply bind_ok in Hrun as (root & sd & Hread & Hrun).
  unfold ostree_repo_read_commit, bind, opened_repo in Hread.
  destruct (repo sb) as [r|] eqn:Hr; [|discriminate].
  destruct (repo_commits r c') as [root'|] eqn:Hc; [|discriminate].
  injection Hread as <- <-.
  apply bind_ok in Hrun as ([] & se & Hco & Hrun).
  apply in_deploy_dir_ok in Hco as (d & d0 & Hd & Hop & ->).
  destruct root' as [| |root|]; try discriminate.
  destruct (dir_lookup c' d) eqn:Hfree; [discriminate|].
  injection Hop as <-.
  apply bind_ok in Hrun as ([] & sf & Hdot & Hrun).
  injection Hrun as <- <-.
  assert (Hc0 : dir_lookup c' (dir_set c' (Directory root) d)
                = Some (Directory root)) by apply dir_lookup_set_same.
  assert (Hplain : plain_dotref root = true ->
            exists files,
              dir_lookup "files" root = Some (Directory files)
              /\ sf = set_deploy_dir ref
                        (Some (Directory
                           (dir_set c'
                              (Directory
                                 (dir_set "files"
                                    (Directory
                                       (dir_set ".ref" (RegularFile []) files))
                                    root))
                              (dir_set c' (Directory root) d))))
                        (set_deploy_dir ref
                           (Some (Directory (dir_set c' (Directory root) d)))
                           sb)).
  { intros Hp. unfold plain_dotref in Hp.
    destruct (dir_lookup "files" root) as [[| |files|]|] eqn:Hf;
      try discriminate.
    exists files. split; [reflexivity|].
    unfold replace_dotref, in_deploy_dir in Hdot.
    rewrite deploy_dirs_set_same in Hdot.
    rewrite resolve_eq in Hdot. change ([] ++ [c']) with [c'] in Hdot.
    assert (Ht : tree_lookup (dir_set c' (Directory root) d) [c']
                 = Some (Directory root)).
    { cbn [tree_lookup]. now rewrite Hc0. }
    rewrite Ht in Hdot.
    assert (Hin : checkout_ref_file root
                  = match dir_lookup ".ref" files with
                    | Some (RegularFile data) => FoundFile ["files"] ".ref" data
                    | _ => Missing ["files"] ".ref"
                    end).
    { unfold checkout_ref_file. rewrite resolve_eq.
      change ([] ++ ["files"]) with ["files"].
      assert (Ht1 : tree_lookup root ["files"] = Some (Directory files)).
      { cbn [tree_lookup]. now rewrite Hf. }
      rewrite Ht1, resolve_eq.
      change (["files"] ++ [".ref"]) with ["files"; ".ref"].
      assert (Ht2 : tree_lookup root ["files"; ".ref"]
                    = dir_lookup ".ref" files).
      { cbn [tree_lookup]. rewrite Hf.
        now destruct (dir_lookup ".ref" files) as [[| | |]|]. }
      rewrite Ht2.
      destruct (dir_lookup ".ref" files) as [[| | |]|]; try discriminate;
        reflexivity. }
    rewrite (resolve_below _ root c' Hc0) in Hdot.
    2: { intros t. fold (checkout_ref_file root). rewrite Hin.
         destruct (dir_lookup ".ref" files) as [[| | |]|]; discriminate. }
    fold (checkout_ref_file root) in Hdot. rewrite Hin in Hdot.
    assert (Hset : tree_set (dir_set c' (Directory root) d)
                     ([c'; "files"] ++ [".ref"]) (RegularFile [])
                   = dir_set c'
                       (Directory
                          (dir_set "files"
                             (Directory (dir_set ".ref" (RegularFile []) files))
                             root))
                       (dir_set c' (Directory root) d)).
    { cbn [List.app tree_set]. now rewrite Hc0, Hf. }
    destruct (dir_lookup ".ref" files) as [[| | |]|]; try discriminate;
      cbn [below] in Hdot; rewrite Hset in Hdot; now injection Hdot as <-. }
  apply replace_dotref_run in Hdot
    as [(e & He & _)|(d0 & path & Hd0 & _ & Hwas & Esf)]; [discriminate|].
  rewrite deploy_dirs_set_same in Hd0. injection Hd0 as <-.
  pose proof (tree_set_file_entry _ path c' Hwas) as Hentry.
  rewrite Hc0 in Hentry. destruct Hentry as (checkout & Hcheckout).
  exists d, r, root. eexists. exists checkout.
  rewrite <- Hda, <- Hdb. split; [exact Hd|]. split; [exact Hfree|].
  split; [exact Hgiven|].
  split.
  { intros Hnone. apply (Hresolved Hnone d r); [|reflexivity].
    now rewrite <- Hdb. }
  split; [subst sf; exact Hr|]. split; [exact Hc|].
  split; [subst sf; apply deploy_dirs_set_same|].
  split; [exact Hcheckout|].
  intros Hp. destruct (Hplain Hp) as (files & Hf & Esf').
  exists files. split; [exact Hf|].
  assert (Ed : tree_set (dir_set c' (Directory root) d) path (RegularFile [])
               = dir_set c'
                   (Directory
                      (dir_set "files"
                         (Directory (dir_set ".ref" (RegularFile []) files))
                         root))
                   (dir_set c' (Directory root) d)).
  { assert (E : deploy_dirs sf ref = deploy_dirs sf ref) by reflexivity.
    rewrite Esf in E at 1. rewrite Esf' in E at 1.
    rewrite !deploy_dirs_set_same in E. now injection E. }
  rewrite Ed in Hcheckout |- *. rewrite dir_lookup_set_same in Hcheckout.
  injection Hcheckout as <-. auto.
Qed.

End DeployStages.

(** What set-active to a checksum leaves of a deploy base, whatever its
    outcome: the entries that were there, other than [active]; and [active]
    too when it fails. *)
Lemma set_active_some_run (ref c : string) (s s' : XdgAppDir)
  (r : result unit) (d : directory) :
  xdg_app_dir_set_active ref (Some c) s = (r, s') ->
  deploy_dirs s ref = Some (Directory d) ->
  repo s' = repo s
  /\ elsewhere s' = elsewhere s
  /\ exists d',
      deploy_dirs s' ref = Some (Directory d')
      /\ (forall name, name <> "active" -> dir_lookup name d <> None ->
                       dir_lookup name d' = dir_lookup name d)
      /\ match r with
         | Ok _ => forall x, dir_lookup "active" d <> Some (Directory x)
         | Err _ => dir_lookup "active" d' = dir_lookup "active" d
         end.
Proof.
  intros H Hd.
  assert (Htmp : streq (".active-" ++ random s (random_pos s) ++ "-tmp")
                   "active" = false) by reflexivity.
  unfold xdg_app_dir_set_active, xdg_app_dir_get_deploy_dir, bind,
    gs_fileutil_gen_tmp_name in H.
  change ("-" ++ "tmp")%string with "-tmp" in H.
  remember (".active-" ++ random s (random_pos s) ++ "-tmp")%string as tmp
    eqn:Etmp.
  assert (Hne : "active" <> tmp).
  { intros E. rewrite <- E in Htmp. discriminate. }
  unfold g_file_make_symbolic_link, gs_file_rename, in_deploy_dir in H.
  simpl deploy_dirs in H. rewrite Hd in H. unfold dir_symlink in H.
  destruct (streq c EmptyString).
  { simpl in H. injection H as <- <-. simpl. repeat split.
    exists d. repeat split; auto. }
  destruct (dir_lookup tmp d) eqn:Hfresh.
  { simpl in H. injection H as <- <-. simpl. repeat split.
    exists d. repeat split; auto. }
  simpl writes in H. cbv iota beta in H.
  rewrite deploy_dirs_set_same in H. unfold dir_rename in H.
  rewrite dir_lookup_set_same, Htmp in H.
  rewrite dir_lookup_set_other in H by exact Hne.
  assert (Hother : forall name, dir_lookup name d <> None ->
             dir_lookup name (dir_set tmp (SymbolicLink c) d)
             = dir_lookup name d).
  { intros name Hin. apply dir_lookup_set_other. intros ->. now apply Hin. }
  destruct (rename_over (SymbolicLink c) (dir_lookup "active" d)) eqn:Hover.
  - simpl in H. injection H as <- <-. simpl. repeat split.
    eexists. rewrite streq_refl. split; [reflexivity|]. split.
    + intros name Hname Hin.
      rewrite dir_lookup_set_other by exact Hname.
      rewrite dir_remove_set_same, dir_remove_absent by assumption.
      reflexivity.
    + intros x Hx. rewrite Hx in Hover. discriminate.
  - simpl in H. injection H as <- <-. simpl. repeat split.
    eexists. rewrite streq_refl. split; [reflexivity|]. split.
    + intros name _ Hin. now apply Hother.
    + now apply dir_lookup_set_other.
Qed.

Section DeployOutcome.
Context `{Platform}.

(** What the second part of a deploy leaves, whatever its outcome: only
    the export directory of the checkout can have changed. *)
Lemma deploy_export_run (ref c : string) (s1 s2 : XdgAppDir)
  (r : result unit) (d1 checkout : directory) :
  deploy_export ref c s1 = (r, s2) ->
  deploy_dirs s1 ref = Some (Directory d1) ->
  dir_lookup c d1 = Some (Directory checkout) ->
  repo s2 = repo s1
  /\ elsewhere s2 = elsewhere s1
  /\ exists d2 checkout',
      deploy_dirs s2 ref = Some (Directory d2)
      /\ dir_lookup c d2 = Some (Directory checkout')
      /\ (forall name, name <> c -> dir_lookup name d2 = dir_lookup name d1)
      /\ (forall name, name <> "export" ->
                       dir_lookup name checkout' = dir_lookup name checkout).
Proof.
  intros Hrun Hd1 Hc.
  assert (Hsame : forall e, (r, s2) = (e, s1) ->
             repo s2 = repo s1
             /\ elsewhere s2 = elsewhere s1
             /\ exists d2 checkout',
                 deploy_dirs s2 ref = Some (Directory d2)
                 /\ dir_lookup c d2 = Some (Directory checkout')
                 /\ (forall name, name <> c ->
                                  dir_lookup name d2 = dir_lookup name d1)
                 /\ (forall name, name <> "export" ->
                                  dir_lookup name checkout'
                                  = dir_lookup name checkout)).
  { intros e E. injection E as -> ->. repeat split.
    exists d1, checkout. auto. }
  unfold deploy_export, xdg_app_dir_get_deploy_dir, bind, find_export in Hrun.
  rewrite Hd1, Hc in Hrun.
  destruct (dir_lookup "export" checkout) as [[|target|export|]|] eqn:He;
    try (symmetry in Hrun; exact (Hsame _ Hrun)).
  - destruct (dir_exists MAXSYMLINKS (elsewhere s1) checkout "export");
      symmetry in Hrun; exact (Hsame _ Hrun).
  - unfold xdg_app_rewrite_export_dir in Hrun.
    match type of Hrun with
    | context [rewrite_export_dir ?f ?a ?b ?x ?st] =>
        destruct (rewrite_export_dir f a b x st) as [r' [export' w']] eqn:Erw
    end.
    injection Hrun as <- <-.
    apply keeps_files_rewrite_export_dir in Erw. simpl in Erw.
    destruct Erw as (_ & Hrepo & _ & _ & _ & _ & Hels & _).
    simpl. rewrite streq_refl. repeat split; try assumption.
    eexists. eexists. split; [reflexivity|]. split.
    + apply dir_lookup_set_same.
    + split.
      * intros name Hname. now apply dir_lookup_set_other.
      * intros name Hname. now apply dir_lookup_set_other.
Qed.

End DeployOutcome.

Section DeployProperties.
Context `{Platform}.


Lemma deploy_existing_checkout (s : XdgAppDir) (ref c : string)
  (r : OstreeRepo) (root : node) :
  repo s = Some r ->
  repo_commits r c = Some root ->
  g_file_query_exists (xdg_app_dir_get_deploy_dir ref) c s = (Ok true, s) ->
  xdg_app_dir_deploy ref (Some c) s
  = (Err XDG_APP_DIR_ERROR_ALREADY_DEPLOYED, s).
Proof.
  intros Hr Hc Hex.
  unfold xdg_app_dir_deploy, deploy_checkout, bind at 1 2 3.
  unfold xdg_app_dir_ensure_repo at 1. rewrite Hr.
  unfold bind at 1. unfold attempt, ostree_repo_read_commit, bind at 1,
    opened_repo.
  rewrite Hr, Hc. unfold ret at 1. unfold ret at 1.
  unfold bind at 1. rewrite Hex. reflexivity.
Qed.

(** X9.  A deploy of a checksum that is a commit of the opened repository
    and whose checkout exists in the deploy base fails with
    ALREADY_DEPLOYED, and changes nothing. *)
Theorem deploy_already_deployed (s : XdgAppDir) (ref c : string)
  (r : OstreeRepo) (root : node) :
  repo s = Some r ->
  repo_commits r c = Some root ->
  g_file_query_exists (xdg_app_dir_get_deploy_dir ref) c s = (Ok true, s) ->
  xdg_app_dir_deploy ref (Some c) s
  = (Err XDG_APP_DIR_ERROR_ALREADY_DEPLOYED, s).
Proof. exact (deploy_existing_checkout s ref c r root). Qed.

Lemma dir_exists_directory (fuel : nat) (e : string -> bool) (d : directory)
  (name : string) (x : directory) :
  dir_lookup name d = Some (Directory x) -> dir_exists fuel e d name = true.
Proof. intros Hl. destruct fuel; simpl; now rewrite Hl. Qed.

Lemma active_target_of_dir (s : XdgAppDir) (ref : string) (d : directory) :
  deploy_dirs s ref = Some (Directory d) ->
  active_target s ref = link_target (dir_lookup "active" d).
Proof.
  intros Hd. unfold active_target, active_entry, xdg_app_dir_get_deploy_dir.
  now rewrite Hd.
Qed.

(** X10.  When the first part of a deploy, up to the write of files/.ref,
    is done and the deploy then fails, in the rewrite of the exports or in
    set-active, the checkout stays in the deploy base, with an empty
    files/.ref when no symbolic link is on the way to it in the commit;
    read-active returns what it returned before, and a new deploy of the
    same checksum fails with ALREADY_DEPLOYED. *)
Theorem failed_deploy_leaves_checkout (s s1 s' : XdgAppDir) (ref c : string)
  (checksum : option string) (e : GError) :
  deploy_checkout ref checksum s = (Ok c, s1) ->
  xdg_app_dir_deploy ref checksum s = (Err e, s') ->
  (exists checkout,
      deploy_entry s' ref c = Some (Directory checkout)
      /\ forall r root,
          repo s1 = Some r -> repo_commits r c = Some (Directory root) ->
          plain_dotref root = true ->
          exists files,
            dir_lookup "files" root = Some (Directory files)
            /\ dir_lookup "files" checkout
               = Some (Directory (dir_set ".ref" (RegularFile []) files)))
  /\ fst (xdg_app_dir_read_active ref s')
     = fst (xdg_app_dir_read_active ref s)
  /\ xdg_app_dir_deploy ref (Some c) s'
     = (Err XDG_APP_DIR_ERROR_ALREADY_DEPLOYED, s').
Proof.
  intros Hco Hrun.
  pose proof (preserves_deploy_checkout ref checksum _ _ _ Hco) as Hact1.
  unfold xdg_app_dir_deploy, bind at 1 in Hrun. rewrite Hco in Hrun.
  apply deploy_checkout_ok in Hco
    as (d & r & root & d1 & checkout & Hd & Hfree & _ & _ & Hr & Hc & Hd1
        & Hc1 & Hplain).
  unfold bind in Hrun.
  destruct (deploy_export ref c s1) as [res s2] eqn:Hexp.
  pose proof (deploy_export_run _ _ _ _ _ _ _ Hexp Hd1 Hc1)
    as (Hr2 & Hels2 & d2 & checkout' & Hd2 & Hc2 & Hother & Hkeep).
  assert (Hdot : forall r0 root0,
             repo s1 = Some r0 -> repo_commits r0 c = Some (Directory root0) ->
             plain_dotref root0 = true ->
             exists files,
               dir_lookup "files" root0 = Some (Directory files)
               /\ dir_lookup "files" checkout'
                  = Some (Directory (dir_set ".ref" (RegularFile []) files))).
  { intros r0 root0 Hr0 Hc0 Hp. rewrite Hr in Hr0. injection Hr0 as <-.
    rewrite Hc in Hc0. injection Hc0 as <-.
    destruct (Hplain Hp) as (files & Hf & -> & _).
    exists files. split; [exact Hf|].
    rewrite Hkeep by discriminate. apply dir_lookup_set_same. }
  assert (Hact2 : active_target s2 ref = active_target s1 ref).
  { rewrite (active_target_of_dir _ _ _ Hd2), (active_target_of_dir _ _ _ Hd1).
    destruct (String.eqb c "active") eqn:Ec.
    - apply String.eqb_eq in Ec. subst c.
      now rewrite Hc2, Hc1.
    - apply String.eqb_neq in Ec. rewrite Hother by congruence.
      reflexivity. }
  assert (Hfinal : forall s3 d3,
             deploy_dirs s3 ref = Some (Directory d3) ->
             dir_lookup c d3 = Some (Directory checkout') ->
             repo s3 = Some r ->
             active_target s3 ref = active_target s2 ref ->
             (exists checkout0,
                 deploy_entry s3 ref c = Some (Directory checkout0)
                 /\ forall r0 root0,
                     repo s1 = Some r0 ->
                     repo_commits r0 c = Some (Directory root0) ->
                     plain_dotref root0 = true ->
                     exists files,
                       dir_lookup "files" root0 = Some (Directory files)
                       /\ dir_lookup "files" checkout0
                          = Some (Directory
                                    (dir_set ".ref" (RegularFile []) files)))
             /\ fst (xdg_app_dir_read_active ref s3)
                = fst (xdg_app_dir_read_active ref s)
             /\ xdg_app_dir_deploy ref (Some c) s3
                = (Err XDG_APP_DIR_ERROR_ALREADY_DEPLOYED, s3)).
  { intros s3 d3 Hd3 Hc3 Hr3 Hact3. split; [|split].
    - exists checkout'. split; [|exact Hdot].
      unfold deploy_entry, xdg_app_dir_get_deploy_dir. now rewrite Hd3.
    - rewrite !read_active_target. simpl. congruence.
    - apply (deploy_existing_checkout s3 ref c r (Directory root) Hr3 Hc).
      unfold g_file_query_exists, xdg_app_dir_get_deploy_dir. rewrite Hd3.
      now rewrite (dir_exists_directory _ _ _ _ _ Hc3). }
  destruct res as [[]|e2].
  - pose proof (set_active_some_run _ _ _ _ _ _ Hrun Hd2)
      as (Hr3 & _ & d3 & Hd3 & Hframe & Hsame).
    simpl in Hsame.
    assert (Hc3 : dir_lookup c d3 = Some (Directory checkout')).
    { destruct (String.eqb c "active") eqn:Ec.
      - apply String.eqb_eq in Ec. subst c. congruence.
      - apply String.eqb_neq in Ec. rewrite Hframe; congruence. }
    apply (Hfinal s' d3 Hd3 Hc3); [congruence|].
    rewrite (active_target_of_dir _ _ _ Hd3), (active_target_of_dir _ _ _ Hd2).
    now rewrite Hsame.
  - injection Hrun as <- <-.
    apply (Hfinal s2 d2 Hd2 Hc2); [congruence|reflexivity].
Qed.

End DeployProperties.


Lemma deploy_already_deployed_witness :
  xdg_app_dir_deploy (H := example_platform) example_ref (Some checksum_b)
    (snd (xdg_app_dir_deploy (H := example_platform) example_ref None
            store_before_deploy))
  = (Err XDG_APP_DIR_ERROR_ALREADY_DEPLOYED,
     snd (xdg_app_dir_deploy (H := example_platform) example_ref None
            store_before_deploy)).
Proof.
  apply (deploy_already_deployed (H := example_platform) _ example_ref
           checksum_b repo_with_app commit_with_desktop_file).
  - vm_compute. reflexivity.
  - reflexivity.
  - vm_compute. reflexivity.
Defined.

Lemma failed_deploy_leaves_checkout_witness :
  let s' := snd (xdg_app_dir_deploy (H := example_platform) example_ref
                   (Some checksum_b) store_before_bad_deploy) in
  (exists checkout,
      deploy_entry s' example_ref checksum_b = Some (Directory checkout)
      /\ dir_lookup "files" checkout
         = Some (Directory [(".ref", RegularFile [])]))
  /\ fst (xdg_app_dir_read_active example_ref s')
     = fst (xdg_app_dir_read_active example_ref store_before_bad_deploy)
  /\ xdg_app_dir_deploy (H := example_platform) example_ref (Some checksum_b)
       s'
     = (Err XDG_APP_DIR_ERROR_ALREADY_DEPLOYED, s').
Proof.
  intros s'.
  destruct (failed_deploy_leaves_checkout (H := example_platform)
              store_before_bad_deploy
              (snd (deploy_checkout (H := example_platform) example_ref
                      (Some checksum_b) store_before_bad_deploy))
              s' example_ref checksum_b (Some checksum_b) G_IO_ERROR_FAILED)
    as ((checkout & Hentry & Hdot) & Hact & Hagain).
  { vm_compute. reflexivity. }
  { vm_compute. reflexivity. }
  split; [|split; assumption].
  exists checkout. split; [exact Hentry|].
  destruct (Hdot repo_with_bad_service
              [("files", Directory []);
               ("metadata", RegularFile []);
               ("export",
                Directory [("share",
                  Directory [("dbus-1",
                    Directory [("services",
                      Directory [("org.example.App.service",
                                  RegularFile service_file_of_other)])])])])])
    as (files & Hf & Hfiles); try reflexivity.
  rewrite Hfiles. injection Hf as <-. reflexivity.
Defined.

(* ================================================================== *)
(** * The current ref of an application *)

Lemma string_app_nil_r (a : string) : (a ++ EmptyString)%string = a.
Proof. induction a as [|x a IH]; simpl; [reflexivity|]. now rewrite IH. Qed.

Lemma split_slash_cons (s piece : string) :
  exists first rest, split_slash s piece = first :: rest.
Proof.
  revert piece. induction s as [|c s IH]; intros piece; simpl.
  - now exists piece, [].
  - destruct (Ascii.eqb c "/"); [now eexists; eexists|apply IH].
Qed.

(** The pieces of a string, joined by slashes, are the string. *)
Lemma split_slash_join (s piece : string) :
  String.concat "/" (split_slash s piece) = (piece ++ s)%string.
Proof.
  revert piece. induction s as [|c s IH]; intros piece; simpl.
  - now rewrite string_app_nil_r.
  - destruct (Ascii.eqb c "/") eqn:Ec.
    + apply Ascii.eqb_eq in Ec. subst c.
      destruct (split_slash_cons s EmptyString) as (first & rest & E).
      specialize (IH EmptyString). rewrite E in *. simpl in *.
      now rewrite IH.
    + rewrite IH. now rewrite string_app_assoc.
Qed.

Lemma g_strsplit_slash_join (s : string) :
  String.concat "/" (g_strsplit_slash s) = s.
Proof.
  destruct s as [|c s]; [reflexivity|].
  unfold g_strsplit_slash. apply split_slash_join.
Qed.

Lemma split_slash_piece (n rest piece : string) :
  contains_char "/" n = false ->
  split_slash (n ++ String "/" rest) piece
  = (piece ++ n)%string :: split_slash rest EmptyString.
Proof.
  revert piece. induction n as [|c n IH]; intros piece;
    cbn [append split_slash contains_char].
  - intros _. change (Ascii.eqb "/" "/") with true. cbv iota.
    now rewrite string_app_nil_r.
  - intros Hc. apply orb_false_iff in Hc as [Hc Hn].
    rewrite Ascii.eqb_sym, Hc. rewrite IH by assumption.
    now rewrite string_app_assoc.
Qed.

Lemma kind_dirs_set_same (kind : string) (n : option node) (s : XdgAppDir) :
  kind_dirs (set_kind_dir kind n s) kind = n.
Proof. simpl. now rewrite streq_refl. Qed.

Lemma in_app_dir_ok {A} (name : string)
  (op : directory -> result (A * directory)) (s s' : XdgAppDir) (a : A) :
  in_app_dir name op s = (Ok a, s') ->
  exists names dir dir',
    kind_dirs s "app" = Some (Directory names)
    /\ dir_lookup name names = Some (Directory dir)
    /\ op dir = Ok (a, dir')
    /\ s' = set_kind_dir "app"
              (Some (Directory (dir_set name (Directory dir') names))) s.
Proof.
  unfold in_app_dir.
  destruct (kind_dirs s "app") as [[| |names|]|]; try discriminate.
  destruct (dir_lookup name names) as [[| |dir|]|] eqn:Hl; try discriminate.
  destruct (op dir) as [[a' dir']|e] eqn:E; try discriminate.
  intros H. injection H as <- <-. now exists names, dir, dir'.
Qed.

Lemma current_entry_set (s : XdgAppDir) (name : string)
  (names dir : directory) :
  current_entry
    (set_kind_dir "app"
       (Some (Directory (dir_set name (Directory dir) names))) s) name
  = dir_lookup "current" dir.
Proof.
  unfold current_entry. rewrite kind_dirs_set_same.
  now rewrite dir_lookup_set_same.
Qed.

(** X11.  After a successful make-current-ref of a ref with a branch,
    current-ref of the application of the ref returns that ref, whatever
    [current] was before. *)
Theorem make_current_ref_then_current_ref (ref : string)
  (make : M XdgAppDir unit) (s s' : XdgAppDir) :
  xdg_app_dir_make_current_ref ref = Some make ->
  nth 3 (g_strsplit_slash ref) EmptyString <> EmptyString ->
  make s = (Ok tt, s') ->
  xdg_app_dir_current_ref (nth 1 (g_strsplit_slash ref) EmptyString) s'
  = (Ok (Some ref), s').
Proof.
  unfold xdg_app_dir_make_current_ref.
  pose proof (g_strsplit_slash_join ref) as Hjoin.
  destruct (g_strsplit_slash ref) as [|kind [|name [|arch [|branch [|x l]]]]];
    try discriminate.
  simpl nth. simpl length. simpl Nat.eqb. simpl andb.
  destruct (streq kind "app") eqn:Ek; [|discriminate].
  apply streq_true in Ek. subst kind.
  intros Hmake Hbranch Hrun. injection Hmake as <-.
  apply streq_false in Hbranch. rewrite Hbranch in Hrun. simpl negb in Hrun.
  cbv iota in Hrun.
  apply bind_ok in Hrun as (r & s1 & _ & Hrun).
  apply in_app_dir_ok in Hrun as (names & dir & dir' & _ & _ & Hop & ->).
  apply writes_ok in Hop. unfold dir_symlink in Hop.
  match type of Hop with
  | context [if ?b then _ else _] => destruct b
  end; [discriminate|].
  destruct (dir_lookup "current" dir); [discriminate|].
  injection Hop as <-.
  unfold xdg_app_dir_current_ref. rewrite current_entry_set.
  rewrite dir_lookup_set_same. rewrite <- Hjoin.
  reflexivity.
Qed.

Lemma make_current_ref_then_current_ref_witness :
  match xdg_app_dir_make_current_ref "app/org.example.App/x86_64/master" with
  | Some make =>
      xdg_app_dir_current_ref "org.example.App"
        (snd (make store_with_current))
      = (Ok (Some "app/org.example.App/x86_64/master"),
         snd (make store_with_current))
  | None => False
  end.
Proof.
  destruct (xdg_app_dir_make_current_ref "app/org.example.App/x86_64/master")
    as [make|] eqn:Hmake.
  - apply (make_current_ref_then_current_ref
             "app/org.example.App/x86_64/master" make store_with_current
             (snd (make store_with_current)) Hmake).
    + discriminate.
    + vm_compute in Hmake. injection Hmake as <-. vm_compute. reflexivity.
  - vm_compute in Hmake. discriminate.
Defined.

(** X12.  Drop-current-ref fails, and changes nothing, when the
    application has no [current] entry: unlike set-active to no checksum,
    it does not take the absence of the link for success.  When it
    succeeds, current-ref of the application returns nothing. *)
Theorem drop_current_ref_needs_link (s : XdgAppDir) (name : string) :
  (current_entry s name = None ->
   exists e, xdg_app_dir_drop_current_ref name s = (Err e, s))
  /\ (forall s',
        xdg_app_dir_drop_current_ref name s = (Ok tt, s') ->
        xdg_app_dir_current_ref name s' = (Ok None, s')).
Proof.
  split.
  - unfold current_entry, xdg_app_dir_drop_current_ref, in_app_dir.
    destruct (kind_dirs s "app") as [[| |names|]|];
      try (intros _; eexists; reflexivity).
    destruct (dir_lookup name names) as [[| |dir|]|];
      try (intros _; eexists; reflexivity).
    intros Hc. unfold dir_delete. rewrite Hc. simpl. eexists; reflexivity.
  - intros s' Hrun. unfold xdg_app_dir_drop_current_ref in Hrun.
    apply in_app_dir_ok in Hrun as (names & dir & dir' & _ & _ & Hop & ->).
    apply writes_ok in Hop. unfold dir_delete in Hop.
    unfold xdg_app_dir_current_ref. rewrite current_entry_set.
    destruct (dir_lookup "current" dir) as [[| |[|]|]|]; try discriminate;
      injection Hop as <-; now rewrite dir_lookup_remove_same.
Qed.

Lemma drop_current_ref_needs_link_witness :
  (exists e,
      xdg_app_dir_drop_current_ref "org.example.App" store_with_branches
      = (Err e, store_with_branches))
  /\ xdg_app_dir_current_ref "org.example.App"
       (snd (xdg_app_dir_drop_current_ref "org.example.App"
               store_with_current))
     = (Ok None,
        snd (xdg_app_dir_drop_current_ref "org.example.App"
               store_with_current)).
Proof.
  split.
  - apply (proj1 (drop_current_ref_needs_link store_with_branches
                    "org.example.App")).
    reflexivity.
  - apply (proj2 (drop_current_ref_needs_link store_with_current
                    "org.example.App")).
    vm_compute. reflexivity.
Defined.

(** X13.  Make-current-ref of a ref whose branch is empty makes no link
    and cannot fail: it deletes [current] without looking at the outcome.
    Afterwards current-ref of the application returns nothing, unless
    [current] is a directory that is not empty. *)
Theorem make_current_ref_without_branch (ref : string)
  (make : M XdgAppDir unit) (s : XdgAppDir) :
  xdg_app_dir_make_current_ref ref = Some make ->
  nth 3 (g_strsplit_slash ref) EmptyString = EmptyString ->
  exists s',
    make s = (Ok tt, s')
    /\ ((forall x xs,
            current_entry s (nth 1 (g_strsplit_slash ref) EmptyString)
            <> Some (Directory (x :: xs))) ->
        xdg_app_dir_current_ref (nth 1 (g_strsplit_slash ref) EmptyString) s'
        = (Ok None, s')).
Proof.
  unfold xdg_app_dir_make_current_ref.
  destruct (Nat.eqb (length (g_strsplit_slash ref)) 4
            && streq (nth 0 (g_strsplit_slash ref) EmptyString) "app");
    [|discriminate].
  intros Hmake Hbranch. injection Hmake as <-.
  rewrite Hbranch. simpl negb.
  remember (nth 1 (g_strsplit_slash ref) EmptyString) as name.
  unfold bind, attempt. cbv iota.
  destruct (in_app_dir name (fun d => writes (dir_delete "current" d)) s)
    as [[[]|e] s1] eqn:Hdel; exists s1; (split; [reflexivity|]).
  - intros _.
    apply in_app_dir_ok in Hdel as (names & dir & dir' & _ & _ & Hop & ->).
    apply writes_ok in Hop. unfold dir_delete in Hop.
    unfold xdg_app_dir_current_ref. rewrite current_entry_set.
    destruct (dir_lookup "current" dir) as [[| |[|]|]|]; try discriminate;
      injection Hop as <-; now rewrite dir_lookup_remove_same.
  - assert (s1 = s).
    { unfold in_app_dir in Hdel.
      destruct (kind_dirs s "app") as [[| |names|]|];
        try (now injection Hdel).
      destruct (dir_lookup name names) as [[| |dir|]|];
        try (now injection Hdel).
      destruct (writes (dir_delete "current" dir)) as [[u dir']|e'];
        [discriminate|now injection Hdel]. }
    subst s1.
    unfold in_app_dir in Hdel. unfold xdg_app_dir_current_ref, current_entry.
    destruct (kind_dirs s "app") as [[| |names|]|];
      try (intros _; reflexivity).
    destruct (dir_lookup name names) as [[| |dir|]|];
      try (intros _; reflexivity).
    unfold dir_delete in Hdel.
    destruct (dir_lookup "current" dir) as [[| |[|x xs]|]|] eqn:Hc;
      simpl in Hdel; try discriminate.
    + intros Hno. now elim (Hno x xs).
    + intros _. reflexivity.
Qed.

Lemma make_current_ref_without_branch_witness :
  match xdg_app_dir_make_current_ref "app/org.example.App/x86_64/" with
  | Some make =>
      exists s',
        make store_with_current = (Ok tt, s')
        /\ ((forall x xs,
                current_entry store_with_current
                  (nth 1 (g_strsplit_slash "app/org.example.App/x86_64/")
                     EmptyString)
                <> Some (Directory (x :: xs))) ->
            xdg_app_dir_current_ref
              (nth 1 (g_strsplit_slash "app/org.example.App/x86_64/")
                 EmptyString) s'
            = (Ok None, s'))
  | None => False
  end.
Proof.
  destruct (xdg_app_dir_make_current_ref "app/org.example.App/x86_64/")
    as [make|] eqn:Hmake.
  - apply (make_current_ref_without_branch
             "app/org.example.App/x86_64/" make store_with_current Hmake).
    reflexivity.
  - vm_compute in Hmake. discriminate.
Defined.

(** X14.  When [current] of an application exists and is no symbolic
    link, current-ref returns the application directory with a trailing
    slash, "app/<name>/"; this is no ref: make-current-ref aborts on it,
    as it has three parts. *)
Theorem current_ref_of_non_link (s : XdgAppDir) (name : string) (x : node) :
  current_entry s name = Some x ->
  (forall target, x <> SymbolicLink target) ->
  contains_char "/" name = false ->
  xdg_app_dir_current_ref name s
  = (Ok (Some ("app/" ++ name ++ "/")%string), s)
  /\ xdg_app_dir_make_current_ref ("app/" ++ name ++ "/")%string = None.
Proof.
  intros Hc Hx Hname. split.
  - unfold xdg_app_dir_current_ref. rewrite Hc.
    destruct x as [| target | |]; try reflexivity. now elim (Hx target).
  - unfold xdg_app_dir_make_current_ref.
    assert (Hsplit : g_strsplit_slash ("app/" ++ name ++ "/")%string
                     = ["app"; name; EmptyString]).
    { change ("app/" ++ name ++ "/")%string
        with ("app" ++ String "/" (name ++ String "/" EmptyString))%string.
      unfold g_strsplit_slash.
      change (match ("app" ++ String "/" (name ++ String "/" EmptyString))%string
              with
              | EmptyString => []
              | String _ _ =>
                  split_slash
                    ("app" ++ String "/" (name ++ String "/" EmptyString))
                    EmptyString
              end)
        with (split_slash
                ("app" ++ String "/" (name ++ String "/" EmptyString))
                EmptyString).
      rewrite split_slash_piece by reflexivity.
      rewrite split_slash_piece by exact Hname.
      reflexivity. }
    rewrite Hsplit. reflexivity.
Qed.

Lemma current_ref_of_non_link_witness :
  xdg_app_dir_current_ref "org.example.App" store_with_current_directory
  = (Ok (Some ("app/" ++ "org.example.App" ++ "/")%string),
     store_with_current_directory)
  /\ xdg_app_dir_make_current_ref ("app/" ++ "org.example.App" ++ "/")%string
     = None.
Proof.
  apply (current_ref_of_non_link store_with_current_directory
           "org.example.App" (Directory [])).
  - reflexivity.
  - discriminate.
  - reflexivity.
Defined.

(* ================================================================== *)
(** * Deployed checkouts *)

Lemma dir_is_directory_here (e : string -> bool) (fuel : nat) (d : directory)
  (name : string) (x : directory) :
  dir_lookup name d = Some (Directory x) ->
  dir_is_directory e fuel d name = true.
Proof. intros Hl. destruct fuel; simpl; now rewrite Hl. Qed.

Lemma dir_is_directory_absent (e : string -> bool) (fuel : nat)
  (d : directory) (name : string) :
  dir_lookup name d = None -> dir_is_directory e fuel d name = false.
Proof. intros Hl. destruct fuel; simpl; now rewrite Hl. Qed.

Lemma dir_is_directory_link (e : string -> bool) (fuel : nat)
  (d : directory) (name target : string) :
  dir_lookup name d = Some (SymbolicLink target) ->
  is_file_name target = true ->
  dir_is_directory e (S fuel) d name = dir_is_directory e fuel d target.
Proof. intros Hl Ht. simpl. now rewrite Hl, Ht. Qed.

Section DeployedProperties.
Context `{Platform}.

Variable elsewhere_is_directory : string -> bool.

(** X15.  After a successful deploy, get-if-deployed finds the checkout of
    the checksum that read-active returns, and, that checksum being the
    name of a directory entry, it finds the active checkout as well. *)
Theorem deployed_after_deploy (s s' : XdgAppDir) (ref : string)
  (checksum : option string) :
  xdg_app_dir_deploy ref checksum s = (Ok tt, s') ->
  exists c,
    xdg_app_dir_read_active ref s' = (Ok (Some c), s')
    /\ xdg_app_dir_get_if_deployed elsewhere_is_directory s' ref (Some c)
       = Some (ref ++ "/" ++ c)%string
    /\ (is_file_name c = true ->
        xdg_app_dir_get_if_deployed elsewhere_is_directory s' ref None
        = Some (ref ++ "/active")%string).
Proof.
  unfold xdg_app_dir_deploy. intros Hrun.
  apply bind_ok in Hrun as (c & s1 & Hco & Hrun).
  apply bind_ok in Hrun as ([] & s2 & Hexp & Hset).
  apply deploy_checkout_ok in Hco
    as (d & r & root & d1 & checkout & _ & _ & _ & _ & _ & _ & Hd1 & Hc1 & _).
  pose proof (deploy_export_run _ _ _ _ _ _ _ Hexp Hd1 Hc1)
    as (_ & _ & d2 & checkout' & Hd2 & Hc2 & _ & _).
  pose proof (set_active_some_run _ _ _ _ _ _ Hset Hd2)
    as (_ & _ & d3 & Hd3 & Hframe & Hnodir).
  assert (Hne : c <> "active").
  { intros ->. now apply (Hnodir checkout'). }
  assert (Hc3 : dir_lookup c d3 = Some (Directory checkout')).
  { rewrite Hframe; [exact Hc2|exact Hne|congruence]. }
  assert (Hact : dir_lookup "active" d3 = Some (SymbolicLink c)).
  { apply set_active_some_ok in Hset as (d0 & tmpname & Hd0 & _ & _ & _ & ->).
    rewrite deploy_dirs_set_same in Hd3. injection Hd3 as <-.
    apply dir_lookup_set_same. }
  exists c. split; [|split].
  - rewrite read_active_of_entry. unfold active_entry,
      xdg_app_dir_get_deploy_dir. now rewrite Hd3, Hact.
  - unfold xdg_app_dir_get_if_deployed, xdg_app_dir_get_deploy_dir.
    rewrite Hd3. now rewrite (dir_is_directory_here _ _ _ _ _ Hc3).
  - intros Hname.
    unfold xdg_app_dir_get_if_deployed, xdg_app_dir_get_deploy_dir.
    rewrite Hd3. unfold MAXSYMLINKS.
    rewrite (dir_is_directory_link _ _ _ _ _ Hact Hname).
    now rewrite (dir_is_directory_here _ _ _ _ _ Hc3).
Qed.

End DeployedProperties.

(** X16.  Set-active does not look whether the checksum is deployed: after
    a successful set-active to a name that has no entry in the deploy
    base, read-active returns that name while get-if-deployed finds no
    active checkout. *)
Theorem set_active_to_missing_checkout (e : string -> bool)
  (s s' : XdgAppDir) (ref c : string) :
  is_file_name c = true ->
  c <> "active" ->
  deploy_entry s ref c = None ->
  xdg_app_dir_set_active ref (Some c) s = (Ok tt, s') ->
  xdg_app_dir_read_active ref s' = (Ok (Some c), s')
  /\ xdg_app_dir_get_if_deployed e s' ref None = None.
Proof.
  intros Hname Hne Hnone Hset.
  unfold deploy_entry, xdg_app_dir_get_deploy_dir in Hnone.
  destruct (deploy_dirs s ref) as [[| |d|]|] eqn:Hd;
    try (apply set_active_some_ok in Hset as (d0 & _ & Hd0 & _); congruence).
  destruct (set_active_ok_frame _ _ _ _ _ Hset Hd)
    as (d' & Hd' & Hframe & _).
  assert (Hact : dir_lookup "active" d' = Some (SymbolicLink c)).
  { apply set_active_some_ok in Hset as (d0 & tmpname & Hd0 & _ & _ & _ & ->).
    rewrite deploy_dirs_set_same in Hd'. injection Hd' as <-.
    apply dir_lookup_set_same. }
  split.
  - rewrite read_active_of_entry. unfold active_entry,
      xdg_app_dir_get_deploy_dir. now rewrite Hd', Hact.
  - unfold xdg_app_dir_get_if_deployed, xdg_app_dir_get_deploy_dir.
    rewrite Hd'. unfold MAXSYMLINKS.
    rewrite (dir_is_directory_link _ _ _ _ _ Hact Hname).
    rewrite dir_is_directory_absent; [reflexivity|].
    rewrite Hframe by exact Hne. exact Hnone.
Qed.

Lemma deployed_after_deploy_witness :
  exists c,
    xdg_app_dir_read_active example_ref
      (snd (xdg_app_dir_deploy (H := example_platform) example_ref None
              store_before_deploy))
    = (Ok (Some c),
       snd (xdg_app_dir_deploy (H := example_platform) example_ref None
              store_before_deploy))
    /\ xdg_app_dir_get_if_deployed (fun _ => false)
         (snd (xdg_app_dir_deploy (H := example_platform) example_ref None
                 store_before_deploy)) example_ref (Some c)
       = Some (example_ref ++ "/" ++ c)%string
    /\ (is_file_name c = true ->
        xdg_app_dir_get_if_deployed (fun _ => false)
          (snd (xdg_app_dir_deploy (H := example_platform) example_ref None
                  store_before_deploy)) example_ref None
        = Some (example_ref ++ "/active")%string).
Proof.
  apply (deployed_after_deploy (H := example_platform) (fun _ => false)
           store_before_deploy _ example_ref None).
  vm_compute. reflexivity.
Defined.

Lemma set_active_to_missing_checkout_witness :
  xdg_app_dir_read_active example_ref
    (snd (xdg_app_dir_set_active example_ref (Some not_a_checksum)
            store_without_active))
  = (Ok (Some not_a_checksum),
     snd (xdg_app_dir_set_active example_ref (Some not_a_checksum)
            store_without_active))
  /\ xdg_app_dir_get_if_deployed (fun _ => false)
       (snd (xdg_app_dir_set_active example_ref (Some not_a_checksum)
               store_without_active)) example_ref None
     = None.
Proof.
  apply (set_active_to_missing_checkout (fun _ => false)
           store_without_active _ example_ref not_a_checksum).
  - reflexivity.
  - discriminate.
  - reflexivity.
  - vm_compute. reflexivity.
Defined.

(* ================================================================== *)
(** * The export tree after a rewrite *)

Lemma dir_lookup_none_not_in (name : string) (d : directory) :
  dir_lookup name d = None -> ~ In name (map fst d).
Proof.
  induction d as [|[n y] d IH]; simpl; [tauto|].
  destruct (streq n name) eqn:E; [discriminate|].
  intros Hl [Hn|Hin]; [|now apply IH].
  apply streq_false in E. contradiction.
Qed.

Lemma dir_set_app_fresh (name : string) (x y : node) (acc rest : directory) :
  ~ In name (map fst acc) ->
  dir_set name y (acc ++ (name, x) :: rest) = acc ++ (name, y) :: rest.
Proof.
  induction acc as [|[n z] acc IH]; simpl; intros Hnot.
  - now rewrite streq_refl.
  - destruct (streq n name) eqn:E.
    + apply streq_true in E. elim Hnot. now left.
    + rewrite IH; [reflexivity|]. intros Hin. apply Hnot. now right.
Qed.

Lemma dir_remove_middle (name : string) (x : node) (acc rest : directory) :
  ~ In name (map fst acc) -> ~ In name (map fst rest) ->
  dir_remove name (acc ++ (name, x) :: rest) = acc ++ rest.
Proof.
  intros Hacc Hrest. rewrite dir_remove_app.
  rewrite (dir_remove_fresh _ _ Hacc).
  unfold dir_remove at 1. simpl. rewrite streq_refl. simpl.
  fold (dir_remove name rest). now rewrite (dir_remove_fresh _ _ Hrest).
Qed.

Lemma unlinkat_unless_gone_file (name : string) (cur : directory)
  (w : XdgAppDir) (x : node) :
  dir_lookup name cur = Some x ->
  is_directory x = false ->
  unlinkat_unless_gone name (cur, w) = (Ok tt, (dir_remove name cur, w)).
Proof.
  intros Hl Hx. unfold unlinkat_unless_gone, bind, attempt, unlinkat.
  simpl. rewrite Hl. destruct x; try discriminate; reflexivity.
Qed.

Lemma renameat_over_file (new_name name : string) (cur : directory)
  (w : XdgAppDir) (data data' : text) :
  dir_lookup new_name cur = None ->
  dir_lookup name cur = Some (RegularFile data) ->
  renameat new_name name (dir_set new_name (RegularFile data') cur, w)
  = (Ok tt, (dir_set name (RegularFile data') cur, w)).
Proof.
  intros Hfresh Hl. unfold renameat, dir_rename. simpl fst. simpl snd.
  rewrite dir_lookup_set_same.
  assert (Hne : name <> new_name) by congruence.
  assert (E : streq new_name name = false).
  { apply streq_false. congruence. }
  rewrite E. rewrite dir_lookup_set_other by exact Hne. rewrite Hl.
  simpl rename_over. cbv iota.
  now rewrite dir_remove_set_same, dir_remove_absent.
Qed.

Section RewrittenTreeProofs.
Context `{Platform}.

Lemma rewrite_export_entries_spec (recurse : M Export unit)
  (app branch arch : string) :
  (forall sub w sub' w',
      wf_export sub ->
      recurse (sub, w) = (Ok tt, (sub', w')) ->
      sub' = rewritten_entries app branch arch sub) ->
  forall rest acc visited w cur' w',
    NoDup (map fst (acc ++ rest)) ->
    (forall name sub, In (name, Directory sub) rest -> wf_export sub) ->
    (forall n, In n (map fst rest) -> existsb (streq n) visited = false) ->
    rewrite_export_entries recurse app branch arch (map fst rest) visited
      (acc ++ rest, w) = (Ok tt, (cur', w')) ->
    cur' = acc ++ rewritten_entries app branch arch rest.
Proof.
  intros Hrec. induction rest as [|[name x] rest IH];
    intros acc visited w cur' w' Hnd Hwf Hvis Hrun.
  { simpl in Hrun. injection Hrun as <- <-. reflexivity. }
  destruct (NoDup_names_middle _ _ _ _ Hnd) as (Hacc & Hrest & Hnd').
  assert (Hcons : forall (y : node) (l : directory),
             acc ++ (name, y) :: l = (acc ++ [(name, y)]) ++ l).
  { intros y l. now rewrite <- app_assoc. }
  assert (Hnd1 : forall y, NoDup (map fst ((acc ++ [(name, y)]) ++ rest))).
  { intros y. rewrite <- Hcons. rewrite map_app in *. exact Hnd. }
  assert (Hwf' : forall n sub, In (n, Directory sub) rest -> wf_export sub).
  { intros n sub Hin. apply (Hwf n). now right. }
  assert (Hvis1 : forall n, In n (map fst rest) ->
                            existsb (streq n) (name :: visited) = false).
  { intros n Hin. apply existsb_streq_cons.
    - intros ->. contradiction.
    - apply Hvis. now right. }
  cbn [map fst rewrite_export_entries] in Hrun.
  rewrite (Hvis name (or_introl eq_refl)) in Hrun.
  rewrite bind_fstatat in Hrun.
  pose proof (dir_lookup_app_fresh name x acc rest Hacc) as Hl.
  rewrite Hl in Hrun.
  destruct x as [data|target|sub|].
  - (* a regular file *)
    destruct (xdg_app_has_name_prefix name app) eqn:Ep.
    + simpl negb in Hrun. cbv iota in Hrun.
      apply bind_ok in Hrun as ([] & st & Hret & Hrun).
      injection Hret as <-.
      unfold rewritten_entries. cbn [rewritten_list]. rewrite Ep.
      fold (rewritten_entries app branch arch rest).
      destruct (g_str_has_suffix name ".desktop"
                || g_str_has_suffix name ".service") eqn:Es.
      * apply bind_ok in Hrun as (new_name & [cur1 w1] & Hexp & Hrun).
        apply export_desktop_file_ok in Hexp
          as (data0 & keyfile & Hl0 & Hload & _ & Hfresh & ->).
        rewrite Hl in Hl0. injection Hl0 as <-.
        apply bind_ok in Hrun as ([] & st2 & Hren & Hrun).
        rewrite (renameat_over_file _ _ _ _ _ _ Hfresh Hl) in Hren.
        injection Hren as <-.
        rewrite (dir_set_app_fresh _ _ _ _ _ Hacc) in Hrun.
        rewrite Hcons in Hrun.
        apply IH in Hrun.
        -- rewrite Hrun, <- app_assoc. unfold rewritten_data.
           now rewrite Hload.
        -- apply Hnd1.
        -- exact Hwf'.
        -- intros n Hin. apply existsb_streq_cons; [|now apply Hvis1].
           intros ->. apply (dir_lookup_none_not_in _ _ Hfresh).
           rewrite map_app. apply in_or_app. right. now right.
      * rewrite Hcons in Hrun. apply IH in Hrun.
        -- now rewrite Hrun, <- app_assoc.
        -- apply Hnd1.
        -- exact Hwf'.
        -- exact Hvis1.
    + simpl negb in Hrun. cbv iota in Hrun.
      apply bind_ok in Hrun as ([] & st & Hdel & Hrun).
      apply bind_ok in Hdel as ([] & [cur0 w0] & Hwarn & Hdel).
      pose proof (in_world_ok _ _ _ _ _ _ Hwarn) as ->.
      rewrite (unlinkat_unless_gone_file _ _ _ _ Hl eq_refl) in Hdel.
      injection Hdel as <-.
      rewrite (dir_remove_middle _ _ _ _ Hacc Hrest) in Hrun.
      unfold rewritten_entries. cbn [rewritten_list]. rewrite Ep.
      fold (rewritten_entries app branch arch rest).
      destruct (g_str_has_suffix name ".desktop"
                || g_str_has_suffix name ".service") eqn:Es.
      * (* the file deleted is opened: the rewrite fails *)
        apply bind_ok in Hrun as (new_name & [cur1 w1] & Hexp & _).
        apply export_desktop_file_ok in Hexp as (data0 & _ & Hl0 & _).
        rewrite dir_lookup_not_in_names in Hl0; [discriminate|].
        rewrite map_app. intros Hin.
        apply in_app_or in Hin as [Hin|Hin]; contradiction.
      * apply IH in Hrun; assumption.
  - (* a symbolic link *)
    apply bind_ok in Hrun as ([] & [cur0 w0] & Hwarn & Hrun).
    pose proof (in_world_ok _ _ _ _ _ _ Hwarn) as ->.
    apply bind_ok in Hrun as ([] & st & Hdel & Hrun).
    rewrite (unlinkat_unless_gone_file _ _ _ _ Hl eq_refl) in Hdel.
    injection Hdel as <-.
    rewrite (dir_remove_middle _ _ _ _ Hacc Hrest) in Hrun.
    apply IH in Hrun; assumption.
  - (* a directory *)
    apply bind_ok in Hrun as ([] & [cur1 w1] & Hsub & Hrun).
    unfold in_subdir in Hsub. simpl fst in Hsub. simpl snd in Hsub.
    rewrite Hl in Hsub.
    destruct (recurse (sub, w)) as [r [sub' w2]] eqn:Hrun_sub.
    injection Hsub as -> <- <-.
    apply Hrec in Hrun_sub; [|apply (Hwf name); now left].
    subst sub'.
    rewrite (dir_set_app_fresh _ _ _ _ _ Hacc) in Hrun.
    rewrite Hcons in Hrun. apply IH in Hrun.
    + now rewrite Hrun, <- app_assoc.
    + apply Hnd1.
    + exact Hwf'.
    + exact Hvis1.
  - (* a special file *)
    apply bind_ok in Hrun as ([] & [cur0 w0] & Hwarn & Hrun).
    pose proof (in_world_ok _ _ _ _ _ _ Hwarn) as ->.
    apply bind_ok in Hrun as ([] & st & Hdel & Hrun).
    rewrite (unlinkat_unless_gone_file _ _ _ _ Hl eq_refl) in Hdel.
    injection Hdel as <-.
    rewrite (dir_remove_middle _ _ _ _ Hacc Hrest) in Hrun.
    apply IH in Hrun; assumption.
Qed.

(** A rewrite that succeeds leaves the tree [rewritten_entries]
    describes. *)
Lemma rewrite_export_dir_spec (fds : nat) (app branch arch : string) :
  forall cur w cur' w',
    wf_export cur ->
    rewrite_export_dir fds app branch arch (cur, w) = (Ok tt, (cur', w')) ->
    cur' = rewritten_entries app branch arch cur.
Proof.
  induction fds as [|fds IH]; intros cur w cur' w' Hwf Hrun.
  - discriminate.
  - simpl in Hrun. inversion Hwf as [d Hnd Hsub]; subst d.
    apply (rewrite_export_entries_spec _ _ _ _ IH cur [] [] w cur' w');
      try assumption.
    reflexivity.
Qed.

End RewrittenTreeProofs.

Section ExportedTree.
Context `{Platform}.

Lemma rewritten_node_exported (app branch arch : string) (n : node) :
  match rewritten_node app branch arch n with
  | Directory l => Forall (exported_entry app) l
  | _ => True
  end.
Proof.
  revert n. fix IH 1. intros [data|target|children|]; simpl; try exact I.
  induction children as [|[name x] rest IHrest]; simpl.
  - constructor.
  - pose proof (IH x) as Hx.
    destruct x as [data|target|sub|].
    + destruct (xdg_app_has_name_prefix name app) eqn:Ep; [|exact IHrest].
      constructor; [now constructor|exact IHrest].
    + exact IHrest.
    + constructor; [|exact IHrest]. constructor. exact Hx.
    + exact IHrest.
Qed.

(** X17.  A rewrite of an export tree whose directories have entries of
    distinct names, when it succeeds, leaves exactly this: the directories,
    in place; the regular files whose name has the prefix of the
    application, in place, those named .desktop or .service with the
    contents [export_desktop_file] writes and the others as they were;
    and nothing else.  Around the tree it changes nothing but the warnings
    printed and the random characters used. *)
Theorem rewrite_export_dir_result (fds : nat) (app branch arch : string)
  (cur cur' : directory) (w w' : XdgAppDir) :
  wf_export cur ->
  rewrite_export_dir fds app branch arch (cur, w) = (Ok tt, (cur', w')) ->
  cur' = rewritten_entries app branch arch cur
  /\ same_files w w'.
Proof.
  intros Hwf Hrun. split.
  - exact (rewrite_export_dir_spec fds app branch arch cur w cur' w' Hwf Hrun).
  - exact (keeps_files_rewrite_export_dir fds app branch arch _ _ _ Hrun).
Qed.

(** X18.  After a rewrite that succeeds, the export tree holds, at every
    depth, nothing but directories and regular files whose name has the
    prefix of the application: no symbolic link and no special file is
    left, and no regular file of another name. *)
Theorem rewrite_export_dir_leaves_prefixed_files (fds : nat)
  (app branch arch : string) (cur cur' : directory) (w w' : XdgAppDir) :
  wf_export cur ->
  rewrite_export_dir fds app branch arch (cur, w) = (Ok tt, (cur', w')) ->
  Forall (exported_entry app) cur'.
Proof.
  intros Hwf Hrun.
  rewrite (rewrite_export_dir_spec fds app branch arch cur w cur' w' Hwf Hrun).
  exact (rewritten_node_exported app branch arch (Directory cur)).
Qed.

End ExportedTree.

Lemma wf_export_with_strays : wf_export export_with_strays.
Proof.
  repeat (constructor; simpl; try tauto;
          try (intros name sub Hin; repeat destruct Hin as [Hin|Hin];
               try discriminate; try contradiction;
               injection Hin as <- <-); try (intuition discriminate)).
Qed.

Lemma rewrite_export_dir_result_witness :
  export_without_strays
  = rewritten_entries (H := example_platform) "org.example.App" "stable"
      "x86_64" export_with_strays
  /\ same_files empty_store
       (snd (snd (rewrite_export_dir (H := example_platform) 1024
                    "org.example.App" "stable" "x86_64"
                    (export_with_strays, empty_store)))).
Proof.
  apply (rewrite_export_dir_result (H := example_platform) 1024
           "org.example.App" "stable" "x86_64" export_with_strays
           export_without_strays empty_store _ wf_export_with_strays).
  vm_compute. reflexivity.
Defined.

Lemma rewrite_export_dir_leaves_prefixed_files_witness :
  Forall (exported_entry (H := example_platform) "org.example.App")
    export_without_strays.
Proof.
  apply (rewrite_export_dir_leaves_prefixed_files (H := example_platform)
           1024 "org.example.App" "stable" "x86_64" export_with_strays
           export_without_strays empty_store
           (snd (snd (rewrite_export_dir (H := example_platform) 1024
                        "org.example.App" "stable" "x86_64"
                        (export_with_strays, empty_store))))
           wf_export_with_strays).
  vm_compute. reflexivity.
Defined.

(* ================================================================== *)
(** * The keys of a rewritten launcher *)

Lemma remove_pair_none_values (pairs : list GKeyFileKeyValuePair)
  (key : string) :
  remove_pair pairs key = None -> pair_values key pairs = [].
Proof.
  induction pairs as [|p pairs IH]; simpl; [reflexivity|].
  destruct (remove_pair pairs key); [discriminate|].
  destruct p as [c|k v]; simpl.
  - intros _. now apply IH.
  - destruct (streq k key); [discriminate|]. intros _. now apply IH.
Qed.

Lemma remove_pair_some_values (pairs pairs' : list GKeyFileKeyValuePair)
  (key : string) :
  remove_pair pairs key = Some pairs' -> pair_values key pairs <> [].
Proof.
  revert pairs'. induction pairs as [|p pairs IH]; simpl; intros pairs';
    [discriminate|].
  destruct (remove_pair pairs key) as [rest'|] eqn:E.
  - intros _ Hnil. apply app_eq_nil in Hnil as [_ Hnil].
    now apply (IH rest').
  - destruct p as [c|k v]; simpl; [discriminate|].
    destruct (streq k key); discriminate.
Qed.

(** Only the last pair of the key goes. *)
Lemma remove_pair_values_same (pairs pairs' : list GKeyFileKeyValuePair)
  (key : string) :
  remove_pair pairs key = Some pairs' ->
  pair_values key pairs' = removelast (pair_values key pairs).
Proof.
  revert pairs'. induction pairs as [|p pairs IH]; simpl; intros pairs';
    [discriminate|].
  destruct (remove_pair pairs key) as [rest'|] eqn:E.
  - intros Heq. injection Heq as <-. simpl.
    rewrite (IH rest' eq_refl).
    symmetry. apply removelast_app.
    now apply (remove_pair_some_values pairs rest').
  - apply remove_pair_none_values in E.
    destruct p as [c|k v]; simpl; [discriminate|].
    destruct (streq k key); [|discriminate].
    intros Heq. injection Heq as <-. now rewrite E.
Qed.

Lemma remove_pair_values_other (pairs pairs' : list GKeyFileKeyValuePair)
  (key other : string) :
  other <> key ->
  remove_pair pairs key = Some pairs' ->
  pair_values other pairs' = pair_values other pairs.
Proof.
  intros Hne. revert pairs'.
  induction pairs as [|p pairs IH]; simpl; intros pairs'; [discriminate|].
  destruct (remove_pair pairs key) as [rest'|] eqn:E.
  - intros Heq. injection Heq as <-. simpl. now rewrite (IH rest').
  - destruct p as [c|k v]; simpl; [discriminate|].
    destruct (streq k key) eqn:Ek; [|discriminate].
    intros Heq. injection Heq as <-.
    apply streq_true in Ek. subst k.
    assert (E' : streq key other = false).
    { apply streq_false. congruence. }
    now rewrite E'.
Qed.

Lemma replace_value_values_other (pairs pairs' : list GKeyFileKeyValuePair)
  (key value other : string) :
  other <> key ->
  replace_value pairs key value = Some pairs' ->
  pair_values other pairs' = pair_values other pairs.
Proof.
  intros Hne. revert pairs'.
  induction pairs as [|p pairs IH]; simpl; intros pairs'; [discriminate|].
  destruct (replace_value pairs key value) as [rest'|] eqn:E.
  - intros Heq. injection Heq as <-. simpl. now rewrite (IH rest').
  - destruct p as [c|k v]; simpl; [discriminate|].
    destruct (streq k key) eqn:Ek; [|discriminate].
    intros Heq. injection Heq as <-. simpl.
    apply streq_true in Ek. subst k.
    assert (E' : streq key other = false).
    { apply streq_false. congruence. }
    now rewrite E'.
Qed.

Lemma set_pair_values_other (pairs : list GKeyFileKeyValuePair)
  (key value other : string) :
  other <> key ->
  pair_values other (set_pair key value pairs) = pair_values other pairs.
Proof.
  intros Hne. unfold set_pair.
  destruct (replace_value pairs key value) as [pairs'|] eqn:E.
  - now apply (replace_value_values_other pairs pairs' key value).
  - unfold pair_values. rewrite flat_map_app. simpl.
    assert (E' : streq key other = false).
    { apply streq_false. congruence. }
    rewrite E'. now rewrite app_nil_r.
Qed.

(** The values of a key after the pairs of one group are changed. *)
Lemma values_update_group (kf : GKeyFile) (group g key : string)
  (f : list GKeyFileKeyValuePair -> list GKeyFileKeyValuePair) :
  g_key_file_values
    (mkKeyFile (start_comments kf) (update_group group f (groups kf))) g key
  = if streq g group
    then match g_key_file_lookup_group (groups kf) group with
         | Some x => pair_values key (f (key_value_pairs x))
         | None => []
         end
    else g_key_file_values kf g key.
Proof.
  unfold g_key_file_values. simpl.
  destruct (streq g group) eqn:E.
  - apply streq_true in E. subst g. rewrite lookup_group_update_same.
    now destruct (g_key_file_lookup_group (groups kf) group).
  - apply streq_false in E. now rewrite lookup_group_update_other.
Qed.

Lemma values_remove_key (kf : GKeyFile) (group removed g key : string) :
  g_key_file_values (g_key_file_remove_key kf group removed) g key
  = if streq g group && streq key removed
    then removelast (g_key_file_values kf g key)
    else g_key_file_values kf g key.
Proof.
  unfold g_key_file_remove_key. rewrite values_update_group.
  destruct (streq g group) eqn:E; [|reflexivity]. simpl.
  apply streq_true in E. subst g. unfold g_key_file_values.
  destruct (g_key_file_lookup_group (groups kf) group) as [x|];
    [|now destruct (streq key removed)].
  destruct (streq key removed) eqn:Ek.
  - apply streq_true in Ek. subst removed.
    destruct (remove_pair (key_value_pairs x) key) as [pairs'|] eqn:Er.
    + now apply remove_pair_values_same.
    + now rewrite (remove_pair_none_values _ _ Er).
  - apply streq_false in Ek.
    destruct (remove_pair (key_value_pairs x) removed) as [pairs'|] eqn:Er;
      [|reflexivity].
    now apply (remove_pair_values_other (key_value_pairs x) pairs' removed).
Qed.

Lemma values_set_other_key (kf : GKeyFile) (group key value g other : string) :
  other <> key ->
  In group (g_key_file_get_groups kf) ->
  g_key_file_values (g_key_file_set_string kf group key value) g other
  = g_key_file_values kf g other.
Proof.
  intros Hne Hin. unfold g_key_file_set_string.
  destruct (lookup_group_in_names _ _ Hin) as (x & Hx). rewrite Hx.
  rewrite values_update_group, Hx.
  destruct (streq g group) eqn:E; [|reflexivity].
  apply streq_true in E. subst g. unfold g_key_file_values. rewrite Hx.
  now apply set_pair_values_other.
Qed.

Section LauncherKeys.
Context `{Platform}.

Lemma rewrite_group_values (app branch arch : string) (kf : GKeyFile)
  (group g key : string) :
  key <> "Exec" ->
  In group (g_key_file_get_groups kf) ->
  g_key_file_values (rewrite_group app branch arch kf group) g key
  = if streq g group
       && (streq key "TryExec"
           || streq key "X-GNOME-Bugzilla-ExtraInfoScript")
    then removelast (g_key_file_values kf g key)
    else g_key_file_values kf g key.
Proof.
  intros He Hin. unfold rewrite_group.
  rewrite values_set_other_key; [|exact He|now rewrite !get_groups_remove_key].
  rewrite !values_remove_key.
  destruct (streq g group); [|reflexivity]. simpl.
  destruct (streq key "TryExec") eqn:Et.
  - apply streq_true in Et. subst key. reflexivity.
  - simpl. reflexivity.
Qed.

Lemma rewrite_groups_values (app branch arch : string) (gs : list string)
  (kf : GKeyFile) (g key : string) :
  key <> "Exec" ->
  NoDup gs ->
  incl gs (g_key_file_get_groups kf) ->
  g_key_file_values (fold_left (rewrite_group app branch arch) gs kf) g key
  = if existsb (streq g) gs
       && (streq key "TryExec"
           || streq key "X-GNOME-Bugzilla-ExtraInfoScript")
    then removelast (g_key_file_values kf g key)
    else g_key_file_values kf g key.
Proof.
  intros He. revert kf.
  induction gs as [|x gs IH]; intros kf Hnd Hincl; simpl; [reflexivity|].
  inversion Hnd as [|? ? Hx Hnd']; subst.
  assert (Hin : In x (g_key_file_get_groups kf)) by (apply Hincl; now left).
  rewrite IH; [|assumption|].
  2: { rewrite rewrite_group_groups by assumption.
       intros y Hy. apply Hincl. now right. }
  rewrite rewrite_group_values by assumption.
  destruct (streq g x) eqn:E.
  - apply streq_true in E. subst x.
    assert (Hno : existsb (streq g) gs = false).
    { destruct (existsb (streq g) gs) eqn:Ee; [|reflexivity].
      apply existsb_exists in Ee as (y & Hy & Eq).
      apply streq_true in Eq. subst y. contradiction. }
    rewrite Hno. reflexivity.
  - simpl. reflexivity.
Qed.

(** X19.  [export_desktop_file] takes out of every group the pair that the
    lookup finds for [TryExec] and for [X-GNOME-Bugzilla-ExtraInfoScript],
    which is the last one of the key: of the lines of such a key in a group
    all but the last are written again, so that none is left only where the
    key came at most once.  The lines of every key other than these two and
    [Exec] are written as they were read, and so are the group headers. *)
Theorem export_desktop_file_keys (app branch arch name new_name : string)
  (cur cur' : directory) (w w' : XdgAppDir) :
  export_desktop_file app branch arch name (cur, w)
  = (Ok new_name, (cur', w')) ->
  exists data keyfile keyfile',
    dir_lookup name cur = Some (RegularFile data)
    /\ g_key_file_load_from_data locale_is_interesting data
         G_KEY_FILE_KEEP_TRANSLATIONS = Ok keyfile
    /\ dir_lookup new_name cur'
       = Some (RegularFile (g_key_file_to_data keyfile'))
    /\ g_key_file_get_groups keyfile' = g_key_file_get_groups keyfile
    /\ (forall group key,
          key = "TryExec" \/ key = "X-GNOME-Bugzilla-ExtraInfoScript" ->
          g_key_file_values keyfile' group key
          = removelast (g_key_file_values keyfile group key))
    /\ (forall group key,
          key <> "Exec" -> key <> "TryExec" ->
          key <> "X-GNOME-Bugzilla-ExtraInfoScript" ->
          g_key_file_values keyfile' group key
          = g_key_file_values keyfile group key).
Proof.
  intros Hrun.
  apply export_desktop_file_ok in Hrun
    as (data & keyfile & Hl & Hload & _ & _ & ->).
  pose proof (load_groups_nodup _ _ _ _ Hload) as Hnd.
  exists data, keyfile. eexists. split; [assumption|]. split; [assumption|].
  split; [apply dir_lookup_set_same|]. split.
  { apply rewrite_groups_groups, incl_refl. }
  split.
  - intros group key Hkey.
    rewrite rewrite_groups_values;
      [|destruct Hkey as [-> | ->]; discriminate|assumption|apply incl_refl].
    assert (Hk : streq key "TryExec"
                 || streq key "X-GNOME-Bugzilla-ExtraInfoScript" = true).
    { destruct Hkey as [-> | ->]; reflexivity. }
    rewrite Hk, andb_true_r.
    destruct (existsb (streq group) (g_key_file_get_groups keyfile)) eqn:Ee;
      [reflexivity|].
    assert (Hnone : g_key_file_lookup_group (groups keyfile) group = None).
    { destruct (g_key_file_lookup_group (groups keyfile) group) as [x|] eqn:Ex;
        [|reflexivity].
      assert (Hin : In group (g_key_file_get_groups keyfile)).
      { clear -Ex. unfold g_key_file_get_groups.
        induction (groups keyfile) as [|y gs IH]; simpl in *; [discriminate|].
        destruct (streq (group_name y) group) eqn:E.
        - left. now apply streq_true.
        - right. now apply IH. }
      assert (Ht : existsb (streq group) (g_key_file_get_groups keyfile)
                   = true).
      { apply existsb_exists. exists group. split; [assumption|].
        apply streq_refl. }
      congruence. }
    unfold g_key_file_values. now rewrite Hnone.
  - intros group key He Ht Hx.
    rewrite rewrite_groups_values; [|assumption|assumption|apply incl_refl].
    assert (Et : streq key "TryExec" = false) by now apply streq_false.
    assert (Ex : streq key "X-GNOME-Bugzilla-ExtraInfoScript" = false)
      by now apply streq_false.
    now rewrite Et, Ex, andb_false_r.
Qed.

End LauncherKeys.

(** Of two [TryExec] lines the first is written again. *)
Lemma export_desktop_file_keys_witness :
  exists data keyfile keyfile',
    dir_lookup "org.example.App.desktop" export_with_two_tryexec
    = Some (RegularFile data)
    /\ g_key_file_load_from_data (locale_is_interesting (Platform := example_platform))
         data G_KEY_FILE_KEEP_TRANSLATIONS = Ok keyfile
    /\ dir_lookup "tmpAAAAAAAA-tmp"
         (fst (snd (export_desktop_file (H := example_platform)
                      "org.example.App" "stable" "x86_64"
                      "org.example.App.desktop"
                      (export_with_two_tryexec, empty_store))))
       = Some (RegularFile (g_key_file_to_data keyfile'))
    /\ g_key_file_get_groups keyfile' = ["Desktop Entry"]
    /\ g_key_file_values keyfile "Desktop Entry" "TryExec"
       = ["first"; "second"]
    /\ g_key_file_values keyfile' "Desktop Entry" "TryExec" = ["first"]
    /\ g_key_file_values keyfile' "Desktop Entry" "Name" = ["Example"].
Proof.
  destruct (export_desktop_file_keys (H := example_platform)
              "org.example.App" "stable" "x86_64" "org.example.App.desktop"
              "tmpAAAAAAAA-tmp" export_with_two_tryexec
              (fst (snd (export_desktop_file (H := example_platform)
                           "org.example.App" "stable" "x86_64"
                           "org.example.App.desktop"
                           (export_with_two_tryexec, empty_store))))
              empty_store
              (snd (snd (export_desktop_file (H := example_platform)
                           "org.example.App" "stable" "x86_64"
                           "org.example.App.desktop"
                           (export_with_two_tryexec, empty_store)))))
    as (data & keyfile & keyfile' & Hdata & Hload & Hnew & Hgroups & Hgone
        & Hkept).
  { vm_compute. reflexivity. }
  exists data, keyfile, keyfile'.
  split; [exact Hdata|]. split; [exact Hload|]. split; [exact Hnew|].
  injection Hdata as <-.
  vm_compute in Hload. injection Hload as <-.
  split; [rewrite Hgroups; reflexivity|].
  split; [reflexivity|].
  split.
  - rewrite Hgone by (now left). reflexivity.
  - rewrite Hkept by discriminate. reflexivity.
Defined.

(* ================================================================== *)
(** * Collecting the deployed names *)

Lemma in_g_hash_table_add (hash : list string) (key n : string) :
  In n (g_hash_table_add hash key) <-> In n hash \/ n = key.
Proof.
  unfold g_hash_table_add.
  destruct (existsb (streq key) hash) eqn:E.
  - split; [now left|]. intros [Hin | ->]; [assumption|].
    apply existsb_exists in E as (x & Hx & Heq).
    apply streq_true in Heq. now subst x.
  - rewrite in_app_iff. simpl. intuition.
Qed.

Lemma NoDup_g_hash_table_add (hash : list string) (key : string) :
  NoDup hash -> NoDup (g_hash_table_add hash key).
Proof.
  intros Hnd. unfold g_hash_table_add.
  destruct (existsb (streq key) hash) eqn:E; [assumption|].
  apply NoDup_app; [assumption|repeat constructor; simpl; tauto|].
  intros n Hin [Hn|[]]. subst n.
  assert (Ht : existsb (streq key) hash = true).
  { apply existsb_exists. exists key. split; [assumption|apply streq_refl]. }
  congruence.
Qed.

Lemma collect_deployed_refs_loop_spec (e : string -> bool)
  (name_prefix : option string) (branch arch : string) (d : directory) :
  forall hash,
    (forall n,
        In n (collect_deployed_refs_loop e name_prefix branch arch d hash)
        <-> In n hash
            \/ exists x, In (n, x) d
                         /\ collected e name_prefix branch arch (n, x) = true)
    /\ (NoDup hash ->
        NoDup (collect_deployed_refs_loop e name_prefix branch arch d hash)).
Proof.
  induction d as [|[name x] d IH]; intros hash.
  - simpl. split; [|auto]. intros n. split; [now left|].
    intros [Hin|(y & [] & _)]. exact Hin.
  - cbn [collect_deployed_refs_loop].
    match goal with
    | |- context [collect_deployed_refs_loop _ _ _ _ d ?h] =>
        set (hash1 := h); destruct (IH hash1) as [Hin Hnd]
    end.
    assert (Hstep : forall n,
               In n hash1 <->
               In n hash
               \/ (n = name
                   /\ collected e name_prefix branch arch (name, x) = true)).
    { intros n. subst hash1. unfold collected. cbn [fst snd].
      destruct x as [| |child1|]; try (intuition discriminate).
      remember (path_exists e child1 [branch; arch; "active"]) as found.
      destruct (negb (starts_with_dot name)
                && match name_prefix with
                   | Some p => g_str_has_prefix name p
                   | None => true
                   end); cbn [andb]; [|intuition discriminate].
      destruct found.
      - rewrite in_g_hash_table_add. intuition.
      - intuition discriminate. }
    split.
    + intros n. rewrite Hin, Hstep. split.
      * intros [[Hh|(Hn & Hc)]|(y & Hy & Hc)].
        -- now left.
        -- subst n. right. exists x. split; [now left|assumption].
        -- right. exists y. split; [now right|assumption].
      * intros [Hh|(y & [Heq|Hy] & Hc)].
        -- left. now left.
        -- injection Heq as <- <-. left. right. now split.
        -- right. now exists y.
    + intros Hnd0. apply Hnd. subst hash1.
      destruct x as [| |child1|]; try assumption.
      destruct (negb (starts_with_dot name)
                && match name_prefix with
                   | Some p => g_str_has_prefix name p
                   | None => true
                   end); [|assumption].
      destruct (path_exists e child1 [branch; arch; "active"]);
        [|assumption].
      now apply NoDup_g_hash_table_add.
Qed.

(** X20.  Collect-deployed-refs leaves the table as it is when
    <basedir>/<type> does not exist.  Otherwise it adds to the table the
    names of the child directories that do not begin with a dot, begin
    with the prefix when one is given, and below which the path
    <branch>/<arch>/active resolves, and no other name; a table without
    duplicates stays so. *)
Theorem collect_deployed_refs_exact (self : XdgAppDir) (type : string)
  (name_prefix : option string) (branch arch : string) (hash : list string) :
  (kind_dirs self type = None ->
   xdg_app_dir_collect_deployed_refs self type name_prefix branch arch hash
   = Ok hash)
  /\ (forall d,
        kind_dirs self type = Some (Directory d) ->
        exists hash',
          xdg_app_dir_collect_deployed_refs self type name_prefix branch arch
            hash = Ok hash'
          /\ (forall n,
                In n hash' <->
                In n hash
                \/ exists child1,
                    In (n, Directory child1) d
                    /\ starts_with_dot n = false
                    /\ match name_prefix with
                       | None => True
                       | Some p => g_str_has_prefix n p = true
                       end
                    /\ path_exists (elsewhere self) child1
                         [branch; arch; "active"] = true)
          /\ (NoDup hash -> NoDup hash')).
Proof.
  unfold xdg_app_dir_collect_deployed_refs. split.
  - now intros ->.
  - intros d ->. eexists. split; [reflexivity|].
    destruct (collect_deployed_refs_loop_spec (elsewhere self) name_prefix
                branch arch d hash) as [Hin Hnd].
    split; [|exact Hnd].
    intros n. rewrite Hin. split.
    + intros [Hh|(x & Hx & Hc)]; [now left|]. right.
      unfold collected in Hc. cbn [fst snd] in Hc.
      destruct x as [| |child1|]; try discriminate.
      apply andb_true_iff in Hc as [Hc Hpath].
      apply andb_true_iff in Hc as [Hdot Hprefix].
      exists child1. split; [assumption|].
      split; [now apply negb_true_iff in Hdot|].
      split; [|assumption].
      destruct name_prefix; [assumption|exact I].
    + intros [Hh|(child1 & Hx & Hdot & Hprefix & Hpath)]; [now left|].
      right. exists (Directory child1). split; [assumption|].
      unfold collected. cbn [fst snd]. rewrite Hdot, Hpath.
      destruct name_prefix; [now rewrite Hprefix|reflexivity].
Qed.

Lemma collect_deployed_refs_exact_witness :
  exists hash',
    xdg_app_dir_collect_deployed_refs store_with_deployed_app "app" None
      "x86_64" "stable" [] = Ok hash'
    /\ (forall n,
          In n hash' <->
          In n []
          \/ exists child1,
              In (n, Directory child1)
                [("org.example.App",
                  Directory [("x86_64",
                              Directory [("stable",
                                          Directory
                                            [(checksum_a, example_checkout);
                                             ("active",
                                              SymbolicLink checksum_a)])])]);
                 (".hidden", Directory [])]
              /\ starts_with_dot n = false
              /\ True
              /\ path_exists (elsewhere store_with_deployed_app) child1
                   ["x86_64"; "stable"; "active"] = true)
    /\ (NoDup (@nil string) -> NoDup hash').
Proof.
  apply (proj2 (collect_deployed_refs_exact store_with_deployed_app "app"
                  None "x86_64" "stable" [])).
  reflexivity.
Defined.

Lemma dir_lookup_in (name : string) (d : directory) (x : node) :
  dir_lookup name d = Some x -> In (name, x) d.
Proof.
  induction d as [|[n y] d IH]; simpl; [discriminate|].
  destruct (streq n name) eqn:E.
  - apply streq_true in E. subst n. intros Heq. injection Heq as <-.
    now left.
  - intros Hl. right. now apply IH.
Qed.

(** X21.  Collect-deployed-refs takes its arguments [branch] and [arch]
    in the order opposite to that of the parts of a ref: it finds the name
    of an application along the directories <name>/<branch>/<arch>, the
    chain of directories that list-refs reports as the ref
    <type>/<name>/<branch>/<arch>, in which the arch comes before the
    branch. *)
Theorem collect_deployed_refs_path_order (self : XdgAppDir)
  (type name branch arch : string) (d child1 child2 child3 : directory) :
  kind_dirs self type = Some (Directory d) ->
  In (name, Directory child1) d ->
  starts_with_dot name = false ->
  dir_lookup branch child1 = Some (Directory child2) ->
  dir_lookup arch child2 = Some (Directory child3) ->
  dir_exists MAXSYMLINKS (elsewhere self) child3 "active" = true ->
  branch <> "data" ->
  (exists hash,
      xdg_app_dir_collect_deployed_refs self type None branch arch [] = Ok hash
      /\ In name hash)
  /\ (exists refs,
        xdg_app_dir_list_refs self type = Ok refs
        /\ In (format_ref type name branch arch) refs).
Proof.
  intros Hd Hname Hdot Hbranch Harch Hactive Hdata. split.
  - unfold xdg_app_dir_collect_deployed_refs. rewrite Hd.
    eexists. split; [reflexivity|].
    apply (collect_deployed_refs_loop_spec (elsewhere self) None branch arch
             d []).
    right. exists (Directory child1). split; [assumption|].
    unfold collected. cbn [fst snd]. rewrite Hdot.
    cbn [path_exists negb andb]. now rewrite Hbranch, Harch.
  - destruct (list_refs_ok _ _ _ Hd) as (refs & Heq & Hperm & _).
    exists refs. split; [assumption|].
    apply (Permutation_in _ (Permutation_sym Hperm)).
    apply in_name_refs.
    exists name, child1, branch, child2, arch, child3.
    split; [assumption|]. split; [now apply dir_lookup_in|].
    split; [assumption|]. split; [now apply dir_lookup_in|reflexivity].
Qed.

Lemma collect_deployed_refs_path_order_witness :
  (exists hash,
      xdg_app_dir_collect_deployed_refs store_with_deployed_app "app" None
        "x86_64" "stable" [] = Ok hash
      /\ In "org.example.App" hash)
  /\ (exists refs,
        xdg_app_dir_list_refs store_with_deployed_app "app" = Ok refs
        /\ In (format_ref "app" "org.example.App" "x86_64" "stable") refs).
Proof.
  apply (collect_deployed_refs_path_order store_with_deployed_app "app"
           "org.example.App" "x86_64" "stable"
           [("org.example.App",
             Directory [("x86_64",
                         Directory [("stable",
                                     Directory
                                       [(checksum_a, example_checkout);
                                        ("active",
                                         SymbolicLink checksum_a)])])]);
            (".hidden", Directory [])]
           [("x86_64",
             Directory [("stable",
                         Directory [(checksum_a, example_checkout);
                                    ("active", SymbolicLink checksum_a)])])]
           [("stable",
             Directory [(checksum_a, example_checkout);
                        ("active", SymbolicLink checksum_a)])]
           [(checksum_a, example_checkout);
            ("active", SymbolicLink checksum_a)]).
  - reflexivity.
  - now left.
  - reflexivity.
  - reflexivity.
  - reflexivity.
  - vm_compute. reflexivity.
  - discriminate.
Defined.

(* ================================================================== *)
(** * Further properties of the metadata fetch and of the ref listing *)

Section FetchProperties.
Context `{Platform}.

Local Open Scope Z_scope.

(** X22.  For a .filez object of at least 8 bytes whose header size h,
    with the 8 bytes of its length and padding, fits 32 bits and does not
    exceed the size of the object, the end of fetch-metadata hands the
    decompressor the object without its first 4 + h + 4 bytes, that is
    size - 8 - h bytes, and returns what the decompressor returns. *)
Theorem filez_payload_skips_header (b0 b1 b2 b3 : Byte.byte)
  (rest : list Byte.byte) :
  let filez_data := b0 :: b1 :: b2 :: b3 :: rest in
  let h := GUINT32_FROM_BE b0 b1 b2 b3 in
  let size := Z.of_nat (List.length filez_data) in
  4 + h + 4 < 2 ^ 32 ->
  8 <= size ->
  4 + h + 4 <= size ->
  filez_payload filez_data
  = zlib_inflate_raw (skipn (Z.to_nat (4 + h + 4)) filez_data)
  /\ Z.of_nat (List.length (skipn (Z.to_nat (4 + h + 4)) filez_data))
     = size - 8 - h.
Proof.
  intros filez_data h size Hfit Hsize Hheader. split.
  - pose proof (filez_payload_in_range b0 b1 b2 b3 rest Hfit) as Hrange.
    cbv zeta in Hrange. fold filez_data h size in Hrange.
    rewrite Hrange.
    assert (E1 : (size <? 8) = false) by (apply Z.ltb_ge; lia).
    assert (E2 : (4 + h + 4 >? size) = false).
    { rewrite Z.gtb_ltb. apply Z.ltb_ge. lia. }
    now rewrite E1, E2.
  - assert (Hh : 0 <= h).
    { unfold h, GUINT32_FROM_BE, byte_value.
      repeat (apply Z.lor_nonneg; split);
        try apply Z.shiftl_nonneg; apply N2Z.is_nonneg. }
    rewrite length_skipn. fold size in Hheader. unfold size in *.
    lia.
Qed.

End FetchProperties.

Lemma filez_payload_skips_header_witness :
  filez_payload (H := example_platform) filez_with_small_header
  = zlib_inflate_raw (Platform := example_platform)
      (skipn (Z.to_nat (4 + GUINT32_FROM_BE Byte.x00 Byte.x00 Byte.x00 Byte.x04
                        + 4)) filez_with_small_header)
  /\ Z.of_nat (List.length
                 (skipn (Z.to_nat (4 + GUINT32_FROM_BE Byte.x00 Byte.x00
                                         Byte.x00 Byte.x04 + 4))
                    filez_with_small_header))
     = (Z.of_nat (List.length filez_with_small_header) - 8
        - GUINT32_FROM_BE Byte.x00 Byte.x00 Byte.x00 Byte.x04)%Z.
Proof.
  apply (filez_payload_skips_header (H := example_platform)
           Byte.x00 Byte.x00 Byte.x00 Byte.x04
           [Byte.x00; Byte.x00; Byte.x00; Byte.x00;
            Byte.x01; Byte.x02; Byte.x03; Byte.x04;
            Byte.x4b; Byte.x4c; Byte.x02; Byte.x00]).
  - vm_compute. reflexivity.
  - vm_compute. discriminate.
  - vm_compute. discriminate.
Defined.

(** X23.  List-refs succeeds whenever <basedir>/<kind> is a directory,
    whatever it holds: what is no directory is passed over.  The refs it
    returns are those that list-refs-for-name returns for the child
    directories of <basedir>/<kind>. *)
Theorem list_refs_collects_refs_for_name (self : XdgAppDir) (kind : string)
  (d : directory) :
  kind_dirs self kind = Some (Directory d) ->
  exists refs,
    xdg_app_dir_list_refs self kind = Ok refs
    /\ forall r,
        In r refs <->
        exists name arches sub_refs,
          In (name, Directory arches) d
          /\ xdg_app_dir_list_refs_for_name kind name
               (Some (Directory arches)) = Ok sub_refs
          /\ In r sub_refs.
Proof.
  intros Hd.
  destruct (list_refs_ok _ _ _ Hd) as (refs & Heq & Hperm & _).
  exists refs. split; [assumption|]. intros r.
  assert (Hfor : forall name arches,
             xdg_app_dir_list_refs_for_name kind name (Some (Directory arches))
             = Ok (g_ptr_array_sort (arch_refs kind name arches))).
  { intros name arches. unfold xdg_app_dir_list_refs_for_name.
    now rewrite list_refs_arches_spec. }
  split.
  - intros Hin. apply (Permutation_in _ Hperm) in Hin.
    unfold name_refs in Hin. apply in_flat_map in Hin as ([name x] & Hx & Hr).
    simpl in Hr. destruct x as [| |arches|]; try contradiction.
    exists name, arches. eexists. split; [assumption|].
    split; [apply Hfor|].
    apply (Permutation_in _ (Permutation_sym (g_ptr_array_sort_perm _))).
    assumption.
  - intros (name & arches & sub_refs & Hx & Hsub & Hr).
    rewrite Hfor in Hsub. injection Hsub as <-.
    apply (Permutation_in _ (g_ptr_array_sort_perm _)) in Hr.
    apply (Permutation_in _ (Permutation_sym Hperm)).
    unfold name_refs. apply in_flat_map.
    exists (name, Directory arches). split; assumption.
Qed.

Lemma list_refs_collects_refs_for_name_witness :
  exists refs,
    xdg_app_dir_list_refs store_with_app "app" = Ok refs
    /\ forall r,
        In r refs <->
        exists name arches sub_refs,
          In (name, Directory arches)
            [("org.gnome.Maps",
              Directory [("x86_64", Directory [("stable", Directory []);
                                               ("master", Directory [])]);
                         ("data", Directory [("cache", Directory [])]);
                         ("i386", Directory [("stable", Directory [])])]);
             ("README", RegularFile [])]
          /\ xdg_app_dir_list_refs_for_name "app" name
               (Some (Directory arches)) = Ok sub_refs
          /\ In r sub_refs.
Proof.
  apply (list_refs_collects_refs_for_name store_with_app "app").
  reflexivity.
Defined.

(* ================================================================== *)
(** * Exporting the files of a deployment *)

Section ExportDirProofs.

Variable g_build_filename : list string -> string.

Lemma unlinkat_in_ok (name : string) (d d' : directory) :
  unlinkat_in name d = Ok d' ->
  dir_lookup name d' = None
  /\ forall m, m <> name -> dir_lookup m d' = dir_lookup m d.
Proof.
  unfold unlinkat_in.
  destruct (dir_lookup name d) as [[| | |]|] eqn:E; try discriminate;
    intros Heq; injection Heq as <-;
    try (split; [apply dir_lookup_remove_same
                |intros m Hm; now apply dir_lookup_remove_other]).
  split; [assumption|reflexivity].
Qed.

Lemma symlinkat_ok (target name : string) (d d' : directory) :
  symlinkat target name d = Ok d' ->
  target <> EmptyString
  /\ dir_lookup name d = None
  /\ d' = dir_set name (SymbolicLink target) d.
Proof.
  unfold symlinkat. destruct (streq target EmptyString) eqn:E; [discriminate|].
  destruct (dir_lookup name d); [discriminate|].
  intros Heq. injection Heq as <-. apply streq_false in E. auto.
Qed.

(** The entries of other names are left alone by the loop, when they are
    by the calls for the subdirectories. *)
Lemma export_entries_frame
  (recurse : directory -> string -> string -> string -> directory -> Exported)
  (prefix relpath : string) :
  (forall sub p r n d d',
      wf_export sub ->
      recurse sub p r n d = Some (Ok tt, d') ->
      forall m, m <> n -> dir_lookup m d' = dir_lookup m d) ->
  forall dents d d',
    (forall name sub, In (name, Directory sub) dents -> wf_export sub) ->
    export_entries g_build_filename recurse prefix relpath dents d
    = Some (Ok tt, d') ->
    forall m, ~ In m (map fst dents) -> dir_lookup m d' = dir_lookup m d.
Proof.
  intros Hrec. induction dents as [|[name x] rest IH];
    intros d d' Hwf Hrun m Hm.
  { simpl in Hrun. now injection Hrun as <-. }
  assert (Hwf' : forall n sub, In (n, Directory sub) rest -> wf_export sub).
  { intros n sub Hin. apply (Hwf n). now right. }
  assert (Hne : m <> name) by (intros ->; apply Hm; now left).
  assert (Hrest : ~ In m (map fst rest)) by (intros Hin; apply Hm; now right).
  cbn [export_entries] in Hrun.
  destruct x as [data|target|sub|].
  - destruct (unlinkat_in name d) as [d1|e] eqn:Hun; [|discriminate].
    destruct (symlinkat _ name d1) as [d2|e] eqn:Hln; [|discriminate].
    apply unlinkat_in_ok in Hun as [_ Hun].
    apply symlinkat_ok in Hln as (_ & _ & ->).
    rewrite (IH _ _ Hwf' Hrun m Hrest).
    rewrite dir_lookup_set_other by exact Hne. now apply Hun.
  - now apply (IH _ _ Hwf' Hrun).
  - destruct (recurse sub _ _ name d) as [[[[]|e] d1]|] eqn:Hsub;
      try discriminate.
    rewrite (IH _ _ Hwf' Hrun m Hrest).
    apply (Hrec _ _ _ _ _ _ (Hwf name sub (or_introl eq_refl)) Hsub).
    exact Hne.
  - now apply (IH _ _ Hwf' Hrun).
Qed.

Lemma exported_entries_before_ext
  (exported_sub : node -> string -> option node -> option node -> Prop)
  (prefix : string) (source : directory) (b1 b2 after : directory) :
  (forall n, In n (map fst source) -> dir_lookup n b1 = dir_lookup n b2) ->
  exported_entries g_build_filename exported_sub prefix source b1 after ->
  exported_entries g_build_filename exported_sub prefix source b2 after.
Proof.
  induction source as [|[name x] rest IH]; intros Hext; simpl; [auto|].
  intros [Hhead Hrest]. split.
  - rewrite <- (Hext name) by now left. exact Hhead.
  - apply IH; [|assumption]. intros n Hn. apply Hext. now right.
Qed.

Lemma exported_entries_after_ext
  (exported_sub : node -> string -> option node -> option node -> Prop)
  (prefix : string) (source : directory) (before a1 a2 : directory) :
  (forall n, In n (map fst source) -> dir_lookup n a1 = dir_lookup n a2) ->
  exported_entries g_build_filename exported_sub prefix source before a1 ->
  exported_entries g_build_filename exported_sub prefix source before a2.
Proof.
  induction source as [|[name x] rest IH]; intros Hext; simpl; [auto|].
  intros [Hhead Hrest]. split.
  - rewrite <- (Hext name) by now left. exact Hhead.
  - apply IH; [|assumption]. intros n Hn. apply Hext. now right.
Qed.

(** What the loop makes of a directory, when the calls for the
    subdirectories do what [exported_node] says. *)
Lemma export_entries_exported
  (recurse : directory -> string -> string -> string -> directory -> Exported)
  (prefix relpath : string) :
  (forall sub p r n d d',
      wf_export sub ->
      recurse sub p r n d = Some (Ok tt, d') ->
      exported_node g_build_filename (Directory sub) p (dir_lookup n d) (dir_lookup n d')
      /\ forall m, m <> n -> dir_lookup m d' = dir_lookup m d) ->
  forall dents d d',
    NoDup (map fst dents) ->
    (forall name sub, In (name, Directory sub) dents -> wf_export sub) ->
    export_entries g_build_filename recurse prefix relpath dents d = Some (Ok tt, d') ->
    exported_entries g_build_filename (exported_node g_build_filename) prefix dents d d'.
Proof.
  intros Hrec. induction dents as [|[name x] rest IH];
    intros d d' Hnd Hwf Hrun; [exact I|].
  simpl map in Hnd. inversion Hnd as [|? ? Hfresh Hnd']; subst.
  assert (Hwf' : forall n sub, In (n, Directory sub) rest -> wf_export sub).
  { intros n sub Hin. apply (Hwf n). now right. }
  cbn [export_entries] in Hrun.
  cbn [exported_entries].
  (* the rest of the loop, from the directory [d1] the entry leaves *)
  assert (Hrest : forall d1,
             export_entries g_build_filename recurse prefix relpath rest d1 = Some (Ok tt, d') ->
             (forall m, m <> name -> dir_lookup m d1 = dir_lookup m d) ->
             dir_lookup name d' = dir_lookup name d1
             /\ exported_entries g_build_filename (exported_node g_build_filename) prefix rest d d').
  { intros d1 Hrun1 Hframe. split.
    - apply (export_entries_frame recurse prefix relpath) with (dents := rest);
        try assumption.
      intros sub p r n d0 d0' Hsubwf Hsub.
      now apply (Hrec sub p r n d0 d0' Hsubwf Hsub).
    - apply (exported_entries_before_ext _ _ _ d1).
      + intros n Hn. apply Hframe. intros ->. contradiction.
      + now apply IH. }
  destruct x as [data|target|sub|].
  - destruct (unlinkat_in name d) as [d1|e] eqn:Hun; [|discriminate].
    destruct (symlinkat _ name d1) as [d2|e] eqn:Hln; [|discriminate].
    apply unlinkat_in_ok in Hun as [_ Hun].
    apply symlinkat_ok in Hln as (_ & _ & ->).
    destruct (Hrest _ Hrun) as [Hhead Htail].
    + intros m Hm. rewrite dir_lookup_set_other by exact Hm. now apply Hun.
    + split; [|exact Htail]. rewrite Hhead. apply dir_lookup_set_same.
  - destruct (Hrest _ Hrun) as [Hhead Htail]; [reflexivity|].
    split; assumption.
  - destruct (recurse sub _ _ name d) as [[[[]|e] d1]|] eqn:Hsub;
      try discriminate.
    apply Hrec in Hsub as [Hnode Hframe]; [|apply (Hwf name); now left].
    destruct (Hrest _ Hrun Hframe) as [Hhead Htail].
    split; [|exact Htail]. rewrite Hhead. exact Hnode.
  - destruct (Hrest _ Hrun) as [Hhead Htail]; [reflexivity|].
    split; assumption.
Qed.

(** What [export_dir] makes of the entry it exports into, and that it
    leaves the other entries alone. *)
Lemma export_dir_exported (fds : nat) :
  forall source p r n parent parent',
    wf_export source ->
    export_dir g_build_filename fds source p r n parent
    = Some (Ok tt, parent') ->
    exported_node g_build_filename (Directory source) p
      (dir_lookup n parent) (dir_lookup n parent')
    /\ forall m, m <> n -> dir_lookup m parent' = dir_lookup m parent.
Proof.
  induction fds as [fds IH] using lt_wf_ind.
  intros source p r n parent parent' Hwf Hrun.
  destruct fds as [|[|fds]]; try discriminate.
  cbn [export_dir] in Hrun.
  inversion Hwf as [x Hnd Hsub]; subst x.
  set (made := match dir_lookup n parent with
               | Some _ => parent
               | None => dir_set n (Directory []) parent
               end) in *.
  assert (Hmade : forall m, m <> n -> dir_lookup m made = dir_lookup m parent).
  { intros m Hm. subst made. destruct (dir_lookup n parent); [reflexivity|].
    now apply dir_lookup_set_other. }
  destruct (dir_lookup n made) as [[| |destination|]|] eqn:Hdest;
    try discriminate.
  destruct (export_entries g_build_filename (export_dir g_build_filename fds)
              p r source destination) as [[res destination']|] eqn:Hloop;
    [|discriminate].
  injection Hrun as -> <-.
  assert (Hrec : forall sub p0 r0 n0 d d',
             wf_export sub ->
             export_dir g_build_filename fds sub p0 r0 n0 d = Some (Ok tt, d') ->
             exported_node g_build_filename (Directory sub) p0
               (dir_lookup n0 d) (dir_lookup n0 d')
             /\ forall m, m <> n0 -> dir_lookup m d' = dir_lookup m d).
  { intros sub p0 r0 n0 d d'. apply IH. lia. }
  split.
  - cbn [exported_node]. exists destination, destination'.
    split; [|split; [apply dir_lookup_set_same|split]].
    + subst made. destruct (dir_lookup n parent) as [x|] eqn:Hbefore.
      * left. congruence.
      * right. rewrite dir_lookup_set_same in Hdest.
        injection Hdest as <-. auto.
    + now apply (export_entries_exported (export_dir g_build_filename fds)
                   p r Hrec).
    + apply (export_entries_frame (export_dir g_build_filename fds) p r)
        with (dents := source); try assumption.
      intros sub p0 r0 n0 d d' Hsubwf Hs.
      now apply (Hrec sub p0 r0 n0 d d' Hsubwf Hs).
  - intros m Hm. rewrite dir_lookup_set_other by exact Hm. now apply Hmade.
Qed.

(** The loop succeeds again on a directory that has, under the names of
    the entries, what a run that succeeded has left there. *)
Lemma export_entries_again
  (recurse : directory -> string -> string -> string -> directory -> Exported)
  (prefix relpath : string) :
  (forall sub p r n d d',
      wf_export sub ->
      recurse sub p r n d = Some (Ok tt, d') ->
      forall m, m <> n -> dir_lookup m d' = dir_lookup m d) ->
  (forall sub p r n d d' dY,
      wf_export sub ->
      recurse sub p r n d = Some (Ok tt, d') ->
      dir_lookup n dY = dir_lookup n d' ->
      exists dY', recurse sub p r n dY = Some (Ok tt, dY')) ->
  forall dents d dfinal dX,
    NoDup (map fst dents) ->
    (forall name sub, In (name, Directory sub) dents -> wf_export sub) ->
    export_entries g_build_filename recurse prefix relpath dents d
    = Some (Ok tt, dfinal) ->
    (forall n, In n (map fst dents) -> dir_lookup n dX = dir_lookup n dfinal) ->
    exists dX',
      export_entries g_build_filename recurse prefix relpath dents dX
      = Some (Ok tt, dX').
Proof.
  intros Hframe Hagain. induction dents as [|[name x] rest IH];
    intros d dfinal dX Hnd Hwf Hrun Hsame.
  { now exists dX. }
  simpl map in Hnd. inversion Hnd as [|? ? Hfresh Hnd']; subst.
  assert (Hwf' : forall n sub, In (n, Directory sub) rest -> wf_export sub).
  { intros n sub Hin. apply (Hwf n). now right. }
  assert (Hhead : dir_lookup name dX = dir_lookup name dfinal).
  { apply Hsame. now left. }
  cbn [export_entries] in Hrun. cbn [export_entries].
  (* what the entries still to come find, after this one *)
  assert (Hnext : forall d1 dX1,
             export_entries g_build_filename recurse prefix relpath rest d1
             = Some (Ok tt, dfinal) ->
             (forall m, m <> name -> dir_lookup m dX1 = dir_lookup m dX) ->
             dir_lookup name dfinal = dir_lookup name d1
             /\ exists dX',
                 export_entries g_build_filename recurse prefix relpath rest
                   dX1 = Some (Ok tt, dX')).
  { intros d1 dX1 Hrun1 HX1. split.
    - now apply (export_entries_frame recurse prefix relpath Hframe rest).
    - apply (IH d1 dfinal); try assumption.
      intros n Hn. rewrite HX1.
      + apply Hsame. now right.
      + intros ->. contradiction. }
  destruct x as [data|target|sub|].
  - destruct (unlinkat_in name d) as [d1|e] eqn:Hun; [|discriminate].
    destruct (symlinkat _ name d1) as [d2|e] eqn:Hln; [|discriminate].
    apply symlinkat_ok in Hln as (Htarget & _ & ->).
    destruct (Hnext _ (dir_set name
                         (SymbolicLink
                            (g_build_filename [prefix; name]))
                         (dir_remove name dX)) Hrun) as [Hlink Hrest].
    { intros m Hm. rewrite dir_lookup_set_other by exact Hm.
      now apply dir_lookup_remove_other. }
    rewrite dir_lookup_set_same in Hlink. rewrite Hlink in Hhead.
    unfold unlinkat_in. rewrite Hhead. unfold symlinkat.
    apply streq_false in Htarget. rewrite Htarget.
    now rewrite dir_lookup_remove_same.
  - now apply (Hnext d dX Hrun).
  - destruct (recurse sub _ _ name d) as [[[[]|e] d1]|] eqn:Hsub;
      try discriminate.
    assert (Hsubwf : wf_export sub) by (apply (Hwf name); now left).
    destruct (Hnext d1 dX Hrun (fun m _ => eq_refl)) as [Hkept _].
    destruct (Hagain _ _ _ _ _ _ dX Hsubwf Hsub) as (dX1 & HX1).
    { now rewrite Hhead. }
    rewrite HX1.
    apply (Hnext d1 dX1 Hrun).
    now apply (Hframe _ _ _ _ _ _ Hsubwf HX1).
  - now apply (Hnext d dX Hrun).
Qed.

Lemma export_dir_frame (fds : nat) (source : directory)
  (p r n : string) (parent parent' : directory) :
  wf_export source ->
  export_dir g_build_filename fds source p r n parent = Some (Ok tt, parent') ->
  forall m, m <> n -> dir_lookup m parent' = dir_lookup m parent.
Proof.
  intros Hwf Hrun.
  now apply (export_dir_exported fds source p r n parent parent' Hwf Hrun).
Qed.

(** [export_dir] succeeds again on a directory that has, under the name
    it exports into, what a run that succeeded has left there. *)
Lemma export_dir_again (fds : nat) :
  forall source p r n parent parent' parentY,
    wf_export source ->
    export_dir g_build_filename fds source p r n parent
    = Some (Ok tt, parent') ->
    dir_lookup n parentY = dir_lookup n parent' ->
    exists parentY',
      export_dir g_build_filename fds source p r n parentY
      = Some (Ok tt, parentY').
Proof.
  induction fds as [fds IH] using lt_wf_ind.
  intros source p r n parent parent' parentY Hwf Hrun Hsame.
  destruct fds as [|[|fds]]; try discriminate.
  cbn [export_dir] in Hrun. cbn [export_dir].
  inversion Hwf as [x Hnd Hsub]; subst x.
  set (made := match dir_lookup n parent with
               | Some _ => parent
               | None => dir_set n (Directory []) parent
               end) in *.
  destruct (dir_lookup n made) as [[| |destination|]|] eqn:Hdest;
    try discriminate.
  destruct (export_entries g_build_filename (export_dir g_build_filename fds)
              p r source destination) as [[res destination']|] eqn:Hloop;
    [|discriminate].
  injection Hrun as -> <-.
  rewrite dir_lookup_set_same in Hsame. rewrite Hsame.
  rewrite Hsame.
  destruct (export_entries_again (export_dir g_build_filename fds) p r)
    with (dents := source) (d := destination) (dfinal := destination')
         (dX := destination') as (dX' & HX'); try assumption.
  - intros sub p0 r0 n0 d d' Hsubwf Hs.
    now apply (export_dir_frame fds sub p0 r0 n0 d d').
  - intros sub p0 r0 n0 d d' dY. apply IH. lia.
  - reflexivity.
  - rewrite HX'. eexists. reflexivity.
Qed.

Lemma exported_node_trans :
  forall (x : node) (p : string) (b a1 a2 : option node),
    exported_node g_build_filename x p b a1 ->
    exported_node g_build_filename x p a1 a2 ->
    exported_node g_build_filename x p b a2.
Proof.
  fix IH 1. intros x p b a1 a2 H1 H2.
  destruct x as [| |sub|]; try exact I.
  cbn [exported_node] in *.
  destruct H1 as (was1 & now1 & Hb & Ha1 & He1 & Hf1).
  destruct H2 as (was2 & now2 & Hb2 & Ha2 & He2 & Hf2).
  destruct Hb2 as [Hb2|[Hb2 _]]; [|congruence].
  rewrite Ha1 in Hb2. injection Hb2 as <-.
  exists was1, now2. split; [exact Hb|]. split; [exact Ha2|]. split.
  - clear Hf1 Hf2 Hb Ha1 Ha2.
    induction sub as [|[name x] rest IHrest]; [exact I|].
    cbn [exported_entries] in *.
    destruct He1 as [Hh1 Ht1]. destruct He2 as [Hh2 Ht2]. split.
    + pose proof (IH x) as Hx.
      destruct x as [data|target|children|].
      * exact Hh2.
      * congruence.
      * exact (Hx _ _ _ _ Hh1 Hh2).
      * congruence.
    + now apply IHrest.
  - intros name Hn. rewrite Hf2, Hf1; auto.
Qed.

End ExportDirProofs.

(** X24.  When an export of a source tree whose directories have entries
    of distinct names succeeds, the directory exported into holds, for
    every regular file of the source, a symbolic link of its name to
    <prefix>/<name>; for every directory of the source, a directory of its
    name, made if need be, that holds the export of that directory with
    the prefix ../<prefix>/<name>; what else the source holds is not
    exported, and every entry of another name is left as it was, in the
    directory exported into and beside it. *)
Theorem export_dir_links (g_build_filename : list string -> string)
  (fds : nat) (source : directory) (prefix relpath name : string)
  (parent parent' : directory) :
  wf_export source ->
  export_dir g_build_filename fds source prefix relpath name parent
  = Some (Ok tt, parent') ->
  exported_node g_build_filename (Directory source) prefix
    (dir_lookup name parent) (dir_lookup name parent')
  /\ forall m, m <> name -> dir_lookup m parent' = dir_lookup m parent.
Proof.
  exact (export_dir_exported g_build_filename fds source prefix relpath name
           parent parent').
Qed.

(** X25.  An export that has succeeded succeeds again when it is run on
    what it has left, and leaves it as the first run did: links of the
    same targets for the regular files of the source, directories for its
    directories, and the other entries as they were before the first
    run. *)
Theorem export_dir_twice (g_build_filename : list string -> string)
  (fds : nat) (source : directory) (prefix relpath name : string)
  (parent parent' : directory) :
  wf_export source ->
  export_dir g_build_filename fds source prefix relpath name parent
  = Some (Ok tt, parent') ->
  exists parent'',
    export_dir g_build_filename fds source prefix relpath name parent'
    = Some (Ok tt, parent'')
    /\ exported_node g_build_filename (Directory source) prefix
         (dir_lookup name parent) (dir_lookup name parent'')
    /\ forall m, m <> name -> dir_lookup m parent'' = dir_lookup m parent.
Proof.
  intros Hwf Hrun.
  destruct (export_dir_again g_build_filename fds source prefix relpath name
              parent parent' parent' Hwf Hrun eq_refl) as (parent'' & Hrun2).
  exists parent''. split; [exact Hrun2|].
  destruct (export_dir_exported g_build_filename fds _ _ _ _ _ _ Hwf Hrun)
    as [Hnode1 Hframe1].
  destruct (export_dir_exported g_build_filename fds _ _ _ _ _ _ Hwf Hrun2)
    as [Hnode2 Hframe2].
  split.
  - exact (exported_node_trans g_build_filename _ _ _ _ _ Hnode1 Hnode2).
  - intros m Hm. rewrite Hframe2, Hframe1; auto.
Qed.

Lemma wf_export_of_deployment : wf_export export_of_deployment.
Proof.
  repeat (constructor; simpl; try tauto;
          try (intros name sub Hin; repeat destruct Hin as [Hin|Hin];
               try discriminate; try contradiction;
               injection Hin as <- <-); try (intuition discriminate)).
Qed.

Lemma export_dir_links_witness :
  exported_node join_with_slashes (Directory export_of_deployment)
    "../app/org.example.App/current/active/export"
    (dir_lookup "exports" base_with_exports)
    (dir_lookup "exports"
       (match export_dir join_with_slashes 1024 export_of_deployment
                "../app/org.example.App/current/active/export" EmptyString
                "exports" base_with_exports with
        | Some (_, parent') => parent'
        | None => []
        end))
  /\ forall m, m <> "exports" ->
               dir_lookup m
                 (match export_dir join_with_slashes 1024 export_of_deployment
                          "../app/org.example.App/current/active/export"
                          EmptyString "exports" base_with_exports with
                  | Some (_, parent') => parent'
                  | None => []
                  end)
               = dir_lookup m base_with_exports.
Proof.
  apply (export_dir_links join_with_slashes 1024 export_of_deployment
           "../app/org.example.App/current/active/export" EmptyString
           "exports" base_with_exports _ wf_export_of_deployment).
  vm_compute. reflexivity.
Defined.

Lemma export_dir_twice_witness :
  exists parent'',
    export_dir join_with_slashes 1024 export_of_deployment
      "../app/org.example.App/current/active/export" EmptyString "exports"
      (match export_dir join_with_slashes 1024 export_of_deployment
               "../app/org.example.App/current/active/export" EmptyString
               "exports" base_with_exports with
       | Some (_, parent') => parent'
       | None => []
       end)
    = Some (Ok tt, parent'')
    /\ exported_node join_with_slashes (Directory export_of_deployment)
         "../app/org.example.App/current/active/export"
         (dir_lookup "exports" base_with_exports)
         (dir_lookup "exports" parent'')
    /\ forall m, m <> "exports" ->
                 dir_lookup m parent'' = dir_lookup m base_with_exports.
Proof.
  apply (export_dir_twice join_with_slashes 1024 export_of_deployment
           "../app/org.example.App/current/active/export" EmptyString
           "exports" base_with_exports _ wf_export_of_deployment).
  vm_compute. reflexivity.
Defined.

(* ================================================================== *)
(** * Reading an exported file *)

Lemma firstn_min_length {A} (n : nat) (l : list A) :
  firstn (Nat.min n (List.length l)) l = firstn n l.
Proof.
  destruct (Nat.le_gt_cases n (List.length l)) as [Hle|Hgt].
  - now rewrite Nat.min_l.
  - rewrite Nat.min_r by lia. rewrite !firstn_all2 by lia. reflexivity.
Qed.

Lemma firstn_then_rest {A} (rc n : nat) (l : list A) :
  rc <= n ->
  firstn rc l ++ firstn (n - rc) (skipn rc l) = firstn n l.
Proof.
  revert n l. induction rc as [|rc IH]; intros n l Hle.
  - simpl. now rewrite Nat.sub_0_r.
  - destruct n as [|n]; [lia|]. destruct l as [|x l]; simpl.
    + now rewrite firstn_nil.
    + f_equal. apply IH. lia.
Qed.

Lemma read_fd_loop_reads (calls : list read_call) :
  Forall (fun c => forall errno, c <> Failing errno) calls ->
  forall file left buf,
    read_fd_loop calls file left buf = inr (buf ++ firstn left file).
Proof.
  induction calls as [|c calls IH]; intros Hok file left buf;
    destruct left as [|left]; cbn [read_fd_loop];
    try (change (firstn 0 file) with (@nil Byte.byte); now rewrite app_nil_r).
  - now rewrite firstn_min_length.
  - inversion Hok as [|? ? Hc Hcalls]; subst.
    destruct c as [|errno|chunk].
    + now apply IH.
    + now elim (Hc errno).
    + destruct (Nat.min (S chunk) (Nat.min (S left) (List.length file)))
        as [|rc] eqn:Erc.
      * assert (Hlen : List.length file = 0) by lia.
        destruct file; [|discriminate]. now rewrite firstn_nil, app_nil_r.
      * rewrite IH by assumption. rewrite <- app_assoc. f_equal. f_equal.
        apply firstn_then_rest. lia.
Qed.

(** X26.  When no call of read fails with an errno other than EINTR,
    [read_fd] returns the first st_size bytes of the file, or the whole
    file if it is shorter, however often read is interrupted and however
    few bytes each call delivers. *)
Theorem read_fd_contents (calls : list read_call) (file : list Byte.byte)
  (st_size : nat) :
  Forall (fun c => forall errno, c <> Failing errno) calls ->
  read_fd true calls file st_size = inr (firstn st_size file).
Proof.
  intros Hok. unfold read_fd. simpl negb. cbv iota.
  now rewrite read_fd_loop_reads.
Qed.

Lemma read_fd_contents_witness :
  read_fd true [Interrupted; Delivering 0; Interrupted; Delivering 2]
    [Byte.x5b; Byte.x44; Byte.x65; Byte.x73; Byte.x6b; Byte.x74] 5
  = inr (firstn 5 [Byte.x5b; Byte.x44; Byte.x65; Byte.x73; Byte.x6b;
                   Byte.x74]).
Proof.
  apply (read_fd_contents
           [Interrupted; Delivering 0; Interrupted; Delivering 2]).
  repeat constructor; discriminate.
Defined.

(* ================================================================== *)
(** * The refs of one name *)

(** X27.  For a directory <basedir>/<kind>/<name>, list-refs-for-name
    succeeds and returns, in ascending order, exactly the refs
    <kind>/<name>/<arch>/<branch> of the directories <branch> in the
    directories <arch> other than [data]; no ref comes twice when the
    entries of each directory have distinct names without a slash. *)
Theorem list_refs_for_name_exact (kind name : string) (arches : directory) :
  exists refs,
    xdg_app_dir_list_refs_for_name kind name (Some (Directory arches))
    = Ok refs
    /\ StronglySorted str_le refs
    /\ (forall r,
          In r refs <->
          exists arch branches branch sub,
            In (arch, Directory branches) arches /\ arch <> "data"
            /\ In (branch, Directory sub) branches
            /\ r = format_ref kind name arch branch)
    /\ (is_file_name name = true -> wf_names arches ->
        Forall (fun a => wf_children (snd a)) arches -> NoDup refs).
Proof.
  eexists. split; [reflexivity|].
  rewrite list_refs_arches_spec. cbn [List.app].
  split; [apply g_ptr_array_sort_sorted|]. split.
  - intros r. rewrite <- in_arch_refs. split; intros Hin.
    + exact (Permutation_in _ (g_ptr_array_sort_perm _) Hin).
    + exact (Permutation_in _ (Permutation_sym (g_ptr_array_sort_perm _))
               Hin).
  - intros Hname Hwf Hsub.
    apply (Permutation_NoDup (Permutation_sym (g_ptr_array_sort_perm _))).
    now apply arch_refs_nodup.
Qed.

Lemma list_refs_for_name_exact_witness :
  exists refs,
    xdg_app_dir_list_refs_for_name "app" "org.gnome.Maps"
      (Some (Directory
         [("x86_64", Directory [("stable", Directory []);
                                ("master", Directory [])]);
          ("data", Directory [("cache", Directory [])]);
          ("README", RegularFile []);
          ("i386", Directory [("stable", Directory [])])]))
    = Ok refs
    /\ refs = ["app/org.gnome.Maps/i386/stable";
               "app/org.gnome.Maps/x86_64/master";
               "app/org.gnome.Maps/x86_64/stable"]
    /\ StronglySorted str_le refs
    /\ NoDup refs.
Proof.
  destruct (list_refs_for_name_exact "app" "org.gnome.Maps"
              [("x86_64", Directory [("stable", Directory []);
                                     ("master", Directory [])]);
               ("data", Directory [("cache", Directory [])]);
               ("README", RegularFile []);
               ("i386", Directory [("stable", Directory [])])])
    as (refs & Heq & Hsorted & _ & Hnodup).
  exists refs. split; [exact Heq|].
  split; [vm_compute in Heq; injection Heq as <-; reflexivity|].
  split; [exact Hsorted|].
  apply Hnodup.
  - reflexivity.
  - split; [repeat constructor; simpl; intuition discriminate
           |repeat constructor].
  - repeat constructor; simpl; intuition discriminate.
Defined.
